(* ===== verification/_CoqProject ===== *)
-Q . S2P
Prelude.v
Abi.v
KtError.v
Panic.v
Handle.v
Queue.v
Runtime.v
Slots.v
Worker.v
Streams.v
Telemetry.v
Services.v
Rpc.v
WorkerConfig.v
Options.v
Ephemeral.v
Utf8.v
Ffi.v
Threads.v
System.v
Teardown.v
Progress.v
UnitTests.v
ScheduleTests.v
Ownership.v
Shutdown.v
