(* ===== verification/Prelude.v ===== *)
(** The Kotlin bridge to Temporal Core: a model of the Rust crate [kt-bridge] and its proofs

    The crate ([src/core-bridge/rust/kt-bridge]) lets a JVM drive Temporal's Core library.  It exports
    C functions that take and return handles, bytes and small integers.  A call that takes time is a
    request: it is spawned on the runtime under an id the JVM chose and answered by a completion,
    which the JVM's threads take from the runtime's queue by polling; tasks for workers arrive on the
    same queue, pushed.  The crate's own logic is who owns what, who is answered when, and what
    happens when things end out of order; this development is about that logic.

    * The parts and their files

    - [Prelude] (this file): Rust's [Result] and panicking code ([result], [outcome]), machine
      integers as [Z] with their wrap-around written out ([wrap], [fits]), [f64] as [spec_float],
      labelled runs of a step relation ([run]), the executor that gives them ([exec]), counting in
      lists and maps, the hint databases and the tactics.
    - [Abi] ([abi.rs]): status codes, completion kinds, the [#[repr(C)]] completion record and its
      memory image, the self-description the JVM probes.
    - [KtError] ([error.rs]): errors, their codes and texts, gRPC status codes.
    - [Panic] ([panic.rs], the buffer helpers of [lib.rs]): [guard], the last error, [write_out],
      [slice].
    - [Handle] ([handle.rs]): the generation-counted handle table and its specification, the finite
      map [live].  The class [HandleStore] is what the queue needs of it.
    - [Queue] ([queue.rs]): the completion queue, its pollers and the threads inside [poll].
    - [Runtime] ([runtime.rs]): the pending table, cancellation, the tasks, [free_runtime].  It runs
      the queue through the queue's own operations.
    - [Slots] ([jvm_slots.rs]): the resource gate, the slot suppliers, permits and reservations.
    - [Worker] ([worker.rs]): the poll pumps, [start], [shutdown], [free], [finalize].
    - [WorkerConfig] ([worker.rs]): the worker's options and the config and tuner they mean.
    - [Telemetry] ([telemetry.rs], [drain_metrics] of [runtime.rs]): the buffered meter and the batch.
    - [Services], [Rpc] ([rpc.rs]): the RPC tables, against the protocol's own, and a call.
    - [Options] ([new_runtime] of [runtime.rs], [client.rs]): runtime and client configuration.
    - [Ephemeral] ([ephemeral.rs]): a test server's options and its life.
    - [Utf8]: [str::from_utf8], for the names of RPCs.
    - [Ffi] ([lib.rs], [complete] and [heartbeat] of [worker.rs]): the exports over all of the above,
      and the completions that the operations they spawn end in.
    - [Threads] ([panic.rs]'s thread-local, [lib.rs], [Drop for Pending] of [queue.rs]): any number of
      threads in the exports, with the tasks that create objects and the drops of completions.
    - [Streams]: what a worker's three poll streams tell the JVM over the worker's whole life.
    - [System] (the closures that [lib.rs] gives to [spawn_request], [free_runtime]): one runtime with
      its workers and its servers as one step relation: what the pumps push goes through the runtime's
      queue, requests drive the shutdowns, and the end of the runtime waits for both.
    - [Teardown]: whose each call is, in a [System], and the way to the end of the runtime.
    - [Progress]: in a [System], the way of any pending request to its answer.
    - [Ownership] ([Drop for Pending] of [queue.rs]; the exports and closures of [lib.rs] that make, use
      or free handles): a [System] with the handle table and the stages of [kt_runtime_free].
    - [Shutdown] ([kt_runtime_free] of [lib.rs]): the way from any state to the end of [kt_runtime_free].
    - [UnitTests], [ScheduleTests]: the crate's own unit tests as programs over the model, and that
      each passes; those that race threads or tasks are explored in every interleaving.

    * How state and operations correspond to the code

    A struct is a record with the source's field names where Rocq allows them, an enum an inductive
    type, a [HashMap] a [gmap], a [Vec] a list.  An [Arc] is an identity ([arc]) and what it points to
    is in a map by identity.  A function that only computes is a function; one that may panic (an
    index out of range, [expect], [unreachable!]) returns an [outcome], one that fails a [result].

    A component with concurrency ([Queue], [Runtime], [Slots], [Worker], [Ephemeral]) is a [World] and
    an executable step function: every stretch of code under the component's mutex, or between two
    awaits, is one step of one actor, and an action that nobody can take at the moment gives [None].
    Where the code shares without a mutex, the step is smaller: in [Slots] each access to one of the
    gate's atomics and each [notify_waiters] is a step of its own, so that an [update], the drop of a
    permit or a read of the statistics can be interrupted between any two of them.
    What the environment decides is in the action: when a deadline passes, whether an operation is
    ready, what Core returns, where memory was allocated, the order a hash map iterates in.  Theorems
    about runs hold for every interleaving of these steps from the initial state.

    In [Ffi] a [Bridge] holds the table, the objects by identity and a log, [deeds], of what a call set
    going in the other components; a body is a computation in [M], a tree of atomic actions with early
    returns and panics.  [export] runs it under [guard] with nothing in between; [Threads.pool_step_fn]
    interleaves bodies action by action, with arbitrary progress of the components in between, and
    [alone_is_export] relates the two.

    * What the theorems show

    - Answers: every admitted request gets exactly one completion, whatever completes, fails, panics,
      is cancelled or shut down ([every_request_answered_once]); admission and cancellation decide
      ([admission_decides], [cancel_answers_cancelled]); shutdown ends and answers what is left, under
      every schedule and within a bound, even if no operation ever becomes ready
      ([shutdown_terminates]).  At the boundary: a request is admitted whole or refused whole
      ([requests_admitted_whole]), a creation hands its object over exactly when it reports success
      ([creations_answered], [worker_new_hands_over]).
    - Delivery: completions come out once, in order ([completions_fifo_exactly_once]); no wakeup is lost
      ([poll_never_misses_a_signal]); payload memory holds while the JVM may read it
      ([batch_payloads_intact]); closing is permanent and blocks nobody ([close_is_sticky]); a created object that nobody takes is released
      ([creation_handles_owned_once]).
    - Handles: the table is a map ([table_refines_map], [typed_reads_are_lookups]), and a freed handle stays stale until a
      generation comes round ([removed_handle_stays_stale]).
    - Boundary: under every interleaving, no export panics and every live handle names an object
      ([exports_never_panic]), and every worker and server is given up exactly once, whatever races
      ([children_closed_once]); a panic would be contained and told ([guard_contains]); the record
      layout round-trips ([completion_roundtrip]); freeing a runtime tears its children down first
      ([runtime_free_tears_down]).
    - The whole: in a system of one runtime, its workers and its servers a call lives and dies with its
      request, and no mutex is left with one that is over ([calls_end_with_requests]); the answer to a worker's shutdown is the last that is heard of the worker
      ([shutdown_answer_is_last]), on the strength of its streams ([streams_end_once]); nothing outlives
      the runtime ([nothing_outlives_runtime]), and it can always be brought to its end, whatever is in
      flight ([runtime_can_end]); and meanwhile no request hangs: each can come to its answer with
      nothing cancelled, freed or forced, the others pending and the runtime open, and a stop that was
      not cancelled can come to its success ([no_request_hangs]).
    - Ownership: a server's handle and the server go together, through completions nobody reads,
      refused insertions and the loop of [kt_runtime_free] ([handles_name_servers]); a freed runtime
      leaves no server, no child, no handle ([nothing_is_leaked]); and [kt_runtime_free] gets to its end
      from every state, with no assumption on who holds what ([runtime_free_completes]).
    - Workers: Core's worker is finalized at most once and by its only owner
      ([finalize_once_and_alone]), an [Ok] of [shutdown] means it is over ([shutdown_ok_means_over]), and
      [shutdown] completes once the streams end ([shutdown_completes]); the grace period and the forced
      close ([grace_expiry], [force_close]); a stream's completions ([pump_stream]).
    - Slots: permits are accounted for, and what [stats] returns was counted ([permits_accounted]); the sticky queue's last slot is kept
      ([sticky_queues_never_starve]); an admission reaches its waiter ([no_admission_is_lost]).
    - Servers: the runtime outlives the child ([child_accounted]), callers hear the truth
      ([shutdown_tells_truth]), cancelling loses nothing ([cancelled_shutdown_keeps_child]), letting go
      ends the child ([closing_reaps]).
    - Data: metrics and logs are delivered once, with a count of what was dropped
      ([metrics_window_delivered], [batches_survive_retries]), and every instrument takes the readings of
      its kind and saturates rather than wraps ([readings_saturate]); what an RPC call comes to, whatever
      the client and the clock do ([call_spec]); configurations mean what the options say ([worker_config_accepts_valid],
      [connection_options_spec]).

    Three theorems record behaviour that the code does not mean to have: [Slots.ramp_expiry_race] (a
    reservation whose ramp ends between two clock reads waits without a timer),
    [Worker.free_undone_by_finalize_timeout] (a finalizer that gives up undoes a concurrent free) and
    [Worker.cancelled_finalize] (a shutdown that is cancelled while it finalizes leaves a worker that
    counts as finalized, with Core never told).

    * Bounds

    There is no fuel: recursion is structural, on the list of actions in [exec], of poll results in
    [pump_loop], of children in [close_children].  The termination theorems name how many steps are
    enough, in terms of the state they start from.  Handle words are 64 bits (8 of kind, 24 of
    generation, 32 of index); the table theorems assume [has_room], fewer than [2^32] slots or a free
    one, and [Threads] that no step makes more than [2^32] slots; [removed_handle_stays_stale] holds for [2^24 - 3] further operations, after which a generation
    may come round.  Counters wrap at their width where the code's do.

    * What is a parameter, and what is not modelled

    Core, tonic and the gRPC client, prost's encoders and decoders, JSON, URL parsing, the clock, the
    allocator and the operating system are parameters, with what the code relies on as hypotheses of
    the theorems that need it (that a log's fields print as JSON, for one).  Tokio appears as the
    steps its tasks, mutexes and notifications take.  The Kotlin code on the other side, the protobuf
    schemas and the build script are not modelled.  The concurrent components are
    composed in [System]; the exports are composed with them through [deeds] and, in [Threads], through
    [PWorld], which lets them do anything that loses no object.  In [System] a completion owns no
    handle (the store is the one of type [unit]); [Ownership] adds the table, and what the drop of a
    completion does to it, on top.  What a queue still
    holds when it goes has no step: it goes after the runtime, whose handles are stale by then.  The slots are left out of
    both, and the operations of other requests are the environment's. *)

From Stdlib Require Export Strings.Byte Floats.SpecFloat.
From stdpp Require Export prelude gmap strings list pretty.

Declare Scope bridge_scope.
Delimit Scope bridge_scope with bridge.
#[global] Open Scope bridge_scope.
#[global] Open Scope Z_scope.

#[export] Instance byte_eq_dec : EqDecision byte := Byte.byte_eq_dec.

(** ** Fallible code: Rust's [Result] *)

(** [Result<A, E>]. *)
Inductive result (E A : Type) : Type :=
| Ok (a : A)
| Err (e : E).
Arguments Ok {E A} a.
Arguments Err {E A} e.

#[export] Instance result_ret {E} : MRet (result E) := fun A a => Ok a.
#[export] Instance result_bind {E} : MBind (result E) :=
  fun A B f r => match r with Ok a => f a | Err e => Err e end.
#[export] Instance result_fmap {E} : FMap (result E) :=
  fun A B f r => match r with Ok a => Ok (f a) | Err e => Err e end.

#[export] Instance result_eq_dec `{EqDecision E, EqDecision A} :
  EqDecision (result E A).
Proof. solve_decision. Defined.

(** [Result::map_err]. *)
Definition map_err {E F A} (f : E -> F) (r : result E A) : result F A :=
  match r with Ok a => Ok a | Err e => Err (f e) end.

(** [Option::ok_or]. *)
Definition ok_or {E A} (o : option A) (e : E) : result E A :=
  match o with Some a => Ok a | None => Err e end.

(** [Result::is_ok] and [Result::is_err]. *)
Definition is_ok {E A} (r : result E A) : bool :=
  match r with Ok _ => true | Err _ => false end.
Definition is_err {E A} (r : result E A) : bool := negb (is_ok r).

(** [Option<Result<A, E>>::transpose]. *)
Definition transpose {E A} (o : option (result E A)) : result E (option A) :=
  match o with
  | None => Ok None
  | Some (Ok a) => Ok (Some a)
  | Some (Err e) => Err e
  end.

(** [bool::then] with an already evaluated value. *)
Definition then_some {A} (b : bool) (a : A) : option A := if b then Some a else None.

Lemma result_bind_ok {E A B} (r : result E A) (f : A -> result E B) b :
  (r ≫= f) = Ok b <-> exists a, r = Ok a /\ f a = Ok b.
Proof. destruct r; unfold mbind; simpl; naive_solver. Qed.

Lemma result_bind_err {E A B} (r : result E A) (f : A -> result E B) e :
  (r ≫= f) = Err e <-> r = Err e \/ exists a, r = Ok a /\ f a = Err e.
Proof. destruct r; unfold mbind; simpl; naive_solver. Qed.

Lemma map_err_ok {E F A} (f : E -> F) (r : result E A) a :
  map_err f r = Ok a <-> r = Ok a.
Proof. destruct r; simpl; naive_solver. Qed.

Lemma ok_or_ok {E A} (o : option A) (e : E) a : ok_or o e = Ok a <-> o = Some a.
Proof. destruct o; simpl; naive_solver. Qed.

Lemma ok_or_err {E A} (o : option A) (e e' : E) :
  ok_or o e = Err e' <-> o = None /\ e = e'.
Proof. destruct o; simpl; naive_solver. Qed.

(** ** Code that can panic

    A Rust panic (an index out of range, [expect] on [None]) unwinds: the computation has no
    value, and carries a payload of any type, of which the code recognises the two kinds of
    string. *)
Inductive panic_payload :=
| PayloadStr (s : string)
| PayloadString (s : string)
| PayloadOther.

Inductive outcome (A : Type) : Type :=
| Done (a : A)
| Panicked (payload : panic_payload).
Arguments Done {A} a.
Arguments Panicked {A} payload.

#[export] Instance outcome_ret : MRet outcome := fun A a => Done a.
#[export] Instance outcome_bind : MBind outcome :=
  fun A B f r => match r with Done a => f a | Panicked p => Panicked p end.
#[export] Instance outcome_fmap : FMap outcome :=
  fun A B f r => match r with Done a => Done (f a) | Panicked p => Panicked p end.

(** [Option::expect] and slice indexing. *)
Definition expect {A} (o : option A) (message : string) : outcome A :=
  match o with Some a => Done a | None => Panicked (PayloadString message) end.

Definition index_panic : string := "index out of bounds".

(** [v[i]] as a value: panics out of range. *)
Definition index {A} (v : list A) (i : nat) : outcome A := expect (v !! i) index_panic.

Lemma outcome_bind_done {A B} (r : outcome A) (f : A -> outcome B) b :
  (r ≫= f) = Done b <-> exists a, r = Done a /\ f a = Done b.
Proof. destruct r; unfold mbind; simpl; naive_solver. Qed.

Lemma expect_done {A} (o : option A) m a : expect o m = Done a <-> o = Some a.
Proof. destruct o; simpl; naive_solver. Qed.

Lemma index_done {A} (v : list A) i a : index v i = Done a <-> v !! i = Some a.
Proof. apply expect_done. Qed.

(** ** Machine integers

    A [w]-bit unsigned integer is a [Z] in [0, 2^w); [wrap w] is the truncation the [as]
    casts and the wrapping operations perform. *)
Definition wrap (w x : Z) : Z := x mod 2 ^ w.
Abbreviation u8 := (wrap 8).
Abbreviation u32 := (wrap 32).
Abbreviation u64 := (wrap 64).

(** [x] fits in [w] unsigned bits. *)
Definition fits (w x : Z) : Prop := 0 <= x < 2 ^ w.

#[export] Instance fits_dec w x : Decision (fits w x).
Proof. unfold fits. apply _. Defined.

Definition I64_MAX : Z := 2 ^ 63 - 1.

Lemma wrap_fits w x : 0 <= w -> fits w (wrap w x).
Proof. intros. apply Z.mod_pos_bound. lia. Qed.

Lemma wrap_small w x : fits w x -> wrap w x = x.
Proof. apply Z.mod_small. Qed.

Lemma land_ones_small w x : 0 <= w -> fits w x -> Z.land x (Z.ones w) = x.
Proof. intros. rewrite Z.land_ones by done. by apply Z.mod_small. Qed.

(** Or-ing a field into the cleared low bits of a shifted word is addition. *)
Lemma lor_shiftl_add x y w :
  0 <= w -> fits w y -> Z.lor (Z.shiftl x w) y = x * 2 ^ w + y.
Proof.
  intros Hw Hy. rewrite <- Z.shiftl_mul_pow2 by done.
  assert (Z.land (Z.shiftl x w) y = 0) as Hd.
  { apply Z.bits_inj'. intros i Hi. rewrite Z.land_spec, Z.bits_0, Z.shiftl_spec by done.
    destruct (decide (i < w)).
    - by rewrite Z.testbit_neg_r by lia.
    - rewrite <- (Z.mod_small y (2 ^ w)) by done.
      rewrite Z.mod_pow2_bits_high by lia. apply andb_false_r. }
  rewrite Z.add_nocarry_lxor by done. symmetry. by apply Z.lxor_lor.
Qed.

(** The high and the low field of such a word are read back by a shift and a truncation. *)
Lemma field_high x y w : 0 <= w -> fits w y -> Z.shiftr (x * 2 ^ w + y) w = x.
Proof.
  intros Hw Hy. rewrite Z.shiftr_div_pow2 by done.
  rewrite Z.div_add_l by lia. rewrite Z.div_small by done. lia.
Qed.

Lemma field_low x y w : 0 <= w -> fits w y -> wrap w (x * 2 ^ w + y) = y.
Proof.
  intros Hw Hy. unfold wrap. rewrite Z.add_comm, Z.mod_add by lia. by apply Z.mod_small.
Qed.

(** ** Floating point

    An [f64] is its mathematical value; the payload of a NaN is not kept. *)
Definition f64 : Type := spec_float.

#[export] Instance f64_eq_dec : EqDecision f64.
Proof. unfold f64. solve_decision. Defined.

Definition f64_is_finite (x : f64) : bool :=
  match x with S754_infinity _ | S754_nan => false | _ => true end.

(** [<] and [<=] on [f64]: false when either side is not a number. *)
Definition f64_lt (x y : f64) : bool := SFltb x y.
Definition f64_le (x y : f64) : bool := SFleb x y.

Definition f64_zero : f64 := S754_zero false.
Definition f64_one : f64 := S754_finite false (2 ^ 52) (-52).

(** ** Labelled transition systems

    [run step s ls s']: the steps labelled [ls], in order, lead from [s] to [s'].  The last step
    is the outermost constructor, so an induction on a run sees every earlier prefix. *)
Section lts.
Context {S L : Type} (step : S -> L -> S -> Prop).

Inductive run : S -> list L -> S -> Prop :=
| run_nil s : run s [] s
| run_snoc s ls s' l s'' : run s ls s' -> step s' l s'' -> run s (ls ++ [l]) s''.

(** Rule induction for a property of the current state and of the labels so far. *)
Lemma run_invariant (P : list L -> S -> Prop) s :
  P [] s ->
  (forall ls s' l s'', run s ls s' -> P ls s' -> step s' l s'' -> P (ls ++ [l]) s'') ->
  forall ls s', run s ls s' -> P ls s'.
Proof. intros H0 HS ls s' Hr. induction Hr; eauto. Qed.

Lemma run_app s ls s' ms s'' : run s ls s' -> run s' ms s'' -> run s (ls ++ ms) s''.
Proof.
  intros H1 H2. induction H2; [by rewrite app_nil_r|].
  rewrite app_assoc. econstructor; eauto.
Qed.

Lemma run_one s l s' : step s l s' -> run s [l] s'.
Proof. intros. apply (run_snoc s [] s l s'); [constructor|done]. Qed.

Lemma run_snoc_inv s ls l s' : run s (ls ++ [l]) s' -> exists s1, run s ls s1 /\ step s1 l s'.
Proof.
  intros Hr. remember (ls ++ [l]) as k eqn:Hk. destruct Hr as [s|s ks s1 m s' Hr Hs]; [by destruct ls|].
  apply app_inj_tail in Hk as [-> ->]. eauto.
Qed.

Lemma run_split s ks ls s' : run s (ks ++ ls) s' -> exists s1, run s ks s1 /\ run s1 ls s'.
Proof.
  revert s'. induction ls as [|l ls IH] using rev_ind; intros s' Hr.
  - rewrite app_nil_r in Hr. exists s'. split; [done|constructor].
  - rewrite app_assoc in Hr. apply run_snoc_inv in Hr as (s2 & Hr & Hs).
    destruct (IH s2 Hr) as (s1 & H1 & H2). exists s1. split; [done|by econstructor].
Qed.

Lemma run_nil_inv s s' : run s [] s' -> s' = s.
Proof. intros Hr. remember [] as k eqn:Hk. destruct Hr as [|? ls]; [done|by destruct ls]. Qed.

(** When a label says where its step leads, so do the labels of a run. *)
Lemma run_functional s ls s1 s2 :
  (forall s l s1 s2, step s l s1 -> step s l s2 -> s1 = s2) -> run s ls s1 -> run s ls s2 -> s1 = s2.
Proof.
  intros Hf Hr. revert s2. induction Hr as [s|s ls s' l s1 _ IH Hs]; intros s2 Hr2.
  - by apply run_nil_inv in Hr2.
  - apply run_snoc_inv in Hr2 as (s3 & Hr3 & Hs3). rewrite (IH s3 Hr3) in Hs. by eapply Hf.
Qed.
End lts.
Arguments run {S L} step _ _ _.

(** *** Executing a schedule

    [f] executes one action of a state, [ok] is what the caller of an action promises. *)
Section exec.
Context {S A E : Type} (f : S -> A -> option (S * list E)) (ok : S -> A -> Prop).

(** Runs the actions in order, recording what each did; [None] if one is not enabled. *)
Fixpoint exec (s : S) (acts : list A) : option (S * list (A * list E)) :=
  match acts with
  | [] => Some (s, [])
  | a :: rest =>
      '(s1, evs) ← f s a;
      '(s2, ls) ← exec s1 rest;
      Some (s2, (a, evs) :: ls)
  end.

Fixpoint exec_ok (s : S) (acts : list A) : Prop :=
  match acts with
  | [] => True
  | a :: rest => ok s a /\ match f s a with Some (s1, _) => exec_ok s1 rest | None => True end
  end.

Lemma exec_run s acts s' ls :
  exec_ok s acts -> exec s acts = Some (s', ls) ->
  run (fun s l s' => ok s l.1 /\ f s l.1 = Some (s', l.2)) s ls s'.
Proof.
  revert s ls. induction acts as [|a acts IH]; intros s ls Hok He.
  - simplify_eq/=. constructor.
  - cbn [exec exec_ok] in *. destruct (f s a) as [[s1 evs]|] eqn:E1; [|done].
    cbn [mbind option_bind] in He. destruct (exec s1 acts) as [[s2 ls2]|] eqn:E2; [|done].
    destruct Hok as [Ha Hok]. simplify_eq/=.
    apply (run_app _ s [(a, evs)] s1 ls2 s'); [by apply run_one|]. by apply IH.
Qed.

Lemma exec_ok_take s acts n : exec_ok s acts -> exec_ok s (take n acts).
Proof.
  revert s n. induction acts as [|a acts IH]; intros s [|n] Hok; try done.
  destruct Hok as [Ha Hok]. split; [done|]. destruct (f s a) as [[s1 evs]|]; [by apply IH|done].
Qed.

Lemma exec_runs s acts s' ls :
  exec s acts = Some (s', ls) -> run (fun s l s' => f s l.1 = Some (s', l.2)) s ls s'.
Proof.
  revert s ls. induction acts as [|a acts IH]; intros s ls He.
  - simplify_eq/=. constructor.
  - cbn [exec] in *. destruct (f s a) as [[s1 evs]|] eqn:E1; [|done].
    cbn [mbind option_bind] in He. destruct (exec s1 acts) as [[s2 ls2]|] eqn:E2; [|done].
    simplify_eq/=. apply (run_app _ s [(a, evs)] s1 ls2 s'); [by apply run_one|]. by apply IH.
Qed.
End exec.

Lemma exec_cons {S A E} (f : S -> A -> option (S * list E)) s a s1 evs acts s2 ls :
  f s a = Some (s1, evs) -> exec f s1 acts = Some (s2, ls) ->
  exec f s (a :: acts) = Some (s2, (a, evs) :: ls).
Proof. intros H1 H2. cbn [exec]. rewrite H1. cbn [mbind option_bind]. by rewrite H2. Qed.

Lemma exec_app {S A E} (f : S -> A -> option (S * list E)) s s1 ls1 s2 ls2 acts1 acts2 :
  exec f s acts1 = Some (s1, ls1) -> exec f s1 acts2 = Some (s2, ls2) ->
  exec f s (acts1 ++ acts2) = Some (s2, ls1 ++ ls2).
Proof.
  revert s ls1. induction acts1 as [|a acts1 IH]; intros s ls1 H1 H2; [by simplify_eq/=|].
  cbn [exec app] in *. destruct (f s a) as [[s' evs]|]; [|done]. cbn [mbind option_bind] in *.
  destruct (exec f s' acts1) as [[s'' ls]|] eqn:E1; [|done]. simplify_eq/=.
  by rewrite (IH s' ls E1 H2).
Qed.

(** ** Sums of a weight over a list *)
Definition sum_of {A} (f : A -> nat) (l : list A) : nat := sum_list_with f l.

(** How many elements of [l] satisfy [P]. *)
Definition count {A} (P : A -> Prop) `{forall x, Decision (P x)} (l : list A) : nat :=
  length (filter P l).

Lemma count_app {A} (P : A -> Prop) `{forall x, Decision (P x)} l k :
  count P (l ++ k) = (count P l + count P k)%nat.
Proof. unfold count. by rewrite filter_app, length_app. Qed.

Lemma count_cons {A} (P : A -> Prop) `{forall x, Decision (P x)} x l :
  count P (x :: l) = ((if decide (P x) then 1 else 0) + count P l)%nat.
Proof. unfold count. rewrite filter_cons. by destruct (decide (P x)). Qed.

Lemma count_nil {A} (P : A -> Prop) `{forall x, Decision (P x)} : count P [] = 0%nat.
Proof. done. Qed.

Lemma count_zero {A} (P : A -> Prop) `{forall x, Decision (P x)} l : (forall x, x ∈ l -> ~ P x) -> count P l = 0%nat.
Proof.
  intros Hl. induction l as [|x l IH]; [done|]. rewrite count_cons, decide_False by (apply Hl; by left).
  apply IH. intros y Hy. apply Hl. by right.
Qed.

(** How many values of a map satisfy [P]. *)
Definition mcount {K A} `{Countable K} (P : A -> Prop) `{forall x, Decision (P x)}
    (m : gmap K A) : nat := count P (map_to_list m).*2.

Section mcount.
Context {K A : Type} `{Countable K} (P : A -> Prop) `{forall x, Decision (P x)}.

Lemma count_perm l k : l ≡ₚ k -> count P l = count P k.
Proof. intros Hp. unfold count. by rewrite Hp. Qed.

Lemma mcount_empty : mcount P (∅ : gmap K A) = 0%nat.
Proof. unfold mcount. by rewrite map_to_list_empty. Qed.

Lemma mcount_insert (m : gmap K A) k x :
  m !! k = None -> mcount P (<[k := x]> m) = ((if decide (P x) then 1 else 0) + mcount P m)%nat.
Proof.
  intros Hk. unfold mcount. rewrite (count_perm _ (x :: (map_to_list m).*2)).
  - by rewrite count_cons.
  - by rewrite map_to_list_insert.
Qed.

Lemma mcount_delete (m : gmap K A) k x :
  m !! k = Some x -> mcount P m = ((if decide (P x) then 1 else 0) + mcount P (delete k m))%nat.
Proof.
  intros Hk. rewrite <- (mcount_insert (delete k m) k x) by apply lookup_delete_eq.
  by rewrite insert_delete_id.
Qed.

(** Replacing a value. *)
Lemma mcount_update (m : gmap K A) k x y :
  m !! k = Some x ->
  ((if decide (P x) then 1 else 0) + mcount P (<[k := y]> m) =
   (if decide (P y) then 1 else 0) + mcount P m)%nat.
Proof.
  intros Hk. rewrite (mcount_delete m k x Hk), (mcount_delete (<[k := y]> m) k y).
  - rewrite delete_insert_eq. lia.
  - apply lookup_insert_eq.
Qed.

Lemma mcount_zero (m : gmap K A) :
  (forall k x, m !! k = Some x -> ~ P x) -> mcount P m = 0%nat.
Proof.
  induction m as [|k x m Hk IH] using map_ind; intros Hm; [apply mcount_empty|].
  rewrite mcount_insert by done. rewrite decide_False by (apply (Hm k), lookup_insert_eq).
  apply IH. intros j y Hj. apply (Hm j). rewrite lookup_insert_ne; [done|]. congruence.
Qed.

Lemma mcount_filter (Q : K * A -> Prop) `{forall x, Decision (Q x)} (m : gmap K A) :
  mcount P (filter Q m) = count P (filter Q (map_to_list m)).*2.
Proof.
  unfold mcount. apply count_perm. rewrite map_filter_alt, map_to_list_to_map; [done|].
  apply NoDup_fmap_fst; [|apply NoDup_filter, NoDup_map_to_list].
  intros k x y [_ Hx%elem_of_map_to_list]%list_elem_of_filter [_ Hy%elem_of_map_to_list]%list_elem_of_filter.
  congruence.
Qed.

Lemma mcount_pos (m : gmap K A) k x : m !! k = Some x -> P x -> (0 < mcount P m)%nat.
Proof. intros Hk Hx. rewrite (mcount_delete m k x Hk), decide_True by done. lia. Qed.
End mcount.

(** ** Lists *)

Lemma omap_of_fmap {A B C} (g : B -> option C) (f : A -> B) (l : list A) :
  omap g (f <$> l) = omap (fun x => g (f x)) l.
Proof. induction l as [|x l IH]; csimpl; [done|]. rewrite IH. done. Qed.

Lemma omap_ext_elem {A B} (f g : A -> option B) (l : list A) :
  (forall x, x ∈ l -> f x = g x) -> omap f l = omap g l.
Proof. intros Hfg. apply list_omap_ext, Forall_Forall2_diag, Forall_forall. done. Qed.

Lemma NoDup_omap_inj {A B} (f : A -> option B) (l : list A) :
  (forall x y z, x ∈ l -> y ∈ l -> f x = Some z -> f y = Some z -> x = y) ->
  NoDup l -> NoDup (omap f l).
Proof.
  intros Hf. induction 1 as [|x l Hx Hl IH]; csimpl; [constructor|].
  destruct (f x) as [z|] eqn:E; [constructor|]; [|apply IH; set_solver..].
  intros (y & Hy & Hz)%list_elem_of_omap. apply Hx.
  rewrite (Hf x y z); [done|by left|by right|done..].
Qed.

(** The positions of a list paired with its elements. *)
Lemma imap_pair_fst {A} (l : list A) : (imap pair l).*1 = seq 0 (length l).
Proof. rewrite fmap_imap. transitivity (imap (fun n (_ : A) => n) l); [done|].
  rewrite (imap_seq_0 l (fun n => n)). by rewrite list_fmap_id. Qed.

Lemma NoDup_imap_pair {A} (l : list A) : NoDup (imap pair l).
Proof. apply (NoDup_fmap_1 fst). rewrite imap_pair_fst. apply NoDup_seq. Qed.

Lemma elem_of_imap_pair {A} (l : list A) i x : (i, x) ∈ imap pair l <-> l !! i = Some x.
Proof. rewrite elem_of_lookup_imap. naive_solver. Qed.

(** ** Automation *)
Create HintDb bridge discriminated.
#[export] Hint Resolve wrap_small : bridge.
#[export] Hint Extern 1 (fits _ _) => (unfold fits; simpl; lia) : bridge.

Create Rewrite HintDb counts.
#[export] Hint Rewrite @count_app @count_cons @count_nil @length_app : counts.

(** Splits a successful or failed monadic computation in a hypothesis into its stages. *)
Ltac stages H :=
  repeat match type of H with
  | (_ ≫= _) = Ok _ =>
      let a := fresh "a" in let Ha := fresh "Ha" in
      apply result_bind_ok in H as (a & Ha & H); simpl in H
  | (_ ≫= _) = Done _ =>
      let a := fresh "a" in let Ha := fresh "Ha" in
      apply outcome_bind_done in H as (a & Ha & H); simpl in H
  end.

(** Case analysis on every [match] and [if] of the goal or of a hypothesis. *)
Ltac cases := repeat case_match; simplify_eq/=; try done.
