(* ===== verification/Abi.v ===== *)
(** The ABI surface of [abi.rs]: status codes, completion kinds, the one struct that crosses the
    boundary, and the self-description the JVM checks before anything else.

    The struct is [#[repr(C)]], so its layout is the C layout rule of the language reference: each
    field at the next multiple of its alignment, the size rounded up to the largest alignment.
    [layout] computes it, and [completion_bytes] writes a record's fields at those offsets. *)

From S2P Require Import Prelude.

(** ** Constants *)

Definition KT_ABI_VERSION : Z := 3.
Definition KT_ABI_MAGIC : Z := 0x4B544231.

Definition KT_OK : Z := 0.
Definition KT_ERR_PANIC : Z := -1.
Definition KT_ERR_INVALID_ARGUMENT : Z := -2.
Definition KT_ERR_STALE_HANDLE : Z := -3.
Definition KT_ERR_WRONG_HANDLE_KIND : Z := -4.
Definition KT_ERR_SHUTDOWN : Z := -5.
Definition KT_ERR_WORKER_SHUT_DOWN : Z := -6.
Definition KT_ERR_CANCELLED : Z := -7.
Definition KT_ERR_FAILED : Z := -8.
Definition KT_ERR_BUFFER_TOO_SMALL : Z := -9.

(** ** Completion kinds *)

Inductive KtKind :=
| Ack
| ClientConnected
| Rpc
| TaskWorkflowActivation
| TaskActivity
| TaskNexus
| TaskStreamEnd
| WorkerFailed
| EphemeralStarted
| ServerLog
| Log.

#[export] Instance KtKind_eq_dec : EqDecision KtKind.
Proof. solve_decision. Defined.

(** [kind as u32]: the explicit discriminants. *)
Definition kind_discriminant (k : KtKind) : Z :=
  match k with
  | Ack => 0
  | ClientConnected => 1
  | Rpc => 2
  | TaskWorkflowActivation => 3
  | TaskActivity => 4
  | TaskNexus => 5
  | TaskStreamEnd => 6
  | WorkerFailed => 7
  | EphemeralStarted => 8
  | ServerLog => 9
  | Log => 10
  end.

Definition KtKind_COUNT : Z := 11.

Definition all_kinds : list KtKind :=
  [Ack; ClientConnected; Rpc; TaskWorkflowActivation; TaskActivity; TaskNexus; TaskStreamEnd;
   WorkerFailed; EphemeralStarted; ServerLog; Log].

(** ** The completion record *)

Record KtCompletion := {
  kc_req_id : Z;
  kc_kind : Z;
  kc_status : Z;
  kc_payload : Z;
  kc_payload_len : Z;
  kc_aux0 : Z;
  kc_aux1 : Z;
}.

#[export] Instance KtCompletion_eq_dec : EqDecision KtCompletion.
Proof. solve_decision. Defined.

(** The scalar types the record uses, with their size and alignment in bytes. *)
Inductive scalar := U32 | I32 | U64.

Definition scalar_size (t : scalar) : Z := match t with U32 | I32 => 4 | U64 => 8 end.
Definition scalar_align (t : scalar) : Z := scalar_size t.

Definition completion_fields : list scalar := [U64; U32; I32; U64; U64; U64; U64].

Definition round_up (x a : Z) : Z := (x + a - 1) / a * a.

(** The [repr(C)] layout: each field's offset, the end of the last field and the alignment. *)
Fixpoint layout (fields : list scalar) (offset align : Z) : list Z * Z * Z :=
  match fields with
  | [] => ([], offset, align)
  | t :: rest =>
      let here := round_up offset (scalar_align t) in
      let '(offsets, stop, a) :=
        layout rest (here + scalar_size t) (Z.max align (scalar_align t)) in
      (here :: offsets, stop, a)
  end.

Definition offsets_of (fields : list scalar) : list Z := (layout fields 0 1).1.1.
Definition align_of (fields : list scalar) : Z := (layout fields 0 1).2.
Definition size_of (fields : list scalar) : Z :=
  round_up (layout fields 0 1).1.2 (align_of fields).

(** [usize::BITS] on the 64-bit targets the crate is built for. *)
Definition USIZE_BITS : Z := 64.

Definition abi_probe_values : list Z :=
  [KT_ABI_MAGIC; KT_ABI_VERSION; size_of completion_fields]
  ++ offsets_of completion_fields ++ [USIZE_BITS; KtKind_COUNT].

(** ** Memory image of a record

    Both sides run on little-endian machines.  A field is written as its two's-complement bytes at
    its offset, as [out.add(index).write(record)] does and as the JVM's [JAVA_LONG] and [JAVA_INT]
    accessors read it. *)

Fixpoint le_bytes (n : nat) (x : Z) : list Z :=
  match n with
  | O => []
  | S n' => x mod 256 :: le_bytes n' (x / 256)
  end.

Fixpoint le_value (bs : list Z) : Z :=
  match bs with
  | [] => 0
  | b :: rest => b + 256 * le_value rest
  end.

(** Two's complement of a 32-bit signed value, and back. *)
Definition of_i32 (x : Z) : Z := u32 x.
Definition to_i32 (x : Z) : Z := if decide (x < 2 ^ 31) then x else x - 2 ^ 32.

Definition field_bytes (t : scalar) (x : Z) : list Z :=
  match t with
  | U64 => le_bytes 8 x
  | U32 => le_bytes 4 x
  | I32 => le_bytes 4 (of_i32 x)
  end.

Definition completion_values (r : KtCompletion) : list Z :=
  [kc_req_id r; kc_kind r; kc_status r; kc_payload r; kc_payload_len r; kc_aux0 r; kc_aux1 r].

(** Stores [bs] at offset [at_] of a memory image. *)
Definition store (mem : list Z) (at_ : Z) (bs : list Z) : list Z :=
  take (Z.to_nat at_) mem ++ bs ++ drop (Z.to_nat at_ + length bs) mem.

Fixpoint store_fields (mem : list Z) (fields : list (Z * scalar * Z)) : list Z :=
  match fields with
  | [] => mem
  | (off, t, x) :: rest => store_fields (store mem off (field_bytes t x)) rest
  end.

(** The 48 bytes of a record, written over whatever [mem] held. *)
Definition completion_bytes (mem : list Z) (r : KtCompletion) : list Z :=
  store_fields mem
    (zip (zip (offsets_of completion_fields) completion_fields) (completion_values r)).

(** The JVM's view: constants of [KtBridge.kt] and the accessors of [Pump.dispatch]. *)
Definition RECORD_BYTES : Z := 48.
Definition O_REQ_ID : Z := 0.
Definition O_KIND : Z := 8.
Definition O_STATUS : Z := 12.
Definition O_PAYLOAD : Z := 16.
Definition O_PAYLOAD_LEN : Z := 24.
Definition O_AUX0 : Z := 32.
Definition O_AUX1 : Z := 40.

Definition load (mem : list Z) (at_ : Z) (n : nat) : list Z :=
  take n (drop (Z.to_nat at_) mem).
Definition get_long (mem : list Z) (off : Z) : Z := le_value (load mem off 8).
Definition get_int (mem : list Z) (off : Z) : Z := le_value (load mem off 4).

Definition jvm_completion (mem : list Z) : KtCompletion :=
  {| kc_req_id := get_long mem O_REQ_ID;
     kc_kind := get_int mem O_KIND;
     kc_status := to_i32 (get_int mem O_STATUS);
     kc_payload := get_long mem O_PAYLOAD;
     kc_payload_len := get_long mem O_PAYLOAD_LEN;
     kc_aux0 := get_long mem O_AUX0;
     kc_aux1 := get_long mem O_AUX1 |}.

(** The fields hold what their Rust types can hold. *)
Definition completion_ok (r : KtCompletion) : Prop :=
  fits 64 (kc_req_id r) /\ fits 32 (kc_kind r) /\ - 2 ^ 31 <= kc_status r < 2 ^ 31 /\
  fits 64 (kc_payload r) /\ fits 64 (kc_payload_len r) /\ fits 64 (kc_aux0 r) /\
  fits 64 (kc_aux1 r).

(** A record with every field away from zero, for concrete checks. *)
Definition sample_completion : KtCompletion :=
  {| kc_req_id := 7; kc_kind := 2; kc_status := -5; kc_payload := 2 ^ 40 + 3;
     kc_payload_len := 513; kc_aux0 := 2 ^ 64 - 1; kc_aux1 := 0 |}.

(** ** Lemmas *)

Lemma le_bytes_length n x : length (le_bytes n x) = n.
Proof. revert x. induction n; intros; simpl; [done|]. by rewrite IHn. Qed.

Lemma le_value_bytes n x : le_value (le_bytes n x) = x mod 2 ^ (8 * Z.of_nat n).
Proof.
  revert x. induction n as [|n IH]; intros x; [by rewrite Z.mod_1_r|].
  cbn [le_bytes le_value]. rewrite IH.
  replace (8 * Z.of_nat (S n)) with (8 + 8 * Z.of_nat n) by lia.
  rewrite Z.pow_add_r by lia. change (2 ^ 8) with 256.
  rewrite Z.rem_mul_r by lia. lia.
Qed.

Lemma le_value_bytes_small n x :
  fits (8 * Z.of_nat n) x -> le_value (le_bytes n x) = x.
Proof. intros. rewrite le_value_bytes. by apply Z.mod_small. Qed.

Lemma to_of_i32 x : - 2 ^ 31 <= x < 2 ^ 31 -> to_i32 (of_i32 x) = x.
Proof.
  intros. unfold to_i32, of_i32, wrap.
  destruct (decide (0 <= x)).
  - rewrite Z.mod_small by lia. by rewrite decide_True by lia.
  - rewrite <- (Z.mod_add x 1) by lia. rewrite Z.mod_small by lia.
    rewrite decide_False by lia. lia.
Qed.

Lemma list_nil_or_snoc_length {A} (l : list A) n :
  length l = S n -> exists x k, l = x :: k /\ length k = n.
Proof. destruct l; simpl; naive_solver. Qed.

(** A whole record overwrites all 48 bytes with its fields, in declaration order. *)
Lemma completion_bytes_eq mem r :
  length mem = 48%nat ->
  completion_bytes mem r =
    le_bytes 8 (kc_req_id r) ++ le_bytes 4 (kc_kind r) ++ le_bytes 4 (of_i32 (kc_status r))
    ++ le_bytes 8 (kc_payload r) ++ le_bytes 8 (kc_payload_len r)
    ++ le_bytes 8 (kc_aux0 r) ++ le_bytes 8 (kc_aux1 r).
Proof.
  intros Hlen. do 48 (apply list_nil_or_snoc_length in Hlen as (? & ? & -> & Hlen)).
  apply nil_length_inv in Hlen as ->. reflexivity.
Qed.

(** ** Properties *)

(** The record has no padding on any 64-bit target: its [repr(C)] fields follow each other
    without a gap, it is 48 bytes long with alignment 8, the twelve probe words are exactly the
    magic, the version, that size, the seven offsets, the pointer width and the number of kinds,
    each fits a [u32], and the offsets and the size are the constants the JVM reads records with. *)
Theorem abi_layout :
  size_of completion_fields = 48 /\ align_of completion_fields = 8 /\
  foldr Z.add 0 (scalar_size <$> completion_fields) = size_of completion_fields /\
  offsets_of completion_fields =
    [O_REQ_ID; O_KIND; O_STATUS; O_PAYLOAD; O_PAYLOAD_LEN; O_AUX0; O_AUX1] /\
  size_of completion_fields = RECORD_BYTES /\
  abi_probe_values =
    [0x4B544231; 3; 48; 0; 8; 12; 16; 24; 32; 40; 64; Z.of_nat (length all_kinds)] /\
  Forall (fits 32) abi_probe_values.
Proof.
  do 6 (split; [reflexivity|]). by apply (bool_decide_unpack _).
Qed.

(** C39 A record written by the bridge is the record the JVM reads: whatever the 48 bytes of the
    caller's slot held, after the write the JVM's accessors return every field unchanged, the
    signed status included, and the slot is still 48 bytes. *)
Theorem completion_roundtrip mem r :
  length mem = 48%nat -> completion_ok r ->
  jvm_completion (completion_bytes mem r) = r /\ length (completion_bytes mem r) = 48%nat.
Proof.
  intros Hlen (? & ? & ? & ? & ? & ? & ?). rewrite completion_bytes_eq by done.
  split; [|by rewrite !length_app, !le_bytes_length].
  unfold jvm_completion, get_long, get_int, load.
  assert (fits 32 (of_i32 (kc_status r))) by (by apply wrap_fits).
  destruct r; simpl in *. f_equal; try f_equal;
    first [by apply (le_value_bytes_small 8) | by apply (le_value_bytes_small 4)
          | etrans; [|by apply to_of_i32]; f_equal; by apply (le_value_bytes_small 4)].
Qed.

Lemma completion_roundtrip_witness :
  jvm_completion (completion_bytes (replicate 48 255) sample_completion) = sample_completion
  /\ length (completion_bytes (replicate 48 255) sample_completion) = 48%nat.
Proof. apply completion_roundtrip; [done|]. vm_compute. repeat split; done || congruence. Defined.

(** Discriminants are a bijection between the kinds and [0, COUNT): the JVM can decode every
    kind the bridge sends and no two kinds share a code. *)
Theorem kind_discriminant_bijective :
  (forall k, 0 <= kind_discriminant k < KtKind_COUNT) /\
  (forall k k', kind_discriminant k = kind_discriminant k' -> k = k') /\
  (forall d, 0 <= d < KtKind_COUNT -> exists k, kind_discriminant k = d).
Proof.
  split; [by intros []|]. split; [by intros [] []|].
  intros d [Hd0 Hd]. unfold KtKind_COUNT in Hd.
  assert (d ∈ kind_discriminant <$> all_kinds) as (k & -> & _)%list_elem_of_fmap; [|by exists k].
  simpl. rewrite !elem_of_cons. lia.
Qed.
