(* ===== verification/KtError.v ===== *)
(** Bridge errors and their wire codes ([error.rs]).

    [KtError] and its [code] and [Display] are the bridge's own.  A [tonic::Status] belongs to the
    gRPC library: the model sees it through the accessors the bridge calls, with the code type a
    parameter ([GrpcCode]); its causes are values of the standard [Error] trait, observed through
    [Display], the downcast to [tonic::TimeoutExpired] and [source]. *)

From S2P Require Import Prelude Abi.

Inductive KtError :=
| InvalidArgument (message : string)
| StaleHandle
| WrongHandleKind
| Shutdown
| WorkerShutDown
| Cancelled
| BufferTooSmall
| Failed (message : string).

#[export] Instance KtError_eq_dec : EqDecision KtError.
Proof. solve_decision. Defined.

Definition code (e : KtError) : Z :=
  match e with
  | InvalidArgument _ => KT_ERR_INVALID_ARGUMENT
  | StaleHandle => KT_ERR_STALE_HANDLE
  | WrongHandleKind => KT_ERR_WRONG_HANDLE_KIND
  | Shutdown => KT_ERR_SHUTDOWN
  | WorkerShutDown => KT_ERR_WORKER_SHUT_DOWN
  | Cancelled => KT_ERR_CANCELLED
  | BufferTooSmall => KT_ERR_BUFFER_TOO_SMALL
  | Failed _ => KT_ERR_FAILED
  end.

(** The [#[error(..)]] attributes: [KtError]'s [Display]. *)
Definition error_to_string (e : KtError) : string :=
  match e with
  | InvalidArgument message => "invalid argument: " +:+ message
  | StaleHandle => "stale handle"
  | WrongHandleKind => "handle is not of the expected kind"
  | Shutdown => "runtime is shutting down"
  | WorkerShutDown => "worker already shut down"
  | Cancelled => "cancelled"
  | BufferTooSmall => "buffer too small"
  | Failed message => message
  end.

(** [From<anyhow::Error>] and [From<prost::DecodeError>], on the texts those libraries format. *)
Definition from_anyhow (alternate_text : string) : KtError := Failed alternate_text.
Definition from_decode_error (text : string) : KtError :=
  InvalidArgument ("could not decode protobuf: " +:+ text).

Abbreviation KtResult A := (result KtError A).

(** ** gRPC status codes *)

(** An error value behind [&dyn std::error::Error]. *)
Inductive StdError :=
| MkStdError (text : string) (is_timeout_expired : bool) (source : option StdError).

(** [tonic::Code]: what the bridge uses of it. *)
Class GrpcCode (C : Type) := {
  code_i32 : C -> Z;
  code_debug : C -> string;
  grpc_cancelled : C;
  grpc_deadline_exceeded : C;
  #[global] grpc_code_eq_dec :: EqDecision C;
}.

(** [tonic::Status] as the bridge reads it. *)
Record Status {C : Type} := {
  status_code_of : C;
  status_text : string;
  status_details : list byte;
  status_source : option StdError;
}.
Arguments Status C : clear implicits.

(** The causes a [while let Some(error) = cause] loop visits, outermost first. *)
Fixpoint error_causes (e : StdError) : list StdError :=
  e :: match e with
       | MkStdError _ _ None => []
       | MkStdError _ _ (Some e') => error_causes e'
       end.
Definition causes (cause : option StdError) : list StdError :=
  match cause with None => [] | Some e => error_causes e end.

Definition is_timeout (e : StdError) : bool :=
  match e with MkStdError _ t _ => t end.
Definition error_text (e : StdError) : string :=
  match e with MkStdError t _ _ => t end.

(** The loop of [grpc_status_code]: whether it reaches a [TimeoutExpired]. *)
Fixpoint cause_is_timeout (e : StdError) : bool :=
  match e with
  | MkStdError _ true _ => true
  | MkStdError _ false None => false
  | MkStdError _ false (Some e') => cause_is_timeout e'
  end.

(** Induction along the source chain. *)
Lemma std_error_ind (P : StdError -> Prop) :
  (forall t b, P (MkStdError t b None)) ->
  (forall t b e, P e -> P (MkStdError t b (Some e))) ->
  forall e, P e.
Proof. intros H0 HS. fix IH 1. intros [t b [e|]]; [apply HS, IH|apply H0]. Qed.

Section grpc.
Context {C : Type} `{GrpcCode C}.

Definition grpc_status_code (status : Status C) : Z :=
  if decide (status_code_of status = grpc_cancelled) then
    match status_source status with
    | Some e =>
        if cause_is_timeout e then code_i32 grpc_deadline_exceeded
        else code_i32 (status_code_of status)
    | None => code_i32 (status_code_of status)
    end
  else code_i32 (status_code_of status).

(** ** Lemmas *)

Lemma cause_is_timeout_spec e :
  cause_is_timeout e = true <-> exists c, c ∈ error_causes e /\ is_timeout c = true.
Proof.
  induction e as [t [] | t [] e IH] using std_error_ind; cbn [cause_is_timeout error_causes].
  - split; [|done]. intros _. eexists. split; [by left|done].
  - set_solver.
  - split; [|done]. intros _. eexists. split; [by left|done].
  - rewrite IH. set_solver.
Qed.

(** ** Properties *)

(** Only a local transport deadline is relabelled: the reported code is DEADLINE_EXCEEDED
    exactly when the status is CANCELLED and some error of its whole source chain, at any depth,
    is tonic's [TimeoutExpired]; every other status, in particular a server's own cancellation
    whatever its message, keeps its code. *)
Theorem grpc_status_code_spec (status : Status C) :
  grpc_status_code status =
    if decide (status_code_of status = grpc_cancelled /\
               Exists (fun c => is_timeout c = true) (causes (status_source status)))
    then code_i32 grpc_deadline_exceeded
    else code_i32 (status_code_of status).
Proof.
  unfold grpc_status_code, causes. case_decide as H1; case_decide as H2; try naive_solver.
  - destruct H2 as [_ H2]. destruct (status_source status) as [e|]; [|by inversion H2].
    apply Exists_exists, cause_is_timeout_spec in H2. by rewrite H2.
  - destruct (status_source status) as [e|]; [|done].
    destruct (cause_is_timeout e) eqn:E; [|done]. exfalso. apply H2. split; [done|].
    by apply Exists_exists, cause_is_timeout_spec.
Qed.
End grpc.

(** The JVM can tell every outcome apart by its status alone: an error's code is never success
    nor the panic code, it is negative and so never collides with a gRPC status, and two errors
    with the same code are the same variant. *)
Theorem error_codes_separate (e e' : KtError) :
  code e <> KT_OK /\ code e <> KT_ERR_PANIC /\ KT_ERR_BUFFER_TOO_SMALL <= code e < KT_ERR_PANIC /\
  (code e = code e' ->
   match e, e' with
   | InvalidArgument _, InvalidArgument _ | Failed _, Failed _ => True
   | _, _ => e = e'
   end).
Proof. destruct e, e'; cbv; naive_solver. Qed.
