(* ===== verification/Panic.v ===== *)
(** Panic containment at the FFI boundary ([panic.rs]), and the raw-buffer helpers every entry
    point uses ([lib.rs], lines 40 to 122).

    [guard] runs an entry point's body on the calling thread.  The thread-local [LAST_ERROR] is an
    interface, [LastError]: any state with such a slot can run guarded bodies.  A caller's buffer
    is the list of bytes behind the pointer, [None] for a null pointer. *)

From S2P Require Import Prelude Abi KtError.

(** ** The calling thread's last error *)

Class LastError (W : Type) := {
  last_error : W -> string;
  put_last_error : string -> W -> W;
  last_error_put message w : last_error (put_last_error message w) = message;
  put_last_error_twice m m' w : put_last_error m (put_last_error m' w) = put_last_error m w;
}.

Section guard.
Context {W : Type} `{LastError W}.

Definition set_last_error (message : string) (w : W) : W := put_last_error message w.

Definition with_last_error {R} (f : string -> R) (w : W) : R := f (last_error w).

Definition panic_message (payload : panic_payload) : string :=
  match payload with
  | PayloadStr s => s
  | PayloadString s => s
  | PayloadOther => "non-string panic payload"
  end.

(** [catch_unwind] of a body that may have changed the state before it panicked. *)
Definition guard (f : W -> outcome (KtResult unit) * W) (w : W) : Z * W :=
  match f w with
  | (Done (Ok _), w') => (KT_OK, w')
  | (Done (Err err), w') => (code err, set_last_error (error_to_string err) w')
  | (Panicked payload, w') =>
      (KT_ERR_PANIC, set_last_error ("panic: " +:+ panic_message payload) w')
  end.
End guard.

(** ** Raw buffers *)

(** [copy_nonoverlapping(src, out, n)]: the first [n] elements of [src] over those of [out]. *)
Definition copy_out {A} (src out : list A) (n : nat) : list A := take n src ++ drop n out.

Definition out_len_null : KtError := InvalidArgument "out_len is null".
Definition out_null : KtError := InvalidArgument "out is null".
Definition null_with_length : KtError := InvalidArgument "null pointer with non-zero length".

(** [write_out]: the result, the caller's buffer and the caller's length cell afterwards. *)
Definition write_out (src : list byte) (out : option (list byte)) (cap : Z)
    (out_len : option Z) : KtResult unit * option (list byte) * option Z :=
  match out_len with
  | None => (Err out_len_null, out, None)
  | Some _ =>
      let len := Some (u32 (Z.of_nat (length src))) in
      if decide (cap < Z.of_nat (length src)) then (Err BufferTooSmall, out, len)
      else if decide (src = []) then (Ok tt, out, len)
      else match out with
           | None => (Err out_null, out, len)
           | Some buf => (Ok tt, Some (copy_out src buf (length src)), len)
           end
  end.

(** [slice]: the [len] bytes behind [ptr]. *)
Definition slice (ptr : option (list byte)) (len : Z) : KtResult (list byte) :=
  if decide (len = 0) then Ok []
  else match ptr with
       | None => Err null_with_length
       | Some bytes => Ok (take (Z.to_nat len) bytes)
       end.

(** [kt_abi_probe] on a buffer of [u32]s. *)
Definition kt_abi_probe (out : option (list Z)) (cap : Z) : Z * option (list Z) :=
  (u32 (Z.of_nat (length abi_probe_values)),
   (fun buf =>
      copy_out abi_probe_values buf (Z.to_nat cap `min` length abi_probe_values)) <$> out).

(** [str::as_bytes]. *)
Definition as_bytes (s : string) : list byte := String.list_byte_of_string s.

Definition kt_last_error {W} `{LastError W} (out : option (list byte)) (cap : Z) (w : W) :
    Z * option (list byte) :=
  with_last_error (fun message =>
    let bytes := as_bytes message in
    (u32 (Z.of_nat (length bytes)),
     (fun buf => copy_out bytes buf (Z.to_nat cap `min` length bytes)) <$> out)) w.

(** A one-cell state, for concrete checks. *)
#[export] Instance last_error_string : LastError string :=
  {| last_error w := w; put_last_error m _ := m;
     last_error_put _ _ := eq_refl; put_last_error_twice _ _ _ := eq_refl |}.

(** ** Lemmas *)

Lemma copy_out_whole {A} (src out : list A) :
  copy_out src out (length src) = src ++ drop (length src) out.
Proof. unfold copy_out. by rewrite take_ge by lia. Qed.

(** ** Properties *)

(** C34 No panic crosses the boundary: whatever a body does, [guard] returns a status.  It is
    success exactly when the body returned [Ok], and then the state is the body's own; otherwise
    the status is the error's code, or the panic code exactly when the body panicked, and the
    calling thread's next [kt_last_error] with room for it yields precisely the message, behind
    the prefix [panic: ] for a panic. *)
Theorem guard_contains {W} `{LastError W} (f : W -> outcome (KtResult unit) * W) (w : W)
    (buf : list byte) (cap : Z) :
  let '(status, w') := guard f w in
  let retrieved := kt_last_error (Some buf) cap w' in
  match (f w).1 with
  | Done (Ok _) => status = KT_OK /\ w' = (f w).2
  | Done (Err e) =>
      status = code e /\ status <> KT_OK /\ status <> KT_ERR_PANIC /\
      (Z.of_nat (length (as_bytes (error_to_string e))) <= cap < 2 ^ 32 ->
       retrieved = (Z.of_nat (length (as_bytes (error_to_string e))),
                    Some (as_bytes (error_to_string e)
                          ++ drop (length (as_bytes (error_to_string e))) buf)))
  | Panicked p =>
      status = KT_ERR_PANIC /\
      let message := as_bytes ("panic: " +:+ panic_message p) in
      (Z.of_nat (length message) <= cap < 2 ^ 32 ->
       retrieved = (Z.of_nat (length message), Some (message ++ drop (length message) buf)))
  end.
Proof.
  assert (Hget : forall m w0, Z.of_nat (length (as_bytes m)) <= cap < 2 ^ 32 ->
    kt_last_error (Some buf) cap (set_last_error m w0) =
      (Z.of_nat (length (as_bytes m)), Some (as_bytes m ++ drop (length (as_bytes m)) buf))).
  { intros m w0 Hcap. unfold kt_last_error, with_last_error, set_last_error.
    rewrite last_error_put. cbn [fmap option_fmap option_map]. f_equal.
    - apply wrap_small. unfold fits. lia.
    - rewrite Nat.min_r by lia. by rewrite copy_out_whole. }
  unfold guard. destruct (f w) as [[[[]|e]|p] w']; simpl; [done| |by auto].
  split; [done|]. split; [by destruct e|]. split; [by destruct e|]. auto.
Qed.

(** [write_out] never truncates: with a length cell, the full length is reported on every
    path; a buffer shorter than the message is left untouched and answered with
    [BufferTooSmall], so a retry at the reported size succeeds and leaves exactly the message in
    front of the buffer's old contents. *)
Theorem write_out_retry (src buf : list byte) (cap l : Z) :
  Z.of_nat (length src) < 2 ^ 32 ->
  let needed := Z.of_nat (length src) in
  (cap < needed ->
   write_out src (Some buf) cap (Some l) = (Err BufferTooSmall, Some buf, Some needed)) /\
  (needed <= cap ->
   write_out src (Some buf) cap (Some l) =
     (Ok tt, Some (src ++ drop (length src) buf), Some needed)).
Proof.
  intros Hlen needed. unfold write_out. subst needed.
  rewrite wrap_small by (unfold fits; lia).
  split; intros Hcap; case_decide; try lia; [done|].
  case_decide; [by subst|]. by rewrite copy_out_whole.
Qed.

Lemma write_out_retry_witness :
  let src := as_bytes "hello" in
  (2 < 5 -> write_out src (Some [x00; x00]) 2 (Some 9) = (Err BufferTooSmall, Some [x00; x00], Some 5))
  /\ (5 <= 2 -> write_out src (Some [x00; x00]) 2 (Some 9) =
       (Ok tt, Some (src ++ drop 5 [x00; x00]), Some 5)).
Proof. apply (write_out_retry (as_bytes "hello") [x00; x00] 2 9). reflexivity. Defined.
