(* ===== verification/Handle.v ===== *)
(** The generation-counted handle table ([handle.rs]).

    A handle is a 64-bit word [kind:8 | generation:24 | index:32].  The table is the two vectors of
    the source; the [RwLock] around it makes every public operation one atomic transition, so an
    operation is a function of the whole table.  [Arc]s are object identities ([arc]); [Vec::push]
    and [Vec::pop] on the free list are cons and head.  An operation that indexes or [expect]s is an
    [outcome]: [table_ok] shows that none of them panics.

    The specification is the finite map [live] from handles to entries and owners: insertion adds a
    fresh key, a lookup is a map lookup, a removal is a deletion, and closing a runtime deletes it
    with everything it owns.  [HandleStore] is the part of it other components rely on. *)

From S2P Require Import Prelude Abi KtError.

Definition KIND_SHIFT : Z := 56.
Definition GEN_SHIFT : Z := 32.
Definition GEN_MASK : Z := 0x00FFFFFF.

(** The identity of a shared object behind an [Arc]. *)
Definition arc : Type := positive.

Inductive Entry :=
| Runtime (a : arc)
| Client (a : arc)
| Worker (a : arc)
| Ephemeral (a : arc)
| Poller (a : arc).

Arguments Runtime a%_positive_scope.
Arguments Client a%_positive_scope.
Arguments Worker a%_positive_scope.
Arguments Ephemeral a%_positive_scope.
Arguments Poller a%_positive_scope.

#[export] Instance Entry_eq_dec : EqDecision Entry.
Proof. solve_decision. Defined.

Definition KIND_RUNTIME : Z := 1.
Definition KIND_CLIENT : Z := 2.
Definition KIND_WORKER : Z := 3.
Definition KIND_EPHEMERAL : Z := 4.
Definition KIND_POLLER : Z := 5.

Definition entry_kind (e : Entry) : Z :=
  match e with
  | Runtime _ => KIND_RUNTIME
  | Client _ => KIND_CLIENT
  | Worker _ => KIND_WORKER
  | Ephemeral _ => KIND_EPHEMERAL
  | Poller _ => KIND_POLLER
  end.

Record Slot := { generation : Z; owner : Z; entry : option Entry }.
Record Table := { slots : list Slot; free : list Z }.

Definition table_new : Table := {| slots := []; free := [] |}.

(** ** Operations *)

Definition encode_handle (kind generation index : Z) : Z :=
  Z.lor (Z.lor (Z.shiftl kind KIND_SHIFT) (Z.shiftl (Z.land generation GEN_MASK) GEN_SHIFT))
    index.

Definition handle_kind (handle : Z) : Z := u8 (Z.shiftr handle KIND_SHIFT).
Definition handle_generation (handle : Z) : Z := Z.land (Z.shiftr handle GEN_SHIFT) GEN_MASK.
Definition handle_index (handle : Z) : nat := Z.to_nat (u32 handle).

Definition validate (table : Table) (handle expected_kind : Z) : KtResult nat :=
  if decide (handle = 0) then Err StaleHandle
  else if decide (handle_kind handle <> expected_kind) then Err WrongHandleKind
  else
    let i := handle_index handle in
    slot ← ok_or (slots table !! i) StaleHandle;
    if decide (generation slot <> handle_generation handle) then Err StaleHandle
    else
      e ← ok_or (entry slot) StaleHandle;
      if decide (entry_kind e <> expected_kind) then Err WrongHandleKind
      else Ok i.

Definition next_generation (g : Z) : Z := Z.max (Z.land (u32 (g + 1)) GEN_MASK) 1.

Definition take_slot (table : Table) (i : nat) : outcome (Table * Entry) :=
  slot ← index (slots table) i;
  e ← expect (entry slot) "validated live slot";
  mret ({| slots := <[i := {| generation := next_generation (generation slot);
                              owner := 0; entry := None |}]> (slots table);
           free := u32 (Z.of_nat i) :: free table |}, e).

Definition insert_into (table : Table) (e : Entry) (own : Z) : outcome (Table * Z) :=
  '(table', i) ←
    match free table with
    | i :: rest =>
        slot ← index (slots table) (Z.to_nat i);
        mret ({| slots := <[Z.to_nat i := {| generation := generation slot;
                                             owner := own; entry := Some e |}]> (slots table);
                 free := rest |}, i)
    | [] =>
        mret ({| slots := slots table ++ [{| generation := 1; owner := own; entry := Some e |}];
                 free := [] |}, u32 (Z.of_nat (length (slots table))))
    end;
  slot ← index (slots table') (Z.to_nat i);
  mret (table', encode_handle (entry_kind e) (generation slot) i).

Definition ht_insert (table : Table) (e : Entry) : outcome (Table * Z) := insert_into table e 0.

(** The second result lists the entries [close] was called on, after the lock was dropped. *)
Definition insert_owned (table : Table) (runtime : Z) (e : Entry) :
    outcome (Table * KtResult Z * list Entry) :=
  if is_err (validate table runtime KIND_RUNTIME) then mret (table, Err Shutdown, [e])
  else
    '(table', handle) ← insert_into table e runtime;
    mret (table', Ok handle, []).

Fixpoint take_owned (table : Table) (runtime : Z) (indices : list nat) :
    outcome (Table * list Entry) :=
  match indices with
  | [] => mret (table, [])
  | i :: rest =>
      slot ← index (slots table) i;
      if decide (owner slot = runtime) then
        '(table', child) ← take_slot table i;
        '(table'', children) ← take_owned table' runtime rest;
        mret (table'', child :: children)
      else take_owned table runtime rest
  end.

Definition remove_runtime (table : Table) (runtime : Z) :
    outcome (Table * KtResult (arc * list Entry)) :=
  match validate table runtime KIND_RUNTIME with
  | Err err => mret (table, Err err)
  | Ok i =>
      '(table', removed) ← take_slot table i;
      match removed with
      | Runtime a =>
          '(table'', children) ← take_owned table' runtime (seq 0 (length (slots table')));
          mret (table'', Ok (a, children))
      | _ => Panicked (PayloadStr "internal error: entered unreachable code")
      end
  end.

Definition remove_of_kind (table : Table) (handle expected_kind : Z) :
    outcome (Table * KtResult Entry) :=
  match validate table handle expected_kind with
  | Err err => mret (table, Err err)
  | Ok i => '(table', e) ← take_slot table i; mret (table', Ok e)
  end.

Definition foreign_handle : KtError := InvalidArgument "handle belongs to a different runtime".

Definition require_owner (table : Table) (handle runtime : Z) : outcome (KtResult unit) :=
  match validate table handle (handle_kind handle) with
  | Err err => mret (Err err)
  | Ok i =>
      slot ← index (slots table) i;
      mret (if decide (owner slot <> runtime) then Err foreign_handle else Ok tt)
  end.

(** [HandleTable::with]. *)
Definition with_entry {R} (table : Table) (handle : Z) (f : Entry -> KtResult R) :
    outcome (KtResult R) :=
  match validate table handle (handle_kind handle) with
  | Err err => mret (Err err)
  | Ok i =>
      slot ← index (slots table) i;
      e ← expect (entry slot) "validated live slot";
      mret (f e)
  end.

(** The five [typed_getter!] instances. *)
Definition get_runtime (table : Table) (handle : Z) : outcome (KtResult arc) :=
  with_entry table handle (fun e => match e with Runtime a => Ok a | _ => Err WrongHandleKind end).
Definition get_client (table : Table) (handle : Z) : outcome (KtResult arc) :=
  with_entry table handle (fun e => match e with Client a => Ok a | _ => Err WrongHandleKind end).
Definition get_worker (table : Table) (handle : Z) : outcome (KtResult arc) :=
  with_entry table handle (fun e => match e with Worker a => Ok a | _ => Err WrongHandleKind end).
Definition get_ephemeral (table : Table) (handle : Z) : outcome (KtResult arc) :=
  with_entry table handle (fun e => match e with Ephemeral a => Ok a | _ => Err WrongHandleKind end).
Definition get_poller (table : Table) (handle : Z) : outcome (KtResult arc) :=
  with_entry table handle (fun e => match e with Poller a => Ok a | _ => Err WrongHandleKind end).

(** ** Specification *)

(** The handle a slot answers to, if it is occupied. *)
Definition slot_handle (i : nat) (s : Slot) : option (Z * (Entry * Z)) :=
  (fun e => (encode_handle (entry_kind e) (generation s) (Z.of_nat i), (e, owner s))) <$> entry s.

(** The abstract state: every live handle with its entry and its owner. *)
Definition slot_list (table : Table) : list (Z * (Entry * Z)) :=
  omap (fun '(i, s) => slot_handle i s) (imap pair (slots table)).
Definition live (table : Table) : gmap Z (Entry * Z) := list_to_map (slot_list table).

(** The table's own invariant. *)
Record table_ok (t : Table) : Prop := {
  ok_length : Z.of_nat (length (slots t)) <= 2 ^ 32;
  ok_generation i s : slots t !! i = Some s -> 1 <= generation s <= GEN_MASK;
  ok_free_nodup : NoDup (free t);
  ok_free z : z ∈ free t <->
    exists i s, z = Z.of_nat i /\ slots t !! i = Some s /\ entry s = None;
  ok_vacant i s : slots t !! i = Some s -> entry s = None -> owner s = 0;
}.

(** Every owned entry's owner is a live, unowned runtime, and a runtime is never owned. *)
Definition owners_closed (m : gmap Z (Entry * Z)) : Prop :=
  forall h e o, m !! h = Some (e, o) ->
    if decide (o = 0) then True
    else entry_kind e <> KIND_RUNTIME /\ exists a, m !! o = Some (Runtime a, 0).

(** There is a free slot or room for one more. *)
Definition has_room (t : Table) : Prop :=
  free t <> [] \/ Z.of_nat (length (slots t)) < 2 ^ 32.

(** Closing a runtime, on the abstract state. *)
Definition without_runtime (runtime : Z) (m : gmap Z (Entry * Z)) : gmap Z (Entry * Z) :=
  filter (fun p => p.1 <> runtime /\ p.2.2 <> runtime) m.

(** The entries a runtime owns, in the abstract state. *)
Definition children_of (runtime : Z) (m : gmap Z (Entry * Z)) : list Entry :=
  (fun p => p.2.1) <$> filter (fun p => p.2.2 = runtime) (map_to_list m).

(** A slot after its entry was taken. *)
Definition vacated (s : Slot) : Slot :=
  {| generation := next_generation (generation s); owner := 0; entry := None |}.

(** The entry at index [i] if it belongs to [runtime]. *)
Definition owned_entry (t : Table) (runtime : Z) (i : nat) : option Entry :=
  s ← slots t !! i; if decide (owner s = runtime) then entry s else None.

(** What either branch of [insert_into] does: [t'] is [t] with slot [i], vacant or new, occupied
    under generation [g]. *)
Record filled (t : Table) (e : Entry) (o : Z) (i : nat) (g : Z) (t' : Table) : Prop := {
  filled_slot : slots t' !! i = Some {| generation := g; owner := o; entry := Some e |};
  filled_generation : 1 <= g <= GEN_MASK;
  filled_old s : slots t !! i = Some s -> generation s = g /\ entry s = None;
  filled_other j : j <> i -> slots t' !! j = slots t !! j;
  filled_grows : (length (slots t) <= length (slots t'))%nat;
  filled_length : Z.of_nat (length (slots t')) <= 2 ^ 32;
  filled_nodup : NoDup (free t');
  filled_free z : z ∈ free t' <-> z ∈ free t /\ z <> Z.of_nat i;
}.

(** The public operations that change the table, with the callers' side conditions: a runtime is
    inserted unowned and removed only by [remove_runtime], as the entry points do. *)
Inductive table_op :=
| OpInsert (e : Entry)
| OpInsertOwned (runtime : Z) (e : Entry)
| OpRemove (h k : Z)
| OpRemoveRuntime (runtime : Z).

Inductive table_step : Table -> table_op -> Table -> Prop :=
| step_insert t e t' h :
    has_room t -> ht_insert t e = Done (t', h) -> table_step t (OpInsert e) t'
| step_insert_owned t rt e t' r closed :
    has_room t -> fits 64 rt -> entry_kind e <> KIND_RUNTIME ->
    insert_owned t rt e = Done (t', r, closed) -> table_step t (OpInsertOwned rt e) t'
| step_remove t h k t' r :
    fits 64 h -> k <> KIND_RUNTIME ->
    remove_of_kind t h k = Done (t', r) -> table_step t (OpRemove h k) t'
| step_remove_runtime t rt t' r :
    fits 64 rt -> remove_runtime t rt = Done (t', r) -> table_step t (OpRemoveRuntime rt) t'.

Definition table_inv (t : Table) : Prop := table_ok t /\ owners_closed (live t).

(** A runtime that owns one client, for concrete checks. *)
Definition sample_runtime : Z := encode_handle KIND_RUNTIME 1 0.
Definition sample_client : Z := encode_handle KIND_CLIENT 1 1.
Definition sample_table : Table :=
  {| slots := [{| generation := 1; owner := 0; entry := Some (Runtime 1) |};
               {| generation := 1; owner := sample_runtime; entry := Some (Client 2) |}];
     free := [] |}.
Definition sample_ops : list table_op :=
  [OpInsert (Runtime 1); OpInsertOwned sample_runtime (Client 2)].

(** What one operation can do to one slot. *)
Definition slot_step (s s' : Slot) : Prop :=
  s' = s \/ s' = vacated s \/ (entry s = None /\ generation s' = generation s).

(** Every slot of [t] survives in [t'], its generation advanced at most [n] times. *)
Definition aged (n : nat) (t t' : Table) : Prop :=
  forall j s, slots t !! j = Some s ->
    exists s' k, slots t' !! j = Some s' /\ (k <= n)%nat /\
      generation s' = Nat.iter k next_generation (generation s).

(** ** Lemmas: handle words *)

Lemma entry_kind_fits e : 1 <= entry_kind e < 2 ^ 8.
Proof. destruct e; done. Qed.

Lemma gen_mask_ones : GEN_MASK = Z.ones 24.
Proof. done. Qed.

Lemma encode_handle_eq k g i :
  fits 24 g -> fits 32 i -> encode_handle k g i = (k * 2 ^ 24 + g) * 2 ^ 32 + i.
Proof.
  intros Hg Hi. unfold encode_handle. rewrite gen_mask_ones, land_ones_small by done.
  replace KIND_SHIFT with (24 + GEN_SHIFT) by done.
  rewrite <- Z.shiftl_shiftl, <- Z.shiftl_lor by done.
  rewrite !lor_shiftl_add by done. done.
Qed.

Lemma encode_handle_fields k g i :
  fits 8 k -> fits 24 g -> fits 32 i ->
  handle_kind (encode_handle k g i) = k /\
  handle_generation (encode_handle k g i) = g /\
  handle_index (encode_handle k g i) = Z.to_nat i /\
  fits 64 (encode_handle k g i).
Proof.
  intros Hk Hg Hi. rewrite encode_handle_eq by done.
  unfold handle_kind, handle_generation, handle_index.
  replace KIND_SHIFT with (GEN_SHIFT + 24) by done.
  rewrite <- Z.shiftr_shiftr by done.
  rewrite !(field_high _ _ GEN_SHIFT), (field_high _ _ 24), field_low by done.
  split; [by apply wrap_small|]. split.
  - rewrite gen_mask_ones, Z.land_ones by done. by apply (field_low k g 24).
  - split; [done|]. unfold fits in *. lia.
Qed.

(** A 64-bit word is the handle of its own three fields. *)
Lemma decode_encode h :
  fits 64 h ->
  h = encode_handle (handle_kind h) (handle_generation h) (Z.of_nat (handle_index h)).
Proof.
  intros Hh. unfold handle_index. pose proof (wrap_fits 32 h ltac:(done)) as Hi.
  rewrite Z2Nat.id by (unfold fits in Hi; lia).
  unfold handle_kind, handle_generation, wrap in *.
  rewrite gen_mask_ones, Z.land_ones, !Z.shiftr_div_pow2 by done.
  assert (h / 2 ^ 56 = h / 2 ^ 32 / 2 ^ 24) as Hd by (rewrite Z.div_div by done; done).
  unfold KIND_SHIFT, GEN_SHIFT. rewrite Hd.
  rewrite (Z.mod_small (h / 2 ^ 32 / 2 ^ 24)); cycle 1.
  { unfold fits in Hh. rewrite <- Hd. split; [apply Z.div_pos; lia|].
    apply Z.div_lt_upper_bound; lia. }
  rewrite encode_handle_eq by (try done; by apply Z.mod_pos_bound).
  rewrite (Z.mul_comm _ (2 ^ 24)), <- Z.div_mod, (Z.mul_comm _ (2 ^ 32)) by lia.
  by apply Z.div_mod.
Qed.

Lemma encode_handle_inj k g i k' g' i' :
  fits 8 k -> fits 24 g -> fits 32 i -> fits 8 k' -> fits 24 g' -> fits 32 i' ->
  encode_handle k g i = encode_handle k' g' i' -> k = k' /\ g = g' /\ i = i'.
Proof.
  intros Hk Hg Hi Hk' Hg' Hi' Heq.
  destruct (encode_handle_fields k g i) as (? & ? & Hx & _); [done..|].
  destruct (encode_handle_fields k' g' i') as (? & ? & Hy & _); [done..|].
  rewrite Heq in *. rewrite Hx in Hy. unfold fits in *. repeat split; [congruence..|lia].
Qed.

Lemma generation_fits g : 1 <= g <= GEN_MASK -> fits 24 g.
Proof. unfold fits, GEN_MASK. lia. Qed.
#[export] Hint Resolve generation_fits : bridge.

Lemma next_generation_eq g :
  1 <= g <= GEN_MASK -> next_generation g = if decide (g = GEN_MASK) then 1 else g + 1.
Proof.
  intros Hg. unfold next_generation. rewrite wrap_small by (unfold fits, GEN_MASK in *; lia).
  case_decide; [by subst|].
  rewrite gen_mask_ones, land_ones_small by (unfold fits, GEN_MASK in *; lia). lia.
Qed.

Lemma next_generation_range g : 1 <= g <= GEN_MASK -> 1 <= next_generation g <= GEN_MASK.
Proof. intros Hg. rewrite next_generation_eq by done. case_decide; unfold GEN_MASK in *; lia. Qed.

(** ** Lemmas: the table and its abstract state *)

Lemma elem_of_slot_list t h p :
  (h, p) ∈ slot_list t <->
  exists i s, slots t !! i = Some s /\ slot_handle i s = Some (h, p).
Proof.
  unfold slot_list. rewrite list_elem_of_omap. split.
  - intros ([i s] & Hin & Hs). apply elem_of_lookup_imap in Hin as (j & s' & ? & ?).
    simplify_eq. eauto.
  - intros (i & s & Hi & Hs). exists (i, s). split; [|done].
    apply elem_of_lookup_imap. eauto.
Qed.

Lemma slot_handle_some i s h e o :
  slot_handle i s = Some (h, (e, o)) <->
  entry s = Some e /\ owner s = o /\
  h = encode_handle (entry_kind e) (generation s) (Z.of_nat i).
Proof. unfold slot_handle. destruct (entry s); simpl; naive_solver. Qed.

Section ok.
Context (t : Table) (Ht : table_ok t).

Lemma ok_index i s : slots t !! i = Some s -> fits 32 (Z.of_nat i).
Proof.
  intros Hi%lookup_lt_Some. pose proof (ok_length _ Ht). unfold fits. lia.
Qed.

Lemma ok_gen_fits i s : slots t !! i = Some s -> fits 24 (generation s).
Proof. intros Hi. by apply generation_fits, (ok_generation _ Ht i). Qed.

(** The fields of the handle of an occupied slot. *)
Lemma ok_handle_fields i s e :
  slots t !! i = Some s -> entry s = Some e ->
  let h := encode_handle (entry_kind e) (generation s) (Z.of_nat i) in
  handle_kind h = entry_kind e /\ handle_generation h = generation s /\
  handle_index h = i /\ fits 64 h /\ h <> 0.
Proof.
  intros Hi He h. pose proof (entry_kind_fits e) as Hk.
  assert (fits 8 (entry_kind e)) as Hk8 by (unfold fits; lia).
  destruct (encode_handle_fields (entry_kind e) (generation s) (Z.of_nat i)) as (H1 & H2 & H3 & H4);
    eauto using ok_index, ok_gen_fits.
  fold h in H1, H2, H3, H4. rewrite Nat2Z.id in H3. split_and!; try done.
  intros Hz. rewrite Hz in H1. change (handle_kind 0) with 0 in H1. lia.
Qed.

Lemma live_lookup h e o :
  live t !! h = Some (e, o) <->
  exists i s, slots t !! i = Some s /\ entry s = Some e /\ owner s = o /\
              h = encode_handle (entry_kind e) (generation s) (Z.of_nat i).
Proof.
  unfold live. rewrite <- elem_of_list_to_map'.
  - rewrite elem_of_slot_list. by setoid_rewrite slot_handle_some.
  - intros [e' o'] (i & s & Hi & Hs)%elem_of_slot_list (i' & s' & Hi' & Hs')%elem_of_slot_list.
    apply slot_handle_some in Hs as (He & Ho & ->), Hs' as (He' & Ho' & Heq).
    destruct (ok_handle_fields i s e) as (_ & _ & Hx & _); [done..|].
    destruct (ok_handle_fields i' s' e') as (_ & _ & Hy & _); [done..|].
    rewrite Heq, Hy in Hx. subst i'. congruence.
Qed.

(** The entry a live handle names sits at the handle's own index. *)
Lemma live_slot h e o :
  live t !! h = Some (e, o) ->
  exists s, slots t !! handle_index h = Some s /\ entry s = Some e /\ owner s = o /\
    h = encode_handle (entry_kind e) (generation s) (Z.of_nat (handle_index h)) /\
    handle_kind h = entry_kind e /\ handle_generation h = generation s /\
    fits 64 h /\ h <> 0.
Proof.
  intros (i & s & Hi & He & Ho & ->)%live_lookup.
  destruct (ok_handle_fields i s e) as (? & ? & Hx & ?); [done..|].
  rewrite Hx. exists s. naive_solver.
Qed.

Lemma live_fits h e o : live t !! h = Some (e, o) -> fits 64 h /\ h <> 0.
Proof. intros (s & _ & _ & _ & _ & _ & _ & ? & ?)%live_slot. done. Qed.

(** [validate] succeeds exactly on live handles of the expected kind. *)
Lemma validate_ok h k i :
  fits 64 h ->
  validate t h k = Ok i <->
  i = handle_index h /\ exists e o, live t !! h = Some (e, o) /\ entry_kind e = k.
Proof.
  intros Hh. unfold validate. split.
  - intros Hv. do 2 (case_decide; [done|]).
    stages Hv. case_decide; [done|]. stages Hv. case_decide; [done|].
    apply ok_or_ok in Ha, Ha0. simplify_eq. split; [done|].
    exists a0, (owner a). split; [|done].
    apply live_lookup. exists (handle_index h), a. split_and!; try done.
    rewrite (decode_encode h) at 1 by done. congruence.
  - intros [-> (e & o & (s & Hs & He & _ & Henc & Hk & Hg & _ & Hz)%live_slot & <-)].
    rewrite decide_False by done. rewrite decide_False by (intros Hne; by apply Hne).
    rewrite Hs. unfold mbind, result_bind; simpl.
    rewrite decide_False by (intros Hne; by apply Hne).
    rewrite He; simpl. by rewrite decide_False by (intros Hne; by apply Hne).
Qed.

(** A slot that moved on to another generation, or is vacant, makes the handle stale. *)
Lemma validate_stale h s :
  h <> 0 -> slots t !! handle_index h = Some s ->
  generation s <> handle_generation h \/ entry s = None ->
  validate t h (handle_kind h) = Err StaleHandle.
Proof.
  intros Hz Hs Hg. unfold validate. rewrite decide_False, decide_False, Hs by naive_solver.
  unfold mbind, result_bind; simpl. case_decide; [done|].
  destruct Hg as [|Hg]; [done|]. by rewrite Hg.
Qed.
End ok.

(** Rewriting one slot rewrites one key of the abstract state. *)
Lemma live_ext t (m : gmap Z (Entry * Z)) :
  table_ok t ->
  (forall h e o, m !! h = Some (e, o) <->
    exists i s, slots t !! i = Some s /\ entry s = Some e /\ owner s = o /\
                h = encode_handle (entry_kind e) (generation s) (Z.of_nat i)) ->
  live t = m.
Proof.
  intros Ht Hm. apply map_eq. intros h. apply option_eq. intros [e o].
  by rewrite live_lookup, Hm.
Qed.

Lemma take_slot_spec t h e o :
  table_ok t -> live t !! h = Some (e, o) ->
  exists t' s, take_slot t (handle_index h) = Done (t', e) /\ table_ok t' /\
    live t' = delete h (live t) /\ slots t !! handle_index h = Some s /\
    slots t' = <[handle_index h :=
      {| generation := next_generation (generation s); owner := 0; entry := None |}]> (slots t).
Proof.
  intros Ht Hl. destruct (live_slot t Ht h e o Hl) as (s & Hs & He & Ho & Henc & _).
  set (i := handle_index h) in *.
  pose proof (ok_index t Ht i s Hs) as Hi32.
  unfold take_slot. rewrite (proj2 (index_done _ _ _) Hs).
  unfold mbind, outcome_bind. rewrite He. simpl.
  eexists _, s. split; [reflexivity|].
  assert (Hlt : (i < length (slots t))%nat) by (by eapply lookup_lt_Some).
  assert (Hok : table_ok
    {| slots := <[i := {| generation := next_generation (generation s); owner := 0;
                          entry := None |}]> (slots t);
       free := u32 (Z.of_nat i) :: free t |}).
  { split; simpl.
    - rewrite length_insert. apply Ht.
    - intros j s' [(<- & <- & _)|[_ Hj]]%list_lookup_insert_Some; [|by apply (ok_generation t Ht j)].
      by apply next_generation_range, (ok_generation t Ht i).
    - rewrite wrap_small by done. constructor; [|apply Ht].
      intros (j & s' & Hij & Hj & Hn)%ok_free; [|done].
      apply Nat2Z.inj in Hij as <-. congruence.
    - intros z. rewrite wrap_small by done. rewrite elem_of_cons, ok_free by done. split.
      + intros [->|(j & s' & -> & Hj & Hn)].
        * eexists i, _. by rewrite list_lookup_insert_eq.
        * exists j, s'. rewrite list_lookup_insert_ne; [done|]. intros ->. congruence.
      + intros (j & s' & -> & [(<- & <- & _)|[? Hj]]%list_lookup_insert_Some & Hn); [by left|].
        right. eauto.
    - intros j s' [(<- & <- & _)|[_ Hj]]%list_lookup_insert_Some; [done|].
      by apply (ok_vacant t Ht j). }
  split; [done|]. split; [|done].
  apply live_ext; [done|]. intros h' e' o'. rewrite lookup_delete_Some, live_lookup by done.
  simpl. split.
  - intros (Hne & j & s' & Hj & He' & Ho' & ->). exists j, s'.
    rewrite list_lookup_insert_ne; [done|]. intros ->. simplify_eq.
  - intros (j & s' & [(<- & <- & _)|[Hij Hj]]%list_lookup_insert_Some & He' & Ho' & ->); [done|].
    split; [|eauto 10].
    intros Heq. apply Hij. subst i. rewrite Heq.
    by destruct (ok_handle_fields t Ht j s' e') as (_ & _ & ? & _).
Qed.

Lemma insert_into_filled t e o :
  table_ok t -> has_room t ->
  exists i g t', filled t e o i g t' /\
    insert_into t e o = Done (t', encode_handle (entry_kind e) g (Z.of_nat i)).
Proof.
  intros Ht Hroom. unfold insert_into. destruct (free t) as [|z rest] eqn:Hf.
  - destruct Hroom as [|Hroom]; [done|]. rewrite wrap_small by (unfold fits; lia).
    eexists (length (slots t)), 1, _. split.
    2:{ unfold mbind, outcome_bind, mret, outcome_ret, index; simpl.
        by rewrite Nat2Z.id, list_lookup_middle. }
    split; simpl; try done.
    + by rewrite list_lookup_middle.
    + intros s Hs%lookup_lt_Some. lia.
    + intros j Hj. destruct (decide (j < length (slots t))%nat).
      * by rewrite lookup_app_l.
      * rewrite lookup_app_r, (lookup_ge_None_2 (slots t)) by lia.
        apply lookup_ge_None_2. simpl. lia.
    + rewrite length_app. lia.
    + rewrite length_app. simpl. lia.
    + constructor.
    + intros z. rewrite Hf, elem_of_nil. naive_solver.
  - pose proof (ok_free_nodup t Ht) as Hnd. rewrite Hf in Hnd.
    apply NoDup_cons in Hnd as [Hz Hnd].
    destruct (proj1 (ok_free t Ht z)) as (i & sl & -> & Hi & Hv); [rewrite Hf; by left|].
    pose proof (lookup_lt_Some _ _ _ Hi) as Hlt.
    rewrite Nat2Z.id, (proj2 (index_done _ _ _) Hi).
    eexists i, (generation sl), _. split.
    2:{ unfold mbind, outcome_bind, mret, outcome_ret, index; simpl.
        by rewrite Nat2Z.id, list_lookup_insert_eq. }
    split; simpl; try done.
    + by rewrite list_lookup_insert_eq.
    + by apply (ok_generation t Ht i).
    + naive_solver.
    + intros j Hj. by apply list_lookup_insert_ne.
    + by rewrite length_insert.
    + rewrite length_insert. apply Ht.
    + intros z. rewrite Hf, elem_of_cons. naive_solver.
Qed.

Lemma filled_ok t e o i g t' : table_ok t -> filled t e o i g t' -> table_ok t'.
Proof.
  intros Ht Hf. pose proof (filled_slot _ _ _ _ _ _ Hf) as Hi.
  pose proof (filled_other _ _ _ _ _ _ Hf) as Hne. split.
  - apply Hf.
  - intros j s Hj. destruct (decide (j = i)) as [->|]; [simplify_eq; apply Hf|].
    rewrite Hne in Hj by done. by apply (ok_generation t Ht j).
  - apply Hf.
  - intros z. rewrite (filled_free _ _ _ _ _ _ Hf), ok_free by done. split.
    + intros [(j & s & -> & Hj & Hv) Hji]. exists j, s. rewrite Hne; [done|]. by intros ->.
    + intros (j & s & -> & Hj & Hv). destruct (decide (j = i)) as [->|]; [by simplify_eq|].
      rewrite Hne in Hj by done. split; [eauto|]. lia.
  - intros j s Hj. destruct (decide (j = i)) as [->|]; [by simplify_eq|].
    rewrite Hne in Hj by done. by apply (ok_vacant t Ht j).
Qed.

(** Filling a slot adds one key to the abstract state. *)
Lemma filled_live t e o i g t' :
  table_ok t -> filled t e o i g t' ->
  let h := encode_handle (entry_kind e) g (Z.of_nat i) in
  live t !! h = None /\ live t' = <[h := (e, o)]> (live t).
Proof.
  intros Ht Hf h. pose proof (filled_ok _ _ _ _ _ _ Ht Hf) as Ht'.
  destruct (ok_handle_fields _ Ht' i _ e (filled_slot _ _ _ _ _ _ Hf) eq_refl)
    as (_ & _ & Hx & _). simpl in Hx. fold h in Hx. split.
  - destruct (live t !! h) as [[e' o']|] eqn:Hl; [|done].
    destruct (live_slot t Ht _ e' o' Hl) as (s & Hs & He' & _).
    rewrite Hx in Hs. destruct (filled_old _ _ _ _ _ _ Hf s Hs). congruence.
  - apply live_ext; [done|]. intros h' e' o'. rewrite lookup_insert_Some, live_lookup by done.
    pose proof (filled_slot _ _ _ _ _ _ Hf) as Hi.
    pose proof (filled_other _ _ _ _ _ _ Hf) as Hne. split.
    + intros [[<- [=<- <-]]|(Hneq & j & s & Hj & He' & Ho' & ->)]; [eauto 10|].
      destruct (decide (j = i)) as [->|]; [|exists j, s; by rewrite Hne].
      destruct (filled_old _ _ _ _ _ _ Hf s Hj). congruence.
    + intros (j & s & Hj & He' & Ho' & ->). destruct (decide (j = i)) as [->|Hji].
      * left. by simplify_eq/=.
      * right. rewrite Hne in Hj by done. split; [|eauto 10].
        intros Heq. apply Hji. rewrite <- Hx, Heq.
        by destruct (ok_handle_fields t Ht j s e') as (_ & _ & -> & _).
Qed.

Lemma insert_into_spec t e o :
  table_ok t -> has_room t ->
  exists t' h, insert_into t e o = Done (t', h) /\ table_ok t' /\
    live t !! h = None /\ live t' = <[h := (e, o)]> (live t) /\ fits 64 h /\ h <> 0 /\
    handle_kind h = entry_kind e /\
    (forall j s, slots t !! j = Some s ->
       exists s', slots t' !! j = Some s' /\ generation s' = generation s).
Proof.
  intros Ht Hroom. destruct (insert_into_filled t e o Ht Hroom) as (i & g & t' & Hf & Hins).
  pose proof (filled_ok _ _ _ _ _ _ Ht Hf) as Ht'.
  destruct (filled_live _ _ _ _ _ _ Ht Hf) as [Hnone Hlive].
  destruct (ok_handle_fields _ Ht' i _ e (filled_slot _ _ _ _ _ _ Hf) eq_refl)
    as (Hk & _ & _ & H64 & Hz).
  eexists t', _. split_and!; try done.
  intros j s Hj. destruct (decide (j = i)) as [->|]; [|exists s; by rewrite (filled_other _ _ _ _ _ _ Hf)].
  destruct (filled_old _ _ _ _ _ _ Hf s Hj) as [<- _]. eexists. by rewrite (filled_slot _ _ _ _ _ _ Hf).
Qed.

(** The scan takes exactly the slots the runtime owns and leaves every other slot alone. *)
Lemma take_owned_spec runtime ids t :
  table_ok t -> runtime <> 0 -> NoDup ids -> (forall i, i ∈ ids -> (i < length (slots t))%nat) ->
  exists t', take_owned t runtime ids = Done (t', omap (owned_entry t runtime) ids) /\ table_ok t' /\
    length (slots t') = length (slots t) /\
    (forall j s, slots t !! j = Some s ->
      slots t' !! j =
        Some (if decide (owner s = runtime /\ j ∈ ids) then vacated s else s)).
Proof.
  intros Ht Hrt Hnd. revert t Ht. induction Hnd as [|i ids Hi Hnd IH]; intros t Ht Hlt.
  { exists t. split_and!; try done. intros j s Hj. rewrite decide_False; [done|]. set_solver. }
  destruct (lookup_lt_is_Some_2 (slots t) i) as [s Hs]; [apply Hlt; by left|].
  cbn [take_owned omap list_omap]. rewrite (proj2 (index_done _ _ _) Hs).
  unfold mbind, outcome_bind at 1. unfold owned_entry at 1. rewrite Hs. cbn [mbind option_bind].
  assert (Hext : forall t1 : Table, (forall j, j <> i -> slots t1 !! j = slots t !! j) ->
    omap (owned_entry t1 runtime) ids = omap (owned_entry t runtime) ids).
  { intros t1 Hne. apply list_omap_ext. apply Forall_Forall2_diag, Forall_forall.
    intros j Hj. unfold owned_entry. rewrite Hne; [done|]. by intros ->. }
  case_decide as Ho.
  - destruct (entry s) as [e|] eqn:He; cycle 1.
    { exfalso. apply Hrt. rewrite <- Ho. by apply (ok_vacant t Ht i). }
    assert (live t !! encode_handle (entry_kind e) (generation s) (Z.of_nat i)
            = Some (e, runtime)) as Hl by (apply live_lookup; eauto 10).
    destruct (take_slot_spec t _ _ _ Ht Hl) as (t1 & s1 & Htake & Ht1 & _ & Hs1 & Hsl).
    destruct (ok_handle_fields t Ht i s e Hs He) as (_ & _ & Hx & _).
    rewrite Hx in *. simplify_eq. rewrite Htake. cbn [outcome_bind].
    destruct (IH t1) as (t2 & Hto & Ht2 & Hlen2 & Hsl2); [done| |].
    { intros j Hj. rewrite Hsl, length_insert. apply Hlt. by right. }
    rewrite Hto. cbn [outcome_bind]. exists t2. split.
    { f_equal. f_equal. f_equal. apply Hext. intros j Hj. rewrite Hsl.
      by apply list_lookup_insert_ne. }
    split; [done|]. split; [by rewrite Hlen2, Hsl, length_insert|].
    intros j s' Hj. destruct (decide (j = i)) as [->|Hji].
    + rewrite Hs in Hj. injection Hj as <-. rewrite (Hsl2 i (vacated s)).
      * rewrite (decide_False (P := owner (vacated s) = _ /\ _)) by naive_solver.
        rewrite decide_True; [done|]. split; [done|by left].
      * rewrite Hsl. apply list_lookup_insert_eq. by eapply lookup_lt_Some.
    + rewrite (Hsl2 j s') by (rewrite Hsl, list_lookup_insert_ne by done; done).
      f_equal. apply decide_ext. set_solver.
  - destruct (IH t) as (t2 & Hto & Ht2 & Hlen2 & Hsl2); [done|set_solver|].
    rewrite Hto. exists t2. split_and!; try done.
    intros j s' Hj. rewrite (Hsl2 j s' Hj). f_equal. apply decide_ext. set_solver.
Qed.

(** The slots, listed with their handles, are the abstract state listed once. *)
Lemma slot_list_perm t : table_ok t -> slot_list t ≡ₚ map_to_list (live t).
Proof.
  intros Ht. apply NoDup_Permutation.
  - apply NoDup_omap_inj; [|apply NoDup_imap_pair].
    intros [i s] [i' s'] [h [e o]] Hi%elem_of_imap_pair Hi'%elem_of_imap_pair Hs Hs'.
    apply slot_handle_some in Hs as (He & _ & ->), Hs' as (He' & _ & Heq).
    destruct (ok_handle_fields t Ht i s e Hi He) as (_ & _ & Hx & _).
    destruct (ok_handle_fields t Ht i' s' e Hi' He') as (_ & _ & Hy & _).
    rewrite Heq, Hy in Hx. subst i'. congruence.
  - apply NoDup_map_to_list.
  - intros [h [e o]]. rewrite elem_of_slot_list, elem_of_map_to_list, live_lookup by done.
    by setoid_rewrite slot_handle_some.
Qed.

Lemma owned_entries_perm t runtime :
  table_ok t ->
  omap (owned_entry t runtime) (seq 0 (length (slots t))) ≡ₚ children_of runtime (live t).
Proof.
  intros Ht. unfold children_of. rewrite <- (slot_list_perm t Ht).
  rewrite <- imap_pair_fst, omap_of_fmap.
  rewrite (omap_ext_elem _ (fun p => if decide (owner p.2 = runtime) then entry p.2 else None)).
  2:{ intros [i s] Hi%elem_of_imap_pair. unfold owned_entry; simpl. by rewrite Hi. }
  apply Permutation_refl'. unfold slot_list.
  induction (imap pair (slots t)) as [|[i s] l IH]; csimpl; [done|].
  unfold slot_handle at 1. destruct (entry s) as [e|]; csimpl.
  - rewrite filter_cons. simpl. case_decide; csimpl; by rewrite IH.
  - rewrite IH. by case_decide.
Qed.

Lemma children_of_delete runtime h e m :
  runtime <> 0 -> m !! h = Some (e, 0) ->
  children_of runtime (delete h m) ≡ₚ children_of runtime m.
Proof.
  intros Hr Hm. unfold children_of. rewrite <- (map_to_list_delete m h (e, 0)) by done.
  rewrite filter_cons. by rewrite decide_False by naive_solver.
Qed.

Lemma remove_runtime_spec t rt a :
  table_ok t -> live t !! rt = Some (Runtime a, 0) ->
  exists t' cs, remove_runtime t rt = Done (t', Ok (a, cs)) /\ table_ok t' /\
    live t' = without_runtime rt (live t) /\ cs ≡ₚ children_of rt (live t) /\
    (forall j s, slots t !! j = Some s ->
      slots t' !! j =
        Some (if decide (j = handle_index rt \/ owner s = rt) then vacated s else s)).
Proof.
  intros Ht Hl. destruct (live_fits t Ht _ _ _ Hl) as [H64 Hz].
  unfold remove_runtime.
  rewrite (proj2 (validate_ok t Ht rt KIND_RUNTIME (handle_index rt) H64)) by eauto 10.
  destruct (take_slot_spec t rt _ 0 Ht Hl) as (t1 & s1 & -> & Ht1 & Hl1 & Hs1 & Hsl1).
  cbn [mbind outcome_bind].
  destruct (take_owned_spec rt (seq 0 (length (slots t1))) t1 Ht1 Hz)
    as (t2 & Hto & Ht2 & Hlen & Hsl2); [apply NoDup_seq|intros i; rewrite elem_of_seq; lia|].
  rewrite Hto. cbn [mbind outcome_bind].
  assert (Hall : forall j s, slots t !! j = Some s ->
    slots t2 !! j = Some (if decide (j = handle_index rt \/ owner s = rt) then vacated s else s)).
  { intros j s Hj. destruct (decide (j = handle_index rt)) as [->|Hji].
    - rewrite (Hsl2 _ (vacated s)).
      + rewrite (decide_False (P := owner (vacated s) = _ /\ _)) by naive_solver.
        by rewrite decide_True by auto.
      + rewrite Hsl1, list_lookup_insert_eq by (by eapply lookup_lt_Some). by simplify_eq.
    - assert (slots t1 !! j = Some s) as Hj1 by (by rewrite Hsl1, list_lookup_insert_ne).
      rewrite (Hsl2 j s Hj1). f_equal. apply decide_ext.
      rewrite elem_of_seq. apply lookup_lt_Some in Hj1. naive_solver lia. }
  eexists t2, _. split; [reflexivity|]. split; [done|]. split; [|split; [|done]].
  - apply live_ext; [done|]. intros h e o. unfold without_runtime.
    rewrite map_lookup_filter_Some, live_lookup by done. simpl. split.
    + intros ((j & s & Hj & He & Ho & ->) & Hne & Hno). exists j, s.
      rewrite (Hall j s Hj), decide_False; [done|]. intros [->|]; [|congruence].
      destruct (live_slot t Ht _ _ _ Hl) as (s' & Hs' & He' & _ & Henc & _). congruence.
    + intros (j & s & Hj & He & Ho & ->).
      destruct (lookup_lt_is_Some_2 (slots t) j) as [s0 Hs0].
      { apply lookup_lt_Some in Hj. rewrite Hlen, Hsl1, length_insert in Hj. done. }
      pose proof (Hall j s0 Hs0) as Heq. rewrite Hj in Heq. case_decide as Hd; simplify_eq/=.
      split; [eauto 10|]. split; [|intros Ho; apply Hd; by right].
      intros Heq. apply Hd. left. rewrite <- Heq.
      by destruct (ok_handle_fields t Ht j s0 e) as (_ & _ & -> & _).
  - rewrite owned_entries_perm, Hl1 by done. by apply children_of_delete with (Runtime a).
Qed.

(** The handles that name an entry are those it keeps when a runtime is removed, and those among the
    entries the runtime owned. *)
Lemma naming_split rt a m e :
  rt <> 0 -> m !! rt = Some (Runtime a, 0) -> entry_kind e <> KIND_RUNTIME ->
  mcount (fun x : Entry * Z => x.1 = e) m =
    (mcount (fun x : Entry * Z => x.1 = e) (without_runtime rt m)
     + count (fun x => x = e) (children_of rt m))%nat.
Proof.
  intros Hz Hm He. unfold without_runtime, children_of. rewrite mcount_filter. unfold mcount.
  assert (Forall (fun p : Z * (Entry * Z) => p.1 = rt -> p.2 = (Runtime a, 0)) (map_to_list m)) as Hl.
  { apply Forall_forall. intros [k v] Hk%elem_of_map_to_list Hp. simpl in *. congruence. }
  induction Hl as [|[k [e' o]] l Hp Hl IH]; [done|]. rewrite fmap_cons, count_cons, IH, !filter_cons.
  simpl in *. destruct (decide (k = rt)) as [Hk|Hk].
  - injection (Hp Hk) as -> ->.
    rewrite (decide_False (P := Runtime a = e)) by (intros <-; done).
    rewrite (decide_False (P := _ /\ _)) by naive_solver. by rewrite decide_False by done.
  - destruct (decide (o = rt)).
    + rewrite (decide_False (P := _ /\ _)) by naive_solver. rewrite fmap_cons, count_cons. simpl. lia.
    + rewrite (decide_True (P := _ /\ _)) by done. rewrite fmap_cons, count_cons. simpl. lia.
Qed.

(** An insertion that leaves the table within its indices had room. *)
Lemma insert_bounded t e o :
  table_ok t ->
  (forall t' h, insert_into t e o = Done (t', h) -> Z.of_nat (length (slots t')) <= 2 ^ 32) -> has_room t.
Proof.
  intros Ht Hi. destruct (free t) as [|z rest] eqn:Hf; [right|left; by rewrite Hf].
  pose proof (ok_length t Ht). destruct (decide (Z.of_nat (length (slots t)) = 2 ^ 32)) as [Hn|]; [|lia].
  exfalso. unfold insert_into in Hi. rewrite Hf, Hn in Hi. unfold index in Hi.
  change (wrap 32 (2 ^ 32)) with 0 in Hi. change (Z.to_nat 0) with 0%nat in Hi.
  cbn [slots mret mbind outcome_ret outcome_bind] in Hi.
  destruct (slots t) as [|s ss] eqn:Hs; [done|]. cbn in Hi. specialize (Hi _ _ eq_refl). simpl in Hi.
  rewrite length_app in Hi. simpl in *. lia.
Qed.

(** ** Lemmas: the operations, one by one *)

Lemma insert_owned_spec t rt e :
  table_ok t -> has_room t -> fits 64 rt ->
  match live t !! rt with
  | Some (Runtime _, _) =>
      exists t' h, insert_owned t rt e = Done (t', Ok h, []) /\
        insert_into t e rt = Done (t', h)
  | _ => insert_owned t rt e = Done (t, Err Shutdown, [e])
  end.
Proof.
  intros Ht Hroom Hrt. unfold insert_owned.
  assert (is_err (validate t rt KIND_RUNTIME) =
    match live t !! rt with Some (Runtime _, _) => false | _ => true end) as ->.
  { pose proof (validate_ok t Ht rt KIND_RUNTIME) as Hv.
    destruct (validate t rt KIND_RUNTIME) as [i|err].
    - destruct (proj1 (Hv i Hrt) eq_refl) as (_ & [] & o & -> & Hk); done.
    - destruct (live t !! rt) as [[[] o]|] eqn:Hl; try done.
      specialize (Hv (handle_index rt) Hrt). destruct Hv as [_ Hv].
      discriminate Hv. eauto. }
  destruct (live t !! rt) as [[[] o]|]; try done.
  destruct (insert_into_spec t e rt Ht Hroom) as (t' & h & Hi & _).
  exists t', h. by rewrite Hi.
Qed.

Lemma remove_of_kind_spec t h k :
  table_ok t -> fits 64 h ->
  (exists e o t', live t !! h = Some (e, o) /\ entry_kind e = k /\
     remove_of_kind t h k = Done (t', Ok e) /\ table_ok t' /\ live t' = delete h (live t) /\
     exists s, slots t !! handle_index h = Some s /\
       slots t' = <[handle_index h := vacated s]> (slots t)) \/
  ((forall e o, live t !! h = Some (e, o) -> entry_kind e <> k) /\
   exists err, remove_of_kind t h k = Done (t, Err err)).
Proof.
  intros Ht Hh. unfold remove_of_kind. pose proof (validate_ok t Ht h k) as Hv.
  destruct (validate t h k) as [i|err].
  - left. destruct (proj1 (Hv i Hh) eq_refl) as (-> & e & o & Hl & <-).
    destruct (take_slot_spec t h e o Ht Hl) as (t' & s & -> & ? & ? & ? & ?).
    exists e, o, t'. split_and!; eauto.
  - right. split; [|eauto]. intros e o Hl Hk.
    specialize (Hv (handle_index h) Hh). destruct Hv as [_ Hv].
    discriminate Hv. eauto.
Qed.

Lemma remove_runtime_cases t rt :
  table_inv t -> fits 64 rt ->
  (exists a, live t !! rt = Some (Runtime a, 0)) \/
  ((forall a o, live t !! rt <> Some (Runtime a, o)) /\
   exists err, remove_runtime t rt = Done (t, Err err)).
Proof.
  intros [Ht Hc] Hrt. unfold remove_runtime. pose proof (validate_ok t Ht rt KIND_RUNTIME) as Hv.
  destruct (validate t rt KIND_RUNTIME) as [i|err].
  - left. destruct (proj1 (Hv i Hrt) eq_refl) as (_ & [a|a|a|a|a] & o & Hl & Hk); try done.
    exists a. specialize (Hc _ _ _ Hl). case_decide; [by subst|]. naive_solver.
  - right. split; [|eauto]. intros a o Hl.
    specialize (Hv (handle_index rt) Hrt). destruct Hv as [_ Hv]. discriminate Hv. eauto.
Qed.

Lemma owners_closed_insert m h e o :
  owners_closed m -> m !! h = None ->
  (o = 0 \/ entry_kind e <> KIND_RUNTIME /\ exists a, m !! o = Some (Runtime a, 0)) ->
  owners_closed (<[h := (e, o)]> m).
Proof.
  intros Hc Hn Ho h' e' o' [[<- [=<- <-]]|[Hne Hl]]%lookup_insert_Some.
  - case_decide; [done|]. destruct Ho as [|[? [a Ha]]]; [done|]. split; [done|].
    exists a. rewrite lookup_insert_ne; [done|]. by intros ->; congruence.
  - specialize (Hc _ _ _ Hl). case_decide; [done|]. destruct Hc as [? [a Ha]].
    split; [done|]. exists a. rewrite lookup_insert_ne; [done|]. by intros ->; congruence.
Qed.

Lemma owners_closed_delete m h e o :
  owners_closed m -> m !! h = Some (e, o) -> entry_kind e <> KIND_RUNTIME ->
  owners_closed (delete h m).
Proof.
  intros Hc Hh Hk h' e' o' [Hne Hl]%lookup_delete_Some.
  specialize (Hc _ _ _ Hl). case_decide; [done|]. destruct Hc as [? [a Ha]].
  split; [done|]. exists a. rewrite lookup_delete_ne; [done|]. intros ->. by simplify_eq.
Qed.

Lemma owners_closed_without m rt :
  rt <> 0 -> owners_closed m -> owners_closed (without_runtime rt m).
Proof.
  intros Hz Hc h e o [Hl [Hne Hno]]%map_lookup_filter_Some. simpl in *.
  specialize (Hc _ _ _ Hl). case_decide as Ho; [done|]. destruct Hc as [? [a Ha]].
  split; [done|]. exists a. apply map_lookup_filter_Some. simpl. auto.
Qed.

(** ** Lemmas: one step *)

Lemma slot_step_refl s : slot_step s s.
Proof. by left. Qed.
#[export] Hint Resolve slot_step_refl : bridge.

Lemma insert_into_slot_step t e o t' h :
  table_ok t -> has_room t -> insert_into t e o = Done (t', h) ->
  forall j s, slots t !! j = Some s -> exists s', slots t' !! j = Some s' /\ slot_step s s'.
Proof.
  intros Ht Hroom Hins j s Hj.
  destruct (insert_into_filled t e o Ht Hroom) as (i & g & t1 & Hf & Hins').
  rewrite Hins in Hins'. simplify_eq.
  destruct (decide (j = i)) as [->|Hji].
  - destruct (filled_old _ _ _ _ _ _ Hf s Hj) as [<- Hv].
    eexists. rewrite (filled_slot _ _ _ _ _ _ Hf). split; [done|]. right. by right.
  - exists s. rewrite (filled_other _ _ _ _ _ _ Hf) by done. auto with bridge.
Qed.

(** One operation preserves the invariant and moves each slot by at most one [slot_step]. *)
Lemma table_step_inv t op t' :
  table_inv t -> table_step t op t' ->
  table_inv t' /\
  forall j s, slots t !! j = Some s -> exists s', slots t' !! j = Some s' /\ slot_step s s'.
Proof.
  intros [Ht Hc] Hstep.
  assert (Hrefl : forall j s, slots t !! j = Some s ->
    exists s', slots t !! j = Some s' /\ slot_step s s') by eauto with bridge.
  destruct Hstep as [t e t' h Hroom Hins|t rt e t' r closed Hroom Hrt Hk Hins
                    |t h k t' r Hh Hk Hrem|t rt t' r Hrt Hrem].
  - destruct (insert_into_spec t e 0 Ht Hroom) as (t1 & h1 & Hi & Hok & Hn & Hl & _).
    unfold ht_insert in Hins. rewrite Hi in Hins. simplify_eq.
    split; [|by eapply insert_into_slot_step]. split; [done|]. rewrite Hl.
    apply owners_closed_insert; auto.
  - pose proof (insert_owned_spec t rt e Ht Hroom Hrt) as Hspec.
    destruct (live t !! rt) as [[[a|a|a|a|a] o]|] eqn:Hlrt; [|by rewrite Hins in Hspec; simplify_eq..].
    destruct Hspec as (t1 & h1 & Heq & Hi). rewrite Hins in Heq. simplify_eq.
    destruct (insert_into_spec t e rt Ht Hroom) as (t2 & h2 & Hi2 & Hok & Hn & Hl & _).
    rewrite Hi in Hi2. simplify_eq. split; [|by eapply insert_into_slot_step].
    split; [done|]. rewrite Hl. apply owners_closed_insert; [done..|].
    right. split; [done|]. exists a. pose proof (Hc _ _ _ Hlrt) as Ho.
    case_decide; [by subst|naive_solver].
  - destruct (remove_of_kind_spec t h k Ht Hh)
      as [(e & o & t1 & Hl & He & Hr & Hok & Hl1 & s & Hs & Hsl)|(_ & err & Hr)];
      rewrite Hrem in Hr; simplify_eq; [|done].
    split; [split; [done|]; rewrite Hl1; by apply owners_closed_delete with e o|].
    intros j s' Hj. rewrite Hsl. destruct (decide (j = handle_index h)) as [->|].
    + simplify_eq. eexists. rewrite list_lookup_insert_eq by (by eapply lookup_lt_Some).
      split; [done|]. right. by left.
    + rewrite list_lookup_insert_ne by done. eauto with bridge.
  - destruct (remove_runtime_cases t rt) as [(a & Hl)|(_ & err & Hr)]; [done..| |];
      [|rewrite Hrem in Hr; by simplify_eq].
    destruct (remove_runtime_spec t rt a Ht Hl) as (t1 & cs & Hr & Hok & Hl1 & _ & Hsl).
    rewrite Hrem in Hr. simplify_eq. split.
    + split; [done|]. rewrite Hl1. destruct (live_fits t Ht _ _ _ Hl). by apply owners_closed_without.
    + intros j s Hj. eexists. rewrite (Hsl j s Hj). split; [done|].
      case_decide; [right; by left|by left].
Qed.

Lemma table_new_inv : table_inv table_new.
Proof.
  split.
  - split; simpl; [done|intros ??; by rewrite lookup_nil|constructor| |intros ??; by rewrite lookup_nil].
    intros z. rewrite elem_of_nil. setoid_rewrite lookup_nil. naive_solver.
  - intros h e o Hl. unfold live, slot_list, table_new in Hl. simpl in Hl. by rewrite lookup_empty in Hl.
Qed.

Lemma run_table_inv t ops t' : table_inv t -> run table_step t ops t' -> table_inv t'.
Proof.
  intros Ht. apply (run_invariant table_step (fun _ => table_inv)); [done|].
  intros ? s op s' _ Hs Hstep. by apply (table_step_inv s op s').
Qed.

(** ** Lemmas: generations *)

Lemma iter_generation k g :
  1 <= g <= GEN_MASK ->
  Nat.iter k next_generation g = (g - 1 + Z.of_nat k) mod GEN_MASK + 1.
Proof.
  intros Hg. induction k as [|k IH].
  - rewrite Z.add_0_r, Z.mod_small by lia. simpl. lia.
  - cbn [Nat.iter nat_rect]. unfold Nat.iter in IH. rewrite IH.
    assert (0 <= (g - 1 + Z.of_nat k) mod GEN_MASK < GEN_MASK) as Hm by (by apply Z.mod_pos_bound).
    rewrite next_generation_eq by lia.
    replace (g - 1 + Z.of_nat (S k)) with ((g - 1 + Z.of_nat k) + 1) by lia.
    rewrite <- (Z.add_mod_idemp_l _ 1) by done.
    case_decide as Hd.
    + replace ((g - 1 + Z.of_nat k) mod GEN_MASK + 1) with GEN_MASK by lia. done.
    + rewrite (Z.mod_small (_ + 1)) by lia. lia.
Qed.

(** A generation does not come back before [2^24 - 1] bumps. *)
Lemma iter_generation_fresh k g :
  1 <= g <= GEN_MASK -> 0 < Z.of_nat k < GEN_MASK -> Nat.iter k next_generation g <> g.
Proof.
  intros Hg Hk Heq. rewrite iter_generation in Heq by done.
  assert ((g - 1 + Z.of_nat k) mod GEN_MASK = g - 1) as Hm by lia.
  pose proof (Z.div_mod (g - 1 + Z.of_nat k) GEN_MASK ltac:(done)) as Hdm. rewrite Hm in Hdm.
  unfold GEN_MASK in *. nia.
Qed.

Lemma aged_refl t : aged 0 t t.
Proof. intros j s Hj. exists s, 0%nat. eauto. Qed.

Lemma aged_trans n m t t' t'' : aged n t t' -> aged m t' t'' -> aged (n + m) t t''.
Proof.
  intros H1 H2 j s Hj. destruct (H1 j s Hj) as (s1 & k1 & Hj1 & Hk1 & Hg1).
  destruct (H2 j s1 Hj1) as (s2 & k2 & Hj2 & Hk2 & Hg2).
  exists s2, (k2 + k1)%nat. split; [done|]. split; [lia|].
  rewrite Nat.iter_add. by rewrite Hg2, Hg1.
Qed.

Lemma table_step_aged t op t' : table_inv t -> table_step t op t' -> aged 1 t t'.
Proof.
  intros Ht Hs j s Hj. destruct (table_step_inv t op t' Ht Hs) as [_ Hsl].
  destruct (Hsl j s Hj) as (s' & Hj' & Hst). exists s'.
  destruct Hst as [->|[->|[_ Hg]]]; [exists 0%nat|exists 1%nat|exists 0%nat];
    (split; [done|split; [lia|done]]).
Qed.

Lemma run_table_aged t ops t' :
  table_inv t -> run table_step t ops t' -> aged (length ops) t t'.
Proof.
  intros Ht Hr. induction Hr as [|t ops t1 op t2 Hr IH Hs]; [apply aged_refl|].
  rewrite length_app. eapply aged_trans; [by apply IH|].
  eapply table_step_aged; [|done]. by eapply run_table_inv.
Qed.

(** ** Lemmas: reads *)

Lemma validate_err t h k err : validate t h k = Err err -> err = StaleHandle \/ err = WrongHandleKind.
Proof.
  unfold validate. intros Hv.
  repeat first
    [ case_decide
    | progress (apply result_bind_err in Hv as [Hv|(? & _ & Hv)];
                [apply ok_or_err in Hv as [_ <-]; by left|]) ]; naive_solver.
Qed.

Lemma validate_live t h :
  table_ok t -> fits 64 h ->
  match live t !! h with
  | Some _ => validate t h (handle_kind h) = Ok (handle_index h)
  | None => exists err, validate t h (handle_kind h) = Err err /\
      (err = StaleHandle \/ err = WrongHandleKind)
  end.
Proof.
  intros Ht Hh. pose proof (validate_ok t Ht h (handle_kind h)) as Hv.
  destruct (live t !! h) as [[e o]|] eqn:Hl.
  - apply Hv; [done|]. split; [done|]. exists e, o. split; [done|].
    by destruct (live_slot t Ht h e o Hl) as (? & _ & _ & _ & _ & ? & _).
  - destruct (validate t h (handle_kind h)) as [i|err] eqn:E.
    + by destruct (proj1 (Hv i Hh) eq_refl) as (_ & e & o & ? & _).
    + exists err. split; [done|]. by eapply validate_err.
Qed.

Lemma with_entry_spec {R} t h (f : Entry -> KtResult R) :
  table_ok t -> fits 64 h ->
  match live t !! h with
  | Some (e, _) => with_entry t h f = Done (f e)
  | None => exists err, with_entry t h f = Done (Err err) /\
      (err = StaleHandle \/ err = WrongHandleKind)
  end.
Proof.
  intros Ht Hh. pose proof (validate_live t h Ht Hh) as Hv. unfold with_entry.
  destruct (live t !! h) as [[e o]|] eqn:Hl.
  - rewrite Hv. destruct (live_slot t Ht h e o Hl) as (s & Hs & He & _).
    rewrite (proj2 (index_done _ _ _) Hs). cbn [mbind outcome_bind]. by rewrite He.
  - destruct Hv as (err & -> & ?). eauto.
Qed.

Lemma getter_spec t h (f : Entry -> KtResult arc) (inj : arc -> Entry) :
  table_ok t -> fits 64 h ->
  (forall e a, f e = Ok a <-> e = inj a) -> (forall e err, f e = Err err -> err = WrongHandleKind) ->
  exists r, with_entry t h f = Done r /\
    (forall a, r = Ok a <-> exists o, live t !! h = Some (inj a, o)) /\
    (forall err, r = Err err -> err = StaleHandle \/ err = WrongHandleKind).
Proof.
  intros Ht Hh Hok Herr. pose proof (with_entry_spec t h f Ht Hh) as Hw.
  destruct (live t !! h) as [[e o]|].
  - exists (f e). split; [done|]. split; [|eauto]. intros a. rewrite Hok. naive_solver.
  - destruct Hw as (err & -> & ?). exists (Err err). naive_solver.
Qed.

Lemma require_owner_spec t h rt :
  table_ok t -> fits 64 h ->
  match live t !! h with
  | Some (_, o) =>
      require_owner t h rt = Done (if decide (o = rt) then Ok tt else Err foreign_handle)
  | None => exists err, require_owner t h rt = Done (Err err) /\
      (err = StaleHandle \/ err = WrongHandleKind)
  end.
Proof.
  intros Ht Hh. pose proof (validate_live t h Ht Hh) as Hv. unfold require_owner.
  destruct (live t !! h) as [[e o]|] eqn:Hl.
  - rewrite Hv. destruct (live_slot t Ht h e o Hl) as (s & Hs & _ & Ho & _).
    rewrite (proj2 (index_done _ _ _) Hs). cbn [mbind outcome_bind]. subst o.
    unfold mret, outcome_ret. f_equal. by repeat case_decide.
  - destruct Hv as (err & -> & ?). eauto.
Qed.

(** ** Properties *)

(** A handle is a faithful encoding: for any kind, any generation the table issues and any
    32-bit index, the word fits in 64 bits, is never 0, and gives the three fields back; and every
    64-bit word is the handle of its own fields, so distinct live slots never share a handle. *)
Theorem handle_word_roundtrip (k g i h : Z) :
  1 <= k < 2 ^ 8 -> 1 <= g <= GEN_MASK -> fits 32 i -> fits 64 h ->
  let w := encode_handle k g i in
  fits 64 w /\ w <> 0 /\ handle_kind w = k /\ handle_generation w = g /\
  handle_index w = Z.to_nat i /\
  encode_handle (handle_kind h) (handle_generation h) (Z.of_nat (handle_index h)) = h.
Proof.
  intros Hk Hg Hi Hh w.
  destruct (encode_handle_fields k g i) as (H1 & H2 & H3 & H4); [unfold fits; lia| |done|].
  { by apply generation_fits. }
  fold w in H1, H2, H3, H4. split_and!; try done.
  - intros Hw. rewrite Hw in H1. change (handle_kind 0) with 0 in H1. lia.
  - symmetry. by apply decode_encode.
Qed.

Lemma handle_word_roundtrip_witness :
  let w := encode_handle KIND_POLLER GEN_MASK 7 in
  fits 64 w /\ w <> 0 /\ handle_kind w = KIND_POLLER /\ handle_generation w = GEN_MASK /\
  handle_index w = Z.to_nat 7 /\
  encode_handle (handle_kind (2 ^ 63)) (handle_generation (2 ^ 63))
    (Z.of_nat (handle_index (2 ^ 63))) = 2 ^ 63.
Proof.
  apply handle_word_roundtrip; [unfold KIND_POLLER|unfold GEN_MASK|unfold fits|unfold fits]; lia.
Defined.

(** C13 The table refines the map of live handles.  In every state the operations can reach from
    the empty table (by any sequence of them), no operation panics, and: [insert] and a
    [insert_owned] whose runtime is live add exactly one fresh, non-zero handle; [insert_owned]
    for a runtime that is not live changes nothing, closes the rejected entry and answers
    [Shutdown]; [remove_of_kind] deletes the handle if it is live with that kind and otherwise
    changes nothing; [remove_runtime] deletes the runtime and everything it owns, returns exactly
    those entries, and leaves every other handle alone. *)
Theorem table_refines_map ops t e h k rt :
  run table_step table_new ops t -> has_room t -> fits 64 h -> fits 64 rt ->
  (exists t' h', ht_insert t e = Done (t', h') /\ live t !! h' = None /\ h' <> 0 /\
     live t' = <[h' := (e, 0)]> (live t)) /\
  (match live t !! rt with
   | Some (Runtime _, _) =>
       exists t' h', insert_owned t rt e = Done (t', Ok h', []) /\ live t !! h' = None /\
         h' <> 0 /\ live t' = <[h' := (e, rt)]> (live t)
   | _ => insert_owned t rt e = Done (t, Err Shutdown, [e])
   end) /\
  ((exists e' o t', live t !! h = Some (e', o) /\ entry_kind e' = k /\
      remove_of_kind t h k = Done (t', Ok e') /\ live t' = delete h (live t)) \/
   ((forall e' o, live t !! h = Some (e', o) -> entry_kind e' <> k) /\
    exists err, remove_of_kind t h k = Done (t, Err err))) /\
  ((exists a t' cs, live t !! rt = Some (Runtime a, 0) /\
      remove_runtime t rt = Done (t', Ok (a, cs)) /\
      live t' = without_runtime rt (live t) /\ cs ≡ₚ children_of rt (live t)) \/
   ((forall a o, live t !! rt <> Some (Runtime a, o)) /\
    exists err, remove_runtime t rt = Done (t, Err err))).
Proof.
  intros Hr Hroom Hh Hrt. pose proof (run_table_inv _ _ _ table_new_inv Hr) as Hinv.
  destruct Hinv as [Ht Hc]. split_and!.
  - destruct (insert_into_spec t e 0 Ht Hroom) as (t' & h' & ? & _ & ? & ? & _ & ? & _). eauto 10.
  - pose proof (insert_owned_spec t rt e Ht Hroom Hrt) as Hi.
    destruct (live t !! rt) as [[[] o]|]; try done. destruct Hi as (t' & h' & Hi & Hin).
    destruct (insert_into_spec t e rt Ht Hroom) as (t2 & h2 & Hi2 & _ & ? & ? & _ & ? & _).
    rewrite Hin in Hi2. simplify_eq. eauto 10.
  - destruct (remove_of_kind_spec t h k Ht Hh) as [(e' & o & t' & ? & ? & ? & _ & ? & _)|?];
      [left|right]; eauto 10.
  - destruct (remove_runtime_cases t rt (conj Ht Hc) Hrt) as [[a Hl]|?]; [left|by right].
    destruct (remove_runtime_spec t rt a Ht Hl) as (t' & cs & ? & _ & ? & ? & _). eauto 10.
Qed.

Lemma sample_run : run table_step table_new sample_ops sample_table.
Proof.
  apply (run_snoc table_step _ [OpInsert (Runtime 1)]
           {| slots := [{| generation := 1; owner := 0; entry := Some (Runtime 1) |}]; free := [] |}).
  - apply run_one, (step_insert _ _ _ sample_runtime); [by right|reflexivity].
  - apply (step_insert_owned _ _ _ _ (Ok sample_client) []); [by right|done|done|reflexivity].
Qed.

Lemma table_refines_map_witness :
  (exists t' h', ht_insert sample_table (Poller 3) = Done (t', h') /\
     live sample_table !! h' = None /\ h' <> 0 /\
     live t' = <[h' := (Poller 3, 0)]> (live sample_table)) /\
  (match live sample_table !! sample_runtime with
   | Some (Runtime _, _) =>
       exists t' h', insert_owned sample_table sample_runtime (Poller 3) = Done (t', Ok h', []) /\
         live sample_table !! h' = None /\ h' <> 0 /\
         live t' = <[h' := (Poller 3, sample_runtime)]> (live sample_table)
   | _ => insert_owned sample_table sample_runtime (Poller 3)
            = Done (sample_table, Err Shutdown, [Poller 3])
   end) /\
  ((exists e' o t', live sample_table !! sample_client = Some (e', o) /\
      entry_kind e' = KIND_CLIENT /\
      remove_of_kind sample_table sample_client KIND_CLIENT = Done (t', Ok e') /\
      live t' = delete sample_client (live sample_table)) \/
   ((forall e' o, live sample_table !! sample_client = Some (e', o) ->
       entry_kind e' <> KIND_CLIENT) /\
    exists err, remove_of_kind sample_table sample_client KIND_CLIENT
                = Done (sample_table, Err err))) /\
  ((exists a t' cs, live sample_table !! sample_runtime = Some (Runtime a, 0) /\
      remove_runtime sample_table sample_runtime = Done (t', Ok (a, cs)) /\
      live t' = without_runtime sample_runtime (live sample_table) /\
      cs ≡ₚ children_of sample_runtime (live sample_table)) \/
   ((forall a o, live sample_table !! sample_runtime <> Some (Runtime a, o)) /\
    exists err, remove_runtime sample_table sample_runtime = Done (sample_table, Err err))).
Proof.
  apply (table_refines_map sample_ops); [apply sample_run|by right|done|done].
Defined.

(** C19 Use after free is an error, not another object.  Once a live handle has left the table, by
    any operation, then for the next [2^24 - 3] operations of any kind, reuse of its slot included,
    the handle stays out of the table, every lookup and removal through it reports [StaleHandle],
    and if it named a runtime every creation for that runtime is rejected with [Shutdown]. *)
Theorem removed_handle_stays_stale ops t op t1 later t2 h e o :
  run table_step table_new ops t -> live t !! h = Some (e, o) ->
  table_step t op t1 -> live t1 !! h = None ->
  run table_step t1 later t2 -> Z.of_nat (length later) < GEN_MASK - 1 ->
  live t2 !! h = None /\
  with_entry (R := Entry) t2 h (fun e' => Ok e') = Done (Err StaleHandle) /\
  remove_of_kind t2 h (entry_kind e) = Done (t2, Err StaleHandle) /\
  (entry_kind e = KIND_RUNTIME ->
   remove_runtime t2 h = Done (t2, Err StaleHandle) /\
   forall child, insert_owned t2 h child = Done (t2, Err Shutdown, [child])).
Proof.
  intros Hr Hl Hs Hgone Hlater Hlen.
  pose proof (run_table_inv _ _ _ table_new_inv Hr) as Hinv. pose proof Hinv as [Ht _].
  destruct (table_step_inv t op t1 Hinv Hs) as [Hinv1 Hsl].
  pose proof (run_table_inv _ _ _ Hinv1 Hlater) as [Ht2 _].
  destruct (live_slot t Ht h e o Hl) as (s & Hj & He & _ & Henc & Hk & Hg & H64 & Hz).
  destruct (Hsl _ s Hj) as (s1 & Hj1 & Hstep).
  assert (generation s1 = Nat.iter 1 next_generation (generation s)) as Hg1.
  { destruct Hstep as [->|[->|[Hn _]]]; [|done|congruence].
    destruct Hinv1 as [Ht1 _]. assert (live t1 !! h = Some (e, owner s)) as Hl1; [|congruence].
    apply (live_lookup t1 Ht1). eauto 10. }
  destruct (run_table_aged t1 later t2 Hinv1 Hlater _ s1 Hj1) as (s2 & k & Hj2 & Hk2 & Hg2).
  rewrite Hg1, <- Nat.iter_add in Hg2.
  assert (generation s2 <> handle_generation h) as Hfresh.
  { rewrite Hg, Hg2. apply iter_generation_fresh; [by apply (ok_generation t Ht (handle_index h) s)|lia]. }
  assert (validate t2 h (handle_kind h) = Err StaleHandle) as Hv.
  { apply validate_stale with s2; auto. }
  rewrite Hk in Hv. unfold with_entry, remove_of_kind, remove_runtime, insert_owned.
  rewrite Hk, Hv. split_and!; try done.
  - destruct (live t2 !! h) as [[e2 o2]|] eqn:Hl2; [|done]. exfalso.
    destruct (live_slot t2 Ht2 h e2 o2 Hl2) as (s2' & Hj2' & _ & _ & _ & _ & ? & _). congruence.
  - intros Hkr. rewrite Hkr in Hv. by rewrite Hv.
Qed.

(** The sample client removed, its slot taken over by a poller. *)
Definition vacated_table : Table :=
  {| slots := [{| generation := 1; owner := 0; entry := Some (Runtime 1) |};
               {| generation := 2; owner := 0; entry := None |}];
     free := [1] |}.
Definition reused_table : Table :=
  {| slots := [{| generation := 1; owner := 0; entry := Some (Runtime 1) |};
               {| generation := 2; owner := sample_runtime; entry := Some (Poller 3) |}];
     free := [] |}.

Lemma removed_handle_stays_stale_witness :
  live reused_table !! sample_client = None /\
  with_entry (R := Entry) reused_table sample_client (fun e' => Ok e')
    = Done (Err StaleHandle) /\
  remove_of_kind reused_table sample_client KIND_CLIENT = Done (reused_table, Err StaleHandle) /\
  (KIND_CLIENT = KIND_RUNTIME ->
   remove_runtime reused_table sample_client = Done (reused_table, Err StaleHandle) /\
   forall child, insert_owned reused_table sample_client child
                 = Done (reused_table, Err Shutdown, [child])).
Proof.
  apply (removed_handle_stays_stale sample_ops sample_table (OpRemove sample_client KIND_CLIENT)
           vacated_table [OpInsertOwned sample_runtime (Poller 3)] reused_table sample_client
           (Client 2) sample_runtime).
  - apply sample_run.
  - reflexivity.
  - apply (step_remove _ _ _ _ (Ok (Client 2))); [done|done|reflexivity].
  - reflexivity.
  - apply run_one.
    apply (step_insert_owned _ _ _ _ (Ok (encode_handle KIND_POLLER 2 1)) []);
      [by left|done|done|reflexivity].
  - reflexivity.
Defined.

(** C36 Typed reads look up the map of live handles.  In every reachable table none of the five
    getters panics; each returns the object a handle names exactly when the handle is live with
    that kind, and otherwise an error that is [StaleHandle] or [WrongHandleKind]; the ownership
    check passes exactly when the handle is live and was inserted for that runtime. *)
Theorem typed_reads_are_lookups ops t h rt :
  run table_step table_new ops t -> fits 64 h ->
  Forall (fun '(get, inj) => exists r, get t h = Done r /\
      (forall a, r = Ok a <-> exists o, live t !! h = Some (inj a, o)) /\
      (forall err, r = Err err -> err = StaleHandle \/ err = WrongHandleKind))
    [(get_runtime, Runtime); (get_client, Client); (get_worker, Worker);
     (get_ephemeral, Ephemeral); (get_poller, Poller)] /\
  exists r, require_owner t h rt = Done r /\
    (r = Ok tt <-> exists e, live t !! h = Some (e, rt)) /\
    (r = Err foreign_handle <-> exists e o, live t !! h = Some (e, o) /\ o <> rt).
Proof.
  intros Hr Hh. pose proof (run_table_inv _ _ _ table_new_inv Hr) as [Ht _]. split.
  - repeat apply Forall_cons_2; [..|done]; apply getter_spec; try done;
      by intros [] ?; naive_solver.
  - pose proof (require_owner_spec t h rt Ht Hh) as Ho.
    destruct (live t !! h) as [[e o]|].
    + eexists. split; [done|]. case_decide; naive_solver.
    + destruct Ho as (err & -> & Herr). exists (Err err). naive_solver.
Qed.

Lemma typed_reads_are_lookups_witness :
  Forall (fun '(get, inj) => exists r, get sample_table sample_client = Done r /\
      (forall a, r = Ok a <-> exists o, live sample_table !! sample_client = Some (inj a, o)) /\
      (forall err, r = Err err -> err = StaleHandle \/ err = WrongHandleKind))
    [(get_runtime, Runtime); (get_client, Client); (get_worker, Worker);
     (get_ephemeral, Ephemeral); (get_poller, Poller)] /\
  exists r, require_owner sample_table sample_client sample_runtime = Done r /\
    (r = Ok tt <-> exists e, live sample_table !! sample_client = Some (e, sample_runtime)) /\
    (r = Err foreign_handle <->
       exists e o, live sample_table !! sample_client = Some (e, o) /\ o <> sample_runtime).
Proof. apply (typed_reads_are_lookups sample_ops); [apply sample_run|done]. Defined.

(** ** Interface *)

(** What the components that hold handles rely on: a store whose abstract state is a map of live
    handles, and a removal that is a deletion or an error without effect. *)
Class HandleStore (T : Type) := {
  store_ok : T -> Prop;
  store_live : T -> gmap Z (Entry * Z);
  store_remove : T -> Z -> Z -> outcome (T * KtResult Entry);
  store_remove_spec t h k :
    store_ok t -> fits 64 h ->
    (exists e o t', store_live t !! h = Some (e, o) /\ entry_kind e = k /\
       store_remove t h k = Done (t', Ok e) /\ store_ok t' /\
       store_live t' = delete h (store_live t)) \/
    ((forall e o, store_live t !! h = Some (e, o) -> entry_kind e <> k) /\
     exists err, store_remove t h k = Done (t, Err err));
}.

#[export, refine] Instance table_store : HandleStore Table :=
  {| store_ok := table_ok; store_live := live; store_remove := remove_of_kind |}.
Proof.
  intros t h k Ht Hh.
  destruct (remove_of_kind_spec t h k Ht Hh) as [(e & o & t' & ? & ? & ? & ? & ? & _)|?];
    [left; eauto 10|by right].
Defined.
