(* ===== verification/Queue.v ===== *)
(** The completion queue ([queue.rs]).

    [State] is what the queue's mutex protects.  A system state ([World]) is one queue with its
    pollers, the JVM threads that are inside [poll], and the handle table completions may own
    handles in.  Every stretch of code that runs with the mutex held is one transition, and so is
    every stretch between two acquisitions; [qstep] executes one action of one thread.  A thread
    blocked in [Condvar::wait] is [Parked] until a notification, a spurious wakeup or its timeout.

    The slab addresses are the allocator's: an action that may reallocate carries the address it
    got.  A caller's buffer is the list of its record slots. *)

From S2P Require Import Prelude Abi KtError Handle.

(** ** Completions *)

Record Pending := {
  p_req_id : Z;
  p_kind : KtKind;
  p_status : Z;
  p_payload : list byte;
  p_aux0 : Z;
  p_aux1 : Z;
}.

#[export] Instance Pending_eq_dec : EqDecision Pending.
Proof. solve_decision. Defined.

Definition pending_ack (req_id : Z) : Pending :=
  {| p_req_id := req_id; p_kind := Ack; p_status := KT_OK; p_payload := [];
     p_aux0 := 0; p_aux1 := 0 |}.

Definition pending_error (req_id status : Z) (message : string) : Pending :=
  {| p_req_id := req_id; p_kind := Ack; p_status := status;
     p_payload := String.list_byte_of_string message; p_aux0 := 0; p_aux1 := 0 |}.

Definition with_kind (kind : KtKind) (p : Pending) : Pending :=
  {| p_req_id := p_req_id p; p_kind := kind; p_status := p_status p; p_payload := p_payload p;
     p_aux0 := p_aux0 p; p_aux1 := p_aux1 p |}.
Definition with_payload (payload : list byte) (p : Pending) : Pending :=
  {| p_req_id := p_req_id p; p_kind := p_kind p; p_status := p_status p; p_payload := payload;
     p_aux0 := p_aux0 p; p_aux1 := p_aux1 p |}.
Definition with_aux0 (aux0 : Z) (p : Pending) : Pending :=
  {| p_req_id := p_req_id p; p_kind := p_kind p; p_status := p_status p;
     p_payload := p_payload p; p_aux0 := aux0; p_aux1 := p_aux1 p |}.
Definition with_aux1 (aux1 : Z) (p : Pending) : Pending :=
  {| p_req_id := p_req_id p; p_kind := p_kind p; p_status := p_status p;
     p_payload := p_payload p; p_aux0 := p_aux0 p; p_aux1 := aux1 |}.

(** The kind of the handle a completion owns, if it is a creation. *)
Definition owned_kind (kind : KtKind) : option Z :=
  match kind with
  | ClientConnected => Some KIND_CLIENT
  | EphemeralStarted => Some KIND_EPHEMERAL
  | _ => None
  end.

(** ** The batch buffer *)

Record BatchBuf := { base : Z; bytes : list byte; used : nat }.

(** [BatchBuf::default]: an empty [Vec], whose pointer is dangling. *)
Definition buf_default : BatchBuf := {| base := 1; bytes := []; used := 0 |}.

Definition buf_reset (buf : BatchBuf) : BatchBuf :=
  {| base := base buf; bytes := bytes buf; used := 0 |}.

Definition put (buf : BatchBuf) (src : list byte) : outcome (BatchBuf * (Z * Z)) :=
  let start := used buf in
  if decide (start + length src <= length (bytes buf))%nat then
    Done ({| base := base buf;
             bytes := take start (bytes buf) ++ src ++ drop (start + length src) (bytes buf);
             used := start + length src |},
          (base buf + Z.of_nat start, Z.of_nat (length src)))
  else Panicked (PayloadString index_panic).

(** [usize::next_power_of_two]. *)
Definition next_power_of_two (x : Z) : Z := 2 ^ Z.log2_up x.

(** The reservation [poll] makes before a batch: [addr] is where the slab lies if it grows. *)
Definition reserve (buf : BatchBuf) (total : nat) (addr : Z) : BatchBuf :=
  if decide (length (bytes buf) < total)%nat then
    let size := Z.to_nat (Z.max (next_power_of_two (Z.of_nat total)) (64 * 1024)) in
    {| base := addr;
       bytes := bytes buf ++ replicate (size - length (bytes buf)) Byte.x00;
       used := used buf |}
  else buf.

(** ** Queue, pollers, threads *)

Record State := { queue : list Pending; wakes : Z; closed : bool }.

Definition queue_new : State := {| queue := []; wakes := 0; closed := false |}.

Record PollerEntry := { buf : BatchBuf; in_poll : bool }.

Definition poller_new : PollerEntry := {| buf := buf_default; in_poll := false |}.

(** Where a thread is inside [poll]. *)
Inductive phase :=
| Entered
| Parked
| Signalled
| TimedOut
| Drained (batch : list Pending) (was_closed : bool).

#[export] Instance phase_eq_dec : EqDecision phase.
Proof. solve_decision. Defined.

Record Thread := {
  th_poller : positive;
  th_out : list KtCompletion;
  th_cap : Z;
  th_timeout : Z;
  th_phase : phase;
}.

Definition with_phase (ph : phase) (th : Thread) : Thread :=
  {| th_poller := th_poller th; th_out := th_out th; th_cap := th_cap th;
     th_timeout := th_timeout th; th_phase := ph |}.

(** [Condvar::notify_all]. *)
Definition notify (th : Thread) : Thread :=
  if decide (th_phase th = Parked) then with_phase Signalled th else th.

(** One pass of [poll]'s loop with the mutex held: break out with a new state, or wait. *)
Definition poll_round (st : State) (timeout : Z) : option State :=
  if decide (queue st <> [] \/ closed st = true) then Some st
  else if decide (0 < wakes st) then
    Some {| queue := queue st; wakes := wakes st - 1; closed := closed st |}
  else if decide (timeout = 0) then Some st
  else None.

(** What [poll] does after the loop, still under the mutex. *)
Definition poll_drain (st : State) (cap : Z) : State * phase :=
  let n := (Z.to_nat cap `min` length (queue st))%nat in
  ({| queue := drop n (queue st); wakes := wakes st; closed := closed st |},
   Drained (take n (queue st)) (closed st)).

Definition completion_record (p : Pending) (ptr len : Z) : KtCompletion :=
  {| kc_req_id := p_req_id p; kc_kind := kind_discriminant (p_kind p);
     kc_status := p_status p; kc_payload := ptr; kc_payload_len := len;
     kc_aux0 := p_aux0 p; kc_aux1 := p_aux1 p |}.

(** The loop that copies a batch out, from slot [i] of the caller's buffer on. *)
Fixpoint fill (b : BatchBuf) (drained : list Pending) (i : nat) (out : list KtCompletion) :
    outcome (BatchBuf * list KtCompletion) :=
  match drained with
  | [] => mret (b, out)
  | p :: rest =>
      '(b', (ptr, len)) ←
        (if decide (p_payload p = []) then mret (b, (0, 0)) else put b (p_payload p));
      fill b' rest (S i) (<[i := completion_record p ptr len]> out)
  end.

(** [poll] after the mutex is released: the buffer, the caller's records and the result. *)
Definition poll_finish (b : BatchBuf) (drained : list Pending) (was_closed : bool)
    (out : list KtCompletion) (addr : Z) : outcome (BatchBuf * list KtCompletion * KtResult Z) :=
  if decide (drained = []) then mret (b, out, if was_closed then Err Shutdown else Ok 0)
  else
    let total := sum_of (fun p => length (p_payload p)) drained in
    '(b', out') ← fill (reserve (buf_reset b) total addr) drained 0 out;
    mret (b', out', Ok (u32 (Z.of_nat (length drained)))).

Definition out_null : KtError := InvalidArgument "out is null".
Definition poller_busy : KtError :=
  InvalidArgument
    "this poller is already being polled by another thread; each poller belongs to one pump thread".

Section queue.
Context {T : Type} `{HandleStore T}.

(** [Drop for Pending]. *)
Definition pending_drop (p : Pending) (t : T) : outcome T :=
  if decide (p_status p <> KT_OK \/ p_aux0 p = 0) then mret t
  else match owned_kind (p_kind p) with
       | None => mret t
       | Some kind => '(t', _) ← store_remove t (p_aux0 p) kind; mret t'
       end.

Fixpoint drop_all (ps : list Pending) (t : T) : outcome T :=
  match ps with
  | [] => mret t
  | p :: rest => t' ← pending_drop p t; drop_all rest t'
  end.

Record World := {
  shared : State;
  pollers : gmap positive PollerEntry;
  threads : gmap positive Thread;
  handles : T;
}.

Definition set_shared (st : State) (w : World) : World :=
  {| shared := st; pollers := pollers w; threads := threads w; handles := handles w |}.
Definition set_poller (id : positive) (pe : PollerEntry) (w : World) : World :=
  {| shared := shared w; pollers := <[id := pe]> (pollers w); threads := threads w;
     handles := handles w |}.
Definition set_thread (tid : positive) (th : Thread) (w : World) : World :=
  {| shared := shared w; pollers := pollers w; threads := <[tid := th]> (threads w);
     handles := handles w |}.
Definition end_thread (tid : positive) (w : World) : World :=
  {| shared := shared w; pollers := pollers w; threads := delete tid (threads w);
     handles := handles w |}.
Definition set_handles (t : T) (w : World) : World :=
  {| shared := shared w; pollers := pollers w; threads := threads w; handles := t |}.
Definition notify_all (w : World) : World :=
  {| shared := shared w; pollers := pollers w; threads := notify <$> threads w;
     handles := handles w |}.

(** What a thread does next. *)
Inductive action :=
| APush (p : Pending)
| AClose
| AWake
| APoller (id : positive)
| ACall (tid id : positive) (out : option (list KtCompletion)) (cap timeout : Z)
| AAcquire (tid : positive)
| ASpurious (tid : positive)
| ATimeout (tid : positive)
| AFinish (tid : positive) (addr : Z).

(** What it is seen to do. *)
Inductive event :=
| Accepted (p : Pending)
| Rejected (p : Pending)
| Took (id : positive) (batch : list Pending)
| Returned (id : positive) (r : KtResult Z) (out : list KtCompletion) (batch : list Pending)
| Unwound (id : positive).

(** [Sender::push]; the rejected completion is dropped once the mutex is released. *)
Definition push (w : World) (p : Pending) : option (World * list event) :=
  let st := shared w in
  if closed st then
    match pending_drop p (handles w) with
    | Done t => Some (set_handles t w, [Rejected p])
    | Panicked _ => None
    end
  else
    Some (notify_all (set_shared {| queue := queue st ++ [p]; wakes := wakes st;
                                    closed := false |} w), [Accepted p]).

(** [Queue::close]. *)
Definition close_queue (w : World) : World :=
  let st := shared w in
  notify_all (set_shared {| queue := queue st; wakes := wakes st; closed := true |} w).

(** [PollerEntry::wake]. *)
Definition wake (w : World) : World :=
  let st := shared w in
  notify_all (set_shared {| queue := queue st; wakes := u64 (wakes st + 1);
                            closed := closed st |} w).

(** [poll] up to the mutex: the argument checks and the [in_poll] swap. *)
Definition poll_call (w : World) (tid id : positive) (out : option (list KtCompletion))
    (cap timeout : Z) : option (World * list event) :=
  pe ← pollers w !! id;
  if decide (cap = 0) then Some (w, [Returned id (Ok 0) (default [] out) []])
  else match out with
  | None => Some (w, [Returned id (Err out_null) [] []])
  | Some slots =>
      if in_poll pe then Some (w, [Returned id (Err poller_busy) slots []])
      else
        Some (set_thread tid {| th_poller := id; th_out := slots; th_cap := cap;
                                th_timeout := timeout; th_phase := Entered |}
                (set_poller id {| buf := buf pe; in_poll := true |} w), [])
  end.

(** A thread that holds the mutex with the loop left behind drains and releases it. *)
Definition leave_loop (w : World) (tid : positive) (th : Thread) (st : State) :
    option (World * list event) :=
  let '(st', ph) := poll_drain st (th_cap th) in
  match ph with
  | Drained batch _ =>
      Some (set_thread tid (with_phase ph th) (set_shared st' w), [Took (th_poller th) batch])
  | _ => None
  end.

(** A thread in [poll] gets the mutex. *)
Definition acquire (w : World) (tid : positive) : option (World * list event) :=
  th ← threads w !! tid;
  match th_phase th with
  | Entered | Signalled =>
      match poll_round (shared w) (th_timeout th) with
      | Some st => leave_loop w tid th st
      | None => Some (set_thread tid (with_phase Parked th) w, [])
      end
  | TimedOut => leave_loop w tid th (shared w)
  | _ => None
  end.

(** A parked thread wakes with or without cause. *)
Definition spurious (w : World) (tid : positive) : option (World * list event) :=
  th ← threads w !! tid;
  if decide (th_phase th = Parked) then Some (set_thread tid (with_phase Signalled th) w, [])
  else None.
Definition time_out (w : World) (tid : positive) : option (World * list event) :=
  th ← threads w !! tid;
  if decide (th_phase th = Parked /\ 0 < th_timeout th) then
    Some (set_thread tid (with_phase TimedOut th) w, [])
  else None.

(** [poll] after the mutex: the batch is copied out, the guard clears [in_poll] (on unwinding
    too), and the drained completions are dropped, with [aux0] cleared if they were written. *)
Definition finish (w : World) (tid : positive) (addr : Z) : option (World * list event) :=
  th ← threads w !! tid;
  pe ← pollers w !! th_poller th;
  match th_phase th with
  | Drained batch was_closed =>
      match poll_finish (buf pe) batch was_closed (th_out th) addr with
      | Done (b', out', r) =>
          match drop_all (with_aux0 0 <$> batch) (handles w) with
          | Done t =>
              Some (set_handles t (end_thread tid
                      (set_poller (th_poller th) {| buf := b'; in_poll := false |} w)),
                    [Returned (th_poller th) r out' batch])
          | Panicked _ => None
          end
      | Panicked _ =>
          Some (end_thread tid
                  (set_poller (th_poller th) {| buf := buf pe; in_poll := false |} w),
                [Unwound (th_poller th)])
      end
  | _ => None
  end.

Definition qstep (w : World) (a : action) : option (World * list event) :=
  match a with
  | APush p => push w p
  | AClose => Some (close_queue w, [])
  | AWake => Some (wake w, [])
  | APoller id =>
      if decide (pollers w !! id = None) then Some (set_poller id poller_new w, []) else None
  | ACall tid id out cap timeout =>
      if decide (threads w !! tid = None) then poll_call w tid id out cap timeout else None
  | AAcquire tid => acquire w tid
  | ASpurious tid => spurious w tid
  | ATimeout tid => time_out w tid
  | AFinish tid addr => finish w tid addr
  end.

(** ** Specification *)

(** Rust's types and [poll]'s safety contract. *)
Definition pending_ok (p : Pending) : Prop := fits 64 (p_aux0 p).
Definition action_ok (a : action) : Prop :=
  match a with
  | APush p => pending_ok p
  | ACall _ _ (Some out) cap _ => 0 <= cap < 2 ^ 32 /\ cap <= Z.of_nat (length out)
  | _ => True
  end.

Definition world_step (w : World) (l : action * list event) (w' : World) : Prop :=
  action_ok l.1 /\ qstep w l.1 = Some (w', l.2).

(** A queue just created, no thread polling it. *)
Definition initial (w : World) : Prop :=
  shared w = queue_new /\ threads w = ∅ /\ store_ok (handles w) /\
  forall id pe, pollers w !! id = Some pe -> in_poll pe = false.

(** Projections of a trace. *)
Definition events (ls : list (action * list event)) : list event := ls ≫= snd.
Definition accepted (evs : list event) : list Pending :=
  omap (fun e => match e with Accepted p => Some p | _ => None end) evs.
Definition taken (evs : list event) : list Pending :=
  evs ≫= (fun e => match e with Took _ b => b | _ => [] end).
Definition taken_by (id : positive) (evs : list event) : list Pending :=
  evs ≫= (fun e => match e with Took i b => if decide (i = id) then b else [] | _ => [] end).
Definition returned_by (id : positive) (evs : list event) : list Pending :=
  evs ≫= (fun e => match e with
                   | Returned i _ _ b => if decide (i = id) then b else []
                   | _ => [] end).

Definition rejected (evs : list event) : list Pending :=
  omap (fun e => match e with Rejected p => Some p | _ => None end) evs.

(** The batch a poller holds between draining and returning. *)
Definition batch_of (th : Thread) : option (list Pending) :=
  match th_phase th with Drained b _ => Some b | _ => None end.
Definition in_flight (w : World) (id : positive) (batch : list Pending) : Prop :=
  (exists tid th, threads w !! tid = Some th /\ th_poller th = id /\ batch_of th = Some batch) \/
  (batch = [] /\ forall tid th, threads w !! tid = Some th -> th_poller th = id ->
     batch_of th = None).

(** The thread-local part of the invariant: the poller's flag is up, the buffer has room for the
    cap, and a drained batch is within the cap. *)
Definition thread_ok (w : World) (th : Thread) : Prop :=
  (exists b, pollers w !! th_poller th = Some {| buf := b; in_poll := true |}) /\
  0 < th_cap th < 2 ^ 32 /\ th_cap th <= Z.of_nat (length (th_out th)) /\
  match th_phase th with
  | Parked => queue (shared w) = [] /\ closed (shared w) = false /\ wakes (shared w) = 0 /\
              th_timeout th <> 0
  | Drained b _ => Z.of_nat (length b) <= th_cap th /\ Forall pending_ok b
  | _ => True
  end.

Record queue_inv (w : World) : Prop := {
  qi_thread tid th : threads w !! tid = Some th -> thread_ok w th;
  qi_single tid tid' th th' : threads w !! tid = Some th -> threads w !! tid' = Some th' ->
    th_poller th = th_poller th' -> tid = tid';
  qi_flag id b : pollers w !! id = Some {| buf := b; in_poll := true |} ->
    exists tid th, threads w !! tid = Some th /\ th_poller th = id;
  qi_queue : Forall pending_ok (queue (shared w));
  qi_wakes : 0 <= wakes (shared w);
  qi_store : store_ok (handles w);
}.

(** ** Lemmas: dropping completions *)

(** The handle a completion owns, with the kind it is removed under. *)
Definition owned_handle (p : Pending) : option (Z * Z) :=
  if decide (p_status p <> KT_OK \/ p_aux0 p = 0) then None
  else pair (p_aux0 p) <$> owned_kind (p_kind p).

(** The live handles without those in [hs]. *)
Definition without_handles (hs : list (Z * Z)) (m : gmap Z (Entry * Z)) : gmap Z (Entry * Z) :=
  filter (fun x => (x.1, entry_kind x.2.1) ∉ hs) m.

Lemma without_nothing m : without_handles [] m = m.
Proof. apply map_filter_id. intros. apply not_elem_of_nil. Qed.

Lemma without_handles_app hs hs' m :
  without_handles hs' (without_handles hs m) = without_handles (hs ++ hs') m.
Proof.
  unfold without_handles. rewrite map_filter_filter. apply map_filter_ext.
  intros h [e o] _. simpl. set_solver.
Qed.

Lemma without_handle_delete h k m :
  (forall e o, m !! h = Some (e, o) -> entry_kind e = k) ->
  without_handles [(h, k)] m = delete h m.
Proof.
  intros Hk. apply map_eq. intros j. unfold without_handles. destruct (decide (j = h)) as [->|Hj].
  - rewrite lookup_delete_eq. apply map_lookup_filter_None. right. intros [e o] Hl. simpl.
    rewrite (Hk e o Hl). set_solver.
  - rewrite lookup_delete_ne by done. destruct (m !! j) as [x|] eqn:E.
    + apply map_lookup_filter_Some. split; [done|]. set_solver.
    + apply map_lookup_filter_None. by left.
Qed.

Lemma without_handle_absent h k m :
  (forall e o, m !! h = Some (e, o) -> entry_kind e <> k) -> without_handles [(h, k)] m = m.
Proof.
  intros Hk. apply map_filter_id. intros j [e o] Hl. simpl.
  intros [= -> ?]%list_elem_of_singleton. by eapply Hk.
Qed.

Lemma pending_drop_spec p t :
  store_ok t -> pending_ok p ->
  exists t', pending_drop p t = Done t' /\ store_ok t' /\
    store_live t' = without_handles (option_list (owned_handle p)) (store_live t).
Proof.
  intros Ht Hp. unfold pending_drop, owned_handle. case_decide; [by eauto using without_nothing|].
  destruct (owned_kind (p_kind p)) as [k|]; simpl; [|by eauto using without_nothing].
  destruct (store_remove_spec t (p_aux0 p) k Ht Hp)
    as [(e & o & t' & Hl & Hk & -> & Ht' & Hl')|(Hno & err & ->)]; simpl.
  - exists t'. split; [done|]. split; [done|]. rewrite without_handle_delete; [done|].
    intros e' o' ?. congruence.
  - exists t. split; [done|]. split; [done|]. symmetry. by apply without_handle_absent.
Qed.

Lemma drop_all_spec ps t :
  store_ok t -> Forall pending_ok ps ->
  exists t', drop_all ps t = Done t' /\ store_ok t' /\
    store_live t' = without_handles (omap owned_handle ps) (store_live t).
Proof.
  intros Ht Hps. revert t Ht. induction Hps as [|p ps Hp _ IH]; intros t Ht.
  - exists t. by rewrite without_nothing.
  - destruct (pending_drop_spec p t Ht Hp) as (t1 & H1 & Ht1 & Hl1).
    destruct (IH t1 Ht1) as (t2 & H2 & Ht2 & Hl2). exists t2.
    cbn [drop_all]. rewrite H1. split; [done|]. split; [done|].
    rewrite Hl2, Hl1, without_handles_app. f_equal. cbn [omap list_omap].
    by destruct (owned_handle p).
Qed.

(** A completion whose handle was transferred drops nothing. *)
Lemma drop_transferred ps t : drop_all (with_aux0 0 <$> ps) t = Done t.
Proof.
  induction ps as [|p ps IH]; [done|]. cbn [fmap list_fmap drop_all].
  unfold pending_drop. by rewrite decide_True by (by right).
Qed.
End queue.
Arguments World T : clear implicits.

(** ** Lemmas: copying a batch *)

Lemma put_done b src :
  (used b + length src <= length (bytes b))%nat ->
  exists b', put b src = Done (b', (base b + Z.of_nat (used b), Z.of_nat (length src))) /\
    base b' = base b /\ used b' = (used b + length src)%nat /\
    length (bytes b') = length (bytes b) /\ take (used b) (bytes b') = take (used b) (bytes b) /\
    take (length src) (drop (used b) (bytes b')) = src.
Proof.
  intros Hfit. unfold put. rewrite decide_True by done. eexists. split; [done|]. simpl.
  assert (length (take (used b) (bytes b)) = used b) as Ht by (rewrite length_take; lia).
  split_and!; try done.
  - rewrite !length_app, length_drop, Ht. lia.
  - by rewrite take_app_length'.
  - rewrite drop_app_length' by done. by apply take_app_length.
Qed.

(** The bytes a record points at, in a slab. *)
Definition slab_read (b : BatchBuf) (ptr len : Z) : list byte :=
  take (Z.to_nat len) (drop (Z.to_nat (ptr - base b)) (bytes b)).

(** Record [r] carries completion [p], its payload inside the used part of slab [b]. *)
Definition carries (b : BatchBuf) (r : KtCompletion) (p : Pending) : Prop :=
  r = completion_record p (kc_payload r) (kc_payload_len r) /\
  kc_payload_len r = Z.of_nat (length (p_payload p)) /\
  (p_payload p = [] -> kc_payload r = 0) /\
  (p_payload p <> [] ->
     base b <= kc_payload r /\ kc_payload r + kc_payload_len r <= base b + Z.of_nat (used b) /\
     slab_read b (kc_payload r) (kc_payload_len r) = p_payload p).

Lemma sub_slice_eq {A} (l k : list A) n off len :
  take n l = take n k -> (off + len <= n)%nat -> take len (drop off l) = take len (drop off k).
Proof.
  intros Hn Hle. rewrite !take_drop_commute.
  rewrite <- (Nat.min_l (off + len) n) by done. rewrite <- !take_take. by rewrite Hn.
Qed.

Lemma carries_later b b' r p :
  base b' = base b -> (used b <= used b')%nat ->
  take (used b) (bytes b') = take (used b) (bytes b) ->
  carries b r p -> carries b' r p.
Proof.
  intros Hb Hu Ht (Hr & Hlen & He & Hne). split_and!; try done.
  intros Hp. destruct (Hne Hp) as (H1 & H2 & H3). rewrite Hb. split; [done|]. split; [lia|].
  rewrite <- H3. unfold slab_read. rewrite Hb. apply (sub_slice_eq _ _ (used b)); [done|]. lia.
Qed.

Lemma fill_spec drained b i out :
  (used b + sum_of (fun p => length (p_payload p)) drained <= length (bytes b))%nat ->
  (i + length drained <= length out)%nat ->
  exists b' out', fill b drained i out = Done (b', out') /\
    base b' = base b /\ length (bytes b') = length (bytes b) /\ (used b <= used b')%nat /\
    take (used b) (bytes b') = take (used b) (bytes b) /\ length out' = length out /\
    (forall j p, drained !! j = Some p ->
       exists r, out' !! (i + j)%nat = Some r /\ carries b' r p) /\
    (forall j, (j < i \/ i + length drained <= j)%nat -> out' !! j = out !! j).
Proof.
  revert b i out. induction drained as [|p rest IH]; intros b i out Hfit Hlen.
  { exists b, out. split_and!; try done. }
  cbn [fill sum_of sum_list_with length] in *.
  assert (exists b1 ptr len,
    (if decide (p_payload p = []) then mret (b, (0, 0)) else put b (p_payload p))
      = Done (b1, (ptr, len)) /\
    base b1 = base b /\ length (bytes b1) = length (bytes b) /\
    used b1 = (used b + length (p_payload p))%nat /\
    take (used b) (bytes b1) = take (used b) (bytes b) /\
    carries b1 (completion_record p ptr len) p) as (b1 & ptr & len & H1 & Hb1 & Hl1 & Hu1 & Ht1 & Hc).
  { case_decide as Hp.
    - exists b, 0, 0. unfold carries. rewrite Hp. split_and!; try done; simpl; lia.
    - destruct (put_done b (p_payload p)) as (b1 & Hput & Hb & Hu & Hl & Ht & Hread);
        [unfold sum_of in *; lia|].
      exists b1, (base b + Z.of_nat (used b)), (Z.of_nat (length (p_payload p))).
      unfold carries. split_and!; try done. intros _. simpl. rewrite Hb. split; [lia|]. split; [lia|].
      unfold slab_read. rewrite Hb, Nat2Z.id.
      by replace (Z.to_nat (base b + Z.of_nat (used b) - base b)) with (used b) by lia. }
  rewrite H1. cbn [mbind outcome_bind].
  destruct (IH b1 (S i) (<[i := completion_record p ptr len]> out))
    as (b2 & out2 & H2 & Hb2 & Hl2 & Hu2 & Ht2 & Hlo & Hrec & Hother).
  { unfold sum_of in *. lia. }
  { rewrite length_insert. lia. }
  exists b2, out2. rewrite H2. split_and!; try done; try congruence; try lia.
  - rewrite <- Ht1. replace (used b) with (used b `min` used b1)%nat by lia.
    rewrite <- !take_take. by rewrite Ht2.
  - by rewrite Hlo, length_insert.
  - intros [|j] q Hq; simpl in Hq.
    + simplify_eq. exists (completion_record q ptr len). rewrite Nat.add_0_r, Hother by lia.
      split; [apply list_lookup_insert_eq; lia|]. by apply (carries_later b1).
    + destruct (Hrec j q Hq) as (r & Hr & Hcr). exists r.
      by replace (i + S j)%nat with (S i + j)%nat by lia.
  - intros j Hj. rewrite Hother by lia. apply list_lookup_insert_ne. lia.
Qed.

Lemma next_power_of_two_ge x : x <= next_power_of_two x.
Proof.
  unfold next_power_of_two. destruct (decide (x <= 1)).
  - rewrite Z.log2_up_eqn0 by done. done.
  - apply Z.log2_up_spec. lia.
Qed.

Lemma reserve_fits b total addr : (total <= length (bytes (reserve b total addr)))%nat.
Proof.
  unfold reserve. case_decide; [|lia]. simpl. rewrite length_app, length_replicate.
  pose proof (next_power_of_two_ge (Z.of_nat total)). lia.
Qed.

Lemma reserve_used b total addr : used (reserve b total addr) = used b.
Proof. unfold reserve. by case_decide. Qed.

Lemma poll_finish_spec b drained c out addr :
  (length drained <= length out)%nat -> Z.of_nat (length drained) < 2 ^ 32 ->
  exists b' out',
    poll_finish b drained c out addr =
      Done (b', out', if decide (drained = []) then if c then Err Shutdown else Ok 0
                      else Ok (Z.of_nat (length drained))) /\
    length out' = length out /\
    (forall j p, drained !! j = Some p -> exists r, out' !! j = Some r /\ carries b' r p) /\
    (forall j, (length drained <= j)%nat -> out' !! j = out !! j).
Proof.
  intros Hlen H32. unfold poll_finish. case_decide as Hd.
  { subst. exists b, out. split_and!; try done. }
  destruct (fill_spec drained (reserve (buf_reset b) (sum_of (fun p => length (p_payload p)) drained) addr) 0 out)
    as (b' & out' & -> & _ & _ & _ & _ & Hlo & Hrec & Hother); [|lia|].
  { rewrite reserve_used. apply reserve_fits. }
  exists b', out'. cbn [mbind outcome_bind].
  rewrite wrap_small by (unfold fits; lia). split_and!; try done. intros. apply Hother. lia.
Qed.

(** ** Lemmas: the invariant *)

(** Nothing for a waiter to act on. *)
Definition idle (st : State) : Prop := queue st = [] /\ closed st = false /\ wakes st = 0.

Section invariant.
Context {T : Type} `{HandleStore T}.
Implicit Types (w : World T) (th : Thread).

Lemma set_shared_same w : set_shared (shared w) w = w.
Proof. by destruct w. Qed.

Lemma thread_ok_idle w w' th :
  pollers w' = pollers w -> (idle (shared w) -> idle (shared w')) ->
  thread_ok w th -> thread_ok w' th.
Proof.
  intros Hp Hi (Hb & Hc & Hl & Hph). unfold thread_ok. rewrite Hp. split; [done|].
  split; [done|]. split; [done|].
  destruct (th_phase th); try done. destruct Hph as (? & ? & ? & ?).
  destruct Hi as (? & ? & ?); by split_and!.
Qed.

(** Publishing a new queue state under the mutex, with its notification. *)
Lemma publish_inv w st :
  queue_inv w -> Forall pending_ok (queue st) -> 0 <= wakes st ->
  queue_inv (notify_all (set_shared st w)).
Proof.
  intros Hw Hq Hwk. split; simpl; try done; try apply Hw.
  - intros tid th Hth. rewrite lookup_fmap in Hth. apply fmap_Some in Hth as (th0 & H0 & ->).
    destruct (qi_thread w Hw tid th0 H0) as (Hb & Hc & Hl & Hph). unfold notify.
    case_decide as Hpk; [done|]. do 3 (split; [done|]).
    by destruct (th_phase th0).
  - intros tid tid' th th' H1 H2 He. rewrite lookup_fmap in H1, H2.
    apply fmap_Some in H1 as (x & H1 & ->), H2 as (y & H2 & ->).
    apply (qi_single w Hw tid tid' x y H1 H2). revert He. unfold notify.
    by repeat case_decide.
  - intros id b Hid. destruct (qi_flag w Hw id b Hid) as (tid & th & Hth & Hthid).
    exists tid, (notify th). rewrite lookup_fmap, Hth. split; [done|]. unfold notify.
    by case_decide.
Qed.

(** One thread inside [poll] moves on, possibly changing the queue. *)
Lemma move_inv w tid th ph st :
  queue_inv w -> threads w !! tid = Some th ->
  (idle (shared w) -> idle st) -> Forall pending_ok (queue st) -> 0 <= wakes st ->
  thread_ok (set_shared st w) (with_phase ph th) ->
  queue_inv (set_thread tid (with_phase ph th) (set_shared st w)).
Proof.
  intros Hw Hth Hidle Hq Hwk Hok.
  assert (Hpoller : forall i x, threads (set_thread tid (with_phase ph th) (set_shared st w)) !! i = Some x ->
    exists y, threads w !! i = Some y /\ th_poller y = th_poller x).
  { intros i x. simpl. rewrite lookup_insert. case_decide as Hi; [|by eauto].
    intros [= <-]. subst i. by exists th. }
  split; simpl; try done; try apply Hw.
  - intros i x. rewrite lookup_insert. case_decide as Hi; [by intros [= <-]|].
    intros Hx. apply (thread_ok_idle w); [done|done|]. by eapply qi_thread.
  - intros i j x y Hx Hy He. destruct (Hpoller i x Hx) as (x' & Hx' & Hex).
    destruct (Hpoller j y Hy) as (y' & Hy' & Hey).
    eapply (qi_single w); try done. congruence.
  - intros id b Hid. destruct (qi_flag w Hw id b Hid) as (i & x & Hx & Hxid).
    destruct (decide (i = tid)) as [->|Hi].
    + exists tid, (with_phase ph th). rewrite lookup_insert_eq. split; [done|]. simpl. congruence.
    + exists i, x. by rewrite lookup_insert_ne.
Qed.

Lemma poll_round_some st timeout st' :
  0 <= wakes st -> poll_round st timeout = Some st' ->
  queue st' = queue st /\ closed st' = closed st /\ 0 <= wakes st' /\ (idle st -> st' = st).
Proof.
  unfold poll_round. intros Hwk. unfold idle. repeat case_decide; intros; simplify_eq/=;
    split_and!; try done; naive_solver lia.
Qed.

Lemma poll_round_none st timeout :
  0 <= wakes st -> poll_round st timeout = None -> idle st /\ timeout <> 0.
Proof.
  unfold poll_round, idle. repeat case_decide; try done. intros. split; [|done].
  split_and!; [| |lia].
  - destruct (queue st); [done|]. exfalso. naive_solver.
  - destruct (closed st); naive_solver.
Qed.

Lemma leave_loop_spec w tid th st :
  leave_loop w tid th st =
    let n := (Z.to_nat (th_cap th) `min` length (queue st))%nat in
    Some (set_thread tid (with_phase (Drained (take n (queue st)) (closed st)) th)
            (set_shared {| queue := drop n (queue st); wakes := wakes st; closed := closed st |} w),
          [Took (th_poller th) (take n (queue st))]).
Proof. done. Qed.

Lemma leave_loop_inv w tid th st w' evs :
  queue_inv w -> threads w !! tid = Some th ->
  queue st = queue (shared w) -> closed st = closed (shared w) -> 0 <= wakes st ->
  (idle (shared w) -> st = shared w) ->
  leave_loop w tid th st = Some (w', evs) -> queue_inv w'.
Proof.
  intros Hw Hth Hq Hc Hwk Hidle. rewrite leave_loop_spec. intros [= <- <-].
  pose proof (qi_queue w Hw) as Hall. rewrite <- Hq in Hall.
  destruct (qi_thread w Hw tid th Hth) as (Hb & Hcap & Hlen & _).
  apply move_inv; try done.
  - intros Hi. rewrite (Hidle Hi). destruct Hi as (H1 & H2 & H3). unfold idle. simpl.
    rewrite H1. by rewrite drop_nil.
  - by apply Forall_drop.
  - do 3 (split; [done|]). split; [|by apply Forall_take]. simpl. rewrite length_take. lia.
Qed.

Lemma acquire_inv w tid w' evs :
  queue_inv w -> acquire w tid = Some (w', evs) -> queue_inv w'.
Proof.
  intros Hw. unfold acquire. destruct (threads w !! tid) as [th|] eqn:Hth; [|done].
  cbn [mbind option_bind]. pose proof (qi_wakes w Hw) as Hwk.
  destruct (qi_thread w Hw tid th Hth) as (Hb & Hc & Hl & _).
  assert (Hgo : match poll_round (shared w) (th_timeout th) with
     | Some st => leave_loop w tid th st
     | None => Some (set_thread tid (with_phase Parked th) w, [])
     end = Some (w', evs) -> queue_inv w').
  { destruct (poll_round _ _) as [st|] eqn:Hr.
    - apply poll_round_some in Hr as (? & ? & ? & ?); [|done]. by eapply leave_loop_inv.
    - apply poll_round_none in Hr as [(Hq & Hcl & Hz) Ht]; [|done]. intros [= <- <-].
      rewrite <- (set_shared_same w) at 1. apply move_inv; try done. apply Hw. }
  destruct (th_phase th) eqn:Hph; try done.
  by eapply leave_loop_inv.
Qed.

(** A parked thread leaves the wait, for whatever reason. *)
Lemma unpark_inv w tid th ph :
  queue_inv w -> threads w !! tid = Some th -> ph = Signalled \/ ph = TimedOut ->
  queue_inv (set_thread tid (with_phase ph th) w).
Proof.
  intros Hw Hth Hph. rewrite <- (set_shared_same w) at 1.
  destruct (qi_thread w Hw tid th Hth) as (Hb & Hc & Hl & _).
  apply move_inv; try done; [apply Hw|apply Hw|].
  rewrite set_shared_same. by destruct Hph as [->| ->].
Qed.

Lemma enter_inv w tid id b out cap timeout :
  queue_inv w -> threads w !! tid = None ->
  pollers w !! id = Some {| buf := b; in_poll := false |} ->
  0 < cap < 2 ^ 32 -> cap <= Z.of_nat (length out) ->
  queue_inv (set_thread tid {| th_poller := id; th_out := out; th_cap := cap;
                               th_timeout := timeout; th_phase := Entered |}
               (set_poller id {| buf := b; in_poll := true |} w)).
Proof.
  intros Hw Htid Hid Hcap Hout.
  assert (Hother : forall i x, threads w !! i = Some x -> th_poller x <> id).
  { intros i x Hx Hxi. destruct (qi_thread w Hw i x Hx) as ([b' Hb] & _). congruence. }
  split; simpl; try apply Hw.
  - intros i x. rewrite lookup_insert. case_decide as Hi.
    + intros [= <-]. unfold thread_ok. simpl. rewrite lookup_insert_eq. eauto.
    + intros Hx. destruct (qi_thread w Hw i x Hx) as (Hb & Hr).
      split; [|done]. simpl. rewrite lookup_insert_ne; [done|]. intros ?. by eapply Hother.
  - intros i j x y. rewrite !lookup_insert. repeat case_decide; intros; simplify_eq/=; try done.
    + exfalso. by eapply Hother.
    + exfalso. by eapply Hother.
    + by eapply (qi_single w).
  - intros id' b'. rewrite lookup_insert. case_decide as Hi.
    + intros _. subst. eexists tid, _. by rewrite lookup_insert_eq.
    + intros Hb'. destruct (qi_flag w Hw id' b' Hb') as (i & x & Hx & Hxi).
      exists i, x. rewrite lookup_insert_ne; [done|]. congruence.
Qed.

Lemma leave_inv w tid th b t :
  queue_inv w -> threads w !! tid = Some th -> store_ok t ->
  queue_inv (set_handles t (end_thread tid
               (set_poller (th_poller th) {| buf := b; in_poll := false |} w))).
Proof.
  intros Hw Hth Ht.
  assert (Hother : forall i x, i <> tid -> threads w !! i = Some x -> th_poller x <> th_poller th).
  { intros i x Hi Hx He. apply Hi. by eapply (qi_single w). }
  split; simpl; try done; try apply Hw.
  - intros i x [Hi Hx]%lookup_delete_Some. destruct (qi_thread w Hw i x Hx) as (Hb & Hr).
    split; [|done]. simpl. rewrite lookup_insert_ne; [done|]. intros ?.
    eapply (Hother i x); [by intros ->|done|done].
  - intros i j x y [_ Hx]%lookup_delete_Some [_ Hy]%lookup_delete_Some. by eapply (qi_single w).
  - intros id b'. rewrite lookup_insert. case_decide as Hi; [by intros [= ?]|].
    intros Hb'. destruct (qi_flag w Hw id b' Hb') as (i & x & Hx & Hxi).
    exists i, x. rewrite lookup_delete_ne; [done|]. congruence.
Qed.
End invariant.

Section traces.
Context {T : Type} `{HandleStore T}.
Implicit Types (w : World T) (th : Thread).

Lemma poller_inv w id :
  queue_inv w -> pollers w !! id = None -> queue_inv (set_poller id poller_new w).
Proof.
  intros Hw Hid. split; simpl; try apply Hw.
  - intros i x Hx. destruct (qi_thread w Hw i x Hx) as ([b Hb] & Hr). split; [|done].
    exists b. simpl. rewrite lookup_insert_ne; [done|]. congruence.
  - intros id' b. rewrite lookup_insert. case_decide; [done|]. apply (qi_flag w Hw).
Qed.

Lemma poll_call_inv w tid id out cap timeout w' evs :
  queue_inv w -> action_ok (ACall tid id out cap timeout) -> threads w !! tid = None ->
  poll_call w tid id out cap timeout = Some (w', evs) -> queue_inv w'.
Proof.
  unfold poll_call. intros Hw Ha Htid. destruct (pollers w !! id) as [[b flag]|] eqn:Hid; [|done].
  cbn [mbind option_bind in_poll buf]. case_decide; [by intros [= <- <-]|].
  destruct out as [slots|]; [|by intros [= <- <-]].
  destruct flag; intros [= <- <-]; [done|].
  destruct Ha. apply enter_inv; [done..|lia|lia].
Qed.

(** The result of [finish] in a state that satisfies the invariant: it cannot unwind. *)
Lemma finish_spec w tid addr th b c :
  queue_inv w -> threads w !! tid = Some th -> th_phase th = Drained b c ->
  exists pe b' out',
    pollers w !! th_poller th = Some pe /\
    poll_finish (buf pe) b c (th_out th) addr =
      Done (b', out', if decide (b = []) then if c then Err Shutdown else Ok 0
                      else Ok (Z.of_nat (length b))) /\
    finish w tid addr =
      Some (set_handles (handles w) (end_thread tid
              (set_poller (th_poller th) {| buf := b'; in_poll := false |} w)),
            [Returned (th_poller th)
               (if decide (b = []) then if c then Err Shutdown else Ok 0
                else Ok (Z.of_nat (length b))) out' b]).
Proof.
  intros Hw Hth Hph. destruct (qi_thread w Hw tid th Hth) as ([b0 Hb] & Hc & Hl & Hp).
  rewrite Hph in Hp. destruct Hp as [Hlen _].
  destruct (poll_finish_spec b0 b c (th_out th) addr) as (b' & out' & Hf & _); [lia|lia|].
  eexists _, b', out'. split; [done|]. split; [done|]. unfold finish.
  rewrite Hth. cbn [mbind option_bind]. rewrite Hb. cbn [mbind option_bind buf]. rewrite Hph, Hf.
  by rewrite drop_transferred.
Qed.

Lemma finish_drained w tid addr w' evs :
  finish w tid addr = Some (w', evs) ->
  exists th b c, threads w !! tid = Some th /\ th_phase th = Drained b c.
Proof.
  unfold finish. intros Hf. destruct (threads w !! tid) as [th|]; [|done].
  cbn [mbind option_bind] in Hf. destruct (pollers w !! th_poller th); [|done].
  cbn [mbind option_bind] in Hf. destruct (th_phase th) eqn:E; try done. eauto.
Qed.

Lemma push_spec w p :
  queue_inv w -> pending_ok p ->
  if closed (shared w) then
    exists t, pending_drop p (handles w) = Done t /\ store_ok t /\
      store_live t = without_handles (option_list (owned_handle p)) (store_live (handles w)) /\
      push w p = Some (set_handles t w, [Rejected p])
  else
    push w p = Some (notify_all (set_shared {| queue := queue (shared w) ++ [p];
                       wakes := wakes (shared w); closed := false |} w), [Accepted p]).
Proof.
  intros Hw Hp. unfold push. destruct (closed (shared w)); [|done].
  destruct (pending_drop_spec p (handles w) (qi_store w Hw) Hp) as (t & Hd & Ht & Hl).
  exists t. rewrite Hd. done.
Qed.

Lemma set_handles_inv w t : queue_inv w -> store_ok t -> queue_inv (set_handles t w).
Proof. intros Hw Ht. split; simpl; try apply Hw; done. Qed.

Lemma qstep_inv w l w' : queue_inv w -> world_step w l w' -> queue_inv w'.
Proof.
  destruct l as [a evs]. intros Hw [Ha Hs]. simpl in *.
  destruct a as [p| | |id|tid id out cap timeout|tid|tid|tid|tid addr]; simpl in Hs.
  - pose proof (push_spec w p Hw Ha) as Hp. destruct (closed (shared w)).
    + destruct Hp as (t & _ & Ht & _ & Hp). rewrite Hp in Hs. simplify_eq.
      by apply set_handles_inv.
    + rewrite Hp in Hs. simplify_eq. apply publish_inv; [done| |apply Hw].
      simpl. apply Forall_app. split; [apply Hw|]. by constructor.
  - simplify_eq. apply publish_inv; [done|apply Hw|apply Hw].
  - simplify_eq. apply publish_inv; [done|apply Hw|]. simpl. by apply Z.mod_pos_bound.
  - case_decide; [|done]. simplify_eq. by apply poller_inv.
  - case_decide; [|done]. by eapply poll_call_inv.
  - by eapply acquire_inv.
  - unfold spurious in Hs. destruct (threads w !! tid) as [th|] eqn:Hth; [|done].
    simpl in Hs. case_decide; [|done]. simplify_eq. apply unpark_inv; auto.
  - unfold time_out in Hs. destruct (threads w !! tid) as [th|] eqn:Hth; [|done].
    simpl in Hs. case_decide; [|done]. simplify_eq. apply unpark_inv; auto.
  - destruct (finish_drained _ _ _ _ _ Hs) as (th & b & c & Hth & Hph).
    destruct (finish_spec w tid addr th b c Hw Hth Hph) as (pe & b' & out' & _ & _ & Hf).
    rewrite Hf in Hs. simplify_eq. apply leave_inv; [done..|apply Hw].
Qed.

Lemma initial_inv w : initial w -> queue_inv w.
Proof.
  intros (Hs & Ht & Hst & Hp). split; rewrite ?Hs, ?Ht; try done.
  intros id b Hb. by apply Hp in Hb.
Qed.

Lemma run_inv w ls w' : queue_inv w -> run world_step w ls w' -> queue_inv w'.
Proof. intros Hw Hr. induction Hr; eauto using qstep_inv. Qed.

Lemma events_snoc ls l : events (ls ++ [l]) = events ls ++ l.2.
Proof. unfold events. rewrite bind_app. simpl. by rewrite app_nil_r. Qed.
End traces.

(** ** Lemmas: what flows through the queue *)

Section flow.
Context {T : Type} `{HandleStore T}.
Implicit Types (w : World T) (th : Thread).

Lemma accepted_app k l : accepted (k ++ l) = accepted k ++ accepted l.
Proof. apply omap_app. Qed.
Lemma rejected_app k l : rejected (k ++ l) = rejected k ++ rejected l.
Proof. apply omap_app. Qed.
Lemma taken_app k l : taken (k ++ l) = taken k ++ taken l.
Proof. apply bind_app. Qed.
Lemma taken_by_app id k l : taken_by id (k ++ l) = taken_by id k ++ taken_by id l.
Proof. apply bind_app. Qed.
Lemma returned_by_app id k l : returned_by id (k ++ l) = returned_by id k ++ returned_by id l.
Proof. apply bind_app. Qed.

(** The shapes a step can have, as far as the queue, the batches and the handles go. *)
Inductive effect w : World T -> list event -> Prop :=
| eff_reject p t :
    closed (shared w) = true -> pending_ok p -> store_ok t ->
    store_live t = without_handles (option_list (owned_handle p)) (store_live (handles w)) ->
    effect w (set_handles t w) [Rejected p]
| eff_publish st evs :
    queue st = queue (shared w) ++ accepted evs ->
    (closed (shared w) = true -> closed st = true /\ accepted evs = []) ->
    evs = Accepted <$> accepted evs ->
    effect w (notify_all (set_shared st w)) evs
| eff_poller id : pollers w !! id = None -> effect w (set_poller id poller_new w) []
| eff_answer id r out : effect w w [Returned id r out []]
| eff_enter tid id b out cap timeout :
    threads w !! tid = None -> pollers w !! id = Some {| buf := b; in_poll := false |} ->
    effect w (set_thread tid {| th_poller := id; th_out := out; th_cap := cap;
                                th_timeout := timeout; th_phase := Entered |}
               (set_poller id {| buf := b; in_poll := true |} w)) []
| eff_move tid th ph :
    threads w !! tid = Some th -> batch_of th = None -> batch_of (with_phase ph th) = None ->
    (ph = Parked -> closed (shared w) = false) ->
    effect w (set_thread tid (with_phase ph th) w) []
| eff_take tid th st n :
    threads w !! tid = Some th -> batch_of th = None ->
    queue st = drop n (queue (shared w)) -> closed st = closed (shared w) ->
    effect w (set_thread tid (with_phase (Drained (take n (queue (shared w))) (closed st)) th)
               (set_shared st w)) [Took (th_poller th) (take n (queue (shared w)))]
| eff_return tid th b c addr b0 b' out' r t :
    threads w !! tid = Some th -> th_phase th = Drained b c ->
    pollers w !! th_poller th = Some {| buf := b0; in_poll := true |} ->
    poll_finish b0 b c (th_out th) addr = Done (b', out', r) -> t = handles w ->
    effect w (set_handles t (end_thread tid
               (set_poller (th_poller th) {| buf := b'; in_poll := false |} w)))
      [Returned (th_poller th) r out' b].

Lemma acquire_effect w tid w' evs :
  queue_inv w -> acquire w tid = Some (w', evs) -> effect w w' evs.
Proof.
  intros Hw. unfold acquire. destruct (threads w !! tid) as [th|] eqn:Hth; [|done].
  cbn [mbind option_bind]. pose proof (qi_wakes w Hw) as Hwk.
  assert (Htake : forall st, queue st = queue (shared w) -> closed st = closed (shared w) ->
    batch_of th = None -> leave_loop w tid th st = Some (w', evs) -> effect w w' evs).
  { intros st Hq Hc Hb. rewrite leave_loop_spec. intros [= <- <-]. rewrite Hq.
    set (n := (_ `min` _)%nat).
    by apply (eff_take w tid th {| queue := drop n (queue (shared w)); wakes := wakes st;
                                   closed := closed st |} n). }
  assert (Hgo : batch_of th = None -> match poll_round (shared w) (th_timeout th) with
     | Some st => leave_loop w tid th st
     | None => Some (set_thread tid (with_phase Parked th) w, [])
     end = Some (w', evs) -> effect w w' evs).
  { intros Hb. destruct (poll_round _ _) as [st|] eqn:Hr.
    - apply poll_round_some in Hr as (? & ? & ? & ?); [|done]. by apply Htake.
    - apply poll_round_none in Hr as [(_ & Hcl & _) _]; [|done]. intros [= <- <-].
      by apply eff_move. }
  assert (Hb : batch_of th = match th_phase th with Drained b _ => Some b | _ => None end) by done.
  destruct (th_phase th); try done; [by apply Hgo..|by apply (Htake (shared w))].
Qed.

Lemma poll_call_effect w tid id out cap timeout w' evs :
  threads w !! tid = None -> poll_call w tid id out cap timeout = Some (w', evs) ->
  effect w w' evs.
Proof.
  unfold poll_call. intros Htid. destruct (pollers w !! id) as [[b flag]|] eqn:Hid; [|done].
  cbn [mbind option_bind in_poll buf].
  case_decide; [intros [= <- <-]; apply eff_answer|].
  destruct out as [slots|]; [|intros [= <- <-]; apply eff_answer].
  destruct flag; intros [= <- <-]; [apply eff_answer|]. by apply eff_enter.
Qed.

Lemma finish_effect w tid addr w' evs :
  queue_inv w -> finish w tid addr = Some (w', evs) -> effect w w' evs.
Proof.
  intros Hw Hs. destruct (finish_drained _ _ _ _ _ Hs) as (th & b & c & Hth & Hph).
  destruct (finish_spec w tid addr th b c Hw Hth Hph) as (pe & b' & out' & Hpe & Hpf & Hf).
  rewrite Hf in Hs. injection Hs as <- <-.
  destruct (qi_thread w Hw tid th Hth) as ([b0 Hb0] & _).
  rewrite Hb0 in Hpe. injection Hpe as <-. by eapply eff_return.
Qed.

Lemma step_effect w l w' : queue_inv w -> world_step w l w' -> effect w w' l.2.
Proof.
  destruct l as [a evs]. intros Hw [Ha Hs]. simpl in *.
  destruct a as [p| | |id|tid id out cap timeout|tid|tid|tid|tid addr]; simpl in Hs.
  - pose proof (push_spec w p Hw Ha) as Hp. destruct (closed (shared w)) eqn:Hc.
    + destruct Hp as (t & _ & Ht & Hl & Hp). rewrite Hp in Hs. simplify_eq. by apply eff_reject.
    + rewrite Hp in Hs. simplify_eq. by apply eff_publish; simpl; rewrite ?Hc.
  - simplify_eq. apply eff_publish; simpl; by rewrite ?app_nil_r.
  - simplify_eq. apply eff_publish; simpl; by rewrite ?app_nil_r.
  - case_decide; [|done]. simplify_eq. by apply eff_poller.
  - case_decide; [|done]. by eapply poll_call_effect.
  - by eapply acquire_effect.
  - unfold spurious in Hs. destruct (threads w !! tid) as [th|] eqn:Hth; [|done].
    simpl in Hs. case_decide as Hp; [|done]. simplify_eq.
    apply eff_move; [done| |done..]. unfold batch_of. by rewrite Hp.
  - unfold time_out in Hs. destruct (threads w !! tid) as [th|] eqn:Hth; [|done].
    simpl in Hs. case_decide as Hp; [|done]. destruct Hp as [Hp _]. simplify_eq.
    apply eff_move; [done| |done..]. unfold batch_of. by rewrite Hp.
  - by eapply finish_effect.
Qed.

Lemma accepted_silent (ps : list Pending) id :
  taken (Accepted <$> ps) = [] /\ taken_by id (Accepted <$> ps) = [] /\
  returned_by id (Accepted <$> ps) = [] /\ rejected (Accepted <$> ps) = [].
Proof. by induction ps. Qed.

Lemma taken_by_took id i b : taken_by id [Took i b] = if decide (i = id) then b else [].
Proof. apply app_nil_r. Qed.
Lemma returned_by_returned id i r out b :
  returned_by id [Returned i r out b] = if decide (i = id) then b else [].
Proof. apply app_nil_r. Qed.

Lemma flow_queue w w' evs :
  effect w w' evs -> queue (shared w) ++ accepted evs = taken evs ++ queue (shared w').
Proof.
  intros He. destruct He as [| st evs Hq _ Ha | | | | |tid th st n _ _ Hq _|]; simpl;
    rewrite ?app_nil_r; try done.
  - rewrite Hq, Ha at 1. rewrite <- Ha. destruct (accepted_silent (accepted evs) 1) as (Ht & _).
    rewrite <- Ha in Ht. by rewrite Ht.
  - by rewrite Hq, take_drop.
Qed.

Lemma flow_handles w w' evs :
  effect w w' evs ->
  store_live (handles w') =
    without_handles (omap owned_handle (rejected evs)) (store_live (handles w)).
Proof.
  intros He. destruct He as [p t _ _ _ Hl| st evs Hq _ Ha | | | | | |]; simpl;
    rewrite ?without_nothing; subst; try done.
  destruct (accepted_silent (accepted evs) 1) as (_ & _ & _ & Hr). rewrite <- Ha in Hr.
  by rewrite Hr, without_nothing.
Qed.

Lemma flow_buf w w' evs id pe :
  effect w w' evs -> returned_by id evs = [] -> pollers w !! id = Some pe ->
  exists pe', pollers w' !! id = Some pe' /\ buf pe' = buf pe.
Proof.
  intros He Hr Hpe.
  destruct He as [ | | id' Hid | | tid id' b out cap timeout Htid Hid | | |
                  tid th b c addr b0 b' out' r t Hth Hph Hb0 Hpf Ht]; simpl; eauto.
  - rewrite lookup_insert_ne by congruence. eauto.
  - rewrite lookup_insert. case_decide; naive_solver.
  - rewrite lookup_insert. rewrite returned_by_returned in Hr. case_decide; [|eauto]. subst b id.
    unfold poll_finish in Hpf. rewrite decide_True in Hpf by done.
    injection Hpf as <- _ _. rewrite Hb0 in Hpe. injection Hpe as <-. eauto.
Qed.

Lemma batch_of_notify th : batch_of (notify th) = batch_of th /\ th_poller (notify th) = th_poller th.
Proof. unfold notify, batch_of. case_decide as Hp; [simpl|]; by rewrite ?Hp. Qed.

(** Replacing a thread without a batch by another without one changes no batch in flight. *)
Lemma in_flight_insert w w' tid th id b :
  threads w' = <[tid := th]> (threads w) -> batch_of th = None ->
  (forall x, threads w !! tid = Some x -> batch_of x = None) ->
  in_flight w id b -> in_flight w' id b.
Proof.
  intros Hw' Hb Hold [(i & x & Hx & Hid & Hxb)|[-> Hno]]; [left|right; split; [done|]].
  - exists i, x. rewrite Hw', lookup_insert_ne; [done|]. intros <-. apply Hold in Hx. congruence.
  - intros i x. rewrite Hw', lookup_insert. case_decide; [by intros [= <-]|]. apply Hno.
Qed.

Lemma in_flight_unique w id b b' :
  queue_inv w -> in_flight w id b -> in_flight w id b' -> b = b'.
Proof.
  intros Hw [(i & x & Hx & Hid & Hb)|[-> Hno]] [(j & y & Hy & Hjd & Hb')|[-> Hno']]; try done.
  - assert (i = j) as -> by (eapply (qi_single w Hw); [done|done|congruence]). congruence.
  - specialize (Hno' i x Hx Hid). congruence.
  - specialize (Hno j y Hy Hjd). congruence.
Qed.

Lemma flow_poller w w' evs id b :
  queue_inv w -> effect w w' evs -> in_flight w id b ->
  exists b', in_flight w' id b' /\ b ++ taken_by id evs = returned_by id evs ++ b'.
Proof.
  intros Hw He Hf.
  destruct He as [ | st evs Hq _ Ha | | id' r out | tid id' b1 out cap timeout Htid Hid
                 | tid th ph Hth Hb Hb' _ | tid th st n Hth Hb _ _
                 | tid th b1 c addr b0 b' out' r t Hth Hph Hb0 Hpf Ht].
  - exists b. by rewrite app_nil_r.
  - exists b. destruct (accepted_silent (accepted evs) id) as (_ & Ht & Hr & _).
    rewrite <- Ha in Ht, Hr. rewrite Ht, Hr, app_nil_r. split; [|done].
    destruct Hf as [(i & x & Hx & Hid & Hxb)|[-> Hno]]; [left|right; split; [done|]].
    + exists i, (notify x). destruct (batch_of_notify x) as [-> ->]. simpl.
      by rewrite lookup_fmap, Hx.
    + intros i x. simpl. rewrite lookup_fmap. intros (y & Hy & ->)%fmap_Some.
      destruct (batch_of_notify y) as [-> ->]. eauto.
  - exists b. by rewrite app_nil_r.
  - exists b. rewrite app_nil_r, returned_by_returned. split; [done|]. by case_decide.
  - exists b. rewrite app_nil_r. split; [|done].
    eapply in_flight_insert; [done|done| |done]. intros x. simpl. by rewrite Htid.
  - exists b. rewrite app_nil_r. split; [|done].
    eapply in_flight_insert; [done|done| |done]. intros x. simpl. rewrite Hth. by intros [= <-].
  - rewrite taken_by_took. case_decide as Hid.
    + assert (b = []) as ->.
      { destruct Hf as [(i & x & Hx & Hxid & Hxb)|[-> _]]; [|done].
        assert (i = tid) as -> by (eapply (qi_single w Hw); [done|done|congruence]).
        congruence. }
      eexists. split; [|done]. left. exists tid. eexists. simpl. rewrite lookup_insert_eq. done.
    + exists b. rewrite app_nil_r. split; [|done].
      destruct Hf as [(i & x & Hx & Hxid & Hxb)|[-> Hno]]; [left|right; split; [done|]].
      * exists i, x. simpl. rewrite lookup_insert_ne; [done|]. intros <-. congruence.
      * intros i x. simpl. rewrite lookup_insert. case_decide; [by intros [= <-]|]. apply Hno.
  - rewrite returned_by_returned. case_decide as Hid.
    + assert (b = b1) as ->.
      { eapply (in_flight_unique w id); [done..|]. left. exists tid, th. split; [done|].
        split; [done|]. unfold batch_of. by rewrite Hph. }
      exists []. rewrite !app_nil_r. split; [|done]. right. split; [done|].
      intros i x. simpl. intros [Hi Hx]%lookup_delete_Some Hxid. exfalso. apply Hi.
      symmetry. eapply (qi_single w Hw); [done|done|congruence].
    + exists b. rewrite app_nil_r. split; [|done].
      destruct Hf as [(i & x & Hx & Hxid & Hxb)|[-> Hno]]; [left|right; split; [done|]].
      * exists i, x. simpl. rewrite lookup_delete_ne; [done|]. intros <-. congruence.
      * intros i x. simpl. intros [_ Hx]%lookup_delete_Some. by apply (Hno i).
Qed.

Lemma flow_closed w w' evs :
  effect w w' evs -> closed (shared w) = true ->
  closed (shared w') = true /\ accepted evs = [] /\
  ((forall tid th, threads w !! tid = Some th -> th_phase th <> Parked) ->
   (forall tid th, threads w' !! tid = Some th -> th_phase th <> Parked)).
Proof.
  intros He Hc.
  destruct He as [ | st evs Hq Hcl Ha | | id' r out | tid id' b1 out cap timeout Htid Hid
                 | tid th ph Hth Hb Hb' Hpk | tid th st n Hth Hb _ Hcl
                 | tid th b1 c addr b0 b' out' r t Hth Hph Hb0 Hpf Ht]; simpl; try done.
  - destruct (Hcl Hc). split; [done|]. split; [done|]. intros Hno i x.
    rewrite lookup_fmap. intros (y & Hy & ->)%fmap_Some. unfold notify.
    case_decide; [done|]. eauto.
  - do 2 (split; [done|]). intros Hno i x. rewrite lookup_insert.
    case_decide; [by intros [= <-]|eauto].
  - do 2 (split; [done|]). intros Hno i x. rewrite lookup_insert.
    case_decide; [intros [= <-]; simpl; intros ->; by rewrite Hpk in Hc|eauto].
  - split; [congruence|]. split; [done|]. intros Hno i x. rewrite lookup_insert.
    case_decide; [by intros [= <-]|eauto].
  - do 2 (split; [done|]). intros Hno i x [_ Hx]%lookup_delete_Some. eauto.
Qed.
(** The flow along a whole run. *)
Lemma run_flow w0 ls w id :
  initial w0 -> run world_step w0 ls w ->
  accepted (events ls) = taken (events ls) ++ queue (shared w) /\
  exists batch, in_flight w id batch /\
    taken_by id (events ls) = returned_by id (events ls) ++ batch.
Proof.
  intros H0 Hr. pose proof (initial_inv _ H0) as Hw0. destruct H0 as (Hs & Ht & _).
  induction Hr as [w|w ls w1 l w2 Hr IH Hstep].
  - rewrite Hs. split; [done|]. exists []. split; [|done]. right. split; [done|].
    intros tid th. by rewrite Ht.
  - destruct IH as (Hacc & batch & Hf & Hid); [done..|].
    pose proof (run_inv _ _ _ Hw0 Hr) as Hw1. pose proof (step_effect _ _ _ Hw1 Hstep) as He.
    rewrite events_snoc, accepted_app, taken_app, taken_by_app, returned_by_app. split.
    + rewrite Hacc, <- app_assoc, (flow_queue _ _ _ He). by rewrite app_assoc.
    + destruct (flow_poller _ _ _ id batch Hw1 He Hf) as (batch' & Hf' & Heq).
      exists batch'. split; [done|]. by rewrite Hid, <- app_assoc, Heq, app_assoc.
Qed.

End flow.

(** ** A sample schedule *)

(** One poller on a fresh queue, its slab grown by earlier polls, with a runtime and its client in
    the handle table. *)
Definition sample_buf : BatchBuf := {| base := 64; bytes := replicate 8 Byte.xff; used := 5 |}.
Definition sample_world : World Table :=
  {| shared := queue_new; pollers := {[ 1%positive := {| buf := sample_buf; in_poll := false |} ]};
     threads := ∅;
     handles := sample_table |}.
Definition sample_slots : list KtCompletion := [sample_completion; sample_completion].
Definition connected : Pending :=
  with_aux0 sample_client (with_kind ClientConnected (pending_ack 5)).
Definition greeting : Pending := with_payload [x68; x69] (pending_ack 7).

(** A thread parks, a push wakes it, it returns the batch; the queue closes, and the client
    creation that comes too late is rejected. *)
Definition sample_schedule : list action :=
  [ACall 1 1 (Some sample_slots) 2 (-1); AAcquire 1; APush greeting; AAcquire 1; AFinish 1 64;
   AClose; APush connected].
Definition sample_state (n : nat) : World Table :=
  default sample_world (fst <$> exec qstep sample_world (take n sample_schedule)).
Definition sample_trace (n : nat) : list (action * list event) :=
  default [] (snd <$> exec qstep sample_world (take n sample_schedule)).

Lemma sample_world_initial : initial sample_world.
Proof.
  split; [done|]. split; [done|]. split.
  - by destruct (run_table_inv _ _ _ table_new_inv sample_run).
  - intros id pe. simpl. by intros [<- <-]%lookup_singleton_Some.
Qed.

Lemma sample_prefix n : run world_step sample_world (sample_trace n) (sample_state n).
Proof.
  unfold sample_trace, sample_state.
  pose proof (exec_run qstep (fun _ => action_ok) sample_world (take n sample_schedule)) as He.
  assert (exec_ok qstep (fun _ => action_ok) sample_world (take n sample_schedule)) as Hok.
  { do 8 (destruct n as [|n]; [vm_compute; intuition congruence|]). vm_compute; intuition congruence. }
  destruct (exec _ _ _) as [[w ls]|]; simpl; [by apply He|constructor].
Qed.

(** ** Properties *)

Section properties.
Context {T : Type} `{HandleStore T}.
Implicit Types (w : World T) (th : Thread).

(** C11 No wakeup is lost, whatever the interleaving of pushes, wakes, closes, timeouts and
    spurious wakeups.  A thread is blocked in the wait only while the queue is empty and open
    with no wake pending, and never in a zero-timeout poll; every thread inside [poll] that is
    not blocked has its next step enabled, and if there is anything to act on, that step leaves
    the loop; a thread that left the loop returns. *)
Theorem poll_never_misses_a_signal w0 ls w tid th addr :
  initial w0 -> run world_step w0 ls w -> threads w !! tid = Some th ->
  match th_phase th with
  | Parked => queue (shared w) = [] /\ closed (shared w) = false /\ wakes (shared w) = 0 /\
      th_timeout th <> 0
  | Entered | Signalled => exists w' evs, qstep w (AAcquire tid) = Some (w', evs) /\
      (queue (shared w) <> [] \/ closed (shared w) = true \/ wakes (shared w) <> 0 \/
       th_timeout th = 0 ->
       exists batch c, evs = [Took (th_poller th) batch] /\
         threads w' !! tid = Some (with_phase (Drained batch c) th))
  | TimedOut => exists w' batch c,
      qstep w (AAcquire tid) = Some (w', [Took (th_poller th) batch]) /\
      threads w' !! tid = Some (with_phase (Drained batch c) th)
  | Drained batch c => exists w' r out,
      qstep w (AFinish tid addr) = Some (w', [Returned (th_poller th) r out batch]) /\
      threads w' !! tid = None
  end.
Proof.
  intros H0 Hr Hth. pose proof (run_inv _ _ _ (initial_inv _ H0) Hr) as Hw.
  destruct (qi_thread w Hw tid th Hth) as (Hb & Hc & Hl & Hp).
  pose proof (qi_wakes w Hw) as Hwk.
  assert (Hleave : forall st, exists w' batch c, leave_loop w tid th st = Some (w', [Took (th_poller th) batch])
    /\ threads w' !! tid = Some (with_phase (Drained batch c) th)).
  { intros st. rewrite leave_loop_spec. eexists _, _, _. split; [done|]. simpl.
    apply lookup_insert_eq. }
  assert (Hround : exists w' evs, match poll_round (shared w) (th_timeout th) with
      | Some st => leave_loop w tid th st
      | None => Some (set_thread tid (with_phase Parked th) w, []) end = Some (w', evs) /\
      (queue (shared w) <> [] \/ closed (shared w) = true \/ wakes (shared w) <> 0 \/
       th_timeout th = 0 ->
       exists batch c, evs = [Took (th_poller th) batch] /\
         threads w' !! tid = Some (with_phase (Drained batch c) th))).
  { destruct (poll_round _ _) as [st|] eqn:E.
    - destruct (Hleave st) as (w' & batch & c & -> & ?). eauto 10.
    - apply poll_round_none in E as [(Hq & Hcl & Hz) Ht]; [|done].
      eexists _, _. split; [done|]. intros [|[|[|]]]; congruence. }
  destruct (th_phase th) as [ | | | |batch c] eqn:Hph; cbn [qstep]; unfold acquire;
    rewrite ?Hth; cbn [mbind option_bind]; rewrite ?Hph; try done.
  destruct (finish_spec w tid addr th batch c Hw Hth Hph) as (pe & b' & out' & _ & _ & ->).
  eexists _, _, _. split; [done|]. simpl. apply lookup_delete_eq.
Qed.

(** C15 Every accepted completion is delivered exactly once, in order.  In every reachable state
    the accepted completions, in the order of the pushes, are the ones pollers took followed by
    the ones still queued; and what one poller took is what its polls returned, in order,
    followed by the one batch it is still copying out. *)
Theorem completions_fifo_exactly_once w0 ls w id :
  initial w0 -> run world_step w0 ls w ->
  accepted (events ls) = taken (events ls) ++ queue (shared w) /\
  exists batch, in_flight w id batch /\
    taken_by id (events ls) = returned_by id (events ls) ++ batch.
Proof. apply run_flow. Qed.

(** C22 A returned batch is intact, and stays so until the poller's next one.  The copy never
    indexes out of the slab, so [poll] never unwinds; the number returned is the batch's length,
    at most [cap]; record [j] carries completion [j] field by field, its payload pointer leads to
    exactly its payload (null for an empty one), slots past the batch are untouched; and all of
    it still holds after any further steps of any threads during which this poller returns no
    new batch. *)
Theorem batch_payloads_intact w0 ls w tid addr w1 evs ls' w2 :
  initial w0 -> run world_step w0 ls w ->
  world_step w (AFinish tid addr, evs) w1 -> run world_step w1 ls' w2 ->
  exists th batch c r out,
    threads w !! tid = Some th /\ th_phase th = Drained batch c /\
    evs = [Returned (th_poller th) r out batch] /\
    (batch <> [] -> r = Ok (Z.of_nat (length batch))) /\
    Z.of_nat (length batch) <= th_cap th /\ length out = length (th_out th) /\
    (forall j, (length batch <= j)%nat -> out !! j = th_out th !! j) /\
    (returned_by (th_poller th) (events ls') = [] ->
     exists pe, pollers w2 !! th_poller th = Some pe /\
       forall j p, batch !! j = Some p ->
         exists rec, out !! j = Some rec /\ carries (buf pe) rec p).
Proof.
  intros H0 Hr [_ Hs] Hlater. pose proof (run_inv _ _ _ (initial_inv _ H0) Hr) as Hw.
  cbn [fst snd qstep] in Hs.
  destruct (finish_drained _ _ _ _ _ Hs) as (th & batch & c & Hth & Hph).
  destruct (finish_spec w tid addr th batch c Hw Hth Hph) as (pe & b' & out & Hpe & Hpf & Hf).
  destruct (qi_thread w Hw tid th Hth) as (_ & Hcap & Hlen & Hp). rewrite Hph in Hp.
  destruct Hp as [Hb _].
  destruct (poll_finish_spec (buf pe) batch c (th_out th) addr)
    as (b'' & out'' & Hpf' & Hlo & Hrec & Hrest); [lia|lia|].
  rewrite Hpf in Hpf'. injection Hpf' as <- <-.
  pose proof (finish_effect _ _ _ _ _ Hw Hs) as He.
  assert (queue_inv w1) as Hw1.
  { apply (qstep_inv w (AFinish tid addr, evs) w1 Hw). by split. }
  rewrite Hf in Hs. injection Hs as Hw1' Hevs.
  eexists th, batch, c, _, out. do 2 (split; [done|]). split; [by symmetry|].
  split; [intros; by rewrite decide_False|]. do 3 (split; [done|]).
  intros Hquiet.
  assert (exists pe', pollers w2 !! th_poller th = Some pe' /\ buf pe' = b') as (pe' & Hpe' & Hbuf).
  { clear Hevs. induction Hlater as [w1|w1 ls' w2 l w3 Hr' IH Hstep].
    - subst w1. simpl. rewrite lookup_insert_eq. eauto.
    - rewrite events_snoc, returned_by_app in Hquiet. apply app_nil in Hquiet as [Hq1 Hq2].
      destruct IH as (pe1 & Hpe1 & Hbuf1); [done..|].
      pose proof (step_effect _ _ _ (run_inv _ _ _ Hw1 Hr') Hstep) as He'.
      destruct (flow_buf _ _ _ _ _ He' Hq2 Hpe1) as (pe2 & Hpe2 & Hbuf2).
      exists pe2. split; [done|]. congruence. }
  exists pe'. split; [done|]. by rewrite Hbuf.
Qed.

(** A poller is used by one thread at a time, and never gets stuck busy.  Two threads inside
    [poll] are on different pollers; a call on a poller another thread is inside is refused
    without any effect; and a call on a poller no thread is inside is let in. *)
Theorem one_thread_per_poller w0 ls w tid id out cap timeout pe :
  initial w0 -> run world_step w0 ls w -> threads w !! tid = None -> cap <> 0 ->
  pollers w !! id = Some pe ->
  (forall t t' th th', threads w !! t = Some th -> threads w !! t' = Some th' -> t <> t' ->
     th_poller th <> th_poller th') /\
  ((exists t th, threads w !! t = Some th /\ th_poller th = id) ->
   qstep w (ACall tid id (Some out) cap timeout) = Some (w, [Returned id (Err poller_busy) out []])) /\
  ((forall t th, threads w !! t = Some th -> th_poller th <> id) ->
   exists w' th, qstep w (ACall tid id (Some out) cap timeout) = Some (w', []) /\
     threads w' = <[tid := th]> (threads w) /\ th_phase th = Entered /\ th_poller th = id).
Proof.
  intros H0 Hr Htid Hcap Hid. pose proof (run_inv _ _ _ (initial_inv _ H0) Hr) as Hw.
  split; [|split].
  - intros t t' th th' H1 H2 Hne He. apply Hne. by eapply (qi_single w Hw).
  - intros (t & th & Hth & Hthid). destruct (qi_thread w Hw t th Hth) as ([b Hb] & _).
    simpl. rewrite decide_True by done. unfold poll_call. rewrite <- Hthid, Hb. simpl.
    by rewrite decide_False.
  - intros Hno. simpl. rewrite decide_True by done. unfold poll_call. rewrite Hid. simpl.
    rewrite decide_False by done. destruct pe as [b flag]. destruct flag.
    + destruct (qi_flag w Hw id b Hid) as (t & th & Hth & Hthid). by destruct (Hno t th Hth).
    + simpl. eexists _, _. split; [done|]. done.
Qed.

(** A full poll of a closed queue by a thread that has the poller to itself. *)
Lemma closed_poll w tid id b out cap timeout addr :
  queue_inv w -> closed (shared w) = true -> threads w !! tid = None ->
  pollers w !! id = Some {| buf := b; in_poll := false |} ->
  0 < cap < 2 ^ 32 -> cap <= Z.of_nat (length out) ->
  let n := (Z.to_nat cap `min` length (queue (shared w)))%nat in
  let batch := take n (queue (shared w)) in
  exists w' out',
    exec qstep w [ACall tid id (Some out) cap timeout; AAcquire tid; AFinish tid addr] =
      Some (w', [(ACall tid id (Some out) cap timeout, []); (AAcquire tid, [Took id batch]);
                 (AFinish tid addr,
                  [Returned id (if decide (queue (shared w) = []) then Err Shutdown
                                else Ok (Z.of_nat n)) out' batch])]).
Proof.
  intros Hw Hc Htid Hid Hcap Hout n batch. cbn [exec qstep].
  rewrite decide_True by done. unfold poll_call. rewrite Hid. cbn [mbind option_bind in_poll buf].
  rewrite decide_False by lia.
  pose proof (enter_inv w tid id b out cap timeout Hw Htid Hid Hcap Hout) as Hw1.
  set (w1 := set_thread tid _ _) in *. cbn [mbind option_bind].
  set (th := {| th_poller := id; th_out := out; th_cap := cap; th_timeout := timeout;
                th_phase := Entered |}) in *.
  assert (threads w1 !! tid = Some th) as Hth by apply lookup_insert_eq.
  unfold acquire at 1. rewrite Hth. cbn [mbind option_bind th_phase th].
  unfold poll_round. rewrite decide_True by (right; done). rewrite leave_loop_spec.
  cbn [mbind option_bind].
  set (w2 := set_thread tid _ _).
  assert (queue_inv w2) as Hw2.
  { eapply (qstep_inv w1 (AAcquire tid, _)); [done|]. split; [done|]. cbn [fst snd qstep].
    unfold acquire. rewrite Hth. cbn [mbind option_bind th_phase th].
    unfold poll_round. rewrite decide_True by (right; done). by rewrite leave_loop_spec. }
  destruct (finish_spec w2 tid addr (with_phase (Drained batch (closed (shared w))) th)
              batch (closed (shared w)) Hw2) as (pe & b' & out' & _ & _ & Hf);
    [apply lookup_insert_eq|done|].
  rewrite Hf. cbn [mbind option_bind]. eexists _, out'. f_equal. f_equal.
  repeat f_equal. rewrite Hc. subst batch. unfold n.
  destruct (queue (shared w)) as [|p q]; [by rewrite take_nil|].
  replace (Z.to_nat cap) with (S (Z.to_nat cap - 1)) by lia. cbn [length Nat.min take].
  rewrite !decide_False by done. do 2 f_equal. cbn [length]. rewrite length_take. lia.
Qed.

(** Closing is permanent and blocks nobody.  From a closed state on, whatever the threads do:
    the queue stays closed, accepts nothing and only drains in order, no thread is or becomes
    blocked, and a poll by a thread that has the poller to itself runs to completion without
    waiting, even with no timeout, returning the next completions while there are any and
    [Shutdown], never an empty success, once there are none. *)
Theorem close_is_sticky w0 ls w ls' w' tid id b out cap timeout addr :
  initial w0 -> run world_step w0 ls w -> closed (shared w) = true ->
  run world_step w ls' w' ->
  threads w' !! tid = None -> pollers w' !! id = Some {| buf := b; in_poll := false |} ->
  0 < cap < 2 ^ 32 -> cap <= Z.of_nat (length out) ->
  closed (shared w') = true /\ accepted (events ls') = [] /\
  queue (shared w) = taken (events ls') ++ queue (shared w') /\
  (forall t th, threads w' !! t = Some th -> th_phase th <> Parked) /\
  let n := (Z.to_nat cap `min` length (queue (shared w')))%nat in
  let batch := take n (queue (shared w')) in
  exists w'' out',
    exec qstep w' [ACall tid id (Some out) cap timeout; AAcquire tid; AFinish tid addr] =
      Some (w'', [(ACall tid id (Some out) cap timeout, []); (AAcquire tid, [Took id batch]);
                  (AFinish tid addr,
                   [Returned id (if decide (queue (shared w') = []) then Err Shutdown
                                 else Ok (Z.of_nat n)) out' batch])]).
Proof.
  intros H0 Hr Hc Hr' Htid Hid Hcap Hout.
  pose proof (run_inv _ _ _ (initial_inv _ H0) Hr) as Hw.
  assert (closed (shared w') = true /\ accepted (events ls') = [] /\
    queue (shared w) = taken (events ls') ++ queue (shared w') /\
    (forall t th, threads w' !! t = Some th -> th_phase th <> Parked))
    as (Hc' & Ha & Hq & Hno).
  { clear Htid Hid. induction Hr' as [w|w ls' w1 l w2 Hr' IH Hstep].
    - split_and!; try done. intros t th Hth Hp.
      destruct (qi_thread w Hw t th Hth) as (_ & _ & _ & Hph). rewrite Hp in Hph.
      destruct Hph as (_ & ? & _). congruence.
    - destruct IH as (Hc1 & Ha1 & Hq1 & Hno1); [done..|].
      pose proof (step_effect _ _ _ (run_inv _ _ _ Hw Hr') Hstep) as He.
      destruct (flow_closed _ _ _ He Hc1) as (Hc2 & Ha2 & Hno2).
      pose proof (flow_queue _ _ _ He) as Hf. rewrite Ha2, app_nil_r in Hf.
      rewrite events_snoc, accepted_app, taken_app, Ha1, Ha2. split_and!; try done; [|eauto].
      by rewrite Hq1, Hf, app_assoc. }
  split_and!; try done. apply (closed_poll w' tid id b); try done. by eapply run_inv.
Qed.

(** C31 A creation's handle has exactly one owner.  Along any run the handle table loses exactly
    the handles of the successful creations whose push was rejected by a closed queue; nothing
    delivered or being delivered loses its handle to the bridge; and dropping an undrained queue
    releases exactly the handles still queued, without panicking. *)
Theorem creation_handles_owned_once w0 ls w :
  initial w0 -> run world_step w0 ls w ->
  store_live (handles w) =
    without_handles (omap owned_handle (rejected (events ls))) (store_live (handles w0)) /\
  exists t, drop_all (queue (shared w)) (handles w) = Done t /\
    store_live t = without_handles (omap owned_handle (queue (shared w))) (store_live (handles w)).
Proof.
  intros H0 Hr. pose proof (initial_inv _ H0) as Hw0. split.
  - clear H0. induction Hr as [w|w ls w1 l w2 Hr IH Hstep]; [by rewrite without_nothing|].
    pose proof (step_effect _ _ _ (run_inv _ _ _ Hw0 Hr) Hstep) as He.
    rewrite (flow_handles _ _ _ He), IH, without_handles_app by done.
    by rewrite events_snoc, rejected_app, omap_app.
  - pose proof (run_inv _ _ _ Hw0 Hr) as Hw.
    destruct (drop_all_spec (queue (shared w)) (handles w) (qi_store w Hw) (qi_queue w Hw))
      as (t & ? & _ & ?). eauto.
Qed.
End properties.

Lemma poll_never_misses_a_signal_witness :
  exists w' evs, qstep (sample_state 3) (AAcquire 1) = Some (w', evs) /\
    (queue (shared (sample_state 3)) <> [] \/ closed (shared (sample_state 3)) = true \/
     wakes (shared (sample_state 3)) <> 0 \/ -1 = 0 ->
     exists batch c, evs = [Took 1 batch] /\
       threads w' !! 1%positive =
         Some {| th_poller := 1; th_out := sample_slots; th_cap := 2; th_timeout := -1;
                 th_phase := Drained batch c |}).
Proof.
  apply (poll_never_misses_a_signal sample_world (sample_trace 3) (sample_state 3) 1
    {| th_poller := 1; th_out := sample_slots; th_cap := 2; th_timeout := -1;
       th_phase := Signalled |} 0 sample_world_initial (sample_prefix 3)).
  reflexivity.
Defined.

Lemma completions_fifo_exactly_once_witness :
  accepted (events (sample_trace 4)) =
    taken (events (sample_trace 4)) ++ queue (shared (sample_state 4)) /\
  exists batch, in_flight (sample_state 4) 1 batch /\
    taken_by 1 (events (sample_trace 4)) = returned_by 1 (events (sample_trace 4)) ++ batch.
Proof.
  apply (completions_fifo_exactly_once sample_world); [apply sample_world_initial|apply sample_prefix].
Defined.

Lemma batch_payloads_intact_witness :
  exists th batch c r out,
    threads (sample_state 4) !! 1%positive = Some th /\ th_phase th = Drained batch c /\
    [Returned 1 (Ok 1) [completion_record greeting 64 2; sample_completion] [greeting]]
      = [Returned (th_poller th) r out batch] /\
    (batch <> [] -> r = Ok (Z.of_nat (length batch))) /\
    Z.of_nat (length batch) <= th_cap th /\ length out = length (th_out th) /\
    (forall j, (length batch <= j)%nat -> out !! j = th_out th !! j) /\
    (returned_by (th_poller th) (events []) = [] ->
     exists pe, pollers (sample_state 5) !! th_poller th = Some pe /\
       forall j p, batch !! j = Some p ->
         exists rec, out !! j = Some rec /\ carries (buf pe) rec p).
Proof.
  apply (batch_payloads_intact sample_world (sample_trace 4) (sample_state 4) 1 64
    (sample_state 5)); [apply sample_world_initial|apply sample_prefix| |constructor].
  split; [done|]. vm_compute. reflexivity.
Defined.

Lemma one_thread_per_poller_witness :
  (forall t t' th th', threads (sample_state 1) !! t = Some th ->
     threads (sample_state 1) !! t' = Some th' -> t <> t' -> th_poller th <> th_poller th') /\
  ((exists t th, threads (sample_state 1) !! t = Some th /\ th_poller th = 1%positive) ->
   qstep (sample_state 1) (ACall 2 1 (Some sample_slots) 1 0)
     = Some (sample_state 1, [Returned 1 (Err poller_busy) sample_slots []])) /\
  ((forall t th, threads (sample_state 1) !! t = Some th -> th_poller th <> 1%positive) ->
   exists w' th, qstep (sample_state 1) (ACall 2 1 (Some sample_slots) 1 0) = Some (w', []) /\
     threads w' = <[2%positive := th]> (threads (sample_state 1)) /\ th_phase th = Entered /\
     th_poller th = 1%positive).
Proof.
  apply (one_thread_per_poller sample_world (sample_trace 1) (sample_state 1) 2 1 sample_slots 1 0
    {| buf := sample_buf; in_poll := true |}); [apply sample_world_initial|apply sample_prefix|done..].
Defined.

Lemma close_is_sticky_witness :
  let w := sample_state 6 in
  let w' := sample_state 6 in
  let n := (Z.to_nat 2 `min` length (queue (shared w')))%nat in
  let batch := take n (queue (shared w')) in
  closed (shared w') = true /\ accepted (events []) = [] /\
  queue (shared w) = taken (events []) ++ queue (shared w') /\
  (forall t th, threads w' !! t = Some th -> th_phase th <> Parked) /\
  exists w'' out',
    exec qstep w' [ACall 1 1 (Some sample_slots) 2 (-1); AAcquire 1; AFinish 1 0] =
      Some (w'', [(ACall 1 1 (Some sample_slots) 2 (-1), []); (AAcquire 1, [Took 1 batch]);
                  (AFinish 1 0,
                   [Returned 1 (if decide (queue (shared w') = []) then Err Shutdown
                                else Ok (Z.of_nat n)) out' batch])]).
Proof.
  pose proof (close_is_sticky sample_world (sample_trace 6) (sample_state 6) [] (sample_state 6)
    1 1 (default buf_default (buf <$> pollers (sample_state 6) !! 1%positive))
    sample_slots 2 (-1) 0 sample_world_initial (sample_prefix 6)) as Hs.
  apply Hs; [reflexivity|constructor|reflexivity|reflexivity|lia|reflexivity].
Defined.

Lemma creation_handles_owned_once_witness :
  store_live (handles (sample_state 7)) =
    without_handles (omap owned_handle (rejected (events (sample_trace 7))))
      (store_live (handles sample_world)) /\
  exists t, drop_all (queue (shared (sample_state 7))) (handles (sample_state 7)) = Done t /\
    store_live t = without_handles (omap owned_handle (queue (shared (sample_state 7))))
      (store_live (handles (sample_state 7))).
Proof.
  apply (creation_handles_owned_once sample_world); [apply sample_world_initial|apply sample_prefix].
Defined.
