(* ===== verification/Runtime.v ===== *)
(** Requests, and the shutdown that answers all of them ([runtime.rs], lines 21 to 92 and 164 to
    234).

    A runtime's state is its completion queue (the [World] of [Queue.v], used through its own
    operations), the pending table with the mutex around it, the cancellation tokens, the tasks the
    tracker counts, and how far [free_runtime] has got.  A task is one call of [spawn_request]; the
    operation it races against its token is the environment's, so a poll of the task says whether
    the operation is ready, and with what.  Every stretch of code under the pending mutex is one
    transition, except the shutdown drain, which holds the mutex over several queue operations:
    while it runs, nothing else that needs the mutex is enabled. *)

From S2P Require Import Prelude Abi KtError Panic Handle Queue.

(** Marks a completion as belonging to a pushed event rather than a request. *)
Definition PUSHED : Z := 0.

(** Where a call of [spawn_request] stands. *)
Inductive request_state :=
| Reserved
| Registered (token : arc)
| Running (token : arc)
| Answering (token : arc) (result : Pending).

Record Task := { t_req : Z; t_state : request_state }.

(** Where [free_runtime] stands; while it drains it holds the pending mutex and what is left. *)
Inductive free_state :=
| Open
| Draining (rest : list (Z * arc))
| Waiting
| Freed.

Definition duplicate (req_id : Z) : KtError :=
  InvalidArgument ("duplicate req_id " +:+ pretty req_id).

Definition cancelled_result (req_id : Z) : Pending :=
  pending_error req_id KT_ERR_CANCELLED "cancelled".
Definition panic_result (req_id : Z) (payload : panic_payload) : Pending :=
  pending_error req_id KT_ERR_PANIC ("panic: " +:+ panic_message payload).
Definition shutdown_result (req_id : Z) : Pending :=
  pending_error req_id KT_ERR_SHUTDOWN "runtime is shutting down".

(** One poll of the biased [select!]: the token first, then the operation, whose panic is caught.
    [None]: neither is ready. *)
Definition select_poll (cancelled : bool) (req_id : Z) (op : option (outcome Pending)) :
    option Pending :=
  if cancelled then Some (cancelled_result req_id)
  else match op with
       | None => None
       | Some (Done p) => Some p
       | Some (Panicked payload) => Some (panic_result req_id payload)
       end.

Section runtime.
Context {T : Type} `{HandleStore T}.

Record RuntimeEntry := {
  q : World T;
  pending : gmap Z arc;
  rt_closed : bool;
  tokens : gmap arc bool;
  tasks : gmap positive Task;
  freeing : free_state;
}.

Definition set_q (w : World T) (rt : RuntimeEntry) : RuntimeEntry :=
  {| q := w; pending := pending rt; rt_closed := rt_closed rt; tokens := tokens rt;
     tasks := tasks rt; freeing := freeing rt |}.
Definition set_pending (m : gmap Z arc) (rt : RuntimeEntry) : RuntimeEntry :=
  {| q := q rt; pending := m; rt_closed := rt_closed rt; tokens := tokens rt;
     tasks := tasks rt; freeing := freeing rt |}.
Definition set_tokens (m : gmap arc bool) (rt : RuntimeEntry) : RuntimeEntry :=
  {| q := q rt; pending := pending rt; rt_closed := rt_closed rt; tokens := m;
     tasks := tasks rt; freeing := freeing rt |}.
Definition set_tasks (m : gmap positive Task) (rt : RuntimeEntry) : RuntimeEntry :=
  {| q := q rt; pending := pending rt; rt_closed := rt_closed rt; tokens := tokens rt;
     tasks := m; freeing := freeing rt |}.
Definition set_freeing (f : free_state) (rt : RuntimeEntry) : RuntimeEntry :=
  {| q := q rt; pending := pending rt; rt_closed := rt_closed rt; tokens := tokens rt;
     tasks := tasks rt; freeing := f |}.

(** Whether another thread holds the pending mutex. *)
Definition locked (rt : RuntimeEntry) : bool :=
  match freeing rt with Draining _ => true | _ => false end.

(** [CancellationToken::cancel] and [is_cancelled]. *)
Definition cancel_token (token : arc) (rt : RuntimeEntry) : RuntimeEntry :=
  set_tokens (<[token := true]> (tokens rt)) rt.
Definition is_cancelled (token : arc) (rt : RuntimeEntry) : bool :=
  default false (tokens rt !! token).

(** [RuntimeEntry::register]; [token] is the identity of the token it creates. *)
Definition register (rt : RuntimeEntry) (req_id : Z) (token : arc) :
    RuntimeEntry * KtResult arc :=
  if rt_closed rt then (rt, Err Shutdown)
  else if decide (is_Some (pending rt !! req_id)) then (rt, Err (duplicate req_id))
  else (set_pending (<[req_id := token]> (pending rt))
          (set_tokens (<[token := false]> (tokens rt)) rt), Ok token).

(** [RuntimeEntry::retire]. *)
Definition retire (rt : RuntimeEntry) (req_id : Z) : RuntimeEntry * bool :=
  (set_pending (delete req_id (pending rt)) rt, bool_decide (is_Some (pending rt !! req_id))).

(** [RuntimeEntry::cancel]. *)
Definition cancel (rt : RuntimeEntry) (req_id : Z) : RuntimeEntry :=
  match pending rt !! req_id with
  | Some token => cancel_token token rt
  | None => rt
  end.

Inductive raction :=
| RReserve (tid : positive) (req_id : Z)
| RRegister (tid : positive) (token : arc)
| RSpawn (tid : positive)
| RPoll (tid : positive) (op : option (outcome Pending))
| RAnswer (tid : positive)
| RCancel (req_id : Z)
| RDrain (order : list (Z * arc))
| RDrainOne
| RDrainEnd
| RWaited
| RPushed (p : Pending)
| RQueue (a : action).

Inductive revent :=
| EvRegistered (req_id : Z)
| EvRefused (req_id : Z) (err : KtError)
| EvQueue (l : action * list event)
| EvDiscarded (p : Pending)
| EvFreed.

(** A push or another queue operation, through the queue's own step function. *)
Definition on_queue (rt : RuntimeEntry) (a : action) : option (RuntimeEntry * list revent) :=
  '(w, evs) ← qstep (q rt) a; Some (set_q w rt, [EvQueue (a, evs)]).

(** [spawn_request] up to the admission: the tracker reservation is taken first. *)
Definition reserve_task (rt : RuntimeEntry) (tid : positive) (req_id : Z) :
    option (RuntimeEntry * list revent) :=
  if decide (tasks rt !! tid = None) then
    Some (set_tasks (<[tid := {| t_req := req_id; t_state := Reserved |}]> (tasks rt)) rt, [])
  else None.

(** The admission: on an error the operation and the reservation are dropped. *)
Definition admit_task (rt : RuntimeEntry) (tid : positive) (token : arc) :
    option (RuntimeEntry * list revent) :=
  task ← tasks rt !! tid;
  match t_state task with
  | Reserved =>
      if decide (locked rt = false /\ tokens rt !! token = None) then
        match register rt (t_req task) token with
        | (rt', Ok tok) =>
            Some (set_tasks (<[tid := {| t_req := t_req task; t_state := Registered tok |}]> (tasks rt')) rt',
                  [EvRegistered (t_req task)])
        | (rt', Err err) =>
            Some (set_tasks (delete tid (tasks rt')) rt', [EvRefused (t_req task) err])
        end
      else None
  | _ => None
  end.

(** The tracked future is spawned on the reactor. *)
Definition spawn_task (rt : RuntimeEntry) (tid : positive) : option (RuntimeEntry * list revent) :=
  task ← tasks rt !! tid;
  match t_state task with
  | Registered tok =>
      Some (set_tasks (<[tid := {| t_req := t_req task; t_state := Running tok |}]> (tasks rt)) rt, [])
  | _ => None
  end.

(** The reactor polls the task's [select!]. *)
Definition poll_task (rt : RuntimeEntry) (tid : positive) (op : option (outcome Pending)) :
    option (RuntimeEntry * list revent) :=
  task ← tasks rt !! tid;
  match t_state task with
  | Running tok =>
      match select_poll (is_cancelled tok rt) (t_req task) op with
      | None => Some (rt, [])
      | Some result =>
          Some (set_tasks (<[tid := {| t_req := t_req task;
                                       t_state := Answering tok result |}]> (tasks rt)) rt, [])
      end
  | _ => None
  end.

(** The end of the task, under the pending mutex: retire and push, or drop the result. *)
Definition answer_task (rt : RuntimeEntry) (tid : positive) : option (RuntimeEntry * list revent) :=
  task ← tasks rt !! tid;
  match t_state task with
  | Answering _ result =>
      if locked rt then None
      else
        let rt' := set_tasks (delete tid (tasks rt)) (retire rt (t_req task)).1 in
        if (retire rt (t_req task)).2 then on_queue rt' (APush result)
        else match pending_drop result (handles (q rt)) with
             | Done t => Some (set_q (set_handles t (q rt)) rt', [EvDiscarded result])
             | Panicked _ => None
             end
  | _ => None
  end.

(** [drain_pending_for_shutdown]: take the mutex, set [closed] and take the entries in the
    order the map iterates in; answer them one by one; close the queue and release. *)
Definition drain_begin (rt : RuntimeEntry) (order : list (Z * arc)) :
    option (RuntimeEntry * list revent) :=
  match freeing rt with
  | Open =>
      if decide (order ≡ₚ map_to_list (pending rt)) then
        Some ({| q := q rt; pending := ∅; rt_closed := true; tokens := tokens rt;
                 tasks := tasks rt; freeing := Draining order |}, [])
      else None
  | _ => None
  end.
Definition drain_one (rt : RuntimeEntry) : option (RuntimeEntry * list revent) :=
  match freeing rt with
  | Draining ((req_id, token) :: rest) =>
      on_queue (set_freeing (Draining rest) (cancel_token token rt))
        (APush (shutdown_result req_id))
  | _ => None
  end.
Definition drain_end (rt : RuntimeEntry) : option (RuntimeEntry * list revent) :=
  match freeing rt with
  | Draining [] => on_queue (set_freeing Waiting rt) AClose
  | _ => None
  end.

(** [tasks.wait()] returns once the closed tracker is empty, and [free_runtime] with it. *)
Definition waited (rt : RuntimeEntry) : option (RuntimeEntry * list revent) :=
  if decide (tasks rt = ∅) then
    match freeing rt with
    | Waiting => Some (set_freeing Freed rt, [EvFreed])
    | _ => None
    end
  else None.

Definition rstep (rt : RuntimeEntry) (a : raction) : option (RuntimeEntry * list revent) :=
  match a with
  | RReserve tid req_id => reserve_task rt tid req_id
  | RRegister tid token => admit_task rt tid token
  | RSpawn tid => spawn_task rt tid
  | RPoll tid op => poll_task rt tid op
  | RAnswer tid => answer_task rt tid
  | RCancel req_id => if locked rt then None else Some (cancel rt req_id, [])
  | RDrain order => drain_begin rt order
  | RDrainOne => drain_one rt
  | RDrainEnd => drain_end rt
  | RWaited => waited rt
  | RPushed p => on_queue rt (APush p)
  | RQueue a => on_queue rt a
  end.

(** ** Specification *)

(** What the callers promise: requests do not use the reserved id, an operation answers under
    its own request's id, pushed events under the reserved one, and the queue's other users
    poll. *)
Definition raction_ok (rt : RuntimeEntry) (a : raction) : Prop :=
  match a with
  | RReserve _ req_id => req_id <> PUSHED
  | RPoll tid (Some (Done p)) =>
      pending_ok p /\ forall task, tasks rt !! tid = Some task -> p_req_id p = t_req task
  | RPushed p => pending_ok p /\ p_req_id p = PUSHED
  | RQueue (APush _) | RQueue AClose => False
  | RQueue a => action_ok a
  | _ => True
  end.

Definition runtime_step (rt : RuntimeEntry) (l : raction * list revent) (rt' : RuntimeEntry) : Prop :=
  raction_ok rt l.1 /\ rstep rt l.1 = Some (rt', l.2).

Definition runtime_initial (rt : RuntimeEntry) : Prop :=
  initial (q rt) /\ pending rt = ∅ /\ rt_closed rt = false /\ tasks rt = ∅ /\ freeing rt = Open.

Definition revents (ls : list (raction * list revent)) : list revent := ls ≫= snd.
(** The queue's own trace inside a runtime's. *)
Definition queue_trace (evs : list revent) : list (action * list event) :=
  omap (fun e => match e with EvQueue l => Some l | _ => None end) evs.

Definition registered (evs : list revent) : list Z :=
  omap (fun e => match e with EvRegistered r => Some r | _ => None end) evs.
Definition registrations (req_id : Z) (evs : list revent) : nat :=
  count (fun r => r = req_id) (registered evs).
Definition answers (req_id : Z) (ps : list Pending) : nat :=
  count (fun p => p_req_id p = req_id) ps.

(** The entries the drain has taken and not yet answered. *)
Definition remaining (rt : RuntimeEntry) : list (Z * arc) :=
  match freeing rt with Draining rest => rest | _ => [] end.

(** A registered request without an answer so far. *)
Definition outstanding (req_id : Z) (rt : RuntimeEntry) : nat :=
  ((if decide (is_Some (pending rt !! req_id)) then 1 else 0)
   + count (fun x => x.1 = req_id) (remaining rt))%nat.

Definition task_token (task : Task) : option arc :=
  match t_state task with
  | Reserved => None
  | Registered tok | Running tok | Answering tok _ => Some tok
  end.

Record rt_inv (rt : RuntimeEntry) : Prop := {
  ri_queue : queue_inv (q rt);
  ri_stage :
    match freeing rt with
    | Open => rt_closed rt = false /\ closed (shared (q rt)) = false
    | Draining rest => rt_closed rt = true /\ closed (shared (q rt)) = false /\
        pending rt = ∅
    | Waiting | Freed => rt_closed rt = true /\ closed (shared (q rt)) = true /\ pending rt = ∅
    end;
  ri_pending req_id tok : pending rt !! req_id = Some tok ->
    exists tid task, tasks rt !! tid = Some task /\ t_req task = req_id /\
      task_token task = Some tok;
  ri_token tid task tok : tasks rt !! tid = Some task -> task_token task = Some tok ->
    is_Some (tokens rt !! tok) /\
    match freeing rt with
    | Open => pending rt !! t_req task = Some tok
    | Draining rest => is_cancelled tok rt = true \/ (t_req task, tok) ∈ rest
    | Waiting | Freed => is_cancelled tok rt = true
    end;
  ri_unique i j x y tok : tasks rt !! i = Some x -> tasks rt !! j = Some y ->
    task_token x = Some tok -> task_token y = Some tok -> i = j;
  ri_task tid task : tasks rt !! tid = Some task -> t_req task <> PUSHED;
  ri_result tid task tok p : tasks rt !! tid = Some task -> t_state task = Answering tok p ->
    pending_ok p /\ p_req_id p = t_req task;
}.

(** A step keeps the balance of registrations and answers, for every request. *)
Definition balanced (rt : RuntimeEntry) (evs : list revent) (rt' : RuntimeEntry) : Prop :=
  forall r, r <> PUSHED ->
    (outstanding r rt + registrations r evs)%nat =
    (answers r (accepted (events (queue_trace evs))) + outstanding r rt')%nat.
End runtime.
Arguments RuntimeEntry T : clear implicits.
Arguments RRegister tid%_positive_scope token%_positive_scope.
Arguments admit_task {T} rt tid%_positive_scope token%_positive_scope.

(** ** Lemmas *)

Section lemmas.
Context {T : Type} `{HandleStore T}.
Implicit Types (rt : RuntimeEntry T).

(** A key occurs once in the elements of a map that has it, and never in the others. *)
Lemma count_map_to_list {A} (m : gmap Z A) r :
  count (fun x => x.1 = r) (map_to_list m) = if decide (is_Some (m !! r)) then 1%nat else 0%nat.
Proof.
  induction m as [|k x m Hk IH] using map_ind.
  - rewrite map_to_list_empty, lookup_empty, decide_False by (by intros [? ?]). done.
  - unfold count. rewrite (Permutation_length (filter_Permutation _ _ _ (map_to_list_insert _ _ x Hk))).
    fold (count (fun x : Z * A => x.1 = r) ((k, x) :: map_to_list m)).
    rewrite count_cons, IH. simpl. rewrite lookup_insert. repeat case_decide; try done.
    + subst. rewrite Hk in *. by match goal with H : is_Some None |- _ => destruct H end.
    + exfalso. eauto.
    + exfalso. eauto.
Qed.

(** The poll-side steps neither accept nor close. *)
Lemma quiet_step (w : World T) a w' evs :
  queue_inv w -> qstep w a = Some (w', evs) ->
  (match a with APush _ | AClose => False | _ => True end) ->
  closed (shared w') = closed (shared w) /\ accepted evs = [].
Proof.
  intros Hw Hs Ha. pose proof (qi_wakes w Hw) as Hwk.
  destruct a as [p| | |id|tid id out cap timeout|tid|tid|tid|tid addr]; try done; simpl in Hs.
  - by simplify_eq.
  - case_decide; by simplify_eq.
  - case_decide; [|done]. unfold poll_call in Hs. destruct (pollers w !! id) as [pe|]; [|done].
    cbn [mbind option_bind] in Hs. case_decide; [by simplify_eq|].
    destruct out; [|by simplify_eq]. destruct (in_poll pe); by simplify_eq.
  - unfold acquire in Hs. destruct (threads w !! tid) as [th|]; [|done].
    cbn [mbind option_bind] in Hs.
    assert (Hround : match poll_round (shared w) (th_timeout th) with
       | Some st => leave_loop w tid th st
       | None => Some (set_thread tid (with_phase Parked th) w, []) end = Some (w', evs) ->
       closed (shared w') = closed (shared w) /\ accepted evs = []).
    { destruct (poll_round _ _) as [st|] eqn:E; [|by intros [= <- <-]].
      destruct (poll_round_some _ _ _ Hwk E) as (_ & Hc & _). rewrite leave_loop_spec.
      by intros [= <- <-]. }
    destruct (th_phase th); try done; [by apply Hround..|].
    revert Hs. rewrite leave_loop_spec. by intros [= <- <-].
  - unfold spurious in Hs. destruct (threads w !! tid); [|done]. simpl in Hs.
    case_decide; by simplify_eq.
  - unfold time_out in Hs. destruct (threads w !! tid); [|done]. simpl in Hs.
    case_decide; by simplify_eq.
  - destruct (finish_drained _ _ _ _ _ Hs) as (th & b & c & Hth & Hph).
    destruct (finish_spec w tid addr th b c Hw Hth Hph) as (pe & b' & out' & _ & _ & Hf).
    rewrite Hf in Hs. by simplify_eq.
Qed.

(** A push through [on_queue]. *)
Lemma on_queue_push rt p :
  queue_inv (q rt) -> pending_ok p ->
  exists w', on_queue rt (APush p) =
    Some (set_q w' rt, [EvQueue (APush p, if closed (shared (q rt)) then [Rejected p]
                                          else [Accepted p])]) /\
    queue_inv w' /\ closed (shared w') = closed (shared (q rt)).
Proof.
  intros Hq Hp. pose proof (push_spec (q rt) p Hq Hp) as Hs. unfold on_queue. cbn [qstep].
  assert (Hinv : forall w' evs, push (q rt) p = Some (w', evs) -> queue_inv w').
  { intros w' evs Hpush. by apply (qstep_inv (q rt) (APush p, evs)). }
  destruct (closed (shared (q rt))).
  - destruct Hs as (t & _ & _ & _ & Hs). rewrite Hs. eexists. split; [done|].
    split; [by eapply Hinv|]. simpl. destruct (closed (shared (q rt))) eqn:E; [done|].
    unfold push in Hs. by rewrite E in Hs.
  - rewrite Hs. eexists. split; [done|]. split; [by eapply Hinv|done].
Qed.

Lemma on_queue_some rt a rt' evs :
  on_queue rt a = Some (rt', evs) ->
  exists w qevs, qstep (q rt) a = Some (w, qevs) /\ rt' = set_q w rt /\ evs = [EvQueue (a, qevs)].
Proof.
  unfold on_queue. destruct (qstep (q rt) a) as [[w qevs]|] eqn:E; [|done].
  intros Hs. simplify_eq/=. eauto.
Qed.

Lemma events_one a qevs : events (queue_trace [EvQueue (a, qevs)]) = qevs.
Proof. unfold events, queue_trace. simpl. apply app_nil_r. Qed.

Lemma balanced_silent rt evs rt' :
  registered evs = [] -> queue_trace evs = [] ->
  (forall r, r <> PUSHED -> outstanding r rt' = outstanding r rt) -> balanced rt evs rt'.
Proof.
  intros Hr Hq Ho r Hne. unfold registrations. rewrite Hr, Hq, Ho by done.
  unfold answers. simpl. rewrite !count_nil. lia.
Qed.

(** A task advances, keeping its request and its token. *)
Lemma task_moves rt tid task task' :
  rt_inv rt -> tasks rt !! tid = Some task -> t_req task' = t_req task ->
  task_token task' = task_token task ->
  (forall tok p, t_state task' = Answering tok p -> pending_ok p /\ p_req_id p = t_req task) ->
  rt_inv (set_tasks (<[tid := task']> (tasks rt)) rt).
Proof.
  intros Hrt Htid Hreq Htok Hres.
  assert (Hold : forall i x, <[tid := task']> (tasks rt) !! i = Some x ->
    exists y, tasks rt !! i = Some y /\ t_req x = t_req y /\ task_token x = task_token y).
  { intros i x. rewrite lookup_insert. case_decide; [|by eauto]. intros [= <-]. subst i. eauto. }
  split; simpl; try apply Hrt.
  - intros req tok Hp. destruct (ri_pending rt Hrt req tok Hp) as (i & x & Hx & Hxr & Hxt).
    destruct (decide (i = tid)) as [->|Hi].
    + exists tid, task'. rewrite lookup_insert_eq. split; [done|]. simplify_eq. by rewrite Htok.
    + exists i, x. by rewrite lookup_insert_ne.
  - intros i x tok Hx Hxt. destruct (Hold i x Hx) as (y & Hy & -> & Hyt).
    apply (ri_token rt Hrt i y); [done|congruence].
  - intros i j x y tok Hx Hy Hxt Hyt. destruct (Hold i x Hx) as (x' & Hx' & _ & Hxt').
    destruct (Hold j y Hy) as (y' & Hy' & _ & Hyt').
    apply (ri_unique rt Hrt i j x' y' tok); congruence.
  - intros i x Hx. destruct (Hold i x Hx) as (y & Hy & -> & _). by eapply ri_task.
  - intros i x tok p. rewrite lookup_insert. case_decide; [|by apply (ri_result rt Hrt)].
    intros [= <-] Hp. rewrite Hreq. eauto.
Qed.

Lemma reserve_ok rt tid req_id rt' evs :
  rt_inv rt -> req_id <> PUSHED -> reserve_task rt tid req_id = Some (rt', evs) ->
  rt_inv rt' /\ balanced rt evs rt'.
Proof.
  intros Hrt Hreq. unfold reserve_task. case_decide as Htid; [|done]. intros [= <- <-].
  split; [|by apply balanced_silent].
  assert (Hold : forall i x tok, <[tid := {| t_req := req_id; t_state := Reserved |}]> (tasks rt) !! i
    = Some x -> task_token x = Some tok -> tasks rt !! i = Some x).
  { intros i x tok. rewrite lookup_insert. case_decide; [by intros [= <-]|done]. }
  split; simpl; try apply Hrt.
  - intros req tok Hp. destruct (ri_pending rt Hrt req tok Hp) as (i & x & Hx & Hxr & Hxt).
    exists i, x. rewrite lookup_insert_ne; [done|]. congruence.
  - intros i x tok Hx Hxt. eapply (ri_token rt Hrt); eauto.
  - intros i j x y tok Hx Hy Hxt Hyt. eapply (ri_unique rt Hrt); eauto.
  - intros i x. rewrite lookup_insert. case_decide; [by intros [= <-]|by apply (ri_task rt Hrt)].
  - intros i x tok p Hx Hp. eapply (ri_result rt Hrt); [|done]. eapply Hold; [done|].
    unfold task_token. by rewrite Hp.
Qed.

Lemma spawn_ok rt tid rt' evs :
  rt_inv rt -> spawn_task rt tid = Some (rt', evs) -> rt_inv rt' /\ balanced rt evs rt'.
Proof.
  intros Hrt. unfold spawn_task. destruct (tasks rt !! tid) as [task|] eqn:Htid; [|done].
  cbn [mbind option_bind]. destruct (t_state task) eqn:Hst; try done. intros [= <- <-].
  split; [|by apply balanced_silent]. eapply task_moves; [done..| |done].
  unfold task_token. by rewrite Hst.
Qed.

Lemma poll_ok rt tid op rt' evs :
  rt_inv rt -> raction_ok rt (RPoll tid op) -> poll_task rt tid op = Some (rt', evs) ->
  rt_inv rt' /\ balanced rt evs rt'.
Proof.
  intros Hrt Hop. unfold poll_task. destruct (tasks rt !! tid) as [task|] eqn:Htid; [|done].
  cbn [mbind option_bind]. destruct (t_state task) eqn:Hst; try done.
  destruct (select_poll _ _ _) as [result|] eqn:Hsel; intros [= <- <-];
    (split; [|by apply balanced_silent]); [|done].
  eapply task_moves; [done..| |].
  - unfold task_token. by rewrite Hst.
  - simpl. intros tok p [= <- <-]. unfold select_poll in Hsel.
    destruct (is_cancelled token rt); [simplify_eq; done|].
    destruct op as [[p|payload]|]; simplify_eq; [|done].
    destruct Hop as [Hp Hreq]. split; [done|]. by apply Hreq.
Qed.

(** Dropping a task that owns no pending entry. *)
Lemma task_gone rt tid task :
  rt_inv rt -> tasks rt !! tid = Some task ->
  (forall tok, task_token task = Some tok -> pending rt !! t_req task <> Some tok) ->
  rt_inv (set_tasks (delete tid (tasks rt)) rt).
Proof.
  intros Hrt Htid Hno. split; simpl; try apply Hrt.
  - intros req tok Hp. destruct (ri_pending rt Hrt req tok Hp) as (i & x & Hx & Hxr & Hxt).
    exists i, x. rewrite lookup_delete_ne; [done|]. intros ->. simplify_eq. by eapply Hno.
  - intros i x tok [_ Hx]%lookup_delete_Some Hxt. by apply (ri_token rt Hrt i x).
  - intros i j x y tok [_ Hx]%lookup_delete_Some [_ Hy]%lookup_delete_Some.
    by apply (ri_unique rt Hrt).
  - intros i x [_ Hx]%lookup_delete_Some. by eapply ri_task.
  - intros i x tok p [_ Hx]%lookup_delete_Some. by apply (ri_result rt Hrt i).
Qed.

Lemma admit_new rt tid task token :
  rt_inv rt -> tasks rt !! tid = Some task -> t_state task = Reserved -> freeing rt = Open ->
  tokens rt !! token = None -> pending rt !! t_req task = None ->
  rt_inv (set_tasks (<[tid := {| t_req := t_req task; t_state := Registered token |}]> (tasks rt))
    (set_pending (<[t_req task := token]> (pending rt))
      (set_tokens (<[token := false]> (tokens rt)) rt))).
Proof.
  intros Hrt Htid Hst Hopen Htok Hfree.
  assert (Hfresh : forall i x, tasks rt !! i = Some x -> task_token x <> Some token).
  { intros i x Hx Hxt. destruct (ri_token rt Hrt i x token Hx Hxt) as [[c Hc] _]. congruence. }
  pose proof (ri_stage rt Hrt) as Hstage. rewrite Hopen in Hstage.
  split; simpl; rewrite ?Hopen; try done; try apply Hrt.
  - intros req tok. rewrite lookup_insert. case_decide as Hr.
    + intros [= <-]. eexists tid, _. rewrite lookup_insert_eq. done.
    + intros Hp. destruct (ri_pending rt Hrt req tok Hp) as (i & x & Hx & Hxr & Hxt).
      exists i, x. rewrite lookup_insert_ne; [done|]. intros ->. simplify_eq.
  - intros i x tok. rewrite lookup_insert. case_decide as Hi.
    + intros [= <-] [= <-]. rewrite !lookup_insert_eq. eauto.
    + intros Hx Hxt. destruct (ri_token rt Hrt i x tok Hx Hxt) as [Hs Hp].
      rewrite Hopen in Hp. rewrite lookup_insert_ne by (intros ->; by eapply Hfresh).
      split; [done|]. rewrite lookup_insert_ne; [done|]. intros Heq.
      rewrite Heq in Hfree. by rewrite Hfree in Hp.
  - intros i j x y tok. rewrite !lookup_insert. case_decide; case_decide; [by subst|..].
    + intros [= <-] Hy [= <-] Hyt. by destruct (Hfresh j y Hy).
    + intros Hx [= <-] Hxt [= <-]. by destruct (Hfresh i x Hx).
    + by apply (ri_unique rt Hrt).
  - intros i x. rewrite lookup_insert. case_decide; [|by apply (ri_task rt Hrt i x)].
    intros [= <-]. by apply (ri_task rt Hrt tid task).
  - intros i x tok p. rewrite lookup_insert. case_decide; [by intros [= <-]|].
    by apply (ri_result rt Hrt i).
Qed.

Lemma admit_ok rt tid token rt' evs :
  rt_inv rt -> admit_task rt tid token = Some (rt', evs) -> rt_inv rt' /\ balanced rt evs rt'.
Proof.
  intros Hrt. unfold admit_task. destruct (tasks rt !! tid) as [task|] eqn:Htid; [|done].
  cbn [mbind option_bind]. destruct (t_state task) eqn:Hst; try done.
  case_decide as Hl; [|done]. destruct Hl as [Hlock Htok].
  assert (Hrefuse : rt_inv (set_tasks (delete tid (tasks rt)) rt)).
  { eapply task_gone; [done..|]. intros tok. unfold task_token. by rewrite Hst. }
  unfold register. pose proof (ri_stage rt Hrt) as Hstage.
  destruct (rt_closed rt) eqn:Hcl.
  { intros [= <- <-]. split; [done|]. by apply balanced_silent. }
  destruct (freeing rt) eqn:Hfr; [|naive_solver..].
  case_decide as Hdup.
  { intros [= <- <-]. split; [done|]. by apply balanced_silent. }
  apply eq_None_not_Some in Hdup. intros [= <- <-].
  split; [by apply admit_new|]. intros r Hr. unfold registrations, outstanding, answers. simpl.
  rewrite count_cons, !count_nil, lookup_insert. unfold remaining. simpl. rewrite Hfr, count_nil.
  repeat case_decide; subst; try congruence; try lia;
    repeat match goal with H : is_Some _ |- _ => destruct H | H : ~ is_Some _ |- _ =>
      apply eq_None_not_Some in H end; try congruence; try lia.
  all: exfalso; naive_solver.
Qed.

Lemma inv_set_q rt w :
  rt_inv rt -> queue_inv w -> closed (shared w) = closed (shared (q rt)) -> rt_inv (set_q w rt).
Proof.
  intros Hrt Hw Hc. split; simpl; try apply Hrt; [done|].
  pose proof (ri_stage rt Hrt) as Hs. destruct (freeing rt); by rewrite Hc.
Qed.

Lemma balanced_events rt rt' w' a qevs :
  (forall r, r <> PUSHED ->
    outstanding r rt = (answers r (accepted qevs) + outstanding r rt')%nat) ->
  balanced rt [EvQueue (a, qevs)] (set_q w' rt').
Proof.
  intros Ho r Hr. rewrite events_one. unfold registrations. simpl. rewrite count_nil, Ho by done.
  unfold outstanding. simpl. unfold remaining. simpl. lia.
Qed.

Lemma answers_one r p : answers r [p] = if decide (p_req_id p = r) then 1%nat else 0%nat.
Proof. unfold answers. rewrite count_cons, count_nil. case_decide; lia. Qed.

(** Retiring the request of a task that is about to answer, together with the task. *)
Lemma retire_inv rt tid task tok p :
  rt_inv rt -> tasks rt !! tid = Some task -> t_state task = Answering tok p ->
  locked rt = false ->
  rt_inv (set_tasks (delete tid (tasks rt)) (set_pending (delete (t_req task) (pending rt)) rt)).
Proof.
  intros Hrt Htid Hst Hlock. pose proof (ri_stage rt Hrt) as Hstage.
  assert (task_token task = Some tok) as Htok by (unfold task_token; by rewrite Hst).
  destruct (ri_token rt Hrt tid task tok Htid Htok) as [_ Hp].
  split; simpl; try apply Hrt.
  - unfold locked in Hlock. destruct (freeing rt); try done;
      destruct Hstage as (? & ? & ->); by rewrite delete_empty.
  - intros req tok' [Hreq Hp']%lookup_delete_Some.
    destruct (ri_pending rt Hrt req tok' Hp') as (i & x & Hx & Hxr & Hxt).
    exists i, x. rewrite lookup_delete_ne; [done|]. intros ->. simplify_eq.
  - intros i x tok' [Hi Hx]%lookup_delete_Some Hxt.
    destruct (ri_token rt Hrt i x tok' Hx Hxt) as [Hs Hp']. split; [done|].
    unfold locked in Hlock. destruct (freeing rt); try done.
    rewrite lookup_delete_ne; [done|]. intros Hreq. rewrite Hreq in Hp. simplify_eq.
    apply Hi. by eapply (ri_unique rt Hrt).
  - intros i j x y t [_ Hx]%lookup_delete_Some [_ Hy]%lookup_delete_Some.
    by apply (ri_unique rt Hrt).
  - intros i x [_ Hx]%lookup_delete_Some. by eapply ri_task.
  - intros i x t p' [_ Hx]%lookup_delete_Some. by apply (ri_result rt Hrt i).
Qed.

Lemma answer_ok rt tid rt' evs :
  rt_inv rt -> answer_task rt tid = Some (rt', evs) -> rt_inv rt' /\ balanced rt evs rt'.
Proof.
  intros Hrt. unfold answer_task. destruct (tasks rt !! tid) as [task|] eqn:Htid; [|done].
  cbn [mbind option_bind]. destruct (t_state task) as [| | |tok result] eqn:Hst; try done.
  destruct (locked rt) eqn:Hlock; [done|].
  pose proof (retire_inv rt tid task tok result Hrt Htid Hst Hlock) as Hinv.
  destruct (ri_result rt Hrt tid task tok result Htid Hst) as [Hok Hreq].
  unfold retire. cbn [fst snd]. set (rt1 := set_tasks _ _) in *.
  case_bool_decide as Hp.
  - destruct (on_queue_push rt1 result (ri_queue _ Hinv) Hok) as (w & -> & Hw & Hc).
    intros [= <- <-]. split; [by apply inv_set_q|].
    assert (closed (shared (q rt1)) = false /\ freeing rt = Open) as [Hc1 Hfr].
    { pose proof (ri_stage rt Hrt) as Hstage. simpl. unfold locked in Hlock.
      destruct (freeing rt); try done; [naive_solver|..];
        destruct Hstage as (_ & _ & Hpe); rewrite Hpe in Hp; by destruct Hp. }
    change (q rt1) with (q rt) in Hc1. rewrite Hc1. apply balanced_events. intros r Hr. simpl. rewrite answers_one.
    unfold outstanding, remaining. subst rt1. simpl. rewrite Hfr, count_nil, Hreq, lookup_delete.
    repeat case_decide; subst; try done; try lia.
    all: match goal with H : is_Some None |- _ => by destruct H end.
  - destruct (pending_drop_spec result (handles (q rt)) (qi_store _ (ri_queue rt Hrt)) Hok)
      as (t & -> & Ht & _).
    intros [= <- <-]. split.
    + apply inv_set_q; [done| |done]. apply set_handles_inv; [apply Hrt|done].
    + apply balanced_silent; [done..|]. intros r _. unfold outstanding, remaining.
      subst rt1. simpl. destruct (decide (t_req task = r)) as [<-|Hd];
        [|by rewrite lookup_delete_ne].
      rewrite lookup_delete_eq. case_decide as H1; [by destruct H1|]. by case_decide.
Qed.

Lemma is_cancelled_cancel tok tok' rt :
  is_cancelled tok rt = true -> is_cancelled tok (cancel_token tok' rt) = true.
Proof.
  unfold is_cancelled. simpl. rewrite lookup_insert. by case_decide.
Qed.

(** Cancelling a token whose request, if the drain still holds it, is being answered now. *)
Lemma cancel_token_inv rt tok f :
  rt_inv rt ->
  match freeing rt, f with
  | Draining ((r, t) :: rest), Draining rest' => rest' = rest /\ t = tok
  | Draining _, _ => False
  | f1, f2 => f1 = f2
  end ->
  rt_inv (set_freeing f (cancel_token tok rt)).
Proof.
  intros Hrt Hf. split; simpl; try apply Hrt.
  - pose proof (ri_stage rt Hrt) as Hstage. destruct (freeing rt) as [|[|[r t] rest]| |], f;
      naive_solver.
  - intros i x tok' Hx Hxt. destruct (ri_token rt Hrt i x tok' Hx Hxt) as [Hs Hp].
    split. { rewrite lookup_insert. case_decide; eauto. }
    destruct (freeing rt) as [|[|[r t] rest]| |] eqn:Hfr, f as [|rest'| |]; try done;
      try (by apply is_cancelled_cancel).
    destruct Hf as [-> ->]. destruct Hp as [Hp|[[= -> ->]|Hp]%elem_of_cons].
    + left. by apply is_cancelled_cancel.
    + left. unfold is_cancelled. simpl. by rewrite lookup_insert_eq.
    + by right.
Qed.

Lemma set_freeing_same rt : set_freeing (freeing rt) rt = rt.
Proof. by destruct rt. Qed.

Lemma cancel_ok rt req_id :
  rt_inv rt -> locked rt = false -> rt_inv (cancel rt req_id) /\ balanced rt [] (cancel rt req_id).
Proof.
  intros Hrt Hlock. unfold cancel. destruct (pending rt !! req_id) as [tok|].
  - split; [|by apply balanced_silent].
    rewrite <- (set_freeing_same (cancel_token tok rt)). apply cancel_token_inv; [done|].
    unfold locked in Hlock. simpl. by destruct (freeing rt).
  - split; [done|]. by apply balanced_silent.
Qed.

Lemma drain_begin_ok rt order rt' evs :
  rt_inv rt -> drain_begin rt order = Some (rt', evs) -> rt_inv rt' /\ balanced rt evs rt'.
Proof.
  intros Hrt. unfold drain_begin. destruct (freeing rt) eqn:Hfr; try done.
  case_decide as Hord; [|done]. intros [= <- <-].
  pose proof (ri_stage rt Hrt) as Hstage. rewrite Hfr in Hstage. split.
  - split; simpl; try apply Hrt; [naive_solver|done|].
    intros i x tok Hx Hxt. destruct (ri_token rt Hrt i x tok Hx Hxt) as [Hs Hp]. split; [done|].
    right. rewrite Hfr in Hp. rewrite Hord. by apply elem_of_map_to_list.
  - apply balanced_silent; [done..|]. intros r _. unfold outstanding, remaining. simpl.
    rewrite Hfr, (count_perm _ _ _ Hord), count_map_to_list, lookup_empty, count_nil.
    rewrite (decide_False (P := is_Some None)) by (by intros [? ?]). lia.
Qed.

Lemma drain_one_ok rt rt' evs :
  rt_inv rt -> drain_one rt = Some (rt', evs) -> rt_inv rt' /\ balanced rt evs rt'.
Proof.
  intros Hrt. unfold drain_one. destruct (freeing rt) as [|[|[r tok] rest]| |] eqn:Hfr; try done.
  pose proof (ri_stage rt Hrt) as Hstage. rewrite Hfr in Hstage. destruct Hstage as (_ & Hopen & _).
  assert (rt_inv (set_freeing (Draining rest) (cancel_token tok rt))) as Hinv.
  { apply cancel_token_inv; [done|]. by rewrite Hfr. }
  destruct (on_queue_push _ (shutdown_result r) (ri_queue _ Hinv)) as (w & -> & Hw & Hc); [done|].
  intros [= <- <-]. split; [by apply inv_set_q|]. rewrite Hopen. apply balanced_events.
  intros r' Hr'. simpl. rewrite answers_one. unfold outstanding, remaining. simpl. rewrite Hfr.
  rewrite count_cons. simpl. lia.
Qed.

Lemma drain_end_ok rt rt' evs :
  rt_inv rt -> drain_end rt = Some (rt', evs) -> rt_inv rt' /\ balanced rt evs rt'.
Proof.
  intros Hrt. unfold drain_end. destruct (freeing rt) as [|[|x rest]| |] eqn:Hfr; try done.
  pose proof (ri_stage rt Hrt) as Hstage. rewrite Hfr in Hstage.
  unfold on_queue. cbn [qstep mbind option_bind]. intros [= <- <-]. split.
  - split; simpl; try apply Hrt; [|naive_solver|].
    + apply (qstep_inv (q rt) (AClose, [])); [apply Hrt|]. by split.
    + intros i x tok Hx Hxt. destruct (ri_token rt Hrt i x tok Hx Hxt) as [Hs Hp].
      split; [done|]. rewrite Hfr in Hp. destruct Hp as [|Hp]; [done|]. by apply elem_of_nil in Hp.
  - apply balanced_events. intros r _. unfold outstanding, remaining. simpl. by rewrite Hfr.
Qed.

Lemma waited_ok rt rt' evs :
  rt_inv rt -> waited rt = Some (rt', evs) -> rt_inv rt' /\ balanced rt evs rt'.
Proof.
  intros Hrt. unfold waited. case_decide as Hempty; [|done].
  destruct (freeing rt) eqn:Hfr; try done. intros [= <- <-].
  pose proof (ri_stage rt Hrt) as Hstage. rewrite Hfr in Hstage. split.
  - split; simpl; try apply Hrt; [naive_solver|]. intros i x tok Hx. by rewrite Hempty in Hx.
  - apply balanced_silent; [done..|]. intros r _. unfold outstanding, remaining. simpl. by rewrite Hfr.
Qed.

Lemma on_queue_ok rt a rt' evs :
  rt_inv rt -> raction_ok rt (RQueue a) -> on_queue rt a = Some (rt', evs) ->
  rt_inv rt' /\ balanced rt evs rt'.
Proof.
  intros Hrt Ha Hs. apply on_queue_some in Hs as (w & qevs & Hs & -> & ->).
  assert (match a with APush _ | AClose => False | _ => True end) as Hquiet by (by destruct a).
  destruct (quiet_step _ _ _ _ (ri_queue rt Hrt) Hs Hquiet) as [Hc Hacc]. split.
  - apply inv_set_q; [done| |done]. apply (qstep_inv (q rt) (a, qevs)); [apply Hrt|].
    split; [by destruct a|done].
  - apply balanced_events. by rewrite Hacc.
Qed.

Lemma pushed_ok rt p rt' evs :
  rt_inv rt -> raction_ok rt (RPushed p) -> on_queue rt (APush p) = Some (rt', evs) ->
  rt_inv rt' /\ balanced rt evs rt'.
Proof.
  intros Hrt [Hp Hid]. destruct (on_queue_push rt p (ri_queue _ Hrt) Hp) as (w & -> & Hw & Hc).
  intros [= <- <-]. split; [by apply inv_set_q|]. apply balanced_events. intros r Hr.
  destruct (closed (shared (q rt))); simpl; [done|]. rewrite answers_one, decide_False; [done|].
  congruence.
Qed.

Lemma runtime_step_ok rt l rt' :
  rt_inv rt -> runtime_step rt l rt' -> rt_inv rt' /\ balanced rt l.2 rt'.
Proof.
  destruct l as [a evs]. intros Hrt [Ha Hs]. cbn [fst snd rstep] in *.
  destruct a; cbn [rstep] in Hs.
  - by apply (reserve_ok rt tid req_id).
  - by apply (admit_ok rt tid token).
  - by apply (spawn_ok rt tid).
  - by apply (poll_ok rt tid op).
  - by apply (answer_ok rt tid).
  - destruct (locked rt) eqn:Hl; [done|]. injection Hs as <- <-. by apply cancel_ok.
  - by apply (drain_begin_ok rt order).
  - by apply drain_one_ok.
  - by apply drain_end_ok.
  - by apply waited_ok.
  - by apply (pushed_ok rt p).
  - by apply (on_queue_ok rt a).
Qed.

Lemma runtime_initial_inv rt : runtime_initial rt -> rt_inv rt.
Proof.
  intros (Hq & Hp & Hc & Ht & Hf). split; rewrite ?Hp, ?Ht, ?Hf; try done.
  - by apply initial_inv.
  - split; [done|]. by destruct Hq as (-> & _).
Qed.

Lemma run_runtime_inv rt ls rt' : rt_inv rt -> run runtime_step rt ls rt' -> rt_inv rt'.
Proof.
  intros Hrt Hr. induction Hr as [|rt ls rt1 l rt2 _ IH Hs]; [done|].
  by destruct (runtime_step_ok _ _ _ (IH Hrt) Hs).
Qed.

Lemma revents_app (k l : list (raction * list revent)) : revents (k ++ l) = revents k ++ revents l.
Proof. apply bind_app. Qed.
Lemma revents_one (l : raction * list revent) : revents [l] = l.2.
Proof. apply app_nil_r. Qed.
Lemma registered_app k l : registered (k ++ l) = registered k ++ registered l.
Proof. apply omap_app. Qed.
Lemma queue_trace_app k l : queue_trace (k ++ l) = queue_trace k ++ queue_trace l.
Proof. apply omap_app. Qed.
Lemma events_app k l : events (k ++ l) = events k ++ events l.
Proof. apply bind_app. Qed.
Lemma answers_app r k l : answers r (k ++ l) = (answers r k + answers r l)%nat.
Proof. apply count_app. Qed.

(** What a step does to the queue is a step of the queue, or a release of handles. *)
Lemma step_on_queue rt l rt' :
  rt_inv rt -> runtime_step rt l rt' ->
  effect (q rt) (q rt') (events (queue_trace l.2)) \/
  (queue_trace l.2 = [] /\ exists t, q rt' = set_handles t (q rt)).
Proof.
  destruct l as [a evs]. intros Hrt [Ha Hs]. cbn [fst snd] in *.
  pose proof (ri_queue rt Hrt) as Hqi.
  assert (Hq : forall rt0 a0, on_queue rt0 a0 = Some (rt', evs) -> q rt0 = q rt -> action_ok a0 ->
    effect (q rt) (q rt') (events (queue_trace evs))).
  { intros rt0 a0 Hs0 He Ha0. apply on_queue_some in Hs0 as (w & qevs & Hs0 & -> & ->).
    rewrite He in Hs0. rewrite events_one. by apply (step_effect _ (a0, qevs)). }
  assert (Hsilent : queue_trace evs = [] -> q rt' = q rt ->
    queue_trace evs = [] /\ exists t, q rt' = set_handles t (q rt)).
  { intros He Hq'. split; [done|]. exists (handles (q rt)). rewrite Hq'. by destruct (q rt). }
  destruct a; cbn [rstep] in Hs.
  - right. unfold reserve_task in Hs. case_decide; simplify_eq; by apply Hsilent.
  - right. unfold admit_task in Hs. destruct (tasks rt !! tid) as [task|]; [|done].
    cbn [mbind option_bind] in Hs. destruct (t_state task); try done. case_decide; [|done].
    unfold register in Hs. repeat case_match; simplify_eq; by apply Hsilent.
  - right. unfold spawn_task in Hs. destruct (tasks rt !! tid) as [task|]; [|done].
    cbn [mbind option_bind] in Hs. destruct (t_state task); simplify_eq; by apply Hsilent.
  - right. unfold poll_task in Hs. destruct (tasks rt !! tid) as [task|]; [|done].
    cbn [mbind option_bind] in Hs. destruct (t_state task); try done.
    destruct (select_poll _ _ _); simplify_eq; by apply Hsilent.
  - unfold answer_task in Hs. destruct (tasks rt !! tid) as [task|] eqn:Htid; [|done].
    cbn [mbind option_bind] in Hs. destruct (t_state task) as [| | |tok result] eqn:Hst; try done.
    destruct (locked rt); [done|].
    destruct (ri_result rt Hrt tid task tok result Htid Hst) as [Hok _].
    destruct (retire rt (t_req task)).2.
    + left. by apply (Hq _ _ Hs).
    + right. destruct (pending_drop_spec result (handles (q rt)) (qi_store _ (ri_queue rt Hrt)) Hok)
        as (t & Ht & Hst' & _). rewrite Ht in Hs. simplify_eq. eauto.
  - right. destruct (locked rt); [done|]. simplify_eq. apply Hsilent; [done|].
    unfold cancel. by destruct (pending rt !! req_id).
  - right. unfold drain_begin in Hs. destruct (freeing rt); try done.
    case_decide; simplify_eq; by apply Hsilent.
  - left. unfold drain_one in Hs. destruct (freeing rt) as [|[|[] ]| |]; try done. by apply (Hq _ _ Hs).
  - left. unfold drain_end in Hs. destruct (freeing rt) as [|[|]| |]; try done. by apply (Hq _ _ Hs).
  - right. unfold waited in Hs. case_decide; [|done]. destruct (freeing rt); try done.
    simplify_eq. by apply Hsilent.
  - left. destruct Ha. by apply (Hq _ _ Hs).
  - left. apply (Hq _ _ Hs); [done|]. by destruct a.
Qed.

Lemma step_queue_flow rt l rt' :
  rt_inv rt -> runtime_step rt l rt' ->
  let evs := events (queue_trace l.2) in
  queue (shared (q rt)) ++ accepted evs = taken evs ++ queue (shared (q rt')) /\
  forall id b, in_flight (q rt) id b ->
    exists b', in_flight (q rt') id b' /\ b ++ taken_by id evs = returned_by id evs ++ b'.
Proof.
  intros Hrt Hs. destruct (step_on_queue rt l rt' Hrt Hs) as [He|[-> [t ->]]].
  - split; [by apply flow_queue|]. intros id b. apply flow_poller; [by apply (ri_queue rt Hrt)|done].
  - split; [apply app_nil_r|]. intros id b Hb. exists b. split; [done|]. apply app_nil_r.
Qed.

(** A runtime whose queue has closed delivers nothing more. *)
Lemma closed_accepts_nothing rt ls rt' :
  rt_inv rt -> run runtime_step rt ls rt' -> closed (shared (q rt)) = true ->
  closed (shared (q rt')) = true /\ accepted (events (queue_trace (revents ls))) = [].
Proof.
  intros Hrt Hr Hc. induction Hr as [|rt ls rt1 l rt2 Hr IH Hs]; [done|].
  destruct (IH Hrt Hc) as [Hc1 Ha]. pose proof (run_runtime_inv _ _ _ Hrt Hr) as Hrt1.
  rewrite revents_app, revents_one, queue_trace_app, events_app, accepted_app, Ha.
  destruct (step_on_queue _ _ _ Hrt1 Hs) as [He|[-> [t ->]]]; [|done].
  destruct (flow_closed _ _ _ He Hc1) as (Hc2 & -> & _). done.
Qed.

(** The balance over a whole run. *)
Lemma run_balanced rt0 ls rt r :
  rt_inv rt0 -> (forall r, outstanding r rt0 = 0%nat) -> queue (shared (q rt0)) = [] ->
  run runtime_step rt0 ls rt -> r <> PUSHED ->
  let evs := events (queue_trace (revents ls)) in
  registrations r (revents ls) = (answers r (accepted evs) + outstanding r rt)%nat /\
  accepted evs = taken evs ++ queue (shared (q rt)).
Proof.
  intros Hrt Ho Hq0 Hr Hne. induction Hr as [|rt0 ls rt1 l rt2 Hr IH Hs].
  - simpl. rewrite Hq0, Ho. done.
  - destruct IH as [IHb IHq]; [done..|]. pose proof (run_runtime_inv _ _ _ Hrt Hr) as Hrt1.
    destruct (runtime_step_ok _ _ _ Hrt1 Hs) as [_ Hb]. specialize (Hb r Hne).
    destruct (step_queue_flow _ _ _ Hrt1 Hs) as [Hf _].
    cbv zeta. rewrite revents_app, revents_one, queue_trace_app, events_app.
    rewrite accepted_app, taken_app. split.
    + unfold registrations in *. rewrite registered_app, count_app, answers_app. lia.
    + rewrite IHq, <- app_assoc, Hf. by rewrite app_assoc.
Qed.

(** *** What a step does to the tasks *)

Inductive task_change rt : raction -> gmap positive Task -> Prop :=
| tc_none a : task_change rt a (tasks rt)
| tc_new tid req_id :
    tasks rt !! tid = None ->
    task_change rt (RReserve tid req_id) (<[tid := {| t_req := req_id; t_state := Reserved |}]> (tasks rt))
| tc_admit tid token task :
    tasks rt !! tid = Some task -> t_state task = Reserved ->
    task_change rt (RRegister tid token)
      (<[tid := {| t_req := t_req task; t_state := Registered token |}]> (tasks rt))
| tc_spawn tid task tok :
    tasks rt !! tid = Some task -> t_state task = Registered tok ->
    task_change rt (RSpawn tid) (<[tid := {| t_req := t_req task; t_state := Running tok |}]> (tasks rt))
| tc_poll tid op task tok p :
    tasks rt !! tid = Some task -> t_state task = Running tok ->
    select_poll (is_cancelled tok rt) (t_req task) op = Some p ->
    task_change rt (RPoll tid op) (<[tid := {| t_req := t_req task; t_state := Answering tok p |}]> (tasks rt))
| tc_end a tid task :
    tasks rt !! tid = Some task ->
    t_state task = Reserved /\ (exists token, a = RRegister tid token) \/ (exists tok p, t_state task = Answering tok p) ->
    task_change rt a (delete tid (tasks rt)).

Lemma rstep_tasks rt a rt' evs : rstep rt a = Some (rt', evs) -> task_change rt a (tasks rt').
Proof.
  intros Hs.
  assert (Hqueue : forall rt1 b, on_queue rt1 b = Some (rt', evs) -> tasks rt' = tasks rt1).
  { intros rt1 b (w & es & _ & -> & _)%on_queue_some. done. }
  destruct a; cbn [rstep] in Hs.
  - unfold reserve_task in Hs. case_decide; simplify_eq. by constructor.
  - unfold admit_task in Hs. destruct (tasks rt !! tid) as [task|] eqn:Ht; [|done]. cbn [mbind option_bind] in Hs.
    destruct (t_state task) eqn:Hst; try done. case_decide; [|done].
    unfold register in Hs. destruct (rt_closed rt); [|case_decide]; simplify_eq; cbn [tasks set_tasks].
    1,2: eapply tc_end; [exact Ht|left; split; [done|by eexists]].
    by apply (tc_admit rt tid token task).
  - unfold spawn_task in Hs. destruct (tasks rt !! tid) as [task|] eqn:Ht; [|done]. cbn [mbind option_bind] in Hs.
    destruct (t_state task) as [|tok| |] eqn:Hst; simplify_eq. by apply (tc_spawn rt tid task tok).
  - unfold poll_task in Hs. destruct (tasks rt !! tid) as [task|] eqn:Ht; [|done]. cbn [mbind option_bind] in Hs.
    destruct (t_state task) as [| |tok|] eqn:Hst; try done.
    destruct (select_poll _ _ _) as [p|] eqn:Hp; simplify_eq; [|constructor].
    by apply (tc_poll rt tid op task tok p).
  - unfold answer_task in Hs. destruct (tasks rt !! tid) as [task|] eqn:Ht; [|done]. cbn [mbind option_bind] in Hs.
    destruct (t_state task) eqn:Hst; try done. destruct (locked rt); [done|].
    assert (tasks rt' = delete tid (tasks rt)) as ->.
    { destruct (retire rt (t_req task)).2; [by apply Hqueue in Hs|]. destruct (pending_drop _ _); by simplify_eq. }
    eapply tc_end; [exact Ht|right; by eexists _, _].
  - destruct (locked rt); [done|]. simplify_eq. unfold cancel. destruct (pending rt !! req_id); apply (tc_none rt).
  - unfold drain_begin in Hs. destruct (freeing rt); try done. case_decide; simplify_eq. apply (tc_none rt).
  - unfold drain_one in Hs. destruct (freeing rt) as [|[|[] ]| |]; try done. rewrite (Hqueue _ _ Hs). apply (tc_none rt).
  - unfold drain_end in Hs. destruct (freeing rt) as [|[|]| |]; try done. rewrite (Hqueue _ _ Hs). apply (tc_none rt).
  - unfold waited in Hs. case_decide; [|done]. destruct (freeing rt); simplify_eq. apply (tc_none rt).
  - rewrite (Hqueue _ _ Hs). apply (tc_none rt).
  - rewrite (Hqueue _ _ Hs). apply (tc_none rt).
Qed.

(** A task runs on until it is polled. *)
Lemma running_stays rt rt' a evs tid task tok :
  rstep rt a = Some (rt', evs) -> tasks rt !! tid = Some task -> t_state task = Running tok ->
  (forall op, a <> RPoll tid op) -> tasks rt' !! tid = Some task.
Proof.
  intros Hc%rstep_tasks Ht Hst Hno.
  destruct Hc as [a|i req Hi|i tk x Hi Hx|i x tk Hi Hx|i op x tk p Hi Hx _|a i x Hi Hx];
    rewrite ?lookup_insert_ne, ?lookup_delete_ne; try done.
  all: intros ->; simplify_eq; first [congruence|by apply (Hno op)|destruct Hx as [[? _]|(? & ? & ?)]; congruence].
Qed.

(** A task without an answer stays one but in its poll, or if it is refused. *)
Definition unanswered (tid : positive) rt : Prop :=
  exists task, tasks rt !! tid = Some task /\ forall tok p, t_state task <> Answering tok p.

Lemma unanswered_stays rt rt' a evs tid :
  rstep rt a = Some (rt', evs) -> unanswered tid rt -> (forall op, a <> RPoll tid op) ->
  unanswered tid rt' \/ (exists token, a = RRegister tid token) /\ tasks rt' !! tid = None.
Proof.
  intros Hc%rstep_tasks (task & Ht & Hst) Hno. unfold unanswered.
  destruct Hc as [a|i req Hi|i tk x Hi Hx|i x tk Hi Hx|i op x tk p Hi Hx _|a i x Hi Hx].
  - left. by exists task.
  - left. rewrite lookup_insert_ne; [by exists task|congruence].
  - left. rewrite lookup_insert. case_decide; [|by exists task]. by eexists.
  - left. rewrite lookup_insert. case_decide; [|by exists task]. by eexists.
  - left. rewrite lookup_insert_ne; [by exists task|]. intros ->. by apply (Hno op).
  - rewrite lookup_delete. case_decide; [|left; by exists task]. subst i. simplify_eq.
    destruct Hx as [[_ Hx]|(tk & p & Hx)]; [by right|by destruct (Hst tk p)].
Qed.

(** ** Lemmas: shutdown runs to the end *)

(** The steps that end a task while [free_runtime] waits. *)
Lemma waiting_answer rt tid r tok p :
  rt_inv rt -> freeing rt = Waiting ->
  tasks rt !! tid = Some {| t_req := r; t_state := Answering tok p |} ->
  exists rt', runtime_step rt (RAnswer tid, [EvDiscarded p]) rt' /\ freeing rt' = Waiting /\
    tasks rt' = delete tid (tasks rt).
Proof.
  intros Hrt Hf Htid. pose proof (ri_stage rt Hrt) as Hstage. rewrite Hf in Hstage.
  destruct Hstage as (_ & _ & Hp).
  destruct (ri_result rt Hrt tid _ tok p Htid eq_refl) as [Hok _].
  destruct (pending_drop_spec p (handles (q rt)) (qi_store _ (ri_queue rt Hrt)) Hok)
    as (t & Hd & _ & _).
  exists (set_q (set_handles t (q rt)) (set_tasks (delete tid (tasks rt)) (set_pending (delete r (pending rt)) rt))).
  split; [|done]. split; [done|]. cbn [fst snd rstep]. unfold answer_task. rewrite Htid.
  cbn [mbind option_bind t_state t_req]. unfold locked. rewrite Hf. unfold retire. cbn [fst snd].
  rewrite Hp, lookup_empty. rewrite bool_decide_eq_false_2 by (by intros [? ?]). by rewrite Hd.
Qed.

Lemma waiting_poll rt tid r tok :
  rt_inv rt -> freeing rt = Waiting -> tasks rt !! tid = Some {| t_req := r; t_state := Running tok |} ->
  is_cancelled tok rt = true /\
  runtime_step rt (RPoll tid None, [])
    (set_tasks (<[tid := {| t_req := r; t_state := Answering tok (cancelled_result r) |}]> (tasks rt)) rt).
Proof.
  intros Hrt Hf Htid. destruct (ri_token rt Hrt tid _ tok Htid eq_refl) as [_ Hc]. rewrite Hf in Hc.
  split; [done|]. split; [done|]. cbn [fst snd rstep]. unfold poll_task. rewrite Htid.
  cbn [mbind option_bind t_state t_req]. by rewrite Hc.
Qed.

Lemma waiting_spawn rt tid r tok :
  tasks rt !! tid = Some {| t_req := r; t_state := Registered tok |} ->
  runtime_step rt (RSpawn tid, [])
    (set_tasks (<[tid := {| t_req := r; t_state := Running tok |}]> (tasks rt)) rt).
Proof. intros Htid. split; [done|]. cbn [fst snd rstep]. unfold spawn_task. by rewrite Htid. Qed.

Lemma waiting_refuse rt tid r :
  rt_inv rt -> freeing rt = Waiting -> tasks rt !! tid = Some {| t_req := r; t_state := Reserved |} ->
  exists token, runtime_step rt (RRegister tid token, [EvRefused r Shutdown])
    (set_tasks (delete tid (tasks rt)) rt).
Proof.
  intros Hrt Hf Htid. pose proof (ri_stage rt Hrt) as Hstage. rewrite Hf in Hstage.
  destruct Hstage as (Hc & _). exists (fresh (dom (tokens rt))).
  split; [done|]. cbn [fst snd rstep]. unfold admit_task. rewrite Htid.
  cbn [mbind option_bind t_state t_req]. unfold locked. rewrite Hf, decide_True.
  - unfold register. by rewrite Hc.
  - split; [done|]. apply not_elem_of_dom, is_fresh.
Qed.

(** The drain answers what it holds, in order. *)
Lemma drain_all rest rt :
  rt_inv rt -> freeing rt = Draining rest ->
  exists ls rt', run runtime_step rt ls rt' /\ length ls = S (length rest) /\
    freeing rt' = Waiting /\ tasks rt' = tasks rt /\
    accepted (events (queue_trace (revents ls))) = shutdown_result <$> rest.*1 /\
    Forall (fun l => l.1 = RDrainOne \/ l.1 = RDrainEnd) ls.
Proof.
  revert rt. induction rest as [|[r tok] rest IH]; intros rt Hrt Hf.
  - exists [(RDrainEnd, [EvQueue (AClose, [])])], (set_q (close_queue (q rt)) (set_freeing Waiting rt)).
    split_and!; try done; [|by repeat constructor; right].
    apply run_one. split; [done|]. cbn [fst snd rstep]. unfold drain_end. rewrite Hf. done.
  - pose proof (ri_stage rt Hrt) as Hstage. rewrite Hf in Hstage. destruct Hstage as (_ & Hopen & _).
    destruct (drain_one rt) as [[rt1 evs]|] eqn:Hd.
    + destruct (drain_one_ok _ _ _ Hrt Hd) as [Hrt1 _]. pose proof Hd as Hd'.
      unfold drain_one in Hd'. rewrite Hf in Hd'.
      set (rt0 := set_freeing (Draining rest) (cancel_token tok rt)) in *.
      destruct (on_queue_push rt0 (shutdown_result r) (ri_queue rt Hrt)) as (w & Hw & _); [done|].
      rewrite Hw in Hd'. change (q rt0) with (q rt) in Hd'. rewrite Hopen in Hd'.
      injection Hd' as <- <-.
      destruct (IH _ Hrt1) as (ls & rt' & Hr & Hlen & Hf' & Ht & Hacc & Hd2); [done|].
      exists ([(RDrainOne, [EvQueue (APush (shutdown_result r), [Accepted (shutdown_result r)])])] ++ ls), rt'.
      split_and!; try done.
      * eapply run_app; [|done]. apply run_one. by split.
      * simpl. by rewrite Hlen.
      * rewrite revents_app, queue_trace_app, events_app, accepted_app, Hacc. done.
      * apply Forall_app. split; [|done]. constructor; [by left|done].
    + exfalso. unfold drain_one in Hd. rewrite Hf in Hd.
      destruct (on_queue_push (set_freeing (Draining rest) (cancel_token tok rt))
        (shutdown_result r) (ri_queue rt Hrt)) as (w & Hw & _); [done|]. congruence.
Qed.

(** *** Shutdown under every schedule *)

(** The steps that [free_runtime] and the tasks take from the drain on; a poll that finds nothing ready
    is not one, for the reactor polls a task when it is woken. *)
Definition works (a : raction) : bool :=
  match a with
  | RRegister _ _ | RSpawn _ | RPoll _ _ | RAnswer _ | RDrainOne | RDrainEnd | RWaited => true
  | _ => false
  end.
Definition reserves (a : raction) : bool := match a with RReserve _ _ => true | _ => false end.
Definition woken_step rt (l : raction * list revent) rt' : Prop :=
  runtime_step rt l rt' /\ match l.1 with RPoll _ _ => tasks rt' <> tasks rt | _ => True end.

(** A poll in which the operation is not ready. *)
Definition unready (a : raction) : Prop := match a with RPoll _ (Some _) => False | _ => True end.

(** How many such steps are left: a task's, *)
Definition to_poll (task : Task) : bool :=
  match t_state task with Registered _ | Running _ => true | _ => false end.
Definition to_spawn (task : Task) : bool := match t_state task with Registered _ => true | _ => false end.
Definition tasks_left (m : gmap positive Task) : nat :=
  (size m + mcount (fun task => to_poll task = true) m + mcount (fun task => to_spawn task = true) m)%nat.
(** and the shutdown's. *)
Definition work_left rt : nat :=
  (tasks_left (tasks rt) +
   match freeing rt with Draining rest => length rest + 2 | Waiting => 1 | Open | Freed => 0 end)%nat.

(** What the queue accepted in a step, but for a pump's push. *)
Definition answered (l : raction * list revent) : list Pending :=
  match l.1 with RPushed _ => [] | _ => accepted (events (queue_trace l.2)) end.

Lemma tasks_left_new m tid task :
  m !! tid = None -> t_state task = Reserved -> tasks_left (<[tid := task]> m) = S (tasks_left m).
Proof.
  intros Hm Ht. unfold tasks_left. rewrite map_size_insert_None, !mcount_insert by done.
  unfold to_poll, to_spawn. rewrite Ht, !decide_False by done. lia.
Qed.

Lemma tasks_left_gone m tid task :
  m !! tid = Some task -> to_poll task = false -> to_spawn task = false ->
  S (tasks_left (delete tid m)) = tasks_left m.
Proof.
  intros Hm Hp Hs. unfold tasks_left. rewrite !(mcount_delete _ m tid task Hm), Hp, Hs, !decide_False by done.
  rewrite map_size_delete, Hm. assert (size m <> 0%nat); [|lia].
  intros He. apply map_size_empty_inv in He. by rewrite He in Hm.
Qed.

Lemma tasks_left_moves m tid task task' :
  m !! tid = Some task ->
  (to_poll task = true /\ to_spawn task = true /\ to_poll task' = true /\ to_spawn task' = false) \/
  (to_poll task = true /\ to_spawn task = false /\ to_poll task' = false /\ to_spawn task' = false) ->
  S (tasks_left (<[tid := task']> m)) = tasks_left m.
Proof.
  intros Hm Hx. unfold tasks_left. rewrite map_size_insert_Some by done.
  pose proof (mcount_update (fun task => to_poll task = true) m tid task task' Hm) as H1.
  pose proof (mcount_update (fun task => to_spawn task = true) m tid task task' Hm) as H2.
  cbv beta in H1, H2. destruct Hx as [(E1 & E2 & E3 & E4)|(E1 & E2 & E3 & E4)]; rewrite E1, E3 in H1; rewrite E2, E4 in H2;
    repeat case_decide; try done; lia.
Qed.

Lemma tasks_left_bound m : (tasks_left m <= 3 * size m)%nat.
Proof.
  induction m as [|i x m Hi IH] using map_ind; [done|].
  unfold tasks_left in *. rewrite map_size_insert_None, !mcount_insert by done. repeat case_decide; lia.
Qed.

Definition one (b : bool) : nat := if b then 1 else 0.

(** A step of a runtime that is shutting down. *)
Definition shuts rt (l : raction * list revent) rt' : Prop :=
  freeing rt' <> Open /\
  (one (works l.1) + work_left rt' = work_left rt + one (reserves l.1))%nat /\
  answered l ++ (shutdown_result <$> (remaining rt').*1) = shutdown_result <$> (remaining rt).*1.

Lemma shuts_silent rt a evs rt' :
  freeing rt <> Open -> freeing rt' = freeing rt -> answered (a, evs) = [] ->
  (one (works a) + tasks_left (tasks rt') = tasks_left (tasks rt) + one (reserves a))%nat ->
  shuts rt (a, evs) rt'.
Proof.
  intros Hf Hf' He Hw. split; [by rewrite Hf'|]. unfold work_left, remaining. cbn [fst snd]. rewrite Hf', He.
  split; [lia|done].
Qed.

Lemma shuts_drain rt a evs rt' :
  rt_inv rt -> rstep rt a = Some (rt', evs) -> a = RDrainOne \/ a = RDrainEnd \/ a = RWaited -> shuts rt (a, evs) rt'.
Proof.
  intros Hrt Hs Ha. unfold shuts, work_left, remaining. destruct Ha as [->|[->| ->]]; cbn [rstep] in Hs.
  - unfold drain_one in Hs. destruct (freeing rt) as [|[|[r tok] rest]| |] eqn:Hf; try done.
    pose proof (ri_stage rt Hrt) as Hst. rewrite Hf in Hst. destruct Hst as (_ & Hopen & _).
    set (rt0 := set_freeing (Draining rest) (cancel_token tok rt)) in *.
    destruct (on_queue_push rt0 (shutdown_result r) (ri_queue rt Hrt)) as (w & Hw & _); [done|].
    change (q rt0) with (q rt) in Hw. rewrite Hw, Hopen in Hs. injection Hs as <- <-. cbn. split; [done|]. split; [lia|done].
  - unfold drain_end in Hs. destruct (freeing rt) as [|[|[r tok] rest]| |] eqn:Hf; try done.
    apply on_queue_some in Hs as (w & qevs & Hq & -> & ->). cbn in Hq. injection Hq as <- <-. cbn.
    split; [done|]. split; [lia|done].
  - unfold waited in Hs. case_decide; [|done]. destruct (freeing rt) eqn:Hf; simplify_eq. cbn. split; [done|]. split; [lia|done].
Qed.

(** A task that answers now is too late. *)
Lemma shuts_answer rt tid rt' evs :
  rt_inv rt -> freeing rt <> Open -> answer_task rt tid = Some (rt', evs) -> shuts rt (RAnswer tid, evs) rt'.
Proof.
  intros Hrt Hf Hs. unfold answer_task in Hs. destruct (tasks rt !! tid) as [task|] eqn:Ht; [|done].
  cbn [mbind option_bind] in Hs. destruct (t_state task) as [| | |tok p] eqn:Hst; try done.
  destruct (locked rt) eqn:Hl; [done|]. unfold locked in Hl.
  pose proof (ri_stage rt Hrt) as Hstage.
  assert (pending rt = ∅) as Hp by (destruct (freeing rt); try done; naive_solver).
  unfold retire in Hs. cbn [fst snd] in Hs. rewrite Hp, lookup_empty, bool_decide_eq_false_2 in Hs by (by intros [? ?]).
  destruct (pending_drop p (handles (q rt))) as [x|]; [|done]. injection Hs as <- <-.
  apply shuts_silent; [done..|]. cbn. rewrite Nat.add_0_r. apply (tasks_left_gone _ tid task Ht);
    unfold to_poll, to_spawn; by rewrite Hst.
Qed.

Lemma shuts_step rt l rt' : rt_inv rt -> freeing rt <> Open -> woken_step rt l rt' -> shuts rt l rt'.
Proof.
  destruct l as [a evs]. intros Hrt Hf [[Ha Hs] Hw]. cbn [fst snd] in *.
  destruct a; cbn [rstep] in Hs; try (by apply (shuts_drain rt); auto); try (by apply shuts_answer).
  - unfold reserve_task in Hs. case_decide; [|done]. injection Hs as <- <-. apply shuts_silent; [done..|].
    cbn. rewrite (tasks_left_new _ tid _ ltac:(done)) by done. lia.
  - unfold admit_task in Hs. destruct (tasks rt !! tid) as [task|] eqn:Ht; [|done]. cbn [mbind option_bind] in Hs.
    destruct (t_state task) eqn:Hst; try done. case_decide; [|done]. unfold register in Hs.
    pose proof (ri_stage rt Hrt) as Hstage.
    assert (rt_closed rt = true) as Hc by (destruct (freeing rt); [done|naive_solver..]). rewrite Hc in Hs.
    injection Hs as <- <-. apply shuts_silent; [done..|]. cbn. rewrite Nat.add_0_r.
    apply (tasks_left_gone _ tid task Ht); unfold to_poll, to_spawn; by rewrite Hst.
  - unfold spawn_task in Hs. destruct (tasks rt !! tid) as [task|] eqn:Ht; [|done]. cbn [mbind option_bind] in Hs.
    destruct (t_state task) as [|tok| |] eqn:Hst; try done. injection Hs as <- <-. apply shuts_silent; [done..|].
    cbn. rewrite Nat.add_0_r. apply (tasks_left_moves _ tid task _ Ht). left. unfold to_poll, to_spawn. by rewrite Hst.
  - unfold poll_task in Hs. destruct (tasks rt !! tid) as [task|] eqn:Ht; [|done]. cbn [mbind option_bind] in Hs.
    destruct (t_state task) as [| |tok|] eqn:Hst; try done.
    destruct (select_poll _ _ _); injection Hs as <- <-; [|done]. apply shuts_silent; [done..|].
    cbn. rewrite Nat.add_0_r. apply (tasks_left_moves _ tid task _ Ht). right. unfold to_poll, to_spawn. by rewrite Hst.
  - destruct (locked rt) eqn:Hl; [done|]. injection Hs as <- <-.
    apply shuts_silent; [done|..]; unfold cancel; by destruct (pending rt !! req_id).
  - unfold drain_begin in Hs. by destruct (freeing rt).
  - apply on_queue_some in Hs as (w & qevs & _ & -> & ->). apply shuts_silent; [done..|]. cbn. lia.
  - apply on_queue_some in Hs as (w & qevs & Hq & -> & ->). apply shuts_silent; [done|done| |cbn; lia].
    assert (match a with APush _ | AClose => False | _ => True end) as Hquiet by (by destruct a).
    destruct (quiet_step _ _ _ _ (ri_queue rt Hrt) Hq Hquiet) as [_ Hacc].
    unfold answered. cbn [fst snd]. by rewrite events_one.
Qed.

Lemma run_shuts rt ls rt' :
  rt_inv rt -> freeing rt <> Open -> run woken_step rt ls rt' ->
  rt_inv rt' /\ freeing rt' <> Open /\
  (count (fun l => works l.1 = true) ls + work_left rt' = work_left rt + count (fun l => reserves l.1 = true) ls)%nat /\
  (ls ≫= answered) ++ (shutdown_result <$> (remaining rt').*1) = shutdown_result <$> (remaining rt).*1.
Proof.
  intros Hrt Hf Hr. induction Hr as [rt|rt ls rt1 l rt2 _ IH Hs]; [done|].
  destruct (IH Hrt Hf) as (Hrt1 & Hf1 & Hw1 & Ha1).
  destruct (shuts_step rt1 l rt2 Hrt1 Hf1 Hs) as (Hf2 & Hw2 & Ha2). destruct Hs as [Hs _].
  split; [by eapply runtime_step_ok|]. split; [done|]. rewrite !count_app, bind_app, !count_cons, !count_nil. cbn [mbind list_bind].
  rewrite app_nil_r. split; [|by rewrite <- app_assoc, Ha2].
  unfold one in Hw2. destruct (works l.1), (reserves l.1); repeat case_decide; try done; lia.
Qed.

(** After the end only requests that came too late are about, which are yet to be refused. *)
Definition only_late rt : Prop :=
  freeing rt = Freed -> forall tid task, tasks rt !! tid = Some task -> t_state task = Reserved.

Lemma only_late_step rt l rt' : rt_inv rt -> only_late rt -> woken_step rt l rt' -> only_late rt'.
Proof.
  destruct l as [a evs]. intros Hrt Hl [[_ Hs] _] Hf tid task Ht. cbn [fst snd] in Hs.
  destruct a; cbn [rstep] in Hs.
  - unfold reserve_task in Hs. case_decide; [|done]. injection Hs as <- <-. cbn in Ht.
    rewrite lookup_insert in Ht. case_decide; [by injection Ht as <-|by eapply Hl].
  - unfold admit_task in Hs. destruct (tasks rt !! tid0) as [x|]; [|done]. cbn [mbind option_bind] in Hs.
    destruct (t_state x); try done. case_decide; [|done]. pose proof (ri_stage rt Hrt) as Hst.
    unfold register in Hs. destruct (rt_closed rt).
    + injection Hs as <- <-. cbn in Ht. apply lookup_delete_Some in Ht as [_ Ht]. by eapply Hl.
    + case_decide; injection Hs as <- <-; cbn in Hf; by rewrite Hf in Hst; destruct Hst.
  - unfold spawn_task in Hs. destruct (tasks rt !! tid0) as [x|] eqn:Hx; [|done]. cbn [mbind option_bind] in Hs.
    destruct (t_state x) eqn:Hst; try done. injection Hs as <- <-. by rewrite (Hl Hf tid0 x Hx) in Hst.
  - unfold poll_task in Hs. destruct (tasks rt !! tid0) as [x|] eqn:Hx; [|done]. cbn [mbind option_bind] in Hs.
    destruct (t_state x) eqn:Hst; try done.
    destruct (select_poll _ _ _); injection Hs as <- <-; [by rewrite (Hl Hf tid0 x Hx) in Hst|by eapply Hl].
  - unfold answer_task in Hs. destruct (tasks rt !! tid0) as [x|] eqn:Hx; [|done]. cbn [mbind option_bind] in Hs.
    destruct (t_state x) eqn:Hst; try done. destruct (locked rt); [done|].
    assert (freeing rt' = freeing rt) as Hf'.
    { destruct (retire rt (t_req x)).2; [by apply on_queue_some in Hs as (w & qevs & _ & -> & _)|].
      destruct (pending_drop _ _); by simplify_eq. }
    rewrite Hf' in Hf. by rewrite (Hl Hf tid0 x Hx) in Hst.
  - destruct (locked rt); [done|]. injection Hs as <- <-. unfold cancel in *. destruct (pending rt !! req_id); by eapply Hl.
  - unfold drain_begin in Hs. destruct (freeing rt); try done. case_decide; by simplify_eq.
  - unfold drain_one in Hs. destruct (freeing rt) as [|[|[] ]| |]; try done.
    by apply on_queue_some in Hs as (w & qevs & _ & -> & _).
  - unfold drain_end in Hs. destruct (freeing rt) as [|[|]| |]; try done.
    by apply on_queue_some in Hs as (w & qevs & _ & -> & _).
  - unfold waited in Hs. case_decide as He; [|done]. destruct (freeing rt); try done. injection Hs as <- <-.
    cbn in Ht. by rewrite He in Ht.
  - apply on_queue_some in Hs as (w & qevs & _ & -> & _). by eapply Hl.
  - apply on_queue_some in Hs as (w & qevs & _ & -> & _). by eapply Hl.
Qed.

Lemma run_only_late rt ls rt' :
  rt_inv rt -> freeing rt <> Open -> only_late rt -> run woken_step rt ls rt' -> only_late rt'.
Proof.
  intros Hrt Hf Hl Hr. induction Hr as [rt|rt ls rt1 l rt2 Hr IH Hs]; [done|].
  destruct (run_shuts rt ls rt1 Hrt Hf Hr) as (Hrt1 & _). eapply only_late_step; [exact Hrt1|by apply IH|exact Hs].
Qed.

(** Until it is freed the runtime can always go on, with no operation ready. *)
Lemma shutdown_goes_on rt :
  rt_inv rt -> freeing rt <> Open -> freeing rt <> Freed ->
  exists a evs rt', works a = true /\ unready a /\ woken_step rt (a, evs) rt'.
Proof.
  intros Hrt Ho Hf. destruct (freeing rt) as [|rest| |] eqn:Hst; try done.
  - pose proof Hst as Hst'. destruct (drain_all rest rt Hrt Hst) as (ls & rt1 & Hr & Hlen & _ & _ & _ & Hall).
    destruct ls as [|[a evs] ls]; [done|]. apply (run_split _ _ [(a, evs)] ls) in Hr as (rt2 & Hr & _).
    apply (run_snoc_inv _ _ []) in Hr as (rt3 & Hn & Hs). apply run_nil_inv in Hn as ->.
    apply Forall_cons in Hall as [Ha _]. cbn in Ha. exists a, evs, rt2.
    destruct Ha as [-> | ->]; (split; [done|]; split; [done|]; by split).
  - destruct (decide (tasks rt = ∅)) as [He|He].
    + exists RWaited, [EvFreed], (set_freeing Freed rt). split; [done|]. split; [done|]. split; [|done].
      split; [done|]. cbn. unfold waited. by rewrite decide_True, Hst.
    + destruct (map_choose _ He) as (tid & [r [|tok|tok|tok p]] & Ht).
      * destruct (waiting_refuse rt tid r Hrt Hst Ht) as [token Hs]. eexists _, _, _. split; [|split; [|by split; [exact Hs|]]]; done.
      * pose proof (waiting_spawn rt tid r tok Ht) as Hs. eexists _, _, _. split; [|split; [|by split; [exact Hs|]]]; done.
      * destruct (waiting_poll rt tid r tok Hrt Hst Ht) as [_ Hs]. eexists _, _, _. split; [|split; [|split; [exact Hs|]]]; [done|done|].
        cbn. intros Hx. apply (f_equal (lookup tid)) in Hx. rewrite lookup_insert_eq, Ht in Hx. done.
      * destruct (waiting_answer rt tid r tok p Hrt Hst Ht) as (rt' & Hs & _). eexists _, _, _. split; [|split; [|by split; [exact Hs|]]]; done.
Qed.

End lemmas.

(** ** A sample schedule: one request succeeds, one is caught by the shutdown *)

Definition sample_rt : RuntimeEntry Table :=
  {| q := sample_world; pending := ∅; rt_closed := false; tokens := ∅; tasks := ∅;
     freeing := Open |}.
Definition sample_requests : list raction :=
  [RReserve 1 5; RRegister 1 1; RSpawn 1; RReserve 2 7; RRegister 2 2; RSpawn 2;
   RPoll 1 (Some (Done (pending_ack 5))); RAnswer 1; RReserve 3 7;
   RDrain [(7, 2%positive)]; RDrainOne; RDrainEnd; RPoll 2 None; RAnswer 2].
Definition sample_rt_state (n : nat) : RuntimeEntry Table :=
  default sample_rt (fst <$> exec rstep sample_rt (take n sample_requests)).
Definition sample_rt_trace (n : nat) : list (raction * list revent) :=
  default [] (snd <$> exec rstep sample_rt (take n sample_requests)).

Lemma sample_rt_initial : runtime_initial sample_rt.
Proof. split; [apply sample_world_initial|done]. Qed.

Lemma sample_rt_prefix n : run runtime_step sample_rt (sample_rt_trace n) (sample_rt_state n).
Proof.
  unfold sample_rt_trace, sample_rt_state.
  pose proof (exec_run rstep raction_ok sample_rt (take n sample_requests)) as He.
  assert (exec_ok rstep raction_ok sample_rt (take n sample_requests)) as Hok.
  { do 15 (destruct n as [|n]; [vm_compute; intuition (congruence || naive_solver)|]).
    vm_compute; intuition (congruence || naive_solver). }
  destruct (exec _ _ _) as [[w ls]|]; simpl; [by apply He|constructor].
Qed.

(** ** Properties *)

Section properties.
Context {T : Type} `{HandleStore T}.
Implicit Types (rt : RuntimeEntry T).

(** C1 Every request is answered exactly once.  Along any interleaving of requests, operations
    that succeed, fail or panic, cancellations, pollers and shutdown: for every request id, the
    times it was registered are the completions with that id that pollers took, plus those still
    queued, plus one exactly while it is outstanding; a request is outstanding only while the
    pending table or the running drain holds it, and once the drain is over none is. *)
Theorem every_request_answered_once rt0 ls rt r :
  runtime_initial rt0 -> run runtime_step rt0 ls rt -> r <> PUSHED ->
  let evs := events (queue_trace (revents ls)) in
  registrations r (revents ls) =
    (answers r (taken evs) + answers r (queue (shared (q rt))) + outstanding r rt)%nat /\
  match freeing rt with
  | Open => outstanding r rt = if decide (is_Some (pending rt !! r)) then 1%nat else 0%nat
  | Draining rest => outstanding r rt = count (fun x => x.1 = r) rest
  | Waiting | Freed => outstanding r rt = 0%nat /\ closed (shared (q rt)) = true
  end.
Proof.
  intros H0 Hr Hne evs. pose proof (runtime_initial_inv _ H0) as Hrt0.
  pose proof (ri_stage rt (run_runtime_inv _ _ _ Hrt0 Hr)) as Hstage.
  destruct H0 as ((Hq0 & _) & Hp & _ & _ & Hf).
  destruct (run_balanced rt0 ls rt r Hrt0) as [Hb Hq]; [|by rewrite Hq0|done..|].
  { intros r'. unfold outstanding, remaining. rewrite Hp, Hf, lookup_empty, count_nil.
    by rewrite decide_False by (by intros [? ?]). }
  fold evs in Hb, Hq. split.
  - rewrite Hb, Hq, answers_app. lia.
  - unfold outstanding, remaining.
    destruct (freeing rt); [rewrite count_nil; lia|..]; destruct Hstage as (_ & ? & ->);
      rewrite lookup_empty, decide_False by (by intros [? ?]); rewrite ?count_nil; auto.
Qed.

(** Admission.  A request that reaches the pending table is refused with [Shutdown] once
    shutdown has begun; refused as a duplicate, leaving the earlier request and its token
    untouched, while one with its id is outstanding; and otherwise registered under a token that
    is not cancelled.  A refused request leaves no task behind for shutdown to wait for. *)
Theorem admission_decides rt0 ls rt tid task token :
  runtime_initial rt0 -> run runtime_step rt0 ls rt ->
  tasks rt !! tid = Some task -> t_state task = Reserved -> locked rt = false ->
  tokens rt !! token = None ->
  exists rt' evs, admit_task rt tid token = Some (rt', evs) /\
    match freeing rt, pending rt !! t_req task with
    | Open, None =>
        evs = [EvRegistered (t_req task)] /\
        pending rt' = <[t_req task := token]> (pending rt) /\ is_cancelled token rt' = false /\
        tasks rt' = <[tid := {| t_req := t_req task; t_state := Registered token |}]> (tasks rt)
    | Open, Some _ =>
        evs = [EvRefused (t_req task) (duplicate (t_req task))] /\
        pending rt' = pending rt /\ tokens rt' = tokens rt /\ tasks rt' = delete tid (tasks rt)
    | _, _ =>
        evs = [EvRefused (t_req task) Shutdown] /\
        pending rt' = ∅ /\ tokens rt' = tokens rt /\ tasks rt' = delete tid (tasks rt)
    end.
Proof.
  intros H0 Hr Htid Hst Hlock Htok.
  pose proof (run_runtime_inv _ _ _ (runtime_initial_inv _ H0) Hr) as Hrt.
  pose proof (ri_stage rt Hrt) as Hstage. unfold admit_task. rewrite Htid.
  cbn [mbind option_bind]. rewrite Hst, decide_True by done. unfold register, locked in *.
  destruct (freeing rt); try done; destruct Hstage as (Hc & Hstage); rewrite Hc;
    [|eexists _, _; split; [done|]; by destruct Hstage..].
  destruct (pending rt !! t_req task) as [tok|] eqn:Hp.
  - rewrite decide_True by eauto. eexists _, _. split; [done|]. done.
  - rewrite decide_False by (by intros [? ?]). eexists _, _. split; [done|].
    split_and!; try done. unfold is_cancelled. simpl. by rewrite lookup_insert_eq.
Qed.

(** C30 A cancellation wins over its operation and touches nothing else.  After [cancel] of an
    outstanding request whose task runs, no other token changes, and whatever the operation
    does, even if it has a result ready or panics, the task answers with exactly the cancelled
    completion, once, and retires the request; a result of the operation that lost the race is
    never accepted. *)
Theorem cancel_answers_cancelled rt0 ls rt tid r tok op :
  runtime_initial rt0 -> run runtime_step rt0 ls rt -> freeing rt = Open ->
  tasks rt !! tid = Some {| t_req := r; t_state := Running tok |} ->
  (forall tid' task' tok', tid' <> tid -> tasks rt !! tid' = Some task' ->
     task_token task' = Some tok' ->
     is_cancelled tok' (cancel rt r) = is_cancelled tok' rt) /\
  exists rt' rt'',
    poll_task (cancel rt r) tid op = Some (rt', []) /\
    answer_task rt' tid =
      Some (rt'', [EvQueue (APush (cancelled_result r), [Accepted (cancelled_result r)])]) /\
    pending rt'' !! r = None /\ tasks rt'' !! tid = None.
Proof.
  intros H0 Hr Hf Htid.
  pose proof (run_runtime_inv _ _ _ (runtime_initial_inv _ H0) Hr) as Hrt.
  pose proof (ri_stage rt Hrt) as Hstage. rewrite Hf in Hstage. destruct Hstage as [_ Hopen].
  destruct (ri_token rt Hrt tid _ tok Htid eq_refl) as [_ Hp]. rewrite Hf in Hp. simpl in Hp.
  unfold cancel. rewrite Hp. split.
  - intros tid' task' tok' Hne Htid' Htok'. unfold is_cancelled. simpl.
    rewrite lookup_insert_ne; [done|]. intros <-. apply Hne.
    by apply (ri_unique rt Hrt tid' tid task' {| t_req := r; t_state := Running tok |} tok).
  - unfold poll_task, answer_task. simpl. rewrite Htid. cbn [mbind option_bind t_state t_req].
    assert (is_cancelled tok (cancel_token tok rt) = true) as ->.
    { unfold is_cancelled. simpl. by rewrite lookup_insert_eq. }
    cbn [select_poll]. eexists _. unfold answer_task. simpl.
    eexists. split; [done|]. cbn [tasks set_tasks]. rewrite lookup_insert_eq.
    cbn [mbind option_bind t_state t_req]. unfold locked. simpl. rewrite Hf, Hp.
    rewrite bool_decide_eq_true_2 by eauto.
    unfold on_queue, push. simpl. unfold push. simpl. rewrite Hopen.
    split; [done|]. simpl. by rewrite !lookup_delete_eq.
Qed.

(** C17 Shutdown terminates under every schedule, for every program of operations.  From when
    [free_runtime] has taken the pending table, consider any run of the runtime, in which other threads
    still make requests, cancel, poll the queue and push, and the operations of the requests become
    ready or never do.  (1) No such run is long: the steps of the drain, of the tasks and of the wait
    are at most those that the outstanding requests and the tracked tasks account for, and one for every
    request made meanwhile.  (2) It never gets stuck: until [free_runtime] has returned such a step is
    possible, even if no operation is or ever becomes ready.  (3) Every request that was outstanding, and
    no other, is answered with the shutdown completion, in the order in which the drain took them; when
    the drain is over all of them are.  (4) At the end the queue is closed, nothing is pending, and of
    tasks there are only those of requests that came too late, yet to be refused. *)
Theorem shutdown_terminates rt0 ls rt order evs rt1 ls' rt' :
  runtime_initial rt0 -> run runtime_step rt0 ls rt -> runtime_step rt (RDrain order, evs) rt1 ->
  run woken_step rt1 ls' rt' ->
  (count (fun l => works l.1 = true) ls' <=
     size (pending rt) + 3 * size (tasks rt) + 2 + count (fun l => reserves l.1 = true) ls')%nat /\
  (freeing rt' = Freed \/
   exists a evs' rt'', works a = true /\ unready a /\ woken_step rt' (a, evs') rt'') /\
  order ≡ₚ map_to_list (pending rt) /\
  (ls' ≫= answered) ++ (shutdown_result <$> (remaining rt').*1) = shutdown_result <$> order.*1 /\
  (freeing rt' = Freed ->
     remaining rt' = [] /\ closed (shared (q rt')) = true /\ pending rt' = ∅ /\
     forall tid task, tasks rt' !! tid = Some task -> t_state task = Reserved).
Proof.
  intros H0 Hr Hd Hr'. pose proof (run_runtime_inv _ _ _ (runtime_initial_inv _ H0) Hr) as Hrt.
  pose proof (proj1 (runtime_step_ok _ _ _ Hrt Hd)) as Hrt1. destruct Hd as [_ Hd]. cbn [fst snd rstep] in Hd.
  unfold drain_begin in Hd. destruct (freeing rt); try done. case_decide as Hord; [|done].
  assert (freeing rt1 = Draining order /\ tasks rt1 = tasks rt) as [Hfr Htasks] by (by simplify_eq). clear Hd.
  assert (freeing rt1 <> Open) as Hf by (by rewrite Hfr).
  destruct (run_shuts rt1 ls' rt' Hrt1 Hf Hr') as (Hrt' & Hf' & Hw & Ha).
  unfold remaining at 2 in Ha. rewrite Hfr in Ha.
  split; [|split; [|split; [done|split; [exact Ha|]]]].
  - pose proof (tasks_left_bound (tasks rt)) as Hb. unfold work_left in Hw. rewrite Htasks, Hfr in Hw.
    assert (length order = size (pending rt)) as Hlen by (rewrite Hord; apply length_map_to_list). lia.
  - assert (freeing rt' = Freed \/ freeing rt' <> Freed) as [|Hne] by (destruct (freeing rt'); auto); [by left|right].
    by apply shutdown_goes_on.
  - intros Hfreed. pose proof (ri_stage rt' Hrt') as Hst. rewrite Hfreed in Hst. destruct Hst as (_ & Hc & Hp).
    unfold remaining. rewrite Hfreed. split; [done|]. split; [done|]. split; [done|].
    apply (run_only_late rt1 ls' rt' Hrt1 Hf); [|done..]. intros Hx. by rewrite Hfr in Hx.
Qed.
End properties.

Lemma every_request_answered_once_witness :
  let evs := events (queue_trace (revents (sample_rt_trace 14))) in
  registrations 7 (revents (sample_rt_trace 14)) =
    (answers 7 (taken evs) + answers 7 (queue (shared (q (sample_rt_state 14))))
     + outstanding 7 (sample_rt_state 14))%nat /\
  outstanding 7 (sample_rt_state 14) = 0%nat /\
  closed (shared (q (sample_rt_state 14))) = true.
Proof.
  apply (every_request_answered_once sample_rt (sample_rt_trace 14) (sample_rt_state 14) 7);
    [apply sample_rt_initial|apply sample_rt_prefix|done].
Defined.

Lemma admission_decides_witness :
  exists rt' evs, admit_task (sample_rt_state 9) 3 9 = Some (rt', evs) /\
    evs = [EvRefused 7 (duplicate 7)] /\ pending rt' = pending (sample_rt_state 9) /\
    tokens rt' = tokens (sample_rt_state 9) /\ tasks rt' = delete 3%positive (tasks (sample_rt_state 9)).
Proof.
  apply (admission_decides sample_rt (sample_rt_trace 9) (sample_rt_state 9) 3
    {| t_req := 7; t_state := Reserved |} 9%positive);
    [apply sample_rt_initial|apply sample_rt_prefix|reflexivity..].
Defined.

Lemma cancel_answers_cancelled_witness :
  (forall tid' task' tok', tid' <> 2%positive -> tasks (sample_rt_state 9) !! tid' = Some task' ->
     task_token task' = Some tok' ->
     is_cancelled tok' (cancel (sample_rt_state 9) 7) = is_cancelled tok' (sample_rt_state 9)) /\
  exists rt' rt'',
    poll_task (cancel (sample_rt_state 9) 7) 2 (Some (Done (pending_ack 7))) = Some (rt', []) /\
    answer_task rt' 2 =
      Some (rt'', [EvQueue (APush (cancelled_result 7), [Accepted (cancelled_result 7)])]) /\
    pending rt'' !! 7 = None /\ tasks rt'' !! 2%positive = None.
Proof.
  apply (cancel_answers_cancelled sample_rt (sample_rt_trace 9) (sample_rt_state 9) 2 7 2%positive);
    [apply sample_rt_initial|apply sample_rt_prefix|reflexivity..].
Defined.

(** The rest of the sample, from the drain on: a request comes too late, an operation never gets ready. *)
Definition sample_shutdown : list raction := [RDrainOne; RReserve 4 9; RDrainEnd; RPoll 2 None; RAnswer 2; RRegister 4 9].
Definition sample_shutdown_state : RuntimeEntry Table :=
  default sample_rt (fst <$> exec rstep (sample_rt_state 10) sample_shutdown).
Definition sample_shutdown_trace : list (raction * list revent) :=
  default [] (snd <$> exec rstep (sample_rt_state 10) sample_shutdown).

Lemma sample_shutdown_run : run woken_step (sample_rt_state 10) sample_shutdown_trace sample_shutdown_state.
Proof.
  unfold sample_shutdown_trace, sample_shutdown_state.
  set (woken := fun rt a => raction_ok rt a /\
    match a with RPoll _ _ => (fun r => tasks r.1) <$> rstep rt a <> Some (tasks rt) | _ => True end).
  pose proof (exec_run rstep woken (sample_rt_state 10) sample_shutdown) as He.
  assert (exec_ok rstep woken (sample_rt_state 10) sample_shutdown) as Hok.
  { vm_compute; intuition (congruence || naive_solver). }
  destruct (exec _ _ _) as [[w ls]|] eqn:E; [|vm_compute in E; discriminate]. simpl.
  specialize (He w ls Hok eq_refl). revert He. generalize (sample_rt_state 10) w ls. clear.
  induction 1 as [rt|rt ls rt1 [a evs] rt2 _ IH [[Ha Hw] Hs]]; econstructor; [exact IH|].
  split; [done|]. cbn [fst snd] in *. destruct a; try done. rewrite Hs in Hw. cbn in Hw. congruence.
Qed.

Lemma shutdown_terminates_witness :
  (sample_shutdown_trace ≫= answered) = [shutdown_result 7] /\
  exists a evs rt, works a = true /\ unready a /\ woken_step sample_shutdown_state (a, evs) rt.
Proof.
  destruct (shutdown_terminates sample_rt (sample_rt_trace 9) (sample_rt_state 9) [(7, 2%positive)] []
    (sample_rt_state 10) sample_shutdown_trace sample_shutdown_state) as (_ & Hgo & _ & Ha & _).
  - apply sample_rt_initial.
  - apply sample_rt_prefix.
  - split; [exact I|vm_compute; reflexivity].
  - apply sample_shutdown_run.
  - split; [|destruct Hgo as [Hf|Hgo]; [vm_compute in Hf; discriminate|exact Hgo]].
    assert (remaining sample_shutdown_state = []) as Hrem by (vm_compute; reflexivity).
    rewrite Hrem in Ha. cbn in Ha. by rewrite app_nil_r in Ha.
Defined.
