(* ===== verification/Slots.v ===== *)
(** JVM-driven slot suppliers ([jvm_slots.rs]).

    A [World] is one resource gate with the suppliers that share it, the permits that are out, the
    [reserve_slot] futures that are running, the threads inside a call on the gate, and the clock in
    milliseconds.  What runs under a supplier's mutex is one transition: [try_reserve_slot], and the
    first line of a permit's drop.  The gate has no mutex, so every access to one of its atomics and
    every [notify_waiters] is a transition of its own: [update], the rest of a permit's drop and
    [stats] are lists of such operations, which a [Thread] takes one at a time, in between the steps
    of everybody else.  A future's loop is [WStart], [WEnabled] once its notification is registered,
    [WRefused] once the try has failed, [WWaiting] in the [select!], and [WGranted] once the try has
    succeeded and before [PendingReserve] is dropped.  A waiter's flag is whether [notify_waiters]
    ran since it registered.  Queue [true] is the sticky workflow queue (index 1 of [issued]). *)

From S2P Require Import Prelude Abi KtError.

(** ** The resource gate *)

Record ResourceGate := { allowed : Z; reserved : list Z; gate_pending : list Z }.

Definition gate_new : ResourceGate :=
  {| allowed := 0; reserved := replicate 4 0; gate_pending := replicate 4 0 |}.

Definition allows (g : ResourceGate) (kind : nat) : bool :=
  negb (bool_decide (Z.land (allowed g) (Z.shiftl 1 (Z.of_nat kind)) = 0)).

(** One of the eight loads of [stats]: reserved and pending of each kind, alternating. *)
Definition load (g : ResourceGate) (index : nat) : Z :=
  (if decide (index `mod` 2 = 0)%nat then reserved g else gate_pending g) !!! (index / 2)%nat.

(** What a thread does to the gate, each at one instant. *)
Inductive gate_op :=
| Store (mask : Z)
| FetchSub (kind : nat)
| Notify
| Load (index : nat).
#[export] Instance gate_op_eq_dec : EqDecision gate_op.
Proof. solve_decision. Defined.

(** [ResourceGate::update]. *)
Definition update (mask : Z) : list gate_op := [Store mask; Notify].

(** [ResourceGate::stats]. *)
Definition stats : list gate_op := Load <$> seq 0 8.

(** [fetch_add] and [fetch_sub] on a counter. *)
Definition bump (d : Z) (kind : nat) (counters : list Z) : list Z :=
  alter (fun x => u32 (x + d)) kind counters.

Definition add_reserved (d : Z) (kind : nat) (g : ResourceGate) : ResourceGate :=
  {| allowed := allowed g; reserved := bump d kind (reserved g); gate_pending := gate_pending g |}.
Definition add_pending (d : Z) (kind : nat) (g : ResourceGate) : ResourceGate :=
  {| allowed := allowed g; reserved := reserved g; gate_pending := bump d kind (gate_pending g) |}.

(** ** Suppliers *)

Record JvmSlots := {
  issued : bool -> nat;
  last_issued : Z;
  minimum : nat;
  maximum : nat;
  ramp : Z;
  kind : nat;
  sticky : bool;
}.

(** [supplier]: a fresh one; [now] is [Instant::now()]. *)
Definition supplier (minimum_slots maximum_slots : nat) (ramp_millis : Z) (kind : nat)
    (sticky : bool) (now : Z) : JvmSlots :=
  {| issued := fun _ => 0%nat; last_issued := now; minimum := minimum_slots;
     maximum := maximum_slots; ramp := ramp_millis; kind := kind; sticky := sticky |}.

Definition total (s : JvmSlots) : nat := (issued s false + issued s true)%nat.

Definition set_issued (q : bool) (n : nat) (s : JvmSlots) : JvmSlots :=
  {| issued := fun q' => if decide (q' = q) then n else issued s q';
     last_issued := last_issued s; minimum := minimum s; maximum := maximum s; ramp := ramp s;
     kind := kind s; sticky := sticky s |}.
Definition set_last (now : Z) (s : JvmSlots) : JvmSlots :=
  {| issued := issued s; last_issued := now; minimum := minimum s; maximum := maximum s;
     ramp := ramp s; kind := kind s; sticky := sticky s |}.

(** [last_issued.elapsed()]. *)
Definition elapsed (s : JvmSlots) (now : Z) : Z := Z.max 0 (now - last_issued s).

Record Permit := { permit_supplier : positive; permit_queue : bool; permit_kind : nat }.

Definition queue_of (s : JvmSlots) (ctx_sticky : bool) : bool := sticky s && ctx_sticky.

(** [try_reserve_slot]: the gate and the supplier with the permit issued, and its queue. *)
Definition try_reserve_slot (g : ResourceGate) (s : JvmSlots) (ctx_sticky : bool) (now : Z) :
    option (ResourceGate * JvmSlots * bool) :=
  let queue := queue_of s ctx_sticky in
  let issued_total := total s in
  if decide (maximum s <= issued_total)%nat then None
  else if decide (sticky s = true /\ issued s (negb queue) = 0%nat /\
                  (issued_total + 1)%nat = maximum s) then None
  else
    let required := bool_decide ((issued_total < minimum s)%nat \/
                                 (sticky s = true /\ issued s queue = 0%nat)) in
    if decide (required = false /\ (allows g (kind s) = false \/ elapsed s now < ramp s)) then None
    else Some (add_reserved 1 (kind s) g,
               set_last now (set_issued queue (issued s queue + 1) s), queue).

(** [available_slots]. *)
Definition available_slots (s : JvmSlots) : outcome nat :=
  if decide (total s <= maximum s)%nat then Done (maximum s - total s)%nat
  else Panicked (PayloadStr "attempt to subtract with overflow").

(** [Drop for Permit], its first line: on the supplier, *)
Definition release (q : bool) (s : JvmSlots) : outcome JvmSlots :=
  if decide (issued s q = 0%nat) then Panicked (PayloadStr "attempt to subtract with overflow")
  else Done (set_issued q (issued s q - 1) s).

(** and the other two: on the gate. *)
Definition drop_permit (p : Permit) : list gate_op := [FetchSub (permit_kind p); Notify].

(** How long a refused future sleeps at most: [ramp.saturating_sub(elapsed)]. *)
Definition wait_time (s : JvmSlots) (now : Z) : Z := Z.max 0 (ramp s - elapsed s now).

(** ** The system *)

Inductive waiter_phase :=
| WStart
| WEnabled (notified : bool)
| WRefused (notified : bool)
| WWaiting (notified : bool) (timer : option Z)
| WGranted.

Record Waiter := { w_supplier : positive; w_kind : nat; w_sticky : bool; w_phase : waiter_phase }.

Definition set_phase (ph : waiter_phase) (wt : Waiter) : Waiter :=
  {| w_supplier := w_supplier wt; w_kind := w_kind wt; w_sticky := w_sticky wt; w_phase := ph |}.

(** [notify_waiters]: every registered waiter is notified. *)
Definition notified (wt : Waiter) : Waiter :=
  match w_phase wt with
  | WStart | WGranted => wt
  | WEnabled _ => set_phase (WEnabled true) wt
  | WRefused _ => set_phase (WRefused true) wt
  | WWaiting _ timer => set_phase (WWaiting true timer) wt
  end.

(** A thread inside a call on the gate: what it has still to do, and the values it has loaded. *)
Record Thread := { todo : list gate_op; loaded : list Z }.

Record World := {
  gate : ResourceGate;
  suppliers : gmap positive JvmSlots;
  permits : gmap positive Permit;
  waiters : gmap positive Waiter;
  gate_calls : gmap positive Thread;
  now : Z;
}.

Definition set_gate (g : ResourceGate) (w : World) : World :=
  {| gate := g; suppliers := suppliers w; permits := permits w; waiters := waiters w;
     gate_calls := gate_calls w; now := now w |}.
Definition set_supplier (sid : positive) (s : JvmSlots) (w : World) : World :=
  {| gate := gate w; suppliers := <[sid := s]> (suppliers w); permits := permits w;
     waiters := waiters w;
     gate_calls := gate_calls w; now := now w |}.
Definition set_permits (m : gmap positive Permit) (w : World) : World :=
  {| gate := gate w; suppliers := suppliers w; permits := m; waiters := waiters w;
     gate_calls := gate_calls w; now := now w |}.
Definition set_waiters (m : gmap positive Waiter) (w : World) : World :=
  {| gate := gate w; suppliers := suppliers w; permits := permits w; waiters := m;
     gate_calls := gate_calls w; now := now w |}.
Definition set_now (t : Z) (w : World) : World :=
  {| gate := gate w; suppliers := suppliers w; permits := permits w; waiters := waiters w;
     gate_calls := gate_calls w; now := t |}.
Definition notify_waiters (w : World) : World := set_waiters (notified <$> waiters w) w.

Definition set_gate_calls (m : gmap positive Thread) (w : World) : World :=
  {| gate := gate w; suppliers := suppliers w; permits := permits w; waiters := waiters w;
     gate_calls := m; now := now w |}.

(** One operation on the gate, and what it loads. *)
Definition gate_step (w : World) (op : gate_op) : World * list Z :=
  match op with
  | Store mask => (set_gate {| allowed := mask; reserved := reserved (gate w);
                               gate_pending := gate_pending (gate w) |} w, [])
  | FetchSub kind => (set_gate (add_reserved (-1) kind (gate w)) w, [])
  | Notify => (notify_waiters w, [])
  | Load index => (w, [load (gate w) index])
  end.

Inductive action :=
| AUpdate (tid : positive) (mask : Z)
| AStats (tid : positive)
| ATick (d : Z)
| ATryOnce (sid : positive) (ctx_sticky : bool) (pid : positive)
| AReserve (wid sid : positive) (ctx_sticky : bool)
| AEnable (wid : positive)
| ATry (wid pid : positive)
| APark (wid : positive)
| AWake (wid : positive)
| AReturn (wid : positive)
| ACancel (wid : positive)
| ARelease (tid pid : positive)
| AGate (tid : positive).

Inductive event :=
| Issued (sid pid : positive)
| Refused (sid : positive)
| Returned (tid : positive) (values : list Z)
| Overflowed.

(** [try_reserve_slot] on a supplier of the system: its permit is out under the name [pid]. *)
Definition try_issue (w : World) (sid : positive) (ctx_sticky : bool) (pid : positive) :
    option (World * list event) :=
  s ← suppliers w !! sid;
  if decide (permits w !! pid = None) then
    match try_reserve_slot (gate w) s ctx_sticky (now w) with
    | Some (g, s', queue) =>
        Some (set_permits (<[pid := {| permit_supplier := sid; permit_queue := queue;
                                       permit_kind := kind s |}]> (permits w))
                (set_supplier sid s' (set_gate g w)), [Issued sid pid])
    | None => Some (w, [Refused sid])
    end
  else None.

(** A future ends: its permit is returned or it is dropped; [PendingReserve] drops with it. *)
Definition end_waiter (wid : positive) (wt : Waiter) (w : World) : World :=
  set_gate (add_pending (-1) (w_kind wt) (gate w)) (set_waiters (delete wid (waiters w)) w).

Definition move_waiter (wid : positive) (wt : Waiter) (ph : waiter_phase) (w : World) : World :=
  set_waiters (<[wid := set_phase ph wt]> (waiters w)) w.

(** A thread begins a call on the gate, *)
Definition call_gate (tid : positive) (ops : list gate_op) (w : World) : World :=
  set_gate_calls (<[tid := {| todo := ops; loaded := [] |}]> (gate_calls w)) w.

(** and takes its next step there, returning after the last. *)
Definition advance (tid : positive) (rest : list gate_op) (values : list Z) (w : World) : World :=
  set_gate_calls (if decide (rest = []) then delete tid (gate_calls w)
               else <[tid := {| todo := rest; loaded := values |}]> (gate_calls w)) w.

Definition gate_next (w : World) (tid : positive) : option (World * list event) :=
  th ← gate_calls w !! tid;
  match todo th with
  | [] => None
  | op :: rest =>
      let '(w', values) := gate_step w op in
      Some (advance tid rest (loaded th ++ values) w',
            if decide (rest = []) then [Returned tid (loaded th ++ values)] else [])
  end.

(** [Drop for Permit]: the count goes down under the mutex, the gate follows. *)
Definition begin_drop (w : World) (tid pid : positive) : option (World * list event) :=
  p ← permits w !! pid;
  s ← suppliers w !! permit_supplier p;
  if decide (gate_calls w !! tid = None) then
    match release (permit_queue p) s with
    | Done s' => Some (call_gate tid (drop_permit p) (set_supplier (permit_supplier p) s'
                         (set_permits (delete pid (permits w)) w)), [])
    | Panicked _ => Some (w, [Overflowed])
    end
  else None.

(** [reserve_slot] begins: the future is counted as pending. *)
Definition reserve_slot (w : World) (wid sid : positive) (ctx_sticky : bool) :
    option (World * list event) :=
  s ← suppliers w !! sid;
  if decide (waiters w !! wid = None) then
    Some (set_gate (add_pending 1 (kind s) (gate w))
            (set_waiters (<[wid := {| w_supplier := sid; w_kind := kind s;
                                      w_sticky := ctx_sticky; w_phase := WStart |}]>
                            (waiters w)) w), [])
  else None.

(** Its loop: register for the notification, *)
Definition enable_notified (w : World) (wid : positive) : option (World * list event) :=
  wt ← waiters w !! wid;
  match w_phase wt with
  | WStart => Some (move_waiter wid wt (WEnabled false) w, [])
  | _ => None
  end.

(** try, returning on success, *)
Definition loop_try (w : World) (wid pid : positive) : option (World * list event) :=
  wt ← waiters w !! wid;
  match w_phase wt with
  | WEnabled flag =>
      '(w', evs) ← try_issue w (w_supplier wt) (w_sticky wt) pid;
      match evs with
      | [Refused _] => Some (move_waiter wid wt (WRefused flag) w', evs)
      | _ => Some (move_waiter wid wt WGranted w', evs)
      end
  | _ => None
  end.

(** compute the wait and enter the [select!], whose sleep is disabled when the wait is zero, *)
Definition loop_wait (w : World) (wid : positive) : option (World * list event) :=
  wt ← waiters w !! wid;
  s ← suppliers w !! w_supplier wt;
  match w_phase wt with
  | WRefused flag =>
      let wait := wait_time s (now w) in
      Some (move_waiter wid wt
              (WWaiting flag (if decide (wait = 0) then None else Some (now w + wait))) w, [])
  | _ => None
  end.

Definition timer_due (timer : option Z) (t : Z) : bool :=
  match timer with Some d => bool_decide (d <= t) | None => false end.

(** go round again when the notification or the sleep fires, *)
Definition loop_wake (w : World) (wid : positive) : option (World * list event) :=
  wt ← waiters w !! wid;
  match w_phase wt with
  | WWaiting flag timer =>
      if flag || timer_due timer (now w) then Some (move_waiter wid wt WStart w, []) else None
  | _ => None
  end.

(** and return the permit, or drop the future where it awaits or before it runs on. *)
Definition loop_return (w : World) (wid : positive) : option (World * list event) :=
  wt ← waiters w !! wid;
  match w_phase wt with
  | WGranted => Some (end_waiter wid wt w, [])
  | _ => None
  end.

Definition cancel_waiter (w : World) (wid : positive) : option (World * list event) :=
  wt ← waiters w !! wid;
  match w_phase wt with
  | WGranted => None
  | _ => Some (end_waiter wid wt w, [])
  end.

Definition sstep (w : World) (a : action) : option (World * list event) :=
  match a with
  | AUpdate tid mask =>
      if decide (gate_calls w !! tid = None) then Some (call_gate tid (update mask) w, []) else None
  | AStats tid =>
      if decide (gate_calls w !! tid = None) then Some (call_gate tid stats w, []) else None
  | ATick d => if decide (0 <= d) then Some (set_now (now w + d) w, []) else None
  | ATryOnce sid ctx_sticky pid => try_issue w sid ctx_sticky pid
  | AReserve wid sid ctx_sticky => reserve_slot w wid sid ctx_sticky
  | AEnable wid => enable_notified w wid
  | ATry wid pid => loop_try w wid pid
  | APark wid => loop_wait w wid
  | AWake wid => loop_wake w wid
  | AReturn wid => loop_return w wid
  | ACancel wid => cancel_waiter w wid
  | ARelease tid pid => begin_drop w tid pid
  | AGate tid => gate_next w tid
  end.

(** ** Specification *)

Definition slots_step (w : World) (l : action * list event) (w' : World) : Prop :=
  sstep w l.1 = Some (w', l.2).

(** Fresh suppliers of valid kinds behind a fresh gate. *)
Definition initial (w : World) : Prop :=
  gate w = gate_new /\ permits w = ∅ /\ waiters w = ∅ /\ gate_calls w = ∅ /\
  forall sid s, suppliers w !! sid = Some s ->
    issued s false = 0%nat /\ issued s true = 0%nat /\ last_issued s <= now w /\ (kind s < 4)%nat.

(** The permits of a supplier's queue; those of a kind, with the ones whose drop has not come to the
    gate's counter yet; the futures of a kind. *)
Definition held (sid : positive) (q : bool) (w : World) : nat :=
  mcount (fun p => permit_supplier p = sid /\ permit_queue p = q) (permits w).
Definition held_kind (k : nat) (w : World) : nat :=
  (mcount (fun p => permit_kind p = k) (permits w)
   + mcount (fun th => FetchSub k ∈ todo th) (gate_calls w))%nat.
Definition waiting_kind (k : nat) (w : World) : nat :=
  mcount (fun wt => w_kind wt = k) (waiters w).

(** What the counter [stats] loads at [index] counts. *)
Definition counted (index : nat) (w : World) : nat :=
  if decide (index `mod` 2 = 0)%nat then held_kind (index / 2) w else waiting_kind (index / 2) w.

(** Where a thread can be in its call. *)
Definition thread_ok (th : Thread) : Prop :=
  (loaded th = [] /\ ((exists mask, todo th = [Store mask; Notify]) \/
                      (exists k, (k < 4)%nat /\ todo th = [FetchSub k; Notify]) \/
                      todo th = [Notify])) \/
  (exists n, (n < 8)%nat /\ todo th = Load <$> seq n (8 - n) /\ length (loaded th) = n).

Record supplier_ok (w : World) (sid : positive) (s : JvmSlots) : Prop := {
  so_issued q : issued s q = held sid q w;
  so_total : (total s <= maximum s)%nat;
  so_queue q : sticky s = true -> (2 <= maximum s)%nat -> (issued s q + 1 <= maximum s)%nat;
  so_plain : sticky s = false -> issued s true = 0%nat;
  so_last : last_issued s <= now w;
  so_kind : (kind s < 4)%nat;
}.

Record slots_inv (w : World) : Prop := {
  si_supplier sid s : suppliers w !! sid = Some s -> supplier_ok w sid s;
  si_permit pid p : permits w !! pid = Some p ->
    exists s, suppliers w !! permit_supplier p = Some s /\ kind s = permit_kind p;
  si_waiter wid wt : waiters w !! wid = Some wt ->
    exists s, suppliers w !! w_supplier wt = Some s /\ kind s = w_kind wt;
  si_thread tid th : gate_calls w !! tid = Some th -> thread_ok th;
  si_reserved : reserved (gate w) = (fun k => u32 (Z.of_nat (held_kind k w))) <$> seq 0 4;
  si_pending : gate_pending (gate w) = (fun k => u32 (Z.of_nat (waiting_kind k w))) <$> seq 0 4;
}.

(** The conditions of a refusal, and of the permits that are always granted. *)
Definition full (s : JvmSlots) (q : bool) : Prop :=
  (maximum s <= total s)%nat \/
  (sticky s = true /\ issued s (negb q) = 0%nat /\ (total s + 1)%nat = maximum s).
Definition guaranteed (s : JvmSlots) (q : bool) : Prop :=
  (total s < minimum s)%nat \/ (sticky s = true /\ issued s q = 0%nat).
Definition admitted (g : ResourceGate) (s : JvmSlots) (t : Z) : Prop :=
  allows g (kind s) = true /\ ramp s <= elapsed s t.

(** Somebody has still to run [notify_waiters]. *)
Definition notifying (w : World) : Prop :=
  exists tid th, gate_calls w !! tid = Some th /\ Notify ∈ todo th.

(** A step in which the clock does not advance between a future's refusal and its wait. *)
Definition punctual_step (w : World) (l : action * list event) (w' : World) : Prop :=
  slots_step w l w' /\
  (now w < now w' -> forall wid wt flag, waiters w !! wid = Some wt -> w_phase wt <> WRefused flag).

(** What a registered, unnotified future knows. *)
Definition waiter_ok (w : World) (wt : Waiter) : Prop :=
  forall s, suppliers w !! w_supplier wt = Some s ->
    let q := queue_of s (w_sticky wt) in
    match w_phase wt with
    | WRefused false => full s q \/ (~ guaranteed s q /\ ~ admitted (gate w) s (now w))
    | WWaiting false timer => full s q \/
        (~ guaranteed s q /\ (allows (gate w) (kind s) = false \/
                              exists d, timer = Some d /\ d <= last_issued s + ramp s))
    | _ => True
    end.

(** ** Lemmas *)

Lemma try_reserve_spec g s c t :
  let q := queue_of s c in
  match try_reserve_slot g s c t with
  | Some (g', s', q') => q' = q /\ ~ full s q /\ (guaranteed s q \/ admitted g s t) /\
      g' = add_reserved 1 (kind s) g /\ s' = set_last t (set_issued q (issued s q + 1) s)
  | None => full s q \/ (~ guaranteed s q /\ ~ admitted g s t)
  end.
Proof.
  intros q. unfold try_reserve_slot, full, guaranteed, admitted. fold q.
  case_decide as H1; [auto|]. case_decide as H2; [auto|]. case_decide as H3.
  - right. destruct H3 as [Hr Hg]. apply bool_decide_eq_false_1 in Hr. split; [done|].
    intros [Ha He]. destruct Hg as [Hg|Hg]; [congruence|lia].
  - split; [done|]. split; [intros [?|?]; auto|]. split; [|done].
    destruct (decide ((total s < minimum s)%nat \/ sticky s = true /\ issued s q = 0%nat)) as [Hd|Hd];
      [by left|right].
    rewrite bool_decide_eq_false_2 in H3 by done.
    destruct (allows g (kind s)); [|exfalso; apply H3; auto].
    split; [done|]. destruct (decide (elapsed s t < ramp s)); [|lia]. exfalso. apply H3. auto.
Qed.

Lemma bump_seq d k (f f' : nat -> Z) :
  (k < 4)%nat -> f' k = u32 (f k + d) -> (forall j, j <> k -> f' j = f j) ->
  bump d k (f <$> seq 0 4) = f' <$> seq 0 4.
Proof.
  intros Hk Hf Hne. unfold bump. simpl.
  destruct k as [|[|[|[|k]]]]; [..|lia]; simpl; rewrite ?Hf, !Hne by done; done.
Qed.

Lemma u32_succ (n : nat) : u32 (u32 (Z.of_nat n) + 1) = u32 (Z.of_nat (S n)).
Proof. unfold wrap. rewrite Z.add_mod_idemp_l by done. f_equal. lia. Qed.

Lemma u32_pred (n : nat) : u32 (u32 (Z.of_nat (S n)) + -1) = u32 (Z.of_nat n).
Proof. unfold wrap. rewrite Z.add_mod_idemp_l by done. f_equal. lia. Qed.

Lemma total_set_issued q n s :
  (total (set_issued q n s) + issued s q = total s + n)%nat.
Proof. unfold total, set_issued. destruct q; simpl; lia. Qed.

Lemma queue_total q s : total s = (issued s q + issued s (negb q))%nat.
Proof. unfold total. destruct q; simpl; lia. Qed.

Lemma set_issued_same q n s : issued (set_issued q n s) q = n.
Proof. simpl. by rewrite decide_True. Qed.
Lemma set_issued_other q q' n s : q' <> q -> issued (set_issued q n s) q' = issued s q'.
Proof. intros. simpl. by rewrite decide_False. Qed.

(** The counters of a gate follow one permit or one future more. *)
Lemma reserved_more w w' k :
  (k < 4)%nat -> held_kind k w' = S (held_kind k w) ->
  (forall j, j <> k -> held_kind j w' = held_kind j w) ->
  reserved (gate w) = (fun k => u32 (Z.of_nat (held_kind k w))) <$> seq 0 4 ->
  bump 1 k (reserved (gate w)) = (fun k => u32 (Z.of_nat (held_kind k w'))) <$> seq 0 4.
Proof.
  intros Hk Hs Hne ->. apply bump_seq; [done|by rewrite u32_succ, Hs|].
  intros j Hj. by rewrite Hne.
Qed.

Lemma reserved_less w w' k :
  (k < 4)%nat -> held_kind k w = S (held_kind k w') ->
  (forall j, j <> k -> held_kind j w' = held_kind j w) ->
  reserved (gate w) = (fun k => u32 (Z.of_nat (held_kind k w))) <$> seq 0 4 ->
  bump (-1) k (reserved (gate w)) = (fun k => u32 (Z.of_nat (held_kind k w'))) <$> seq 0 4.
Proof.
  intros Hk Hs Hne ->. apply bump_seq; [done|by rewrite Hs, u32_pred|].
  intros j Hj. by rewrite Hne.
Qed.

Lemma reserved_same w w' (counters : list Z) :
  (forall k, held_kind k w = held_kind k w') ->
  counters = (fun k => u32 (Z.of_nat (held_kind k w))) <$> seq 0 4 ->
  counters = (fun k => u32 (Z.of_nat (held_kind k w'))) <$> seq 0 4.
Proof. intros He ->. apply list_fmap_ext. intros _ k _. by rewrite He. Qed.

Lemma pending_more w w' k :
  (k < 4)%nat -> waiting_kind k w' = S (waiting_kind k w) ->
  (forall j, j <> k -> waiting_kind j w' = waiting_kind j w) ->
  gate_pending (gate w) = (fun k => u32 (Z.of_nat (waiting_kind k w))) <$> seq 0 4 ->
  bump 1 k (gate_pending (gate w)) = (fun k => u32 (Z.of_nat (waiting_kind k w'))) <$> seq 0 4.
Proof.
  intros Hk Hs Hne ->. apply bump_seq; [done|by rewrite u32_succ, Hs|].
  intros j Hj. by rewrite Hne.
Qed.

Lemma pending_less w w' k :
  (k < 4)%nat -> waiting_kind k w = S (waiting_kind k w') ->
  (forall j, j <> k -> waiting_kind j w' = waiting_kind j w) ->
  gate_pending (gate w) = (fun k => u32 (Z.of_nat (waiting_kind k w))) <$> seq 0 4 ->
  bump (-1) k (gate_pending (gate w)) = (fun k => u32 (Z.of_nat (waiting_kind k w'))) <$> seq 0 4.
Proof.
  intros Hk Hs Hne ->. apply bump_seq; [done|by rewrite Hs, u32_pred|].
  intros j Hj. by rewrite Hne.
Qed.

(** Futures change nothing a supplier's invariant depends on. *)
Lemma supplier_ok_same w w' sid s :
  permits w' = permits w -> now w <= now w' -> supplier_ok w sid s -> supplier_ok w' sid s.
Proof.
  intros Hp Ht Hs. destruct Hs as [H1 H2 H3 H4 H5 H6]. split; try done; [|lia].
  intros q. rewrite H1. unfold held. by rewrite Hp.
Qed.

Lemma slots_inv_waiters w m :
  slots_inv w ->
  (forall wid wt, m !! wid = Some wt -> exists wid' wt', waiters w !! wid' = Some wt' /\
     w_supplier wt' = w_supplier wt /\ w_kind wt' = w_kind wt) ->
  (forall k, mcount (fun wt => w_kind wt = k) m = waiting_kind k w) ->
  slots_inv (set_waiters m w).
Proof.
  intros Hw Hm Hc. split; simpl; try apply Hw.
  - intros sid s Hs. apply (supplier_ok_same w); [done|simpl; lia|]. by apply (si_supplier w Hw).
  - intros wid wt Hwt. destruct (Hm wid wt Hwt) as (wid' & wt' & Hwt' & Hs & Hk).
    destruct (si_waiter w Hw wid' wt' Hwt') as (s & ? & ?). exists s. split; congruence.
  - rewrite (si_pending w Hw).
    assert (forall k, waiting_kind k (set_waiters m w) = waiting_kind k w) as Hk by (intros; apply Hc).
    simpl. by rewrite !Hk.
Qed.

Lemma mcount_fmap_same {A} (P : A -> Prop) `{forall x, Decision (P x)} (f : A -> A)
    (m : gmap positive A) :
  (forall x, P (f x) <-> P x) -> mcount P (f <$> m) = mcount P m.
Proof.
  intros Hf. induction m as [|k x m Hk IH] using map_ind.
  - by rewrite fmap_empty.
  - rewrite fmap_insert, !mcount_insert by (rewrite ?lookup_fmap, ?Hk; done).
    rewrite IH. f_equal. repeat case_decide; naive_solver.
Qed.

Lemma notified_same wt :
  w_supplier (notified wt) = w_supplier wt /\ w_kind (notified wt) = w_kind wt /\
  w_sticky (notified wt) = w_sticky wt.
Proof. unfold notified. by destruct (w_phase wt). Qed.

Lemma notify_inv w : slots_inv w -> slots_inv (notify_waiters w).
Proof.
  intros Hw. apply slots_inv_waiters; [done| |].
  - intros wid wt. rewrite lookup_fmap. intros (x & Hx & ->)%fmap_Some.
    destruct (notified_same x) as (-> & -> & _). eauto.
  - intros k. unfold waiting_kind. apply mcount_fmap_same. intros x.
    by destruct (notified_same x) as (_ & -> & _).
Qed.

Lemma move_waiter_inv w wid wt ph :
  slots_inv w -> waiters w !! wid = Some wt -> slots_inv (move_waiter wid wt ph w).
Proof.
  intros Hw Hwt. apply slots_inv_waiters; [done| |].
  - intros i x. rewrite lookup_insert. case_decide; [intros [= <-]|]; eauto 10.
  - intros k. unfold waiting_kind.
    pose proof (mcount_update (fun x => w_kind x = k) (waiters w) wid wt (set_phase ph wt) Hwt) as Hu.
    simpl in Hu. by apply Nat.add_cancel_l in Hu.
Qed.

Lemma held_insert w pid p sid q :
  permits w !! pid = None ->
  held sid q (set_permits (<[pid := p]> (permits w)) w) =
    ((if decide (permit_supplier p = sid /\ permit_queue p = q) then 1 else 0) + held sid q w)%nat.
Proof. intros Hp. unfold held. simpl. by rewrite mcount_insert. Qed.

Lemma held_kind_insert w pid p k :
  permits w !! pid = None ->
  held_kind k (set_permits (<[pid := p]> (permits w)) w) =
    ((if decide (permit_kind p = k) then 1 else 0) + held_kind k w)%nat.
Proof. intros Hp. unfold held_kind. simpl. rewrite mcount_insert by done. lia. Qed.

Lemma held_delete w pid p sid q :
  permits w !! pid = Some p ->
  held sid q w =
    ((if decide (permit_supplier p = sid /\ permit_queue p = q) then 1 else 0)
     + held sid q (set_permits (delete pid (permits w)) w))%nat.
Proof. intros Hp. unfold held. simpl. by rewrite (mcount_delete _ (permits w) pid p). Qed.

(** A thread's step on the gate: what it counts before, and after. *)
Lemma threads_move w tid th rest values k :
  gate_calls w !! tid = Some th ->
  mcount (fun th => FetchSub k ∈ todo th)
    (if decide (rest = []) then delete tid (gate_calls w)
     else <[tid := {| todo := rest; loaded := values |}]> (gate_calls w)) =
  (mcount (fun th => FetchSub k ∈ todo th) (delete tid (gate_calls w))
   + if decide (FetchSub k ∈ rest) then 1 else 0)%nat.
Proof.
  intros Hth. case_decide as Hr.
  - subst. rewrite decide_False by set_solver. lia.
  - rewrite <- insert_delete_eq, mcount_insert by apply lookup_delete_eq. simpl. lia.
Qed.

(** One permit more keeps a supplier within its limits. *)
Lemma issue_supplier_ok w sid s q t p :
  supplier_ok w sid s -> ~ full s q -> now w <= t ->
  (q = true -> sticky s = true) ->
  (forall q', held sid q' p = ((if decide (q' = q) then 1 else 0) + held sid q' w)%nat) ->
  now p = t ->
  supplier_ok p sid (set_last t (set_issued q (issued s q + 1) s)).
Proof.
  intros [H1 H2 H3 H4 H5 H6] Hfull Ht Hq Hheld Hnow. unfold full in Hfull.
  pose proof (total_set_issued q (issued s q + 1) s) as Htot.
  assert (Hother : forall q', q' <> q -> issued (set_issued q (issued s q + 1) s) q' = issued s q').
  { intros. by apply set_issued_other. }
  pose proof (set_issued_same q (issued s q + 1) s) as Hsame.
  split.
  - intros q'. change (issued (set_issued q (issued s q + 1) s) q' = held sid q' p).
    rewrite Hheld. destruct (decide (q' = q)) as [->|Hd]; [rewrite Hsame|rewrite Hother by done];
      rewrite <- H1; lia.
  - change (total (set_issued q (issued s q + 1) s) <= maximum s)%nat. lia.
  - intros q' Hst Hmax. change (issued (set_issued q (issued s q + 1) s) q' + 1 <= maximum s)%nat.
    rewrite (queue_total q) in Hfull. simpl in Hst, Hmax.
    destruct (decide (q' = q)) as [->|Hd]; [|rewrite Hother by done; by apply H3].
    rewrite Hsame. destruct (decide (issued s (negb q) = 0%nat)); [|lia].
    destruct (decide ((issued s q + issued s (negb q) + 1)%nat = maximum s)); [|lia].
    exfalso. apply Hfull. right. auto.
  - intros Hst. simpl in Hst. change (issued (set_issued q (issued s q + 1) s) true = 0%nat).
    destruct q; [|rewrite Hother by done; by apply H4]. rewrite Hq in Hst; done.
  - simpl. lia.
  - done.
Qed.

Lemma queue_of_sticky s c : queue_of s c = true -> sticky s = true.
Proof. unfold queue_of. by destruct (sticky s). Qed.

Lemma issue_inv w sid c pid w' evs :
  slots_inv w -> try_issue w sid c pid = Some (w', evs) -> slots_inv w'.
Proof.
  intros Hw. unfold try_issue. destruct (suppliers w !! sid) as [s|] eqn:Hs; [|done].
  cbn [mbind option_bind]. case_decide as Hpid; [|done].
  pose proof (try_reserve_spec (gate w) s c (now w)) as Hspec.
  destruct (try_reserve_slot _ _ _ _) as [[[g' s'] q']|]; [|by intros [= <- <-]].
  destruct Hspec as (-> & Hfull & _ & -> & ->). intros [= <- <-].
  pose proof (si_supplier w Hw sid s Hs) as Hsok.
  set (p := {| permit_supplier := sid; permit_queue := queue_of s c; permit_kind := kind s |}).
  split; simpl.
  - intros i x. rewrite lookup_insert. case_decide as Hi.
    + intros [= <-]. subst i. apply (issue_supplier_ok w); try done.
      * apply queue_of_sticky.
      * intros q'. etrans; [apply (held_insert w pid p sid q' Hpid)|]. subst p. simpl.
        f_equal. destruct (decide (q' = queue_of s c)) as [->|Hd].
        -- by rewrite decide_True.
        -- rewrite decide_False; [done|]. intros [_ ?]. by apply Hd.
    + intros Hx. pose proof (si_supplier w Hw i x Hx) as [H1 H2 H3 H4 H5 H6]. split; try done.
      intros q'. rewrite H1. etrans; [|symmetry; apply (held_insert w pid p i q' Hpid)].
      rewrite decide_False; [done|]. by intros [? _].
  - intros i x. rewrite !lookup_insert. intros Hx. case_decide as Hi.
    + injection Hx as <-. subst p. simpl. rewrite decide_True by done. by eexists.
    + destruct (si_permit w Hw i x Hx) as (y & Hy & Hk). case_decide as Hsid.
      * rewrite <- Hsid, Hs in Hy. injection Hy as <-. by eexists.
      * eauto.
  - intros i x Hx. destruct (si_waiter w Hw i x Hx) as (y & Hy & Hk).
    rewrite lookup_insert. case_decide as Hsid; [|eauto].
    rewrite <- Hsid, Hs in Hy. injection Hy as <-. by eexists.
  - apply (si_thread w Hw).
  - apply (reserved_more w _ (kind s)); [apply Hsok|..|apply Hw].
    + etrans; [apply (held_kind_insert w pid p (kind s) Hpid)|]. by rewrite decide_True.
    + intros j Hj. etrans; [apply (held_kind_insert w pid p j Hpid)|]. by rewrite decide_False.
  - apply (si_pending w Hw).
Qed.

Lemma release_done w pid p s :
  slots_inv w -> permits w !! pid = Some p -> suppliers w !! permit_supplier p = Some s ->
  release (permit_queue p) s = Done (set_issued (permit_queue p) (issued s (permit_queue p) - 1) s).
Proof.
  intros Hw Hp Hs. unfold release. rewrite decide_False; [done|].
  rewrite (so_issued _ _ _ (si_supplier w Hw _ s Hs)).
  rewrite (held_delete w pid p _ _ Hp), decide_True by done. lia.
Qed.

Lemma begin_drop_spec w tid pid p :
  slots_inv w -> permits w !! pid = Some p -> gate_calls w !! tid = None ->
  exists s, suppliers w !! permit_supplier p = Some s /\ kind s = permit_kind p /\
    begin_drop w tid pid =
      Some (call_gate tid (drop_permit p) (set_supplier (permit_supplier p)
              (set_issued (permit_queue p) (issued s (permit_queue p) - 1) s)
              (set_permits (delete pid (permits w)) w)), []).
Proof.
  intros Hw Hp Ht. destruct (si_permit w Hw pid p Hp) as (s & Hs & Hk). exists s.
  split; [done|]. split; [done|]. unfold begin_drop. rewrite Hp. cbn [mbind option_bind].
  rewrite Hs. cbn [mbind option_bind]. rewrite decide_True by done. by rewrite (release_done w pid p s).
Qed.

Lemma begin_drop_inv_args w tid pid w' evs :
  begin_drop w tid pid = Some (w', evs) -> is_Some (permits w !! pid) /\ gate_calls w !! tid = None.
Proof.
  unfold begin_drop. destruct (permits w !! pid) as [p|]; [|done]. cbn [mbind option_bind].
  destruct (suppliers w !! permit_supplier p); [|done]. cbn [mbind option_bind]. case_decide; [eauto|done].
Qed.

Lemma drop_inv w tid pid w' evs :
  slots_inv w -> begin_drop w tid pid = Some (w', evs) -> slots_inv w'.
Proof.
  intros Hw Hd. destruct (begin_drop_inv_args _ _ _ _ _ Hd) as [[p Hp] Ht].
  destruct (begin_drop_spec w tid pid p Hw Hp Ht) as (s & Hs & Hk & He). rewrite He in Hd.
  injection Hd as <- <-.
  pose proof (si_supplier w Hw _ s Hs) as Hsok.
  assert (0 < issued s (permit_queue p))%nat as Hpos.
  { rewrite (so_issued _ _ _ Hsok), (held_delete w pid p _ _ Hp), decide_True by done. lia. }
  split; simpl.
  - intros i x. rewrite lookup_insert. case_decide as Hi.
    + intros [= <-]. subst i. destruct Hsok as [H1 H2 H3 H4 H5 H6].
      pose proof (total_set_issued (permit_queue p) (issued s (permit_queue p) - 1) s) as Htot.
      split; simpl; try done.
      * intros q'. pose proof (held_delete w pid p (permit_supplier p) q' Hp) as Hh.
        rewrite <- H1 in Hh. unfold held in *. simpl in *.
        repeat case_decide; subst; naive_solver lia.
      * lia.
      * intros q' Hst Hmax. specialize (H3 q' Hst Hmax). case_decide; [subst|]; lia.
      * intros Hst. specialize (H4 Hst). case_decide as Hq; [|done]. rewrite <- Hq in *. lia.
    + intros Hx. pose proof (si_supplier w Hw i x Hx) as [H1 H2 H3 H4 H5 H6]. split; try done.
      intros q'. rewrite H1, (held_delete w pid p i q' Hp), decide_False; [done|]. by intros [? _].
  - intros i x [_ Hx]%lookup_delete_Some. destruct (si_permit w Hw i x Hx) as (y & Hy & Hyk).
    rewrite lookup_insert. case_decide as Hsid; [|eauto].
    rewrite <- Hsid, Hs in Hy. injection Hy as <-. by eexists.
  - intros i x Hx. destruct (si_waiter w Hw i x Hx) as (y & Hy & Hyk).
    rewrite lookup_insert. case_decide as Hsid; [|eauto].
    rewrite <- Hsid, Hs in Hy. injection Hy as <-. by eexists.
  - intros i x. rewrite lookup_insert. case_decide; [intros [= <-]|by apply (si_thread w Hw i)].
    left. split; [done|]. right; left. exists (permit_kind p). split; [rewrite <- Hk; apply Hsok|done].
  - apply (reserved_same w); [|apply Hw]. intros k. unfold held_kind. simpl.
    rewrite (mcount_delete _ (permits w) pid p), mcount_insert by done. simpl.
    rewrite (decide_ext (permit_kind p = k) (FetchSub k ∈ drop_permit p)); [lia|].
    unfold drop_permit. set_solver.
  - apply (si_pending w Hw).
Qed.

Lemma gate_inv w g m :
  slots_inv w -> gate_pending g = gate_pending (gate w) ->
  (forall tid th, m !! tid = Some th -> thread_ok th) ->
  reserved g = (fun k => u32 (Z.of_nat (held_kind k (set_gate_calls m w)))) <$> seq 0 4 ->
  slots_inv (set_gate_calls m (set_gate g w)).
Proof.
  intros Hw Hp Hm Hr. split; simpl; try apply Hw; try done.
  - intros sid s Hs. apply (supplier_ok_same w); [done|simpl; lia|]. by apply (si_supplier w Hw).
  - rewrite Hp. apply (si_pending w Hw).
Qed.

Lemma threads_inv w m :
  slots_inv w -> (forall tid th, m !! tid = Some th -> thread_ok th) ->
  (forall k, held_kind k w = held_kind k (set_gate_calls m w)) -> slots_inv (set_gate_calls m w).
Proof.
  intros Hw Hm Hk. replace (set_gate_calls m w) with (set_gate_calls m (set_gate (gate w) w)) by (by destruct w).
  apply gate_inv; try done. apply (reserved_same w); [done|apply Hw].
Qed.

Lemma call_gate_inv w tid ops :
  slots_inv w -> gate_calls w !! tid = None -> thread_ok {| todo := ops; loaded := [] |} ->
  (forall k, FetchSub k ∉ ops) -> slots_inv (call_gate tid ops w).
Proof.
  intros Hw Ht Hok Hops. apply threads_inv; [done|..].
  - intros i x. simpl. rewrite lookup_insert. case_decide; [by intros [= <-]|]. by apply (si_thread w Hw i).
  - intros k. unfold held_kind. simpl. rewrite mcount_insert, decide_False by (simpl; auto). lia.
Qed.

(** The next operation of a thread, and what is left. *)
Lemma thread_next th op rest :
  thread_ok th -> todo th = op :: rest ->
  (loaded th = [] /\
    (((exists mask, op = Store mask) /\ rest = [Notify]) \/
     (exists k, (k < 4)%nat /\ op = FetchSub k /\ rest = [Notify]) \/
     (op = Notify /\ rest = []))) \/
  (exists n, (n < 8)%nat /\ op = Load n /\ rest = Load <$> seq (S n) (8 - S n) /\ length (loaded th) = n).
Proof.
  intros [[Hl [(m & ->)|[(k & Hk & ->)| ->]]]|(n & Hn & -> & Hl)] He.
  - injection He as <- <-. left. eauto.
  - injection He as <- <-. left. eauto 10.
  - injection He as <- <-. left. auto.
  - right. exists n. replace (8 - n)%nat with (S (8 - S n)) in He by lia.
    injection He as <- <-. done.
Qed.

Lemma advance_threads w tid th rest values i x :
  slots_inv w -> gate_calls w !! tid = Some th -> (rest <> [] -> thread_ok {| todo := rest; loaded := values |}) ->
  (if decide (rest = []) then delete tid (gate_calls w)
   else <[tid := {| todo := rest; loaded := values |}]> (gate_calls w)) !! i = Some x -> thread_ok x.
Proof.
  intros Hw Hth Hok. case_decide.
  - intros [_ Hx]%lookup_delete_Some. by apply (si_thread w Hw i).
  - rewrite lookup_insert. case_decide; [intros [= <-]; auto|]. by apply (si_thread w Hw i).
Qed.

Lemma gate_next_inv w tid w' evs : slots_inv w -> gate_next w tid = Some (w', evs) -> slots_inv w'.
Proof.
  intros Hw. unfold gate_next. destruct (gate_calls w !! tid) as [th|] eqn:Hth; [|done].
  cbn [mbind option_bind]. pose proof (si_thread w Hw tid th Hth) as Hok.
  destruct (todo th) as [|op rest] eqn:Htodo; [done|].
  destruct (gate_step w op) as [w1 values] eqn:Hg. intros [= <- _].
  assert (Hcount : forall k, held_kind k w = (held_kind k (advance tid rest (loaded th ++ values) w)
    + (if decide (FetchSub k ∈ op :: rest) then 1 else 0) - (if decide (FetchSub k ∈ rest) then 1 else 0))%nat).
  { intros k. unfold held_kind. simpl. rewrite (threads_move w tid th) by done.
    rewrite (mcount_delete _ (gate_calls w) tid th Hth), Htodo. repeat case_decide; lia. }
  destruct (thread_next th op rest Hok Htodo)
    as [[Hl [[[mask ->] ->]|[(k & Hk & -> & ->)|[-> ->]]]]|(n & Hn & -> & -> & Hl)]; injection Hg as <- <-.
  - apply gate_inv; [done|done|..].
    + intros i x. apply (advance_threads w tid th); [done..|]. intros _. left. rewrite Hl. auto.
    + apply (reserved_same w); [|apply Hw]. intros j. rewrite Hcount, !decide_False by set_solver. unfold advance. simpl. lia.
  - apply gate_inv; [done|done|..].
    + intros i x. apply (advance_threads w tid th); [done..|]. intros _. left. rewrite Hl. auto.
    + apply (reserved_less w _ k); [done|..|apply Hw].
      * rewrite Hcount, decide_True by set_solver. rewrite decide_False by set_solver.
        unfold advance. simpl. lia.
      * intros j Hj. rewrite (Hcount j), !decide_False by set_solver. unfold advance. simpl. lia.
  - change (slots_inv (notify_waiters (advance tid [] (loaded th ++ []) w))). apply notify_inv.
    apply threads_inv; [done|..].
    + intros i x. by apply (advance_threads w tid th).
    + intros j. rewrite Hcount, !decide_False by set_solver. unfold advance. simpl. lia.
  - apply threads_inv; [done|..].
    + intros i x. apply (advance_threads w tid th); [done..|]. intros Hr. right. exists (S n). simpl. rewrite length_app, Hl. simpl. split; [|split; [done|lia]].
      destruct (decide (S n < 8)%nat); [done|]. replace (8 - S n)%nat with O in Hr by lia. done.
    + intros j. rewrite Hcount. do 2 (rewrite (decide_False (P := FetchSub j ∈ _));
        [|rewrite ?elem_of_cons, list_elem_of_fmap; naive_solver]).
      rewrite Nat.add_0_r, Nat.sub_0_r. reflexivity.
Qed.

Lemma end_waiter_inv w wid wt :
  slots_inv w -> waiters w !! wid = Some wt -> slots_inv (end_waiter wid wt w).
Proof.
  intros Hw Hwt. destruct (si_waiter w Hw wid wt Hwt) as (s & Hs & Hk).
  pose proof (so_kind _ _ _ (si_supplier w Hw _ s Hs)) as Hkind. rewrite Hk in Hkind.
  assert (Hc : forall k, waiting_kind k w = ((if decide (w_kind wt = k) then 1 else 0)
     + waiting_kind k (end_waiter wid wt w))%nat).
  { intros k. unfold waiting_kind. simpl. by rewrite (mcount_delete _ (waiters w) wid wt). }
  split; simpl; try apply Hw.
  - intros i x Hx. apply (supplier_ok_same w); [done|simpl; lia|]. by apply (si_supplier w Hw).
  - intros i x [_ Hx]%lookup_delete_Some. by apply (si_waiter w Hw i).
  - apply (pending_less w (end_waiter wid wt w) (w_kind wt)); [done|..|apply Hw].
    + rewrite Hc, decide_True by done. done.
    + intros j Hj. by rewrite (Hc j), decide_False.
Qed.

Lemma reserve_inv w wid sid c w' evs :
  slots_inv w -> reserve_slot w wid sid c = Some (w', evs) -> slots_inv w'.
Proof.
  intros Hw. unfold reserve_slot. destruct (suppliers w !! sid) as [s|] eqn:Hs; [|done].
  cbn [mbind option_bind]. case_decide as Hwid; [|done]. intros [= <- <-].
  set (wt := {| w_supplier := sid; w_kind := kind s; w_sticky := c; w_phase := WStart |}).
  pose proof (so_kind _ _ _ (si_supplier w Hw _ s Hs)) as Hkind.
  set (w' := set_gate _ _).
  assert (Hc : forall k, waiting_kind k w' = ((if decide (w_kind wt = k) then 1 else 0)
     + waiting_kind k w)%nat).
  { intros k. unfold waiting_kind. simpl. by rewrite mcount_insert. }
  split; simpl; try apply Hw.
  - intros i x Hx. apply (supplier_ok_same w); [done|simpl; lia|]. by apply (si_supplier w Hw).
  - intros i x. rewrite lookup_insert. case_decide; [intros [= <-]; by exists s|].
    by apply (si_waiter w Hw i).
  - apply (pending_more w w' (kind s)); [done|..|apply Hw].
    + rewrite Hc, decide_True by done. done.
    + intros j Hj. by rewrite (Hc j), decide_False.
Qed.

Lemma try_issue_waiters w sid c pid w' evs :
  try_issue w sid c pid = Some (w', evs) ->
  waiters w' = waiters w /\ gate_calls w' = gate_calls w /\ now w' = now w.
Proof.
  unfold try_issue. destruct (suppliers w !! sid) as [s|]; [|done].
  cbn [mbind option_bind]. case_decide; [|done].
  pose proof (try_reserve_spec (gate w) s c (now w)) as Hspec.
  destruct (try_reserve_slot _ _ _ _) as [[[g' s'] q']|]; intros [= <- <-]; [|done].
  done.
Qed.

Lemma slots_step_inv w l w' : slots_inv w -> slots_step w l w' -> slots_inv w'.
Proof.
  destruct l as [a evs]. intros Hw Hs. unfold slots_step in Hs. cbn [fst snd] in Hs.
  destruct a; cbn [sstep] in Hs.
  - case_decide; [|done]. injection Hs as <- <-. apply call_gate_inv; [done..| |set_solver]. left. eauto.
  - case_decide; [|done]. injection Hs as <- <-. apply call_gate_inv; [done..| |].
    + right. exists 0%nat. split; [lia|done].
    + intros k. unfold stats. rewrite list_elem_of_fmap. naive_solver.
  - case_decide; [|done]. injection Hs as <- <-. split; simpl; try apply Hw.
    intros i x Hx. apply (supplier_ok_same w); [done|simpl; lia|]. by apply (si_supplier w Hw).
  - by eapply issue_inv.
  - by eapply reserve_inv.
  - unfold enable_notified in Hs. destruct (waiters w !! wid) as [wt|] eqn:Hwt; [|done].
    cbn [mbind option_bind] in Hs. destruct (w_phase wt); simplify_eq. by apply move_waiter_inv.
  - unfold loop_try in Hs. destruct (waiters w !! wid) as [wt|] eqn:Hwt; [|done].
    cbn [mbind option_bind] in Hs. destruct (w_phase wt); try done.
    destruct (try_issue w (w_supplier wt) (w_sticky wt) pid) as [[w1 evs1]|] eqn:Ht; [|done].
    cbn [mbind option_bind] in Hs. pose proof (issue_inv _ _ _ _ _ _ Hw Ht) as Hw1.
    destruct (try_issue_waiters _ _ _ _ _ _ Ht) as (Hws & _).
    rewrite <- Hws in Hwt.
    destruct evs1 as [|[] []]; simplify_eq; by apply move_waiter_inv.
  - unfold loop_wait in Hs. destruct (waiters w !! wid) as [wt|] eqn:Hwt; [|done].
    cbn [mbind option_bind] in Hs. destruct (suppliers w !! w_supplier wt); [|done].
    cbn [mbind option_bind] in Hs. destruct (w_phase wt); simplify_eq. by apply move_waiter_inv.
  - unfold loop_wake in Hs. destruct (waiters w !! wid) as [wt|] eqn:Hwt; [|done].
    cbn [mbind option_bind] in Hs. destruct (w_phase wt); try done.
    destruct (_ || _); simplify_eq. by apply move_waiter_inv.
  - unfold loop_return in Hs. destruct (waiters w !! wid) as [wt|] eqn:Hwt; [|done].
    cbn [mbind option_bind] in Hs. destruct (w_phase wt); simplify_eq. by apply end_waiter_inv.
  - unfold cancel_waiter in Hs. destruct (waiters w !! wid) as [wt|] eqn:Hwt; [|done].
    cbn [mbind option_bind] in Hs. destruct (w_phase wt); simplify_eq; by apply end_waiter_inv.
  - by eapply drop_inv.
  - by eapply gate_next_inv.
Qed.

Lemma initial_slots_inv w : initial w -> slots_inv w.
Proof.
  intros (Hg & Hp & Hwt & Hth & Hs). split.
  - intros sid s Hsid. destruct (Hs sid s Hsid) as (H0 & H1 & Hl & Hk).
    split; try done.
    + intros []; unfold held; by rewrite Hp, mcount_empty.
    + unfold total. lia.
    + intros [] _ ?; lia.
  - intros pid p. by rewrite Hp.
  - intros wid wt. by rewrite Hwt.
  - intros tid th. by rewrite Hth.
  - rewrite Hg. simpl. unfold held_kind. by rewrite Hp, Hth, !mcount_empty.
  - rewrite Hg. simpl. unfold waiting_kind. by rewrite Hwt, !mcount_empty.
Qed.

Lemma run_slots_inv w ls w' : slots_inv w -> run slots_step w ls w' -> slots_inv w'.
Proof. intros Hw Hr. induction Hr; eauto using slots_step_inv. Qed.

(** ** Lemmas: no admission is lost *)

(** A permit issued to somebody else only makes a refusal firmer. *)
Lemma full_issue s q q' t :
  full s q -> ~ full s q' -> full (set_last t (set_issued q' (issued s q' + 1) s)) q.
Proof.
  intros Hf Hn. pose proof (total_set_issued q' (issued s q' + 1) s) as Htot.
  unfold full in *. change (total (set_last t ?x)) with (total x).
  change (maximum (set_last t (set_issued q' ?n s))) with (maximum s).
  destruct Hf as [Hf|(Hst & Hz & Hm)]; [tauto|].
  destruct (decide (q' = q)) as [->|Hq]; [tauto|]. left. lia.
Qed.

Lemma guaranteed_issue s q q' t :
  ~ guaranteed s q -> ~ guaranteed (set_last t (set_issued q' (issued s q' + 1) s)) q.
Proof.
  intros Hn Hg. apply Hn. pose proof (total_set_issued q' (issued s q' + 1) s) as Htot.
  unfold guaranteed in *. change (total (set_last t ?x)) with (total x) in Hg.
  change (issued (set_last t ?x)) with (issued x) in Hg. simpl minimum in Hg. simpl sticky in Hg.
  destruct Hg as [Hg|[Hst Hz]]; [left; lia|right]. split; [done|].
  destruct (decide (q = q')) as [->|Hq]; [rewrite set_issued_same in Hz; lia|].
  by rewrite set_issued_other in Hz.
Qed.

Lemma waiter_ok_same w w' wt :
  suppliers w' = suppliers w -> gate w' = gate w -> now w' = now w -> waiter_ok w wt ->
  waiter_ok w' wt.
Proof. unfold waiter_ok. intros -> -> ->. done. Qed.

Lemma notified_ok w wt : waiter_ok w (notified wt).
Proof. intros s _. unfold notified. destruct (w_phase wt) eqn:E; simpl; by rewrite ?E. Qed.

Lemma issue_waiter_ok w sid c pid w' evs wt :
  slots_inv w -> try_issue w sid c pid = Some (w', evs) -> waiter_ok w wt -> waiter_ok w' wt.
Proof.
  intros Hw. unfold try_issue. destruct (suppliers w !! sid) as [s|] eqn:Hs; [|done].
  cbn [mbind option_bind]. case_decide as Hpid; [|done].
  pose proof (try_reserve_spec (gate w) s c (now w)) as Hspec.
  destruct (try_reserve_slot _ _ _ _) as [[[g' s'] q']|]; [|by intros [= <- <-]].
  destruct Hspec as (-> & Hfull & _ & -> & ->). intros [= <- <-] Hwt s2. simpl.
  rewrite lookup_insert. case_decide as Hsid; [|by apply Hwt]. intros [= <-].
  rewrite Hsid in Hs. specialize (Hwt s Hs). cbn [kind sticky ramp set_last set_issued last_issued].
  change (queue_of (set_last _ (set_issued _ _ s)) (w_sticky wt)) with (queue_of s (w_sticky wt)).
  pose proof (so_last _ _ _ (si_supplier w Hw _ s Hs)) as Hlast.
  destruct (w_phase wt) as [| |[]|[] timer|]; try done.
  - destruct Hwt as [Hf|[Hg Ha]]; [left; by apply full_issue|right].
    split; [by apply guaranteed_issue|]. intros [Hal Hel]. apply Ha.
    split; [exact Hal|].
    unfold elapsed in *. simpl in Hel. simpl in Hal. lia.
  - destruct Hwt as [Hf|[Hg Ha]]; [left; by apply full_issue|right].
    split; [by apply guaranteed_issue|]. destruct Ha as [Ha|(d & -> & Hd)]; [left; done|right].
    exists d. split; [done|lia].
Qed.

Lemma park_ok w wid wt s flag :
  slots_inv w -> waiters w !! wid = Some wt -> suppliers w !! w_supplier wt = Some s ->
  w_phase wt = WRefused flag -> waiter_ok w wt ->
  let wait := wait_time s (now w) in
  waiter_ok w (set_phase (WWaiting flag (if decide (wait = 0) then None else Some (now w + wait))) wt).
Proof.
  intros Hw Hwt Hs Hph Hok wait s2. simpl. rewrite Hs. intros [= <-].
  specialize (Hok s Hs). rewrite Hph in Hok. destruct flag; [done|].
  destruct Hok as [Hf|[Hg Ha]]; [by left|right]. split; [done|].
  destruct (allows (gate w) (kind s)) eqn:Hal; [right|by left].
  pose proof (so_last _ _ _ (si_supplier w Hw _ s Hs)) as Hlast.
  assert (elapsed s (now w) < ramp s) as Hel.
  { destruct (decide (elapsed s (now w) < ramp s)); [done|]. exfalso. apply Ha. split; [done|lia]. }
  assert (wait = ramp s - elapsed s (now w)) as Hwait by (unfold wait, wait_time; lia).
  rewrite decide_False by lia. eexists. split; [done|]. rewrite Hwait. unfold elapsed. lia.
Qed.

(** The invariant of the futures. *)
Definition waiters_ok (w : World) : Prop :=
  forall wid wt, waiters w !! wid = Some wt -> waiter_ok w wt.

Lemma move_waiters_ok w wid wt ph :
  waiters_ok w -> waiter_ok w (set_phase ph wt) -> waiters_ok (move_waiter wid wt ph w).
Proof.
  intros Hw Hph i x. simpl. rewrite lookup_insert. case_decide.
  - intros [= <-]. by apply (waiter_ok_same w).
  - intros Hx. apply (waiter_ok_same w); [done..|]. by eapply Hw.
Qed.

Lemma notify_waiters_ok w w' :
  waiters w' = notified <$> waiters w -> waiters_ok w'.
Proof.
  intros He wid wt. rewrite He, lookup_fmap. intros (x & _ & ->)%fmap_Some. apply notified_ok.
Qed.

Lemma end_waiters_ok w wid wt : waiters_ok w -> waiters_ok (end_waiter wid wt w).
Proof. intros Hw i x. simpl. intros [_ Hx]%lookup_delete_Some. exact (Hw i x Hx). Qed.

Lemma try_waiters_ok w wid pid w' evs :
  slots_inv w -> waiters_ok w -> loop_try w wid pid = Some (w', evs) -> waiters_ok w'.
Proof.
  intros Hw Hok. unfold loop_try. destruct (waiters w !! wid) as [wt|] eqn:Hwt; [|done].
  cbn [mbind option_bind]. destruct (w_phase wt) as [|flag| | |]; try done.
  destruct (try_issue w (w_supplier wt) (w_sticky wt) pid) as [[w1 evs1]|] eqn:Ht; [|done].
  cbn [mbind option_bind]. destruct (try_issue_waiters _ _ _ _ _ _ Ht) as (Hws & _).
  assert (Hok1 : waiters_ok w1).
  { intros i x Hx. rewrite Hws in Hx. eapply issue_waiter_ok; [done|done|by eapply Hok]. }
  destruct evs1 as [|[] [|]]; intros [= <- <-]; apply move_waiters_ok; try done.
  intros s Hs. simpl. destruct flag; [done|].
  unfold try_issue in Ht. destruct (suppliers w !! w_supplier wt) as [s0|] eqn:Hs0; [|done].
  cbn [mbind option_bind] in Ht. case_decide; [|done].
  pose proof (try_reserve_spec (gate w) s0 (w_sticky wt) (now w)) as Hspec.
  destruct (try_reserve_slot _ _ _ _) as [[[g' s'] q']|]; [done|].
  injection Ht as <- <-. simpl in Hs. rewrite Hs0 in Hs. by injection Hs as <-.
Qed.

Lemma loop_try_some w wid pid w' evs :
  loop_try w wid pid = Some (w', evs) ->
  exists wt flag w1 ph, waiters w !! wid = Some wt /\ w_phase wt = WEnabled flag /\
    try_issue w (w_supplier wt) (w_sticky wt) pid = Some (w1, evs) /\ w' = move_waiter wid wt ph w1.
Proof.
  unfold loop_try. destruct (waiters w !! wid) as [wt|] eqn:Hwt; [|done]. cbn [mbind option_bind].
  destruct (w_phase wt) eqn:Hph; try done. destruct (try_issue _ _ _ _) as [[w1 e1]|] eqn:Ht; [|done].
  cbn [mbind option_bind]. intros Hs. exists wt, notified0, w1. destruct e1 as [|[] []]; simplify_eq; eauto.
Qed.

Lemma try_issue_events w sid c pid w' evs :
  try_issue w sid c pid = Some (w', evs) -> evs = [Issued sid pid] \/ evs = [Refused sid].
Proof.
  unfold try_issue. destruct (suppliers w !! sid) as [s|]; [|done].
  cbn [mbind option_bind]. case_decide; [|done].
  destruct (try_reserve_slot _ _ _ _) as [[[g' s'] q']|]; intros [= <- <-]; auto.
Qed.

(** What a step does to the threads: one moves on, none changes, or one more begins a call. *)
Lemma step_threads w a w' evs :
  sstep w a = Some (w', evs) ->
  (exists tid, a = AGate tid) \/
  ((forall tid values, Returned tid values ∉ evs) /\
   (gate_calls w' = gate_calls w \/
    exists tid ops, gate_calls w !! tid = None /\
      gate_calls w' = <[tid := {| todo := ops; loaded := [] |}]> (gate_calls w))).
Proof.
  assert (Htry : forall sid c pid w1 evs1, try_issue w sid c pid = Some (w1, evs1) ->
    gate_calls w1 = gate_calls w /\ forall tid values, Returned tid values ∉ evs1).
  { intros sid c pid w1 evs1 Ht. split; [by destruct (try_issue_waiters _ _ _ _ _ _ Ht) as (_ & -> & _)|].
    apply try_issue_events in Ht as [-> | ->]; set_solver. }
  intros Hs. destruct a; cbn [sstep] in Hs; [right..|left; eauto].
  1,2: case_decide; simplify_eq; split; [set_solver|right; eexists _, _; done].
  - case_decide; simplify_eq. split; [set_solver|by left].
  - apply Htry in Hs as [-> ?]. auto.
  - unfold reserve_slot in Hs. simplify_option_eq. split; [set_solver|by left].
  - unfold enable_notified in Hs. simplify_option_eq. destruct (w_phase _); simplify_eq. split; [set_solver|by left].
  - apply loop_try_some in Hs as (wt & flag & w1 & ph & _ & _ & Ht & ->).
    cbn [gate_calls move_waiter set_waiters]. apply Htry in Ht as [-> ?]. auto.
  - unfold loop_wait in Hs. simplify_option_eq; destruct (w_phase _); simplify_eq; (split; [set_solver|by left]).
  - unfold loop_wake in Hs. simplify_option_eq. destruct (w_phase _); try done.
    destruct (_ || _); simplify_eq. split; [set_solver|by left].
  - unfold loop_return in Hs. simplify_option_eq. destruct (w_phase _); simplify_eq. split; [set_solver|by left].
  - unfold cancel_waiter in Hs. simplify_option_eq. destruct (w_phase _); simplify_eq; (split; [set_solver|by left]).
  - destruct (begin_drop_inv_args _ _ _ _ _ Hs) as [_ Hn]. unfold begin_drop in Hs. simplify_option_eq.
    destruct (release _ _); simplify_eq; (split; [set_solver|]); [right|by left]. eexists _, _; done.
Qed.

Lemma step_keeps w a w' evs i th :
  sstep w a = Some (w', evs) -> (forall tid, a <> AGate tid) ->
  gate_calls w !! i = Some th -> gate_calls w' !! i = Some th.
Proof.
  intros Hs Ha Hi. destruct (step_threads _ _ _ _ Hs) as [[tid ?]|(_ & [->|(tid & ops & Hn & ->)])]; [by destruct (Ha tid)|done|].
  rewrite lookup_insert_ne; [done|]. intros ->. congruence.
Qed.

Lemma call_notifies tid ops w : Notify ∈ ops -> notifying (call_gate tid ops w).
Proof. intros Hn. eexists tid, _. split; [apply lookup_insert_eq|done]. Qed.

(** After a step of a thread either a notification is still due, or it has been given, or the step
    changed nothing a future depends on. *)
Lemma gate_next_cases w tid w' evs :
  slots_inv w -> gate_next w tid = Some (w', evs) ->
  notifying w' \/ waiters w' = notified <$> waiters w \/
  (exists m, w' = set_gate_calls m w /\ forall i th, gate_calls w !! i = Some th -> Notify ∈ todo th -> m !! i = Some th).
Proof.
  intros Hw. unfold gate_next. destruct (gate_calls w !! tid) as [th|] eqn:Hth; [|done].
  cbn [mbind option_bind]. destruct (todo th) as [|op rest] eqn:Htodo; [done|].
  destruct (gate_step w op) as [w1 values] eqn:Hg. intros [= <- _].
  destruct (thread_next th op rest (si_thread w Hw tid th Hth) Htodo)
    as [[_ [[[mask ->] ->]|[(k & _ & -> & ->)|[-> ->]]]]|(n & _ & -> & -> & _)]; injection Hg as <- <-.
  1,2: left; eexists tid, _; (split; [apply lookup_insert_eq|simpl; set_solver]).
  - right; left. done.
  - right; right. eexists. split; [done|]. intros i x Hi Hx.
    assert (i <> tid) as Hne.
    { intros ->. rewrite Hth in Hi. injection Hi as <-. rewrite Htodo in Hx.
      apply elem_of_cons in Hx as [|[? [? _]]%list_elem_of_fmap]; done. }
    case_decide; [rewrite lookup_delete_ne|rewrite lookup_insert_ne]; by auto.
Qed.

(** The invariant: a notification is due, or the futures are as they should be. *)
Definition looked_after (w : World) : Prop := notifying w \/ waiters_ok w.

Lemma notifying_step w a w' evs :
  slots_inv w -> sstep w a = Some (w', evs) -> notifying w -> looked_after w'.
Proof.
  intros Hw Hs (i & th & Hi & Hn).
  assert ((exists tid, a = AGate tid) \/ forall tid, a <> AGate tid) as [[tid ->]|Ha]
    by (destruct a; eauto).
  - destruct (gate_next_cases _ _ _ _ Hw Hs) as [|[He|(m & -> & Hm)]]; [by left|right|left].
    + by eapply notify_waiters_ok.
    + exists i, th. split; [by apply Hm|done].
  - left. exists i, th. split; [|done]. by eapply step_keeps.
Qed.

Lemma punctual_waiters_ok w a w' evs :
  slots_inv w -> waiters_ok w -> punctual_step w (a, evs) w' -> looked_after w'.
Proof.
  intros Hw Hok [Hs Hp]. unfold slots_step in Hs. cbn [fst snd] in Hs.
  destruct a; cbn [sstep] in Hs.
  - case_decide; simplify_eq. left. apply call_notifies. set_solver.
  - case_decide; simplify_eq. by right.
  - case_decide; [|done]. injection Hs as <- <-. right. intros i x Hx s Hsx.
    specialize (Hok i x Hx s Hsx). simpl in *. destruct (decide (d = 0)) as [->|Hd].
    + by rewrite Z.add_0_r.
    + pose proof (fun flag => Hp ltac:(lia) i x flag Hx) as Hno.
      destruct (w_phase x) as [| |flag|[] ?|]; try done. by destruct (Hno flag).
  - right. intros i x Hx. destruct (try_issue_waiters _ _ _ _ _ _ Hs) as (Hws & _). rewrite Hws in Hx.
    eapply issue_waiter_ok; [done|done|by eapply Hok].
  - unfold reserve_slot in Hs. destruct (suppliers w !! sid) as [s|] eqn:Hsid; [|done].
    cbn [mbind option_bind] in Hs. case_decide; [|done]. injection Hs as <- <-.
    right. intros i x. simpl. rewrite lookup_insert. case_decide; [by intros [= <-]|].
    intros Hx. exact (Hok i x Hx).
  - unfold enable_notified in Hs. destruct (waiters w !! wid) as [wt|] eqn:Hwt; [|done].
    cbn [mbind option_bind] in Hs. destruct (w_phase wt); simplify_eq. right. by apply move_waiters_ok.
  - right. by eapply try_waiters_ok.
  - unfold loop_wait in Hs. destruct (waiters w !! wid) as [wt|] eqn:Hwt; [|done].
    cbn [mbind option_bind] in Hs. destruct (suppliers w !! w_supplier wt) as [s|] eqn:Hsx; [|done].
    cbn [mbind option_bind] in Hs. destruct (w_phase wt) as [| |flag| |] eqn:Hph; try done.
    injection Hs as <- <-. right. apply move_waiters_ok; [done|].
    apply (park_ok w wid wt s flag); try done. by eapply Hok.
  - unfold loop_wake in Hs. destruct (waiters w !! wid) as [wt|] eqn:Hwt; [|done].
    cbn [mbind option_bind] in Hs. destruct (w_phase wt); try done.
    destruct (_ || _); simplify_eq. right. by apply move_waiters_ok.
  - unfold loop_return in Hs. simplify_option_eq. destruct (w_phase _); simplify_eq.
    right. by apply end_waiters_ok.
  - unfold cancel_waiter in Hs. simplify_option_eq. right. destruct (w_phase _); simplify_eq; by apply end_waiters_ok.
  - unfold begin_drop in Hs. simplify_option_eq. destruct (release _ _); simplify_eq; [|by right].
    left. apply call_notifies. set_solver.
  - destruct (gate_next_cases _ _ _ _ Hw Hs) as [|[He|(m & -> & Hm)]]; [by left|right|right].
    + by eapply notify_waiters_ok.
    + exact Hok.
Qed.

Lemma run_punctual w ls w' :
  slots_inv w -> looked_after w -> run punctual_step w ls w' -> slots_inv w' /\ looked_after w'.
Proof.
  intros Hw Hok Hr. induction Hr as [|w ls w1 [a evs] w2 _ IH Hs]; [done|].
  destruct (IH Hw Hok) as [Hw1 Hok1]. pose proof Hs as [Hs1 _]. split; [by eapply slots_step_inv|].
  destruct Hok1 as [Hn|Hok1]; [by eapply notifying_step|by eapply punctual_waiters_ok].
Qed.

(** A thread that has a notification to give gets there by its own steps. *)
Lemma notify_comes w tid th :
  gate_calls w !! tid = Some th -> Notify ∈ todo th ->
  exists ls w', run slots_step w ls w' /\ Forall (fun l => l.1 = AGate tid) ls /\
    waiters w' = notified <$> waiters w.
Proof.
  remember (todo th) as ops eqn:Ho. revert w th Ho.
  induction ops as [|op rest IH]; intros w th Ho Hth Hn; [by apply elem_of_nil in Hn|].
  destruct (gate_step w op) as [w1 values] eqn:Hg.
  set (w2 := advance tid rest (loaded th ++ values) w1).
  assert (slots_step w (AGate tid, if decide (rest = []) then [Returned tid (loaded th ++ values)] else []) w2)
    as Hs.
  { unfold slots_step. cbn [fst snd sstep]. unfold gate_next. rewrite Hth. cbn [mbind option_bind].
    rewrite <- Ho. by rewrite Hg. }
  destruct (decide (op = Notify)) as [->|Hop].
  - injection Hg as <- <-. eexists _, w2. split; [by apply run_one|]. split; [by repeat constructor|done].
  - apply elem_of_cons in Hn as [?|Hn]; [by subst|].
    assert (waiters w1 = waiters w) as Hw1 by (destruct op; simplify_eq/=; done).
    destruct (IH w2 {| todo := rest; loaded := loaded th ++ values |}) as (ls & w3 & Hr & Hf & He); try done.
    { unfold w2, advance. rewrite decide_False by (intros ->; by apply elem_of_nil in Hn).
      apply lookup_insert_eq. }
    eexists (_ :: ls), w3. split; [by eapply (run_app slots_step w [_] w2), Hr; apply run_one|].
    split; [by constructor|]. rewrite He. unfold w2. simpl. by rewrite Hw1.
Qed.

Lemma never_overflows w a w' evs :
  slots_inv w -> sstep w a = Some (w', evs) -> Overflowed ∉ evs.
Proof.
  intros Hw Hs. assert (Htry : forall sid c pid w1 evs1,
    try_issue w sid c pid = Some (w1, evs1) -> Overflowed ∉ evs1).
  { intros sid c pid w1 evs1 [->| ->]%try_issue_events; set_solver. }
  destruct a; cbn [sstep] in Hs.
  1,2,3: case_decide; simplify_eq; set_solver.
  - by eapply Htry.
  - unfold reserve_slot in Hs. simplify_option_eq. set_solver.
  - unfold enable_notified in Hs. simplify_option_eq. destruct (w_phase _); simplify_eq. set_solver.
  - apply loop_try_some in Hs as (wt & flag & w1 & ph & _ & _ & Ht & _). by eapply Htry.
  - unfold loop_wait in Hs. simplify_option_eq; destruct (w_phase _); simplify_eq; set_solver.
  - unfold loop_wake in Hs. simplify_option_eq. destruct (w_phase _); try done.
    destruct (_ || _); simplify_eq. set_solver.
  - unfold loop_return in Hs. simplify_option_eq. destruct (w_phase _); simplify_eq. set_solver.
  - unfold cancel_waiter in Hs. simplify_option_eq. destruct (w_phase _); simplify_eq; set_solver.
  - destruct (begin_drop_inv_args _ _ _ _ _ Hs) as [[p Hp] Hn].
    destruct (begin_drop_spec w tid pid p Hw Hp Hn) as (s & _ & _ & He). rewrite He in Hs.
    simplify_eq. set_solver.
  - unfold gate_next in Hs. simplify_option_eq. destruct (todo _) as [|op rest]; [done|].
    destruct (gate_step w op). simplify_eq. case_decide; set_solver.
Qed.

(** Every load of [stats] gives what its counter counts at that moment. *)
Lemma load_counted w index :
  slots_inv w -> (index < 8)%nat -> load (gate w) index = u32 (Z.of_nat (counted index w)).
Proof.
  intros Hw Hi. unfold load, counted. rewrite (si_reserved w Hw), (si_pending w Hw).
  do 8 (destruct index as [|index]; [reflexivity|]). lia.
Qed.

(** A value at [index] that thread [tid] loaded in a run: the counter at the moment of that step. *)
Definition was_counted (w0 : World) (ls : list (action * list event)) (tid : positive) (index : nat)
    (v : Z) : Prop :=
  exists l1 e l2 w, ls = l1 ++ (AGate tid, e) :: l2 /\ run slots_step w0 l1 w /\
    v = u32 (Z.of_nat (counted index w)).

Lemma was_counted_later w0 ls tid index v ls' :
  was_counted w0 ls tid index v -> was_counted w0 (ls ++ ls') tid index v.
Proof.
  intros (l1 & e & l2 & w & -> & Hr & Hv). exists l1, e, (l2 ++ ls'), w. by rewrite <- app_assoc.
Qed.

Lemma gate_loads w0 ls w tid th op rest w1 values e index v :
  run slots_step w0 ls w -> slots_inv w -> gate_calls w !! tid = Some th -> todo th = op :: rest ->
  gate_step w op = (w1, values) ->
  (forall v', loaded th !! index = Some v' -> was_counted w0 ls tid index v') ->
  (loaded th ++ values) !! index = Some v -> was_counted w0 (ls ++ [(AGate tid, e)]) tid index v.
Proof.
  intros Hr Hw Hth Htodo Hg Hold. rewrite lookup_app.
  destruct (loaded th !! index) as [v'|] eqn:Hl; [intros [= ->]; by apply was_counted_later, Hold|].
  apply lookup_ge_None in Hl. destruct (thread_next th op rest (si_thread w Hw tid th Hth) Htodo)
    as [[_ [[[mask ->] _]|[(k & _ & -> & _)|[-> _]]]]|(n & Hn & -> & _ & Hlen)]; injection Hg as <- <-; try done.
  intros Hv. destruct (index - length (loaded th))%nat as [|j] eqn:Hj; [|by destruct j].
  assert (index = n) as -> by lia. injection Hv as <-.
  exists ls, e, [], w. split; [done|]. split; [done|]. by apply load_counted.
Qed.

Lemma loads_recorded w0 ls w :
  slots_inv w0 -> (forall tid th, gate_calls w0 !! tid = Some th -> loaded th = []) -> run slots_step w0 ls w ->
  forall tid th index v, gate_calls w !! tid = Some th -> loaded th !! index = Some v ->
  was_counted w0 ls tid index v.
Proof.
  intros Hw0 Hl0 Hr. induction Hr as [|w0 ls w [a evs] w' Hr IH Hs]; intros tid th index v Hth Hv.
  { by rewrite (Hl0 tid th Hth) in Hv. }
  specialize (IH Hw0 Hl0). pose proof (run_slots_inv _ _ _ Hw0 Hr) as Hw.
  assert (Hsame : gate_calls w !! tid = Some th -> was_counted w0 (ls ++ [(a, evs)]) tid index v)
    by (intros Ht; by eapply was_counted_later, IH).
  destruct (step_threads _ _ _ _ Hs) as [[i Ha]|(_ & [He|(i & ops & _ & He)])].
  - cbn [fst] in Ha. subst a. unfold slots_step in Hs. cbn [fst snd sstep] in Hs. unfold gate_next in Hs.
    destruct (gate_calls w !! i) as [th0|] eqn:Hth0; [|done]. cbn [mbind option_bind] in Hs.
    destruct (todo th0) as [|op rest] eqn:Htodo; [done|]. destruct (gate_step w op) as [w1 values] eqn:Hg.
    injection Hs as <- <-. assert (gate_calls w1 = gate_calls w) as Hw1 by (destruct op; by simplify_eq/=).
    revert Hth. unfold advance. simpl. rewrite Hw1. case_decide.
    + intros [_ Ht]%lookup_delete_Some. by apply Hsame.
    + rewrite lookup_insert. case_decide; [|done]. subst i. intros [= <-]. eapply gate_loads; eauto.
  - rewrite He in Hth. by apply Hsame.
  - rewrite He, lookup_insert in Hth. case_decide; [|by apply Hsame]. by simplify_eq/=.
Qed.

(** What [stats] returns. *)
Lemma returned_counted w0 ls w a w' evs tid values :
  slots_inv w0 -> (forall tid th, gate_calls w0 !! tid = Some th -> loaded th = []) -> run slots_step w0 ls w ->
  sstep w a = Some (w', evs) -> Returned tid values ∈ evs -> values <> [] ->
  length values = 8%nat /\
  forall index v, values !! index = Some v -> was_counted w0 (ls ++ [(a, evs)]) tid index v.
Proof.
  intros Hw0 Hl0 Hr Hs Hin Hne. pose proof (run_slots_inv _ _ _ Hw0 Hr) as Hw.
  destruct (step_threads _ _ _ _ Hs) as [[i ->]|(Hno & _)]; [|by destruct (Hno tid values)].
  cbn [sstep] in Hs. unfold gate_next in Hs.
  destruct (gate_calls w !! i) as [th|] eqn:Hth; [|done]. cbn [mbind option_bind] in Hs.
  destruct (todo th) as [|op rest] eqn:Htodo; [done|]. destruct (gate_step w op) as [w1 vs] eqn:Hg.
  injection Hs as _ <-. case_decide as Hrest; [|by apply elem_of_nil in Hin]. subst rest.
  apply list_elem_of_singleton in Hin. injection Hin as -> ->. split.
  - destruct (thread_next th op [] (si_thread w Hw i th Hth) Htodo)
      as [[Hl [[[mask ->] ?]|[(k & _ & -> & ?)|[-> _]]]]|(n & Hn & -> & Hrest & Hlen)]; try done;
      injection Hg as <- <-.
    + by rewrite Hl in Hne.
    + rewrite length_app, Hlen. simpl. apply (f_equal length) in Hrest.
      rewrite length_fmap, length_seq in Hrest. simpl in Hrest. lia.
  - intros index v Hv. eapply gate_loads; try done. intros v' Hv'. by eapply loads_recorded.
Qed.

(** Only the clock moves the clock. *)
Lemma step_now w a w' evs : sstep w a = Some (w', evs) -> (forall d, a <> ATick d) -> now w' = now w.
Proof.
  intros Hs Ha. destruct a; cbn [sstep] in Hs; try by destruct (Ha d).
  1,2: case_decide; by simplify_eq.
  - by destruct (try_issue_waiters _ _ _ _ _ _ Hs) as (_ & _ & ->).
  - unfold reserve_slot in Hs. by simplify_option_eq.
  - unfold enable_notified in Hs. simplify_option_eq. by destruct (w_phase _); simplify_eq.
  - apply loop_try_some in Hs as (wt & flag & w1 & ph & _ & _ & Ht & ->).
    by destruct (try_issue_waiters _ _ _ _ _ _ Ht) as (_ & _ & <-).
  - unfold loop_wait in Hs. simplify_option_eq; by destruct (w_phase _); simplify_eq.
  - unfold loop_wake in Hs. simplify_option_eq. destruct (w_phase _); try done. by destruct (_ || _); simplify_eq.
  - unfold loop_return in Hs. simplify_option_eq. by destruct (w_phase _); simplify_eq.
  - unfold cancel_waiter in Hs. simplify_option_eq. by destruct (w_phase _); simplify_eq.
  - unfold begin_drop in Hs. simplify_option_eq. by destruct (release _ _); simplify_eq.
  - unfold gate_next in Hs. simplify_option_eq. destruct (todo _) as [|op rest]; [done|].
    destruct op; by simplify_eq/=.
Qed.

(** ** Sample systems *)

(** A sticky workflow supplier with two permits at most and a plain activity supplier. *)
Definition sample_slots : World :=
  {| gate := gate_new;
     suppliers := {[ 1%positive := supplier 1 2 100 0 true 0;
                     2%positive := supplier 0 2 100 1 false 0 ]};
     permits := ∅; waiters := ∅; gate_calls := ∅; now := 0 |}.

(** A sticky permit is out, a second sticky poll waits, an activity future waits for its ramp. *)
Definition sample_schedule : list action :=
  [ATryOnce 1 true 1; AUpdate 1 15; AGate 1; AGate 1; AReserve 1 1 true; AEnable 1; ATry 1 9; APark 1;
   AReserve 2 2 false; AEnable 2; ATry 2 9; APark 2; AStats 2; AGate 2; AGate 2; ATick 100].
Definition sample_state : World := default sample_slots (fst <$> exec sstep sample_slots sample_schedule).
Definition sample_trace : list (action * list event) :=
  default [] (snd <$> exec sstep sample_slots sample_schedule).

Lemma sample_slots_initial : initial sample_slots.
Proof.
  split_and!; try done. intros sid s. unfold sample_slots. cbn [suppliers].
  rewrite lookup_insert. case_decide; [intros [= <-]|].
  - split_and!; try done. simpl. lia.
  - intros [_ <-]%lookup_singleton_Some. split_and!; try done. simpl. lia.
Qed.

Lemma sample_slots_run : run slots_step sample_slots sample_trace sample_state.
Proof. apply (exec_runs sstep sample_slots sample_schedule). vm_compute. reflexivity. Qed.

(** The clock of the sample only advances while no future is refused and not yet waiting. *)
Lemma exec_punctual w acts w' ls :
  exec sstep w acts = Some (w', ls) ->
  Forall (fun a => match a with ATick _ => False | _ => True end) acts ->
  run punctual_step w ls w'.
Proof.
  revert w ls. induction acts as [|a acts IH]; intros w ls He Hf.
  - simplify_eq/=. constructor.
  - cbn [exec] in He. destruct (sstep w a) as [[w1 evs]|] eqn:E1; [|done].
    cbn [mbind option_bind] in He. destruct (exec sstep w1 acts) as [[w2 ls2]|] eqn:E2; [|done].
    inversion Hf as [|? ? Ha Hf']; subst. simplify_eq/=.
    apply (run_app punctual_step w [(a, evs)] w1 ls2 w'); [apply run_one|by apply IH].
    split; [done|]. intros Hlt. exfalso. assert (now w1 = now w) as Hn; [|lia].
    eapply step_now; [done|]. by intros d ->.
Qed.

(** ** Properties *)

(** Reservation rule.  A slot is granted exactly when there is capacity for its queue (a free
    permit, and not the last one if the other queue of a sticky supplier has none) and it is either
    guaranteed (below the minimum, or the first of its sticky queue) or admitted by the JVM's mask
    with the ramp elapsed; a grant counts one permit on its queue and in the gate and restarts the
    ramp, a refusal changes nothing. *)
Theorem reservation_rule w sid s c pid :
  suppliers w !! sid = Some s -> permits w !! pid = None ->
  let q := queue_of s c in
  (~ full s q /\ (guaranteed s q \/ admitted (gate w) s (now w)) /\
   exists w', try_issue w sid c pid = Some (w', [Issued sid pid]) /\
     suppliers w' = <[sid := set_last (now w) (set_issued q (issued s q + 1) s)]> (suppliers w) /\
     permits w' = <[pid := {| permit_supplier := sid; permit_queue := q;
                              permit_kind := kind s |}]> (permits w) /\
     gate w' = add_reserved 1 (kind s) (gate w) /\ waiters w' = waiters w) \/
  ((full s q \/ (~ guaranteed s q /\ ~ admitted (gate w) s (now w))) /\
   try_issue w sid c pid = Some (w, [Refused sid])).
Proof.
  intros Hs Hpid q. unfold try_issue. rewrite Hs. cbn [mbind option_bind].
  rewrite decide_True by done. pose proof (try_reserve_spec (gate w) s c (now w)) as Hspec.
  destruct (try_reserve_slot _ _ _ _) as [[[g' s'] q']|]; [left|right; done].
  destruct Hspec as (-> & Hf & Hg & -> & ->). split; [done|]. split; [done|].
  eexists. split; [done|]. done.
Qed.

Lemma reservation_rule_witness :
  let s := supplier 1 2 100 0 true 0 in
  let q := queue_of s true in
  (~ full s q /\ (guaranteed s q \/ admitted (gate sample_slots) s (now sample_slots)) /\
   exists w', try_issue sample_slots 1 true 5 = Some (w', [Issued 1 5]) /\
     suppliers w' = <[1%positive := set_last (now sample_slots) (set_issued q (issued s q + 1) s)]>
       (suppliers sample_slots) /\
     permits w' = <[5%positive := {| permit_supplier := 1; permit_queue := q;
                            permit_kind := kind s |}]> (permits sample_slots) /\
     gate w' = add_reserved 1 (kind s) (gate sample_slots) /\
     waiters w' = waiters sample_slots) \/
  ((full s q \/ (~ guaranteed s q /\ ~ admitted (gate sample_slots) s (now sample_slots))) /\
   try_issue sample_slots 1 true 5 = Some (sample_slots, [Refused 1])).
Proof. apply (reservation_rule sample_slots 1 (supplier 1 2 100 0 true 0) true 5); reflexivity. Defined.

(** C35 Permits are accounted for.  In every reachable state each queue's count is the number of its
    permits that are out, never above the maximum, so neither the release of a permit nor
    [available_slots] can underflow; each of the gate's eight counters is the number of permits of
    its kind that are out (those still on their way back included) or of the kind's futures that are
    pending, cancelled ones excluded; and a call of [stats] returns eight values, each of which was
    its counter's when the call loaded it, whatever happened in between. *)
Theorem permits_accounted w0 ls w a w' evs :
  initial w0 -> run slots_step w0 ls w -> sstep w a = Some (w', evs) ->
  (forall sid s, suppliers w !! sid = Some s ->
     issued s false = held sid false w /\ issued s true = held sid true w /\
     available_slots s = Done (maximum s - (held sid false w + held sid true w))%nat /\
     (held sid false w + held sid true w <= maximum s)%nat) /\
  (Overflowed ∉ evs) /\
  load (gate w) <$> seq 0 8 =
    [u32 (Z.of_nat (held_kind 0 w)); u32 (Z.of_nat (waiting_kind 0 w));
     u32 (Z.of_nat (held_kind 1 w)); u32 (Z.of_nat (waiting_kind 1 w));
     u32 (Z.of_nat (held_kind 2 w)); u32 (Z.of_nat (waiting_kind 2 w));
     u32 (Z.of_nat (held_kind 3 w)); u32 (Z.of_nat (waiting_kind 3 w))] /\
  (forall tid values, Returned tid values ∈ evs -> values <> [] ->
     length values = 8%nat /\
     forall index v, values !! index = Some v -> was_counted w0 (ls ++ [(a, evs)]) tid index v).
Proof.
  intros H0 Hr Hs. pose proof (initial_slots_inv _ H0) as Hw0.
  pose proof (run_slots_inv _ _ _ Hw0 Hr) as Hw. split; [|split; [|split]].
  - intros sid s Hsid. pose proof (si_supplier w Hw sid s Hsid) as [H1 H2 _ _ _ _].
    unfold available_slots. rewrite decide_True by done. unfold total in *. by rewrite <- !H1.
  - by eapply never_overflows.
  - unfold load. rewrite (si_reserved w Hw), (si_pending w Hw). reflexivity.
  - intros tid values. eapply returned_counted; try done.
    destruct H0 as (_ & _ & _ & Hth & _). intros i th. by rewrite Hth.
Qed.

(** The sample goes on until its [stats] return. *)
Definition stats_trace : list (action * list event) :=
  default [] (snd <$> exec sstep sample_state [AGate 2; AGate 2; ATryOnce 2 false 7; AGate 2; AGate 2; AGate 2]).
Definition stats_state : World :=
  default sample_state (fst <$> exec sstep sample_state [AGate 2; AGate 2; ATryOnce 2 false 7; AGate 2; AGate 2; AGate 2]).

Lemma permits_accounted_witness :
  sstep stats_state (AGate 2) = Some (set_gate_calls ∅ stats_state, [Returned 2 [1; 1; 0; 1; 0; 0; 0; 0]]) /\
  (exists l1 e l2 w, sample_trace ++ stats_trace ++ [(AGate 2, [Returned 2 [1; 1; 0; 1; 0; 0; 0; 0]])] =
      l1 ++ (AGate 2, e) :: l2 /\ run slots_step sample_slots l1 w /\
    held_kind 1 stats_state = 1%nat /\ 0 = u32 (Z.of_nat (held_kind 1 w))).
Proof.
  assert (sstep stats_state (AGate 2) =
    Some (set_gate_calls ∅ stats_state, [Returned 2 [1; 1; 0; 1; 0; 0; 0; 0]])) as Hs by (vm_compute; reflexivity).
  split; [exact Hs|].
  destruct (permits_accounted sample_slots (sample_trace ++ stats_trace) stats_state (AGate 2)
    (set_gate_calls ∅ stats_state) [Returned 2 [1; 1; 0; 1; 0; 0; 0; 0]]) as (_ & _ & _ & Hret).
  - apply sample_slots_initial.
  - eapply run_app; [apply sample_slots_run|].
    apply (exec_runs sstep sample_state [AGate 2; AGate 2; ATryOnce 2 false 7; AGate 2; AGate 2; AGate 2]).
    vm_compute. reflexivity.
  - exact Hs.
  - destruct (Hret 2%positive [1; 1; 0; 1; 0; 0; 0; 0]) as [_ Hv]; [left|discriminate|].
    destruct (Hv 2%nat 0 eq_refl) as (l1 & e & l2 & w & Hl & Hr & Hc).
    exists l1, e, l2, w. rewrite <- app_assoc in Hl. split; [exact Hl|]. split; [exact Hr|].
    split; [vm_compute; reflexivity|exact Hc].
Defined.

(** C23 Sticky polling never starves new work, nor new work sticky polling.  In every reachable
    state of a sticky supplier with at least two permits, a queue that holds none is granted one at
    once, whatever the JVM's mask and the ramp say and whatever the other queue holds. *)
Theorem sticky_queues_never_starve w0 ls w sid s c pid :
  initial w0 -> run slots_step w0 ls w -> suppliers w !! sid = Some s ->
  sticky s = true -> (2 <= maximum s)%nat -> held sid c w = 0%nat -> permits w !! pid = None ->
  exists w', try_issue w sid c pid = Some (w', [Issued sid pid]) /\ held sid c w' = 1%nat.
Proof.
  intros H0 Hr Hs Hst Hmax Hheld Hpid.
  pose proof (run_slots_inv _ _ _ (initial_slots_inv _ H0) Hr) as Hw.
  destruct (si_supplier w Hw sid s Hs) as [H1 H2 H3 _ _ _]. rewrite <- H1 in Hheld.
  assert (queue_of s c = c) as Hq by (unfold queue_of; by rewrite Hst).
  assert (~ full s c) as Hfull.
  { unfold full. rewrite (queue_total c), Hheld. specialize (H3 (negb c) Hst Hmax).
    intros [?|(_ & ? & ?)]; lia. }
  unfold try_issue. rewrite Hs. cbn [mbind option_bind]. rewrite decide_True by done.
  pose proof (try_reserve_spec (gate w) s c (now w)) as Hspec. rewrite Hq in Hspec.
  destruct (try_reserve_slot _ _ _ _) as [[[g' s'] q']|].
  - destruct Hspec as (-> & _). eexists. split; [done|].
    etrans; [apply (held_insert w pid _ sid c Hpid)|]. simpl.
    by rewrite decide_True, <- H1, Hheld by done.
  - exfalso. destruct Hspec as [|[Hg _]]; [done|]. apply Hg. by right.
Qed.

Lemma sticky_queues_never_starve_witness :
  exists w', try_issue sample_state 1 false 5 = Some (w', [Issued 1 5]) /\ held 1 false w' = 1%nat.
Proof.
  apply (sticky_queues_never_starve sample_slots sample_trace sample_state 1
    (set_last 0 (set_issued true 1 (supplier 1 2 100 0 true 0))));
    [apply sample_slots_initial|apply sample_slots_run|vm_compute; reflexivity|reflexivity|simpl; lia
    |vm_compute; reflexivity|vm_compute; reflexivity].
Defined.

(** C24 No admission is lost while the clock does not advance between a future's refusal and its
    wait.  In every state reachable that way, take a future in the [select!] that could be granted
    its slot now.  Either it is woken, by a notification it already has or by its own timer, so its
    next step goes round the loop again; or an [update] or the drop of a permit is still under way
    in some thread, with its [notify_waiters] to come, and after that thread's own
    next steps the future is woken.  So with no such call under way it is woken, and a call can be
    interrupted anywhere between its accesses to the gate. *)
Theorem no_admission_is_lost w0 ls w wid wt flag timer s :
  initial w0 -> run punctual_step w0 ls w -> waiters w !! wid = Some wt ->
  w_phase wt = WWaiting flag timer -> suppliers w !! w_supplier wt = Some s ->
  is_Some (try_reserve_slot (gate w) s (w_sticky wt) (now w)) ->
  sstep w (AWake wid) = Some (move_waiter wid wt WStart w, []) \/
  exists tid th ls' w', gate_calls w !! tid = Some th /\ Notify ∈ todo th /\
    run slots_step w ls' w' /\ Forall (fun l => l.1 = AGate tid) ls' /\
    waiters w' !! wid = Some (set_phase (WWaiting true timer) wt) /\
    sstep w' (AWake wid) = Some (move_waiter wid (set_phase (WWaiting true timer) wt) WStart w', []).
Proof.
  intros H0 Hr Hwt Hph Hs [[[g' s'] q'] Htry].
  pose proof H0 as (_ & _ & Hempty & _).
  destruct (run_punctual w0 ls w (initial_slots_inv _ H0)) as [Hw Hok]; [|done|].
  { right. intros i x. by rewrite Hempty. }
  destruct Hok as [(tid & th & Hth & Hn)|Hok].
  - right. destruct (notify_comes w tid th Hth Hn) as (ls' & w' & Hr' & Hf & He).
    assert (waiters w' !! wid = Some (set_phase (WWaiting true timer) wt)) as Hw'.
    { rewrite He, lookup_fmap, Hwt. simpl. unfold notified. by rewrite Hph. }
    exists tid, th, ls', w'. do 5 (split; [done|]). simpl. unfold loop_wake. by rewrite Hw'.
  - left. pose proof (try_reserve_spec (gate w) s (w_sticky wt) (now w)) as Hspec. rewrite Htry in Hspec.
    destruct Hspec as (-> & Hfull & Hga & _).
    specialize (Hok wid wt Hwt s Hs). rewrite Hph in Hok.
    cbn [sstep]. unfold loop_wake. rewrite Hwt. cbn [mbind option_bind]. rewrite Hph.
    destruct flag; [done|]. destruct Hok as [|[Hg Ha]]; [done|]. destruct Hga as [|[Hal Hel]]; [done|].
    destruct Ha as [Ha|(d & -> & Hd)]; [congruence|]. simpl.
    pose proof (so_last _ _ _ (si_supplier w Hw _ s Hs)) as Hlast. unfold elapsed in Hel.
    destruct (decide (d <= now w)) as [Hdue|Hnot]; [by rewrite bool_decide_eq_true_2|].
    exfalso. lia.
Qed.

(** A future waits for the JVM's mask, and the JVM's thread has stored it and not notified yet. *)
Definition between_schedule : list action :=
  [ATick 100; AReserve 1 2 false; AEnable 1; ATry 1 9; APark 1; AUpdate 1 15; AGate 1].
Definition between_state : World := default sample_slots (fst <$> exec sstep sample_slots between_schedule).

Lemma between_punctual :
  run punctual_step sample_slots (default [] (snd <$> exec sstep sample_slots between_schedule)) between_state.
Proof.
  assert (exec sstep (set_now 100 sample_slots) (tail between_schedule) =
    Some (between_state, tail (default [] (snd <$> exec sstep sample_slots between_schedule)))) as He
    by (vm_compute; reflexivity).
  apply (run_app punctual_step _ [(ATick 100, [])] (set_now 100 sample_slots)).
  - apply run_one. split; [vm_compute; reflexivity|]. intros _ wid wt flag Hwt. done.
  - apply (exec_punctual _ _ _ _ He). repeat constructor.
Qed.

Lemma no_admission_is_lost_witness :
  let wt := {| w_supplier := 2; w_kind := 1; w_sticky := false; w_phase := WWaiting false None |} in
  sstep between_state (AWake 1) = None /\
  exists tid th ls' w', gate_calls between_state !! tid = Some th /\ Notify ∈ todo th /\
    run slots_step between_state ls' w' /\ Forall (fun l => l.1 = AGate tid) ls' /\
    waiters w' !! 1%positive = Some (set_phase (WWaiting true None) wt) /\
    sstep w' (AWake 1) = Some (move_waiter 1 (set_phase (WWaiting true None) wt) WStart w', []).
Proof.
  intros wt. assert (sstep between_state (AWake 1) = None) as Hno by (vm_compute; reflexivity).
  split; [exact Hno|].
  destruct (no_admission_is_lost sample_slots _ between_state 1 wt false None
    (supplier 0 2 100 1 false 0) sample_slots_initial between_punctual) as [H|H];
    [vm_compute; reflexivity|reflexivity|vm_compute; reflexivity|vm_compute; eauto|congruence|exact H].
Defined.

(** The schedule in which the ramp expires between the refusal and the wait. *)
Definition race_schedule : list action :=
  [AUpdate 1 15; AGate 1; AGate 1; AReserve 1 2 false; AEnable 1; ATick 99; ATry 1 9; ATick 1; APark 1].
Definition race_state : World := default sample_slots (fst <$> exec sstep sample_slots race_schedule).

(** The bound on [no_admission_is_lost] is real.  [reserve_slot] reads the clock a second time to
    compute its wait; if the ramp expires between the two reads the wait is zero, the sleep branch
    of the [select!] is disabled, and a future that could be granted its slot now sleeps on, however
    much time passes, until a permit is dropped or the JVM next updates the mask. *)
Theorem ramp_expiry_race :
  exists ls wt s, run slots_step sample_slots ls race_state /\
    waiters race_state !! 1%positive = Some wt /\ suppliers race_state !! w_supplier wt = Some s /\
    is_Some (try_reserve_slot (gate race_state) s (w_sticky wt) (now race_state)) /\
    forall d, 0 <= d -> exists w', sstep race_state (ATick d) = Some (w', []) /\
      sstep w' (AWake 1) = None.
Proof.
  eexists _, _, _. split; [apply (exec_runs sstep sample_slots race_schedule); vm_compute; reflexivity|].
  split; [vm_compute; reflexivity|]. split; [vm_compute; reflexivity|].
  split; [vm_compute; eauto|]. intros d Hd. eexists. split.
  - cbn [sstep]. by rewrite decide_True.
  - vm_compute. reflexivity.
Qed.
