(* ===== verification/Worker.v ===== *)
(** Worker lifecycle ([worker.rs], lines 32 to 286 and 619 to 768).

    [pump_loop] is a pump as a function of what Core's polls return.  A [World] is one worker: its
    [WorkerState], the pumps that run, the calls that hold a clone of the [Arc] around Core's
    worker ([users]), and the [shutdown] calls, a background finalizer included.  A stretch of code
    under the state mutex, or between two awaits, is one transition; deadlines are the
    environment's, so a step that looks at one is told whether it has passed.  Core's worker is
    shared by exactly [strong_count] owners, which is what [Arc::try_unwrap] observes.  A [shutdown]
    runs in a request's task, which may drop it at any of its awaits ([WCancel]); the background
    finalizer is a task of its own, and nothing cancels it. *)

From S2P Require Import Prelude Abi KtError Panic Handle Queue Runtime.

(** ** Pumps *)

Inductive TaskKind := WorkflowActivation | Activity | Nexus.

#[export] Instance TaskKind_eq_dec : EqDecision TaskKind.
Proof. solve_decision. Defined.

(** [kind as u64]. *)
Definition task_kind_code (k : TaskKind) : Z :=
  match k with WorkflowActivation => 0 | Activity => 1 | Nexus => 2 end.

Definition completion_kind (k : TaskKind) : KtKind :=
  match k with
  | WorkflowActivation => TaskWorkflowActivation
  | Activity => TaskActivity
  | Nexus => TaskNexus
  end.

(** What one poll of Core gives: an encoded task, the end of the stream, another error, or a
    panic that unwinds to [catch_unwind]. *)
Inductive polled :=
| PolledTask (bytes : list byte)
| PolledShutDown
| PolledErr (text : string)
| PolledPanic (payload : panic_payload).

(** What a pump does to the rest: a push, or [core.initiate_shutdown()]. *)
Inductive pump_effect :=
| Push (p : Pending)
| Initiate.

Section pump.
Context (kind : TaskKind) (worker_handle : Z).

(** [.aux0(worker_handle).aux1(kind as u64)]. *)
Definition from_worker (p : Pending) : Pending :=
  with_aux1 (task_kind_code kind) (with_aux0 worker_handle p).

Definition task_event (bytes : list byte) : Pending :=
  from_worker (with_payload bytes (with_kind (completion_kind kind) (pending_ack PUSHED))).
Definition stream_end : Pending := from_worker (with_kind TaskStreamEnd (pending_ack PUSHED)).
Definition worker_failed (status : Z) (message : string) : Pending :=
  from_worker (with_kind WorkerFailed (pending_error PUSHED status message)).

(** One iteration: what it does, in order, and [reported] if the loop goes on. *)
Definition pump_poll (reported : bool) (r : polled) : list pump_effect * option bool :=
  match r with
  | PolledTask bytes => ([Push (task_event bytes)], Some reported)
  | PolledShutDown => ([Push stream_end], None)
  | PolledErr text =>
      if reported then ([], Some true)
      else ([Initiate; Push (worker_failed KT_ERR_FAILED text)], Some true)
  | PolledPanic payload =>
      ([Push (worker_failed KT_ERR_PANIC ("worker poll panic: " +:+ panic_message payload));
        Push stream_end; Initiate], None)
  end.

(** The loop on the results Core gives, in order: everything it does, and whether it has ended. *)
Fixpoint pump_loop (reported : bool) (rs : list polled) : list pump_effect * bool :=
  match rs with
  | [] => ([], false)
  | r :: rest =>
      match pump_poll reported r with
      | (es, Some reported') =>
          let '(es', ended) := pump_loop reported' rest in (es ++ es', ended)
      | (es, None) => (es, true)
      end
  end.
End pump.

(** ** The worker *)

Inductive WorkerState :=
| WRunning (started : bool)
| WDraining
| WFinalized.

#[export] Instance WorkerState_eq_dec : EqDecision WorkerState.
Proof. solve_decision. Defined.

(** A pump's task: polling; its [core] dropped and its count not yet given back. *)
Inductive pump_phase :=
| Pumping (reported : bool)
| Leaving.

Record Pump := { pump_kind : TaskKind; pump_phase_of : pump_phase; aborted : bool }.

(** Where a call of [shutdown], or its background finalizer ([background]), stands: waiting for the
    lock, done with an unstarted worker, waiting for the pumps, waiting to be the last owner, waiting
    for Core's own end. *)
Inductive call_phase :=
| Queued
| Unstarted
| Awaiting
| Finalizing (background : bool)
| Closing (background : bool)
| BgAwaiting
| BgQueued.

#[export] Instance call_phase_eq_dec : EqDecision call_phase.
Proof. solve_decision. Defined.

(** A call holds a clone of the [Arc] around Core's worker. *)
Definition holds_core (ph : call_phase) : bool :=
  match ph with Unstarted | Awaiting | Finalizing _ => true | _ => false end.
(** It has unwrapped the [Arc], or is about to. *)
Definition ending (ph : call_phase) : bool :=
  match ph with Finalizing _ | Closing _ => true | _ => false end.
(** It has the shutdown lock. *)
Definition holds_lock (ph : call_phase) : bool := holds_core ph || ending ph.

Record World := {
  state : WorkerState;
  live_pumps : Z;
  pumps : gmap positive Pump;
  users : gset positive;
  calls : gmap positive call_phase;
  shutdown_lock : option positive;
}.

(** [WorkerEntry::new]. *)
Definition worker_new : World :=
  {| state := WRunning false; live_pumps := 0; pumps := ∅; users := ∅; calls := ∅;
     shutdown_lock := None |}.

Definition set_state (s : WorkerState) (w : World) : World :=
  {| state := s; live_pumps := live_pumps w; pumps := pumps w; users := users w;
     calls := calls w; shutdown_lock := shutdown_lock w |}.
Definition set_live (n : Z) (w : World) : World :=
  {| state := state w; live_pumps := n; pumps := pumps w; users := users w;
     calls := calls w; shutdown_lock := shutdown_lock w |}.
Definition set_pumps (m : gmap positive Pump) (w : World) : World :=
  {| state := state w; live_pumps := live_pumps w; pumps := m; users := users w;
     calls := calls w; shutdown_lock := shutdown_lock w |}.
Definition set_users (u : gset positive) (w : World) : World :=
  {| state := state w; live_pumps := live_pumps w; pumps := pumps w; users := u;
     calls := calls w; shutdown_lock := shutdown_lock w |}.
Definition set_call (tid : positive) (ph : call_phase) (w : World) : World :=
  {| state := state w; live_pumps := live_pumps w; pumps := pumps w; users := users w;
     calls := <[tid := ph]> (calls w); shutdown_lock := shutdown_lock w |}.
Definition end_call (tid : positive) (w : World) : World :=
  {| state := state w; live_pumps := live_pumps w; pumps := pumps w; users := users w;
     calls := delete tid (calls w); shutdown_lock := shutdown_lock w |}.
Definition set_lock (l : option positive) (w : World) : World :=
  {| state := state w; live_pumps := live_pumps w; pumps := pumps w; users := users w;
     calls := calls w; shutdown_lock := l |}.

(** A call returns: its clone of Core and its lock guard drop with it. *)
Definition return_call (tid : positive) (w : World) : World := set_lock None (end_call tid w).

(** [WorkerEntry::core]. *)
Definition core (w : World) : KtResult unit :=
  match state w with
  | WRunning _ | WDraining => Ok tt
  | WFinalized => Err WorkerShutDown
  end.

(** The owners of the [Arc] around Core's worker. *)
Definition strong_count (w : World) : nat :=
  ((if decide (state w = WFinalized) then 0 else 1)
   + mcount (fun p => match pump_phase_of p with Pumping _ => true | Leaving => false end = true) (pumps w)
   + size (users w)
   + mcount (fun ph => holds_core ph = true) (calls w))%nat.

Inductive event :=
| EvStarted (r : KtResult unit)
| EvPushed (p : Pending)
| EvInitiate
| EvFinalize
| EvFinalized
| EvAbandoned
| EvReturned (tid : positive) (r : result string unit)
| EvCore (tid : positive) (r : KtResult unit).

#[export] Instance event_eq_dec : EqDecision event.
Proof. solve_decision. Defined.

Inductive action :=
| WStart
| WFree
| WUse (tid : positive)
| WRelease (tid : positive)
| WPoll (id : positive) (worker_handle : Z) (r : polled)
| WDrop (id : positive)
| WLeave (id : positive)
| WShutdown (tid : positive)
| WLock (tid : positive)
| WFinishUnstarted (tid : positive)
| WAwait (tid bg : positive) (expired : bool)
| WTryFinalize (tid : positive) (expired : bool)
| WClosed (tid : positive)
| WBgWake (tid : positive)
| WCancel (tid : positive).

Definition pump_new (k : TaskKind) : Pump :=
  {| pump_kind := k; pump_phase_of := Pumping false; aborted := false |}.

(** The three pumps [start] spawns, in its order. *)
Definition three_pumps : gmap positive Pump :=
  {[ 1%positive := pump_new WorkflowActivation; 2%positive := pump_new Activity;
     3%positive := pump_new Nexus ]}.

(** [start]. *)
Definition start (w : World) : World * KtResult unit :=
  match state w with
  | WRunning true => (w, Ok tt)
  | WRunning false => (set_pumps three_pumps (set_live 3 (set_state (WRunning true) w)), Ok tt)
  | WDraining | WFinalized => (w, Err WorkerShutDown)
  end.

Definition abort (p : Pump) : Pump :=
  {| pump_kind := pump_kind p; pump_phase_of := pump_phase_of p; aborted := true |}.

(** [free]. *)
Definition free (w : World) : World * list event :=
  (set_pumps (abort <$> pumps w) (set_state WFinalized w),
   match state w with WFinalized => [] | _ => [EvInitiate] end).

Definition effect_event (e : pump_effect) : event :=
  match e with Push p => EvPushed p | Initiate => EvInitiate end.

(** A poll of Core returns to a pump; after the last one its [core] drops, before its count. *)
Definition pump_step (w : World) (id : positive) (worker_handle : Z) (r : polled) :
    option (World * list event) :=
  p ← pumps w !! id;
  match pump_phase_of p with
  | Pumping reported =>
      let '(es, next) := pump_poll (pump_kind p) worker_handle reported r in
      let ph := match next with Some reported' => Pumping reported' | None => Leaving end in
      Some (set_pumps (<[id := {| pump_kind := pump_kind p; pump_phase_of := ph;
                                  aborted := aborted p |}]> (pumps w)) w,
            effect_event <$> es)
  | Leaving => None
  end.

(** An aborted pump is dropped at an await: its [core] first. *)
Definition pump_drop (w : World) (id : positive) : option (World * list event) :=
  p ← pumps w !! id;
  match pump_phase_of p, aborted p with
  | Pumping _, true =>
      Some (set_pumps (<[id := {| pump_kind := pump_kind p; pump_phase_of := Leaving;
                                  aborted := true |}]> (pumps w)) w, [])
  | _, _ => None
  end.

(** [Drop for Leaving]. *)
Definition pump_leave (w : World) (id : positive) : option (World * list event) :=
  p ← pumps w !! id;
  match pump_phase_of p with
  | Leaving => Some (set_live (wrap USIZE_BITS (live_pumps w - 1)) (set_pumps (delete id (pumps w)) w), [])
  | _ => None
  end.

(** [shutdown] once it has the lock, or the background task once it has it. *)
Definition shutdown_locked (w : World) (tid : positive) : option (World * list event) :=
  ph ← calls w !! tid;
  if decide (shutdown_lock w = None) then
    let w := set_lock (Some tid) w in
    match ph with
    | Queued =>
        match state w with
        | WRunning started =>
            Some (set_call tid (if started then Awaiting else Unstarted) (set_state WDraining w),
                  [EvInitiate])
        | WDraining => Some (set_call tid Awaiting w, [EvInitiate])
        | WFinalized => Some (return_call tid w, [EvReturned tid (Ok tt)])
        end
    | BgQueued =>
        match core w with
        | Ok _ => Some (set_call tid (Finalizing true) (set_state WFinalized w), [])
        | Err _ => Some (return_call tid w, [])
        end
    | _ => None
    end
  else None.

(** No pump was ever spawned: nothing to wait for, and Core's worker just drops. *)
Definition finish_unstarted (w : World) (tid : positive) : option (World * list event) :=
  if decide (calls w !! tid = Some Unstarted) then
    Some (return_call tid (set_state WFinalized w), [EvReturned tid (Ok tt)])
  else None.

Definition grace_expired : string := "shut down before every poll stream reported ShutDown".
Definition still_referenced : string := "worker still referenced elsewhere; not finalized".

(** One pass of the wait for the pumps, and what follows it; [bg] is the background task's name. *)
Definition await_pumps (w : World) (tid bg : positive) (expired : bool) :
    option (World * list event) :=
  if decide (calls w !! tid = Some Awaiting) then
    if decide (0 < live_pumps w) then
      if expired then
        if decide (calls w !! bg = None) then
          Some (set_call bg BgAwaiting (return_call tid w), [EvReturned tid (Err grace_expired)])
        else None
      else Some (w, [])
    else if decide (state w = WFinalized) then
      Some (return_call tid w, [EvReturned tid (Ok tt)])
    else Some (set_call tid (Finalizing false) (set_state WFinalized w), [])
  else None.

(** Nobody is told the background finalizer's result. *)
Definition told (background : bool) (tid : positive) (r : result string unit) : list event :=
  if background then [] else [EvReturned tid r].

(** One pass of [finalize]'s loop; the last owner goes on to [finalize_shutdown().await]. *)
Definition try_finalize (w : World) (tid : positive) (expired : bool) :
    option (World * list event) :=
  match calls w !! tid with
  | Some (Finalizing bg) =>
      if decide (strong_count w = 1%nat) then Some (set_call tid (Closing bg) w, [EvFinalize])
      else if expired then
        Some (return_call tid (set_state WDraining w), told bg tid (Err still_referenced))
      else Some (w, [])
  | _ => None
  end.

(** [finalize_shutdown] is done. *)
Definition closed (w : World) (tid : positive) : option (World * list event) :=
  match calls w !! tid with
  | Some (Closing bg) => Some (return_call tid w, EvFinalized :: told bg tid (Ok tt))
  | _ => None
  end.

(** The future of a [shutdown] request is dropped at one of its awaits, with what it holds. *)
Definition cancel_call (w : World) (tid : positive) : option (World * list event) :=
  match calls w !! tid with
  | Some Queued => Some (end_call tid w, [])
  | Some Awaiting => Some (return_call tid w, [])
  | Some (Finalizing false) | Some (Closing false) => Some (return_call tid w, [EvAbandoned])
  | _ => None
  end.

Definition wstep (w : World) (a : action) : option (World * list event) :=
  match a with
  | WStart => let '(w', r) := start w in Some (w', [EvStarted r])
  | WFree => Some (free w)
  | WUse tid =>
      if decide (tid ∈ users w) then None
      else match core w with
           | Ok _ => Some (set_users ({[ tid ]} ∪ users w) w, [EvCore tid (Ok tt)])
           | Err e => Some (w, [EvCore tid (Err e)])
           end
  | WRelease tid =>
      if decide (tid ∈ users w) then Some (set_users (users w ∖ {[ tid ]}) w, []) else None
  | WPoll id worker_handle r => pump_step w id worker_handle r
  | WDrop id => pump_drop w id
  | WLeave id => pump_leave w id
  | WShutdown tid =>
      if decide (calls w !! tid = None) then Some (set_call tid Queued w, []) else None
  | WLock tid => shutdown_locked w tid
  | WFinishUnstarted tid => finish_unstarted w tid
  | WAwait tid bg expired => await_pumps w tid bg expired
  | WTryFinalize tid expired => try_finalize w tid expired
  | WClosed tid => closed w tid
  | WBgWake tid =>
      if decide (calls w !! tid = Some BgAwaiting /\ live_pumps w <= 0) then
        Some (set_call tid BgQueued w, [])
      else None
  | WCancel tid => cancel_call w tid
  end.

(** ** Specification *)

Definition worker_step (w : World) (l : action * list event) (w' : World) : Prop :=
  wstep w l.1 = Some (w', l.2).

Definition wevents (ls : list (action * list event)) : list event := ls ≫= snd.
Definition finalizations (evs : list event) : nat := count (fun e => match e with EvFinalize => true | _ => false end = true) evs.

(** A reason for the worker to be finalized: Core finished, it was freed, it never started, or a
    request that was finalizing it was cancelled. *)
Definition ended (ls : list (action * list event)) : Prop :=
  EvFinalized ∈ wevents ls \/ WFree ∈ ls.*1 \/ (exists tid, WFinishUnstarted tid ∈ ls.*1) \/
  EvAbandoned ∈ wevents ls.

Record worker_inv (w : World) : Prop := {
  wi_live : live_pumps w = Z.of_nat (size (pumps w));
  wi_bound : (size (pumps w) <= 3)%nat;
  wi_lock tid : shutdown_lock w = Some tid <->
    exists ph, calls w !! tid = Some ph /\ holds_lock ph = true;
  wi_unstarted : state w = WRunning false -> pumps w = ∅;
  wi_running s tid ph : state w = WRunning s -> calls w !! tid = Some ph ->
    ph = Queued;
  wi_call tid ph : calls w !! tid = Some ph ->
    match ph with
    | Unstarted | BgQueued => pumps w = ∅
    | Finalizing _ | Closing _ => pumps w = ∅ /\ state w = WFinalized
    | _ => True
    end;
}.

(** ** Lemmas *)

(** What every push of a pump carries. *)
Definition from_pump (kind : TaskKind) (h : Z) (e : pump_effect) : Prop :=
  match e with
  | Push p => p_req_id p = PUSHED /\ p_aux0 p = h /\ p_aux1 p = task_kind_code kind /\
              owned_handle p = None
  | Initiate => True
  end.

Lemma pump_poll_pushes kind h reported r :
  Forall (from_pump kind h) (pump_poll kind h reported r).1.
Proof.
  assert (Hev : forall p, p_req_id p = PUSHED -> owned_kind (p_kind p) = None ->
    from_pump kind h (Push (from_worker kind h p))).
  { intros p Hr Hk. split_and!; try done. unfold owned_handle. case_decide; [done|].
    unfold from_worker, with_aux0, with_aux1. cbn [p_kind]. by rewrite Hk. }
  destruct r, reported; cbn; repeat constructor; apply Hev; try done; by destruct kind.
Qed.

Lemma holds_call w tid ph :
  worker_inv w -> calls w !! tid = Some ph -> holds_lock ph = true -> shutdown_lock w = Some tid.
Proof. intros Hw Hc Hh. apply (wi_lock w Hw). eauto. Qed.

Lemma ending_holds w tid ph :
  worker_inv w -> calls w !! tid = Some ph -> ending ph = true -> shutdown_lock w = Some tid.
Proof.
  intros Hw Hc He. apply (holds_call w tid ph Hw Hc). unfold holds_lock. rewrite He. by destruct (holds_core ph).
Qed.

(** A call that ends the worker finds it invalidated and without pumps. *)
Lemma ending_call w tid ph :
  worker_inv w -> calls w !! tid = Some ph -> ending ph = true -> pumps w = ∅ /\ state w = WFinalized.
Proof. intros Hw Hc He. pose proof (wi_call w Hw tid ph Hc). by destruct ph. Qed.

Lemma pumps_empty w : worker_inv w -> ~ 0 < live_pumps w -> pumps w = ∅.
Proof.
  intros Hw Hl. rewrite (wi_live w Hw) in Hl. apply map_size_empty_inv. lia.
Qed.

(** A pump changes its phase. *)
Lemma set_pump_inv w id p p' :
  worker_inv w -> pumps w !! id = Some p -> worker_inv (set_pumps (<[id := p']> (pumps w)) w).
Proof.
  intros Hw Hp. assert (pumps w <> ∅) as Hne.
  { intros He. by rewrite He in Hp. }
  assert (size (<[id := p']> (pumps w)) = size (pumps w)) as Hs by (by rewrite map_size_insert_Some).
  destruct Hw as [H1 H2 H3 H4 H5 H6]. split; simpl; rewrite ?Hs; try done.
  - intros He. by apply H4 in He.
  - intros tid ph Hc. specialize (H6 tid ph Hc). destruct ph; naive_solver.
Qed.

Lemma pump_leave_inv w id w' evs :
  worker_inv w -> pump_leave w id = Some (w', evs) -> worker_inv w'.
Proof.
  intros Hw. unfold pump_leave. destruct (pumps w !! id) as [p|] eqn:Hp; [|done].
  cbn [mbind option_bind]. destruct (pump_phase_of p); [done|]. intros [= <- <-].
  assert (pumps w <> ∅) as Hne by (intros He; by rewrite He in Hp).
  assert (size (pumps w) = S (size (delete id (pumps w)))) as Hs.
  { rewrite map_size_delete, Hp. destruct (size (pumps w)) eqn:E; [|lia].
    by apply map_size_empty_inv in E. }
  destruct Hw as [H1 H2 H3 H4 H5 H6]. split; simpl; try done.
  - rewrite H1, Hs. unfold USIZE_BITS. rewrite wrap_small; [lia|]. unfold fits. lia.
  - lia.
  - intros He. by apply H4 in He.
  - intros tid ph Hc. specialize (H6 tid ph Hc). destruct ph; naive_solver.
Qed.

Lemma calls_update w tid ph (l : option positive) :
  worker_inv w ->
  (if holds_lock ph then shutdown_lock w = None \/ shutdown_lock w = Some tid
   else shutdown_lock w <> Some tid) ->
  l = (if holds_lock ph then Some tid else shutdown_lock w) ->
  forall i, l = Some i <-> exists x, <[tid := ph]> (calls w) !! i = Some x /\ holds_lock x = true.
Proof.
  intros Hw Hl -> i. rewrite lookup_insert. destruct (decide (tid = i)) as [<-|Hi].
  - destruct (holds_lock ph) eqn:Hh; [by split; eauto|].
    split; [done|]. intros (x & [= <-] & Hx). congruence.
  - destruct (holds_lock ph) eqn:Hh; [|apply (wi_lock w Hw)].
    split; [congruence|]. intros Hx. apply (wi_lock w Hw) in Hx. destruct Hl; congruence.
Qed.

(** A call moves on; it may take the lock, and change the state. *)
Lemma set_call_inv w tid ph s l :
  worker_inv w ->
  (if holds_lock ph then shutdown_lock w = None \/ shutdown_lock w = Some tid
   else shutdown_lock w <> Some tid) ->
  l = (if holds_lock ph then Some tid else shutdown_lock w) ->
  match s with
  | WRunning b => s = state w /\ ph = Queued
  | _ => True
  end ->
  match ph with
  | Unstarted | BgQueued => pumps w = ∅
  | Finalizing _ | Closing _ => pumps w = ∅ /\ s = WFinalized
  | _ => True
  end ->
  (forall i x, calls w !! i = Some x -> ending x = true -> i <> tid -> s = WFinalized) ->
  worker_inv (set_lock l (set_call tid ph (set_state s w))).
Proof.
  intros Hw Hl Heq Hs Hph Hfin. pose proof (calls_update w tid ph l Hw Hl Heq) as Hlock.
  pose proof (wi_live w Hw). pose proof (wi_bound w Hw). split; simpl; try done.
  - intros ->. destruct Hs as [Hs _]. by apply (wi_unstarted w Hw).
  - intros b i x -> . destruct Hs as [Hs ->]. rewrite lookup_insert. case_decide; [by intros [= <-]|].
    by apply (wi_running w Hw b i).
  - intros i x. rewrite lookup_insert. case_decide as Hi; [by intros [= <-]|].
    intros Hx. pose proof (wi_call w Hw i x Hx) as Hc. destruct x; try done.
    all: destruct Hc; split; [done|]; by eapply Hfin.
Qed.

Lemma return_call_inv w tid s :
  worker_inv w -> shutdown_lock w = None \/ shutdown_lock w = Some tid ->
  match s with WRunning _ => False | _ => True end ->
  worker_inv (return_call tid (set_state s w)).
Proof.
  intros Hw Hl Hs. pose proof (wi_live w Hw). pose proof (wi_bound w Hw).
  assert (Hno : forall i ph, delete tid (calls w) !! i = Some ph -> holds_lock ph = false).
  { intros i ph [Hi Hp]%lookup_delete_Some. destruct (holds_lock ph) eqn:Hh; [|done].
    pose proof (holds_call w i ph Hw Hp Hh). naive_solver. }
  split; simpl; try done.
  - intros i. split; [done|]. intros (ph & Hp & Hh). apply Hno in Hp. congruence.
  - intros ->. done.
  - intros b i ph ->. done.
  - intros i ph Hp. pose proof (Hno i ph Hp) as Hh.
    apply lookup_delete_Some in Hp as [_ Hp]. pose proof (wi_call w Hw i ph Hp). by destruct ph.
Qed.

Lemma set_state_same w : set_state (state w) w = w.
Proof. by destruct w. Qed.
Lemma set_lock_same w : set_lock (shutdown_lock w) w = w.
Proof. by destruct w. Qed.

Lemma start_inv w : worker_inv w -> worker_inv (start w).1.
Proof.
  intros Hw. unfold start. destruct (state w) as [[]| |] eqn:Hs; try done.
  destruct Hw as [H1 H2 H3 H4 H5 H6]. split; simpl; try done.
  - intros s tid ph [= <-] Hc. by apply (H5 false tid).
  - intros tid ph Hc. rewrite (H5 false tid ph Hs Hc). done.
Qed.

Lemma free_inv w : worker_inv w -> worker_inv (free w).1.
Proof.
  intros [H1 H2 H3 H4 H5 H6]. split; simpl; rewrite ?map_size_fmap; try done.
  intros tid ph Hc. specialize (H6 tid ph Hc). destruct ph; try done.
  all: by first [rewrite H6|destruct H6 as [-> _]].
Qed.

Lemma shutdown_locked_inv w tid w' evs :
  worker_inv w -> shutdown_locked w tid = Some (w', evs) -> worker_inv w'.
Proof.
  intros Hw. unfold shutdown_locked. destruct (calls w !! tid) as [ph|] eqn:Hc; [|done].
  cbn [mbind option_bind]. case_decide as Hlock; [|done].
  assert (Hnofin : forall i x, calls w !! i = Some x -> ending x = true -> i <> tid -> WDraining = WFinalized).
  { intros i x Hi Hx. pose proof (ending_holds w i x Hw Hi Hx). congruence. }
  assert (Hret : forall s, match s with WRunning _ => False | _ => True end ->
    worker_inv (return_call tid (set_state s (set_lock (Some tid) w)))).
  { intros s Hs. apply (return_call_inv w tid s); auto. }
  destruct ph; try done.
  - cbn [set_lock state]. destruct (state w) as [started| |] eqn:Hs; intros [= <- <-].
    + destruct started; [by apply (set_call_inv w tid Awaiting WDraining (Some tid)); simpl; auto|].
      apply (set_call_inv w tid Unstarted WDraining (Some tid)); simpl; auto. by apply (wi_unstarted w Hw).
    + rewrite <- (set_state_same (set_lock _ w)). cbn [state set_lock]. rewrite Hs.
      by apply (set_call_inv w tid Awaiting WDraining (Some tid)); simpl; auto.
    + rewrite <- (set_state_same (set_lock _ w)). cbn [state set_lock]. rewrite Hs. by apply Hret.
  - unfold core. cbn [set_lock state].
    destruct (state w) as [started| |] eqn:Hs; intros [= <- <-].
    + pose proof (wi_running w Hw started tid BgQueued Hs Hc). done.
    + apply (set_call_inv w tid (Finalizing true) WFinalized (Some tid)); simpl; auto. split; [|done].
      exact (wi_call w Hw tid BgQueued Hc).
    + rewrite <- (set_state_same (set_lock _ w)). cbn [state set_lock]. rewrite Hs. by apply Hret.
Qed.

Lemma await_pumps_inv w tid bg expired w' evs :
  worker_inv w -> await_pumps w tid bg expired = Some (w', evs) -> worker_inv w'.
Proof.
  intros Hw. unfold await_pumps. case_decide as Hc; [|done].
  pose proof (holds_call w tid Awaiting Hw Hc eq_refl) as Hlock.
  assert (Hstate : match state w with WRunning _ => False | _ => True end).
  { destruct (state w) as [s| |] eqn:Hs; try done. by pose proof (wi_running w Hw s tid _ Hs Hc). }
  case_decide as Hlive.
  - destruct expired; [|by intros [= <- <-]]. case_decide as Hbg; [|done]. intros [= <- <-].
    pose proof (return_call_inv w tid (state w) Hw (or_intror Hlock) Hstate) as Hr.
    rewrite set_state_same in Hr.
    rewrite <- (set_state_same (return_call tid w)), <- (set_lock_same (set_call bg _ _)).
    apply (set_call_inv (return_call tid w) bg BgAwaiting (state w) None); simpl; auto.
    + destruct (state w); done.
    + intros i x [Hi Hf]%lookup_delete_Some Hx _.
      pose proof (ending_holds w i x Hw Hf Hx). congruence.
  - case_decide as Hs; intros [= <- <-].
    + rewrite <- (set_state_same w). apply return_call_inv; auto.
    + rewrite <- (set_lock_same (set_call _ _ _)).
      apply (set_call_inv w tid (Finalizing false) WFinalized (shutdown_lock w)); simpl; auto.
      split; [|done]. by apply pumps_empty.
Qed.

Lemma set_users_inv w u : worker_inv w -> worker_inv (set_users u w).
Proof. intros [H1 H2 H3 H4 H5 H6]. by split. Qed.

Lemma cancel_call_inv w tid w' evs :
  worker_inv w -> cancel_call w tid = Some (w', evs) -> worker_inv w'.
Proof.
  intros Hw. unfold cancel_call. destruct (calls w !! tid) as [ph|] eqn:Hc; [|done].
  assert (Hret : holds_lock ph = true -> worker_inv (return_call tid w)).
  { intros Hh. rewrite <- (set_state_same w). apply return_call_inv; [done| |].
    - right. by apply (holds_call w tid ph).
    - destruct (state w) as [s| |] eqn:Hs; [|done..]. pose proof (wi_running w Hw s tid ph Hs Hc).
      by subst ph. }
  destruct ph as [| | |[]|[]| |]; intros; simplify_eq; auto.
  destruct Hw as [H1 H2 H3 H4 H5 H6]. split; simpl; try done.
  - intros i. rewrite H3. split; intros (x & Hx & Hh); exists x; (split; [|done]).
    + rewrite lookup_delete_ne; [done|]. intros <-. by simplify_eq.
    + by apply lookup_delete_Some in Hx as [_ Hx].
  - intros b i x Hb [_ Hx]%lookup_delete_Some. by apply (H5 b i).
  - intros i x [_ Hx]%lookup_delete_Some. by apply (H6 i).
Qed.

Lemma wstep_inv w l w' : worker_inv w -> worker_step w l w' -> worker_inv w'.
Proof.
  destruct l as [a evs]. intros Hw Hs. unfold worker_step in Hs. cbn [fst snd] in Hs.
  destruct a; cbn [wstep] in Hs.
  - pose proof (start_inv w Hw) as Hi. destruct (start w). by simplify_eq.
  - pose proof (free_inv w Hw) as Hi. unfold free in *. by simplify_eq.
  - case_decide; [done|]. destruct (core w); simplify_eq; [by apply set_users_inv|done].
  - case_decide; [|done]. simplify_eq. by apply set_users_inv.
  - unfold pump_step in Hs. destruct (pumps w !! id) as [p|] eqn:Hp; [|done].
    cbn [mbind option_bind] in Hs. destruct (pump_phase_of p); [|done].
    destruct (pump_poll _ _ _ _) as [es next]. simplify_eq. by eapply set_pump_inv.
  - unfold pump_drop in Hs. destruct (pumps w !! id) as [p|] eqn:Hp; [|done].
    cbn [mbind option_bind] in Hs. destruct (pump_phase_of p), (aborted p); simplify_eq.
    by eapply set_pump_inv.
  - by eapply pump_leave_inv.
  - case_decide as Hc; [|done]. simplify_eq.
    rewrite <- (set_state_same w), <- (set_lock_same (set_call _ _ _)).
    apply (set_call_inv w tid Queued (state w) (shutdown_lock w)); simpl; auto.
    + intros Hl. apply (wi_lock w Hw) in Hl as (ph & Hph & _). congruence.
    + destruct (state w); auto.
    + intros i x Hi Hx _. by destruct (ending_call w i x Hw Hi Hx).
  - by eapply shutdown_locked_inv.
  - unfold finish_unstarted in Hs. case_decide as Hc; [|done]. simplify_eq.
    apply return_call_inv; [done|right; by eapply holds_call|done].
  - by eapply await_pumps_inv.
  - unfold try_finalize in Hs. destruct (calls w !! tid) as [[]|] eqn:Hc; try done.
    pose proof (ending_holds w tid _ Hw Hc eq_refl) as Hlock.
    destruct (ending_call w tid _ Hw Hc eq_refl) as [Hp Hst].
    case_decide; [|destruct expired]; simplify_eq; [|by apply return_call_inv; auto|done].
    rewrite <- (set_state_same w), <- (set_lock_same (set_call _ _ _)).
    apply (set_call_inv w tid (Closing background) (state w) (shutdown_lock w)); simpl; rewrite ?Hst; auto.
  - unfold closed in Hs. destruct (calls w !! tid) as [[]|] eqn:Hc; try done. simplify_eq.
    pose proof (ending_holds w tid _ Hw Hc eq_refl) as Hlock.
    destruct (ending_call w tid _ Hw Hc eq_refl) as [Hp Hst].
    rewrite <- (set_state_same w). apply return_call_inv; auto. by rewrite Hst.
  - case_decide as Hc; [|done]. destruct Hc as [Hc Hl]. simplify_eq.
    assert (Hstate : match state w with WRunning _ => False | _ => True end).
    { destruct (state w) as [s| |] eqn:Hs; try done. by pose proof (wi_running w Hw s tid _ Hs Hc). }
    rewrite <- (set_state_same w), <- (set_lock_same (set_call _ _ _)).
    apply (set_call_inv w tid BgQueued (state w) (shutdown_lock w)); simpl; auto.
    + intros Hlk. apply (wi_lock w Hw) in Hlk as (ph & Hph & Hh). by simplify_eq.
    + by destruct (state w).
    + apply pumps_empty; [done|lia].
    + intros i x Hi Hx _. by destruct (ending_call w i x Hw Hi Hx).
  - by eapply cancel_call_inv.
Qed.

Lemma worker_new_inv : worker_inv worker_new.
Proof.
  split; simpl; try done.
  - rewrite map_size_empty. lia.
  - intros tid. split; [done|]. by intros (ph & Hph & _).
Qed.

Lemma run_worker_inv w ls w' : worker_inv w -> run worker_step w ls w' -> worker_inv w'.
Proof. intros Hw Hr. induction Hr; eauto using wstep_inv. Qed.

Lemma wevents_snoc ls l : wevents (ls ++ [l]) = wevents ls ++ l.2.
Proof. unfold wevents. rewrite bind_app. simpl. by rewrite app_nil_r. Qed.

(** ** Lemmas: the last reference *)

(** Nobody has Core's worker any more. *)
Lemma no_owner w :
  strong_count w = 0%nat <->
  state w = WFinalized /\ (forall id p, pumps w !! id = Some p -> pump_phase_of p = Leaving) /\
  users w = ∅ /\ (forall tid ph, calls w !! tid = Some ph -> holds_core ph = false).
Proof.
  unfold strong_count. split.
  - intros Hz. case_decide as Hs; [|lia]. split; [done|]. split; [|split].
    + intros id p Hp. destruct (pump_phase_of p) eqn:Hph; [|done]. exfalso.
      pose proof (mcount_pos (fun p => match pump_phase_of p with Pumping _ => true | Leaving => false end = true)
        (pumps w) id p Hp) as Hm. simpl in Hm. rewrite Hph in Hm. specialize (Hm eq_refl). lia.
    + apply leibniz_equiv, size_empty_iff. lia.
    + intros tid ph Hc. destruct (holds_core ph) eqn:Hh; [|done]. exfalso.
      pose proof (mcount_pos (fun ph => holds_core ph = true) (calls w) tid ph Hc Hh). lia.
  - intros (Hs & Hp & Hu & Hc). rewrite decide_True, Hu, size_empty by done.
    rewrite !mcount_zero; [done|..].
    + intros tid ph Hph. by rewrite (Hc tid ph Hph).
    + intros id p Hid. by rewrite (Hp id p Hid).
Qed.

(** What a cancelled call leaves. *)
Lemma cancel_call_shape w tid w' evs :
  cancel_call w tid = Some (w', evs) ->
  calls w' = delete tid (calls w) /\ (evs = [] \/ evs = [EvAbandoned]) /\
  state w' = state w /\ pumps w' = pumps w /\ users w' = users w.
Proof.
  unfold cancel_call. destruct (calls w !! tid) as [[| | |[]|[]| |]|]; try done;
    intros [= <- <-]; split_and!; auto.
Qed.

Lemma no_owner_step w l w' :
  worker_inv w -> strong_count w = 0%nat -> worker_step w l w' ->
  strong_count w' = 0%nat /\ EvFinalize ∉ l.2.
Proof.
  destruct l as [a evs]. intros Hw Hz Hs. pose proof Hz as (Hst & Hp & Hu & Hc)%no_owner.
  unfold worker_step in Hs. cbn [fst snd] in *. rewrite no_owner.
  destruct a; cbn [wstep] in Hs.
  - unfold start in Hs. rewrite Hst in Hs. simplify_eq. split; [done|set_solver].
  - unfold free in Hs. rewrite Hst in Hs. simplify_eq. simpl. split; [|set_solver].
    split_and!; try done. intros id p. rewrite lookup_fmap. intros (x & Hx & ->)%fmap_Some.
    simpl. by eapply Hp.
  - case_decide; [done|]. unfold core in Hs. rewrite Hst in Hs. simplify_eq. split; [done|set_solver].
  - case_decide; [set_solver|done].
  - unfold pump_step in Hs. destruct (pumps w !! id) as [p|] eqn:Hid; [|done].
    cbn [mbind option_bind] in Hs. by rewrite (Hp id p Hid) in Hs.
  - unfold pump_drop in Hs. destruct (pumps w !! id) as [p|] eqn:Hid; [|done].
    cbn [mbind option_bind] in Hs. by rewrite (Hp id p Hid) in Hs.
  - unfold pump_leave in Hs. destruct (pumps w !! id) as [p|] eqn:Hid; [|done].
    cbn [mbind option_bind] in Hs. rewrite (Hp id p Hid) in Hs. simplify_eq.
    split; [|set_solver]. split_and!; try done. simpl. intros i x [_ Hx]%lookup_delete_Some.
    by eapply Hp.
  - case_decide; [|done]. simplify_eq. split; [|set_solver]. split_and!; try done. simpl.
    intros i x. rewrite lookup_insert. case_decide; [by intros [= <-]|]. by apply Hc.
  - unfold shutdown_locked in Hs. destruct (calls w !! tid) as [ph|] eqn:Hid; [|done].
    cbn [mbind option_bind] in Hs. case_decide; [|done]. unfold core in Hs.
    cbn [state set_lock] in Hs. rewrite Hst in Hs.
    destruct ph; simplify_eq; (split; [|set_solver]); split_and!; try done; simpl;
      intros i x [_ Hx]%lookup_delete_Some; by eapply Hc.
  - unfold finish_unstarted in Hs. case_decide as Hid; [|done]. by apply Hc in Hid.
  - unfold await_pumps in Hs. case_decide as Hid; [|done]. by apply Hc in Hid.
  - unfold try_finalize in Hs. destruct (calls w !! tid) as [[]|] eqn:Hid; try done. by apply Hc in Hid.
  - unfold closed in Hs. destruct (calls w !! tid) as [[]|] eqn:Hid; try done. simplify_eq.
    split; [|destruct background; set_solver]. split_and!; try done. simpl.
    intros i x [_ Hx]%lookup_delete_Some. by eapply Hc.
  - case_decide; [|done]. simplify_eq. split; [|set_solver]. split_and!; try done. simpl.
    intros i x. rewrite lookup_insert. case_decide; [by intros [= <-]|]. by apply Hc.
  - destruct (cancel_call_shape w tid w' evs Hs) as (Hcl & He & Hrest). split; [|destruct He as [->| ->]; set_solver].
    destruct Hrest as (-> & -> & ->). split_and!; try done. rewrite Hcl.
    intros i x [_ Hx]%lookup_delete_Some. by eapply Hc.
Qed.

(** A step that finalizes is the last owner's. *)
Lemma finalizes_alone w a evs w' :
  worker_inv w -> worker_step w (a, evs) w' -> EvFinalize ∈ evs ->
  (exists tid expired, a = WTryFinalize tid expired /\ shutdown_lock w = Some tid) /\
  evs = [EvFinalize] /\
  strong_count w = 1%nat /\ pumps w = ∅ /\ users w = ∅ /\ state w = WFinalized /\
  strong_count w' = 0%nat.
Proof.
  intros Hw Hs He. unfold worker_step in Hs. cbn [fst snd] in Hs.
  assert (Hmap : forall es : list pump_effect, EvFinalize ∉ effect_event <$> es).
  { intros es ([] & ? & _)%list_elem_of_fmap; done. }
  destruct a; cbn [wstep] in Hs.
  - destruct (start w). simplify_eq. set_solver.
  - unfold free in Hs. destruct (state w); simplify_eq; set_solver.
  - case_decide; [done|]. destruct (core w); simplify_eq; set_solver.
  - case_decide; [|done]. simplify_eq. set_solver.
  - unfold pump_step in Hs. destruct (pumps w !! id) as [p|]; [|done].
    cbn [mbind option_bind] in Hs. destruct (pump_phase_of p); [|done].
    destruct (pump_poll _ _ _ _) as [es next]. simplify_eq.
    by apply Hmap in He.
  - unfold pump_drop in Hs. destruct (pumps w !! id) as [p|]; [|done].
    cbn [mbind option_bind] in Hs. destruct (pump_phase_of p), (aborted p); simplify_eq. set_solver.
  - unfold pump_leave in Hs. destruct (pumps w !! id) as [p|]; [|done].
    cbn [mbind option_bind] in Hs. destruct (pump_phase_of p); simplify_eq. set_solver.
  - case_decide; [|done]. simplify_eq. set_solver.
  - unfold shutdown_locked in Hs. destruct (calls w !! tid) as [ph|]; [|done].
    cbn [mbind option_bind] in Hs. case_decide; [|done]. cbn [state set_lock core] in Hs.
    unfold core in Hs. cbn [state set_lock] in Hs.
    destruct ph; try done; destruct (state w); simplify_eq; set_solver.
  - unfold finish_unstarted in Hs. case_decide; simplify_eq. set_solver.
  - unfold await_pumps in Hs. repeat case_decide; try done; try destruct expired; simplify_eq; set_solver.
  - unfold try_finalize in Hs. destruct (calls w !! tid) as [[]|] eqn:Hc; try done.
    pose proof (ending_holds w tid _ Hw Hc eq_refl) as Hlock.
    destruct (ending_call w tid _ Hw Hc eq_refl) as [Hp Hst].
    case_decide as Hone; [|destruct expired; [destruct background|]; simplify_eq; set_solver].
    simplify_eq. split; [by eexists _, _|]. split; [done|].
    pose proof Hone as Hone'. unfold strong_count in Hone'. rewrite decide_True in Hone' by done.
    rewrite (mcount_delete _ (calls w) tid _ Hc), decide_True in Hone' by done.
    assert (users w = ∅) as Hu by (apply leibniz_equiv, size_empty_iff; lia).
    split_and!; try done. apply no_owner. split_and!; try done.
    + intros id p. simpl. by rewrite Hp.
    + simpl. intros i x. rewrite lookup_insert. case_decide as Hi; [by intros [= <-]|]. intros Hx.
      destruct (holds_core x) eqn:Hh; [|done]. exfalso.
      assert (delete tid (calls w) !! i = Some x) as Hd by (by rewrite lookup_delete_ne).
      pose proof (mcount_pos (fun ph => holds_core ph = true) _ i x Hd Hh). lia.
  - unfold closed in Hs. destruct (calls w !! tid) as [[]|]; try done. simplify_eq.
    destruct background; set_solver.
  - case_decide; [|done]. simplify_eq. set_solver.
  - destruct (cancel_call_shape w tid w' evs Hs) as (_ & [->| ->] & _); set_solver.
Qed.

Lemma finalizations_app k l : finalizations (k ++ l) = (finalizations k + finalizations l)%nat.
Proof. apply count_app. Qed.

Lemma finalizations_zero evs : EvFinalize ∉ evs -> finalizations evs = 0%nat.
Proof.
  induction evs as [|e evs IH]; intros Hn; [done|]. unfold finalizations in *. rewrite count_cons.
  rewrite IH by set_solver. rewrite decide_False; [done|]. destruct e; set_solver.
Qed.

(** What a run has done, as far as the end of the worker goes. *)
Record history (ls : list (action * list event)) (w : World) : Prop := {
  h_once : (finalizations (wevents ls) <= 1)%nat;
  h_gone : (0 < finalizations (wevents ls))%nat -> strong_count w = 0%nat;
  h_ended : state w = WFinalized ->
    (exists tid ph, calls w !! tid = Some ph /\ ending ph = true) \/ ended ls;
}.

Lemma ended_snoc ls l : ended ls -> ended (ls ++ [l]).
Proof. unfold ended. rewrite wevents_snoc, fmap_app. set_solver. Qed.

Lemma ended_event ls l : EvFinalized ∈ l.2 \/ EvAbandoned ∈ l.2 -> ended (ls ++ [l]).
Proof. unfold ended. rewrite wevents_snoc. set_solver. Qed.
Lemma ended_free ls evs : ended (ls ++ [(WFree, evs)]).
Proof. right; left. rewrite fmap_app. set_solver. Qed.
Lemma ended_unstarted ls tid evs : ended (ls ++ [(WFinishUnstarted tid, evs)]).
Proof. right; right; left. exists tid. rewrite fmap_app. set_solver. Qed.

(** Only one call is in a phase with the lock. *)
Lemma one_holder w i j x y :
  worker_inv w -> calls w !! i = Some x -> calls w !! j = Some y ->
  holds_lock x = true -> holds_lock y = true -> i = j.
Proof.
  intros Hw Hi Hj Hx Hy. pose proof (holds_call w i x Hw Hi Hx).
  pose proof (holds_call w j y Hw Hj Hy). congruence.
Qed.

(** The steps of no call: exports, pumps and the users of Core. *)
Definition no_call (a : action) : bool :=
  match a with
  | WStart | WUse _ | WRelease _ | WPoll _ _ _ | WDrop _ | WLeave _ => true
  | _ => false
  end.

Lemma no_call_step w a w' evs :
  wstep w a = Some (w', evs) -> no_call a = true ->
  calls w' = calls w /\ (state w' = WFinalized -> state w = WFinalized) /\ forall tid r, EvReturned tid r ∉ evs.
Proof.
  intros Hs Ha. destruct a; try done; cbn [wstep] in Hs.
  - unfold start in Hs. destruct (state w) as [[]| |] eqn:Hst; simplify_eq; simpl; (split; [done|split; [congruence|set_solver]]).
  - case_decide; [done|]. destruct (core w); simplify_eq; (split; [done|split; [done|set_solver]]).
  - case_decide; simplify_eq. split; [done|split; [done|set_solver]].
  - unfold pump_step in Hs. destruct (pumps w !! id) as [p|]; [|done].
    cbn [mbind option_bind] in Hs. destruct (pump_phase_of p); [|done].
    destruct (pump_poll _ _ _ _) as [es next]. simplify_eq. split; [done|split; [done|]].
    by intros tid x ([] & Hx & _)%list_elem_of_fmap.
  - unfold pump_drop in Hs. destruct (pumps w !! id) as [p|]; [|done].
    cbn [mbind option_bind] in Hs. destruct (pump_phase_of p), (aborted p); simplify_eq. split; [done|split; [done|set_solver]].
  - unfold pump_leave in Hs. destruct (pumps w !! id) as [p|]; [|done].
    cbn [mbind option_bind] in Hs. destruct (pump_phase_of p); simplify_eq. split; [done|split; [done|set_solver]].
Qed.

(** A step into [WFinalized] is a reason to be there, or a call that is finalizing. *)
Lemma history_ended ls w l w' :
  worker_inv w -> history ls w -> worker_step w l w' -> state w' = WFinalized ->
  (exists tid ph, calls w' !! tid = Some ph /\ ending ph = true) \/ ended (ls ++ [l]).
Proof.
  destruct l as [a evs]. intros Hw [_ _ Hend] Hs. unfold worker_step in Hs. cbn [fst snd] in Hs.
  assert (Hkeep : (state w' = WFinalized -> state w = WFinalized) ->
    (forall i x, calls w !! i = Some x -> ending x = true -> calls w' !! i = Some x) ->
    state w' = WFinalized ->
    (exists tid ph, calls w' !! tid = Some ph /\ ending ph = true) \/ ended (ls ++ [(a, evs)])).
  { intros H1 H2 Hf. destruct (Hend (H1 Hf)) as [(i & x & Hi & Hx)|]; [left; eauto|].
    right. by apply ended_snoc. }
  destruct (no_call a) eqn:Ha; [destruct (no_call_step _ _ _ _ Hs Ha) as (Hc & Hst & _); apply Hkeep; [done|by rewrite Hc]|].
  destruct a; try done; cbn [wstep] in Hs.
  - simplify_eq. right. apply ended_free.
  - case_decide as Hc; [|done]. simplify_eq. apply Hkeep; [done|]. intros i x Hi _. simpl.
    rewrite lookup_insert_ne; [done|]. intros ->. congruence.
  - unfold shutdown_locked in Hs. destruct (calls w !! tid) as [ph|] eqn:Hc; [|done].
    cbn [mbind option_bind] in Hs. case_decide as Hl; [|done]. unfold core in Hs.
    cbn [state set_lock] in Hs.
    assert (Hnf : forall i x, calls w !! i = Some x -> ending x = true -> False).
    { intros i x Hi Hx. pose proof (ending_holds w i x Hw Hi Hx). congruence. }
    destruct ph; try done; destruct (state w) as [b| |] eqn:Hst; simplify_eq;
      first [apply Hkeep; simpl; [congruence|by intros i x Hi Hx; destruct (Hnf i x Hi Hx)]
            |left; eexists tid, _; split; [apply lookup_insert_eq|done]].
  - unfold finish_unstarted in Hs. case_decide; simplify_eq. right. apply ended_unstarted.
  - unfold await_pumps in Hs. case_decide as Hc; [|done].
    assert (Hnf : forall i x, calls w !! i = Some x -> ending x = true -> False).
    { intros i x Hi Hx. pose proof (ending_holds w i x Hw Hi Hx) as H1.
      pose proof (holds_call w tid _ Hw Hc eq_refl). assert (i = tid) as -> by congruence. by simplify_eq. }
    repeat case_decide; try done; try destruct expired; simplify_eq;
      first [apply Hkeep; simpl; [congruence|by intros i x Hi Hx; destruct (Hnf i x Hi Hx)]
            |left; eexists tid, _; split; [apply lookup_insert_eq|done]].
  - unfold try_finalize in Hs. destruct (calls w !! tid) as [[]|] eqn:Hc; try done.
    case_decide; [|destruct expired]; simplify_eq; [|done|apply Hkeep; auto].
    left. eexists tid, _. split; [apply lookup_insert_eq|done].
  - unfold closed in Hs. destruct (calls w !! tid) as [[]|]; try done. simplify_eq.
    right. apply ended_event. left. set_solver.
  - case_decide as Hc; [|done]. simplify_eq. apply Hkeep; [done|]. intros i x Hi Hx. simpl.
    rewrite lookup_insert_ne; [done|]. intros ->. destruct Hc. by simplify_eq.
  - unfold cancel_call in Hs. destruct (calls w !! tid) as [ph|] eqn:Hc; [|done].
    destruct (ending ph) eqn:He.
    + destruct ph as [| | |[]|[]| |]; try done; simplify_eq; right; apply ended_event; right; set_solver.
    + assert (calls w' = delete tid (calls w) /\ state w' = state w) as [Hcl Hst]
        by (destruct ph as [| | |[]|[]| |]; try done; by simplify_eq).
      apply Hkeep; [congruence|]. intros i x Hi Hx. rewrite Hcl, lookup_delete_ne; [done|].
      intros <-. congruence.
Qed.

Lemma history_step ls w l w' :
  worker_inv w -> history ls w -> worker_step w l w' -> history (ls ++ [l]) w'.
Proof.
  intros Hw Hh Hs. pose proof Hh as [Ho Hg _].
  split; [..|by eapply history_ended]; rewrite wevents_snoc, finalizations_app.
  all: destruct (decide (EvFinalize ∈ l.2)) as [He|He]; [|rewrite (finalizations_zero l.2 He)].
  - destruct l as [a evs]. destruct (finalizes_alone w a evs w' Hw Hs He) as (_ & -> & Hc & _).
    destruct (decide (0 < finalizations (wevents ls))%nat) as [Hp|]; [apply Hg in Hp; lia|].
    unfold finalizations in * |- *. cbn [snd]. rewrite !count_cons, count_nil. simpl. lia.
  - lia.
  - destruct l as [a evs]. destruct (finalizes_alone w a evs w' Hw Hs He) as (_ & _ & _ & _ & _ & _ & Hz).
    by intros _.
  - intros Hp. apply (no_owner_step w l w' Hw (Hg ltac:(lia)) Hs).
Qed.

Lemma run_history ls w : run worker_step worker_new ls w -> worker_inv w /\ history ls w.
Proof.
  revert ls w. apply (run_invariant worker_step (fun ls w => worker_inv w /\ history ls w)).
  - split; [apply worker_new_inv|]. split; cbn; [lia|lia|done].
  - intros ks v l v' _ [Hv Hh] Hs. split; [by eapply wstep_inv|by eapply history_step].
Qed.

(** ** Properties of a pump *)

(** Core gives no more: the end of the stream, or a panic. *)
Definition ends_stream (r : polled) : bool :=
  match r with PolledShutDown | PolledPanic _ => true | _ => false end.

(** The polls before the one that ends the stream. *)
Fixpoint before_end (rs : list polled) : list polled :=
  match rs with
  | [] => []
  | r :: rest => if ends_stream r then [] else r :: before_end rest
  end.

Definition task_of (r : polled) : option (list byte) :=
  match r with PolledTask bytes => Some bytes | _ => None end.
Definition error_of (r : polled) : option string :=
  match r with PolledErr text => Some text | _ => None end.

(** The pushes of a pump that are of one kind. *)
Definition pushed_of (P : KtKind -> bool) (es : list pump_effect) : list Pending :=
  omap (fun e => match e with
                 | Push p => if P (p_kind p) then Some p else None
                 | Initiate => None
                 end) es.
Definition is_task (k : KtKind) : bool :=
  match k with TaskWorkflowActivation | TaskActivity | TaskNexus => true | _ => false end.
Definition is_end (k : KtKind) : bool := match k with TaskStreamEnd => true | _ => false end.

Lemma pushed_of_app P es es' : pushed_of P (es ++ es') = pushed_of P es ++ pushed_of P es'.
Proof. apply omap_app. Qed.

(** How [core.initiate_shutdown()] and the failure report follow from the polls. *)
Definition failures (es : list pump_effect) : list (Z * list byte) :=
  omap (fun e => match e with
                 | Push p => if decide (p_kind p = WorkerFailed) then Some (p_status p, p_payload p) else None
                 | Initiate => None
                 end) es.

Lemma failures_app es es' : failures (es ++ es') = failures es ++ failures es'.
Proof. apply omap_app. Qed.

Lemma pump_loop_cons kind h reported r rs :
  pump_loop kind h reported (r :: rs) =
  match pump_poll kind h reported r with
  | (es, Some b) => (es ++ (pump_loop kind h b rs).1, (pump_loop kind h b rs).2)
  | (es, None) => (es, true)
  end.
Proof. cbn [pump_loop]. destruct (pump_poll _ _ _ _) as [es [b|]]; [|done]. by destruct (pump_loop _ _ b rs). Qed.

(** The poll that ends the stream, if one has. *)
Fixpoint the_end (rs : list polled) : option polled :=
  match rs with
  | [] => None
  | r :: rest => if ends_stream r then Some r else the_end rest
  end.

(** The reports the embedder should see: the first error, and a panic. *)
Definition reports (reported : bool) (rs : list polled) : list (Z * list byte) :=
  (if reported then []
   else match omap error_of (before_end rs) with
        | text :: _ => [(KT_ERR_FAILED, as_bytes text)]
        | [] => []
        end) ++
  match the_end rs with
  | Some (PolledPanic payload) =>
      [(KT_ERR_PANIC, as_bytes ("worker poll panic: " +:+ panic_message payload))]
  | _ => []
  end.

Section pump_properties.
Context (kind : TaskKind) (h : Z).

Lemma pump_tasks reported rs :
  pushed_of is_task (pump_loop kind h reported rs).1 =
  task_event kind h <$> omap task_of (before_end rs).
Proof.
  revert reported. induction rs as [|r rs IH]; intros reported; [done|].
  rewrite pump_loop_cons. destruct r; cbn [pump_poll before_end ends_stream omap list_omap task_of fst].
  - rewrite pushed_of_app, IH. by destruct kind.
  - by destruct kind.
  - destruct reported; cbn [fst]; rewrite pushed_of_app, IH; by destruct kind.
  - by destruct kind.
Qed.

Lemma pump_ends reported rs :
  (pump_loop kind h reported rs).2 = bool_decide (the_end rs <> None) /\
  pushed_of is_end (pump_loop kind h reported rs).1 =
    (if (pump_loop kind h reported rs).2 then [stream_end kind h] else []).
Proof.
  revert reported. induction rs as [|r rs IH]; intros reported; [done|].
  rewrite pump_loop_cons. destruct r; cbn [pump_poll the_end ends_stream fst snd]; [| |destruct reported; cbn [fst snd]|].
  all: try by destruct kind.
  all: rewrite pushed_of_app; split; [apply IH|]; by rewrite (proj2 (IH _)); destruct kind.
Qed.

Lemma pump_failures reported rs :
  failures (pump_loop kind h reported rs).1 = reports reported rs.
Proof.
  unfold reports. revert reported. induction rs as [|r rs IH]; intros reported; [by destruct reported|].
  rewrite pump_loop_cons.
  destruct r, reported; cbn [pump_poll the_end before_end ends_stream omap list_omap error_of fst];
    rewrite ?failures_app, ?IH; by destruct kind.
Qed.

Lemma pump_loop_pushes reported rs : Forall (from_pump kind h) (pump_loop kind h reported rs).1.
Proof.
  revert reported. induction rs as [|r rs IH]; intros reported; [constructor|].
  rewrite pump_loop_cons. pose proof (pump_poll_pushes kind h reported r) as Hp.
  destruct (pump_poll _ _ _ _) as [es [b|]]; cbn [fst] in *; [|done]. by apply Forall_app.
Qed.

(** Nothing is pushed after the end of the stream. *)
Lemma pump_end_last reported rs :
  (pump_loop kind h reported rs).2 = true ->
  last (pushed_of (fun _ => true) (pump_loop kind h reported rs).1) = Some (stream_end kind h).
Proof.
  revert reported. induction rs as [|r rs IH]; intros reported; [done|].
  rewrite pump_loop_cons. destruct r; cbn [pump_poll]; [|done|destruct reported|done].
  all: cbn [fst snd]; rewrite pushed_of_app; intros He; by rewrite last_app, (IH _ He).
Qed.
End pump_properties.

(** C33 A pump delivers, for whatever Core's polls return: every completion it pushes is unsolicited,
    names the worker and the stream and owns no handle; the tasks are exactly those polled before
    the end of the stream, in order; it goes on polling until Core reports [ShutDown] or panics and
    stops at the first of these; exactly one [TaskStreamEnd] is pushed, last, if it has stopped, and none
    before; and the failures reported are the first error only, then a panic. *)
Theorem pump_stream kind h rs :
  let '(es, ended) := pump_loop kind h false rs in
  Forall (from_pump kind h) es /\
  pushed_of is_task es = task_event kind h <$> omap task_of (before_end rs) /\
  ended = bool_decide (the_end rs <> None) /\
  pushed_of is_end es = (if ended then [stream_end kind h] else []) /\
  (ended = true -> last (pushed_of (fun _ => true) es) = Some (stream_end kind h)) /\
  failures es = reports false rs.
Proof.
  destruct (pump_loop kind h false rs) as [es ended] eqn:E.
  pose proof (pump_loop_pushes kind h false rs). pose proof (pump_tasks kind h false rs).
  pose proof (pump_ends kind h false rs) as [? ?]. pose proof (pump_failures kind h false rs).
  pose proof (pump_end_last kind h false rs).
  rewrite E in *. by split_and!.
Qed.

(** ** Properties of the worker *)

(** C10 Over any run of a worker Core's [finalize_shutdown] runs at most once; the step that runs it
    is a [shutdown] or its background task that holds the shutdown lock, at a moment when no pump,
    no call into Core and no other shutdown has a reference to Core's worker, and the worker is
    already invalidated; afterwards nobody ever has a reference again. *)
Theorem finalize_once_and_alone ls w :
  run worker_step worker_new ls w ->
  (finalizations (wevents ls) <= 1)%nat /\
  ((0 < finalizations (wevents ls))%nat -> strong_count w = 0%nat) /\
  forall a evs w', worker_step w (a, evs) w' -> EvFinalize ∈ evs ->
    (exists tid expired, a = WTryFinalize tid expired /\ shutdown_lock w = Some tid) /\
    pumps w = ∅ /\ users w = ∅ /\ state w = WFinalized /\ strong_count w = 1%nat /\
    strong_count w' = 0%nat.
Proof.
  intros [Hw [Ho Hg _]]%run_history. split; [done|]. split; [done|]. intros a evs w' Hs He.
  destruct (finalizes_alone w a evs w' Hw Hs He) as (H1 & _ & H2 & H3 & H4 & H5 & H6). by split_and!.
Qed.

(** A schedule: start, end every pump, shut down. *)
Definition orderly : list action :=
  [WStart; WUse 9%positive; WShutdown 1%positive; WLock 1%positive;
   WPoll 1%positive 7 PolledShutDown; WLeave 1%positive; WPoll 2%positive 7 PolledShutDown;
   WLeave 2%positive; WPoll 3%positive 7 PolledShutDown; WLeave 3%positive;
   WAwait 1%positive 2%positive false; WTryFinalize 1%positive false; WRelease 9%positive;
   WTryFinalize 1%positive true; WClosed 1%positive].

Definition at_end (acts : list action) : World := default worker_new (fst <$> exec wstep worker_new acts).
Definition trace (acts : list action) : list (action * list event) :=
  default [] (snd <$> exec wstep worker_new acts).

Lemma sample_worker_run acts :
  is_Some (exec wstep worker_new acts) -> run worker_step worker_new (trace acts) (at_end acts).
Proof.
  intros [[w ls] He]. unfold trace, at_end. rewrite He. exact (exec_runs wstep worker_new acts w ls He).
Qed.

Lemma finalize_once_and_alone_witness :
  let ls := trace (take 13 orderly) in
  let w := at_end (take 13 orderly) in
  let w' := at_end (take 14 orderly) in
  (finalizations (wevents ls) <= 1)%nat /\
  (exists tid expired, WTryFinalize 1 true = WTryFinalize tid expired /\ shutdown_lock w = Some tid) /\
  strong_count w = 1%nat /\ strong_count w' = 0%nat.
Proof.
  destruct (finalize_once_and_alone (trace (take 13 orderly)) (at_end (take 13 orderly))) as (H1 & _ & H2);
    [apply (sample_worker_run (take 13 orderly)); by eexists|].
  destruct (H2 (WTryFinalize 1 true) [EvFinalize] (at_end (take 14 orderly))) as (Ha & _ & _ & _ & Hb & Hc);
    [vm_compute; reflexivity|left|].
  split; [exact H1|]. split; [exact Ha|]. by split.
Defined.

(** A call that returns [Ok] leaves the worker invalidated, and the lock free. *)
Lemma returned_ok w a evs w' tid :
  worker_inv w -> worker_step w (a, evs) w' -> EvReturned tid (Ok tt) ∈ evs ->
  state w' = WFinalized /\ calls w' = delete tid (calls w) /\
  (shutdown_lock w = None \/ shutdown_lock w = Some tid).
Proof.
  intros Hw Hs He.
  assert (Hmap : forall es : list pump_effect, EvReturned tid (Ok tt) ∉ effect_event <$> es).
  { intros es ([] & ? & _)%list_elem_of_fmap; done. }
  unfold worker_step in Hs. cbn [fst snd] in Hs. destruct a; cbn [wstep] in Hs.
  - destruct (start w). simplify_eq. set_solver.
  - unfold free in Hs. destruct (state w); simplify_eq; set_solver.
  - case_decide; [done|]. destruct (core w); simplify_eq; set_solver.
  - case_decide; [|done]. simplify_eq. set_solver.
  - unfold pump_step in Hs. destruct (pumps w !! id) as [p|]; [|done].
    cbn [mbind option_bind] in Hs. destruct (pump_phase_of p); [|done].
    destruct (pump_poll _ _ _ _) as [es next]. simplify_eq. by apply Hmap in He.
  - unfold pump_drop in Hs. destruct (pumps w !! id) as [p|]; [|done].
    cbn [mbind option_bind] in Hs. destruct (pump_phase_of p), (aborted p); simplify_eq. set_solver.
  - unfold pump_leave in Hs. destruct (pumps w !! id) as [p|]; [|done].
    cbn [mbind option_bind] in Hs. destruct (pump_phase_of p); simplify_eq. set_solver.
  - case_decide; [|done]. simplify_eq. set_solver.
  - unfold shutdown_locked in Hs. destruct (calls w !! tid0) as [ph|] eqn:Hc; [|done].
    cbn [mbind option_bind] in Hs. case_decide as Hl; [|done]. unfold core in Hs.
    cbn [state set_lock] in Hs.
    destruct ph; try done; destruct (state w) as [b| |] eqn:Hst; simplify_eq; try set_solver.
  - unfold finish_unstarted in Hs. case_decide as Hc; simplify_eq.
    assert (tid = tid0) as -> by set_solver. pose proof (holds_call w tid0 _ Hw Hc eq_refl). by auto.
  - unfold await_pumps in Hs. case_decide as Hc; [|done]. pose proof (holds_call w tid0 _ Hw Hc eq_refl).
    repeat case_decide; try done; try destruct expired; simplify_eq; try set_solver.
  - unfold try_finalize in Hs. destruct (calls w !! tid0) as [[]|]; try done.
    case_decide; [|destruct expired; [destruct background|]]; simplify_eq; set_solver.
  - unfold closed in Hs. destruct (calls w !! tid0) as [[]|] eqn:Hc; try done. simplify_eq.
    destruct background; [set_solver|]. assert (tid = tid0) as -> by set_solver.
    pose proof (ending_holds w tid0 _ Hw Hc eq_refl). destruct (ending_call w tid0 _ Hw Hc eq_refl). by auto.
  - case_decide; [|done]. simplify_eq. set_solver.
  - destruct (cancel_call_shape w tid0 w' evs Hs) as (_ & [->| ->] & _); set_solver.
Qed.

(** And there is a reason for it to be over. *)
Lemma returned_ended ls w a evs w' tid :
  run worker_step worker_new ls w -> worker_step w (a, evs) w' -> EvReturned tid (Ok tt) ∈ evs ->
  ended (ls ++ [(a, evs)]).
Proof.
  intros [Hw Hh]%run_history Hs He. destruct (returned_ok w a evs w' tid Hw Hs He) as (Hf & Hc & Hl).
  destruct (history_ended ls w _ w' Hw Hh Hs Hf) as [(i & x & Hi & Hx)|]; [exfalso|done].
  rewrite Hc in Hi. apply lookup_delete_Some in Hi as [Hn Hi].
  pose proof (ending_holds w i x Hw Hi Hx). destruct Hl; congruence.
Qed.

(** C26 A [shutdown] that returns [Ok] has left the worker invalidated: when it returns, the state is
    [Finalized], [core] answers [WorkerShutDown], and the call is over; and there is a reason: Core's
    [finalize_shutdown] completed, or the worker was force-closed, or its pumps were never started; or
    a request that was already finalizing it was cancelled, the one way in which Core's end is skipped
    (see [cancelled_finalize]). *)
Theorem shutdown_ok_means_over ls w a evs w' tid :
  run worker_step worker_new ls w -> worker_step w (a, evs) w' -> EvReturned tid (Ok tt) ∈ evs ->
  state w' = WFinalized /\ core w' = Err WorkerShutDown /\ calls w' !! tid = None /\
  ended (ls ++ [(a, evs)]).
Proof.
  intros Hr Hs He. pose proof (proj1 (run_history ls w Hr)) as Hw.
  destruct (returned_ok w a evs w' tid Hw Hs He) as (Hf & Hc & _).
  split; [done|]. split; [unfold core; by rewrite Hf|]. split; [rewrite Hc; apply lookup_delete_eq|].
  by eapply returned_ended.
Qed.

Lemma shutdown_ok_means_over_witness :
  state (at_end orderly) = WFinalized /\ core (at_end orderly) = Err WorkerShutDown /\
  calls (at_end orderly) !! 1%positive = None /\
  ended (trace (take 14 orderly) ++ [(WClosed 1, [EvFinalized; EvReturned 1 (Ok tt)])]).
Proof.
  apply (shutdown_ok_means_over _ (at_end (take 14 orderly)));
    [apply (sample_worker_run (take 14 orderly)); by eexists|vm_compute; reflexivity|right; left].
Defined.

(** *** Draining the pumps *)

Definition retire (p : Pump) : Pump :=
  {| pump_kind := pump_kind p; pump_phase_of := Leaving; aborted := aborted p |}.

(** The world once every pump has left. *)
Definition drained (w : World) : World := set_live 0 (set_pumps ∅ w).

(** If a step [leave] retires a pump that polls, all can leave, at most two steps each. *)
Lemma drain_pumps (leave : positive -> action) (Q : Pump -> Prop) :
  (forall w id p r, pumps w !! id = Some p -> Q p -> pump_phase_of p = Pumping r ->
     exists evs, wstep w (leave id) = Some (set_pumps (<[id := retire p]> (pumps w)) w, evs)) ->
  forall w, worker_inv w -> (forall id p, pumps w !! id = Some p -> Q p) ->
  exists acts ls, exec wstep w acts = Some (drained w, ls) /\
    Forall (fun a => exists id, a = leave id \/ a = WLeave id) acts /\
    (length acts <= 2 * size (pumps w))%nat.
Proof.
  intros Hleave w. remember (size (pumps w)) as n eqn:Hn. revert w Hn.
  induction n as [|n IH]; intros w Hn Hw HQ.
  - symmetry in Hn. apply map_size_empty_inv in Hn. exists [], []. split; [|split; [constructor|simpl; lia]].
    pose proof (wi_live w Hw) as Hl. rewrite Hn, map_size_empty in Hl. destruct w; simpl in *. by subst.
  - destruct (map_choose (pumps w)) as (id & p & Hp).
    { intros He. rewrite He, map_size_empty in Hn. done. }
    assert (Hlast : forall v, worker_inv v -> pumps v !! id = Some (retire p) \/ pumps v !! id = Some p /\ p = retire p ->
      delete id (pumps v) = delete id (pumps w) -> drained v = drained w ->
      exists acts ls, exec wstep v acts = Some (drained w, ls) /\
        Forall (fun a => exists id, a = leave id \/ a = WLeave id) acts /\
        (length acts <= 1 + 2 * n)%nat).
    { intros v Hv Hr Hd He. assert (pumps v !! id = Some (retire p)) as Hvp by (destruct Hr as [|[? <-]]; done).
      destruct (pump_leave v id) as [[v' evs]|] eqn:Hs;
        [|unfold pump_leave in Hs; by rewrite Hvp in Hs].
      pose proof (pump_leave_inv v id v' evs Hv Hs) as Hv'.
      assert (v' = set_live (wrap USIZE_BITS (live_pumps v - 1)) (set_pumps (delete id (pumps v)) v)) as Hv'eq.
      { unfold pump_leave in Hs. rewrite Hvp in Hs. simpl in Hs. by simplify_eq. }
      assert (pumps v' = delete id (pumps w)) as Hps by (rewrite Hv'eq; exact Hd).
      destruct (IH v') as (acts & ls & Hx & Hf & Hlen).
      + rewrite Hps, map_size_delete, Hp. lia.
      + done.
      + intros i x. rewrite Hps. intros [_ Hi]%lookup_delete_Some. by eapply HQ.
      + exists (WLeave id :: acts), ((WLeave id, evs) :: ls). split_and!.
        * cbn [exec]. cbn [wstep]. rewrite Hs. cbn [mbind option_bind]. rewrite Hx. simpl.
          do 2 f_equal. rewrite Hv'eq, <- He. done.
        * constructor; [eauto|done].
        * simpl. lia. }
    destruct (pump_phase_of p) as [r|] eqn:Hph.
    + destruct (Hleave w id p r Hp (HQ id p Hp) Hph) as [evs Hs].
      set (v := set_pumps (<[id := retire p]> (pumps w)) w) in *.
      assert (worker_inv v) as Hv by (by apply set_pump_inv with (p := p)).
      destruct (Hlast v Hv) as (acts & ls & Hx & Hf & Hlen).
      * left. apply lookup_insert_eq.
      * simpl. by rewrite delete_insert_eq.
      * done.
      * exists (leave id :: acts), ((leave id, evs) :: ls). split_and!.
        -- cbn [exec]. rewrite Hs. cbn [mbind option_bind]. by rewrite Hx.
        -- constructor; [eauto|done].
        -- simpl. lia.
    + destruct (Hlast w Hw) as (acts & ls & Hx & Hf & Hlen); [right|done..|].
      * split; [done|]. destruct p; simpl in *. by subst.
      * exists acts, ls. split_and!; [done..|lia].
Qed.

(** The call that finalizes, once the users are gone, is the last owner. *)
Lemma sole_owner w tid bg :
  worker_inv w -> calls w !! tid = Some (Finalizing bg) -> users w = ∅ -> strong_count w = 1%nat.
Proof.
  intros Hw Hc Hu. destruct (wi_call w Hw tid _ Hc) as [Hp Hs]. unfold strong_count.
  rewrite decide_True, Hp, Hu, mcount_empty, size_empty by done.
  rewrite (mcount_delete _ _ _ _ Hc), decide_True by done. rewrite mcount_zero; [done|].
  intros i x [Hn Hi]%lookup_delete_Some Hx. apply Hn. apply (one_holder w _ _ _ _ Hw Hc Hi); [done|].
  unfold holds_lock. by rewrite Hx.
Qed.

Lemma drained_inv w : worker_inv w -> worker_inv (drained w).
Proof.
  intros Hw. destruct Hw as [H1 H2 H3 H4 H5 H6]. split; simpl; rewrite ?map_size_empty; try done; [lia|].
  intros tid ph Hc. specialize (H6 tid ph Hc). destruct ph; naive_solver.
Qed.

(** A call that finalizes, when nobody uses Core, is done in two steps. *)
Lemma ends_alone w tid bg e :
  worker_inv w -> calls w !! tid = Some (Finalizing bg) -> users w = ∅ ->
  exec wstep w [WTryFinalize tid e; WClosed tid] =
    Some (return_call tid w, [(WTryFinalize tid e, [EvFinalize]);
                              (WClosed tid, EvFinalized :: told bg tid (Ok tt))]).
Proof.
  intros Hw Hc Hu. cbn [exec wstep]. unfold try_finalize. rewrite Hc.
  rewrite decide_True by (by apply (sole_owner w tid bg)). cbn [mbind option_bind].
  unfold closed. cbn [calls set_call]. rewrite lookup_insert_eq. cbn [mbind option_bind].
  do 2 f_equal. unfold return_call, end_call, set_call, set_lock. simpl. by rewrite delete_insert_eq.
Qed.

(** A call that waits, when the pumps are gone and nobody uses Core, finalizes in three steps. *)
Lemma await_finalizes w tid bg e e' :
  worker_inv w -> calls w !! tid = Some Awaiting -> state w <> WFinalized -> users w = ∅ ->
  pumps w = ∅ ->
  exec wstep w [WAwait tid bg e; WTryFinalize tid e'; WClosed tid] =
    Some (return_call tid (set_state WFinalized w),
          [(WAwait tid bg e, []); (WTryFinalize tid e', [EvFinalize]);
           (WClosed tid, [EvFinalized; EvReturned tid (Ok tt)])]).
Proof.
  intros Hw Hc Hs Hu Hp.
  assert (~ 0 < live_pumps w) as Hl by (rewrite (wi_live w Hw), Hp, map_size_empty; lia).
  assert (await_pumps w tid bg e = Some (set_call tid (Finalizing false) (set_state WFinalized w), [])) as Ha.
  { unfold await_pumps. by rewrite decide_True, decide_False, decide_False by done. }
  pose proof (await_pumps_inv w tid bg e _ _ Hw Ha) as Hw'.
  pose proof (ends_alone _ tid false e' Hw' (lookup_insert_eq _ _ _) Hu) as He.
  rewrite (exec_cons wstep _ (WAwait tid bg e) _ _ _ _ _ Ha He). do 2 f_equal.
  unfold return_call, end_call, set_call, set_state, set_lock. simpl. by rewrite delete_insert_eq.
Qed.

(** C14 Once a started [shutdown] waits, ending the poll streams is all it needs: from any reachable
    world in which the call waits, the worker is not force-closed and no call uses Core, letting
    every pump see [ShutDown] and leave takes at most two steps a pump, and then the call finalizes
    the worker and returns [Ok], whatever its deadlines say. *)
Theorem shutdown_completes ls w tid bg h e e' :
  run worker_step worker_new ls w ->
  calls w !! tid = Some Awaiting -> state w <> WFinalized -> users w = ∅ ->
  exists acts ls' w',
    Forall (fun a => exists id, a = WPoll id h PolledShutDown \/ a = WLeave id) acts /\
    (length acts <= 2 * size (pumps w) <= 6)%nat /\
    exec wstep w (acts ++ [WAwait tid bg e; WTryFinalize tid e'; WClosed tid]) = Some (w', ls') /\
    finalizations (wevents ls') = 1%nat /\ last (wevents ls') = Some (EvReturned tid (Ok tt)) /\
    state w' = WFinalized /\ shutdown_lock w' = None /\ calls w' !! tid = None.
Proof.
  intros Hr Hc Hs Hu. pose proof (run_history ls w Hr) as [Hw _].
  destruct (drain_pumps (fun id => WPoll id h PolledShutDown) (fun _ => True)) with w as (acts & dls & Hx & Hf & Hl);
    [|done..|].
  { intros v id p r Hp _ Hph. cbn [wstep]. unfold pump_step. rewrite Hp. cbn [mbind option_bind].
    rewrite Hph. by eexists. }
  pose proof (await_finalizes (drained w) tid bg e e' (drained_inv w Hw) Hc Hs Hu eq_refl) as Hy.
  pose proof (wi_bound w Hw).
  set (fin := [(WAwait tid bg e, []); (WTryFinalize tid e', [EvFinalize]);
    (WClosed tid, [EvFinalized; EvReturned tid (Ok tt)])]) in *.
  pose proof (exec_app wstep _ _ _ _ _ _ _ Hx Hy) as Hall.
  exists acts, (dls ++ fin), (return_call tid (set_state WFinalized (drained w))).
  split; [done|]. split; [split; lia|]. split; [done|].
  assert (wevents (dls ++ fin) = wevents dls ++ [EvFinalize; EvFinalized; EvReturned tid (Ok tt)]) as Hev
    by (unfold wevents; by rewrite bind_app).
  split; [|split; [by rewrite Hev, last_app|split; [done|split; [done|apply lookup_delete_eq]]]].
  pose proof (run_app _ _ _ _ _ _ Hr (exec_runs wstep w _ _ _ Hall)) as Hr'.
  apply run_history in Hr' as [_ [Ho _ _]]. unfold wevents in Ho. rewrite bind_app in Ho.
  fold (wevents ls) in Ho. fold (wevents (dls ++ fin)) in Ho.
  rewrite finalizations_app, Hev, finalizations_app in Ho. rewrite Hev, finalizations_app.
  unfold finalizations in *. rewrite !count_cons, count_nil in *. simpl in *. lia.
Qed.

(** The schedule up to the wait for the pumps, with no call into Core. *)
Definition to_wait : list action := [WStart; WShutdown 1%positive; WLock 1%positive].

Lemma shutdown_completes_witness :
  exists acts ls' w',
    Forall (fun a => exists id, a = WPoll id 7 PolledShutDown \/ a = WLeave id) acts /\
    (length acts <= 2 * size (pumps (at_end to_wait)) <= 6)%nat /\
    exec wstep (at_end to_wait) (acts ++ [WAwait 1 2 true; WTryFinalize 1 true; WClosed 1]) = Some (w', ls') /\
    finalizations (wevents ls') = 1%nat /\ last (wevents ls') = Some (EvReturned 1 (Ok tt)) /\
    state w' = WFinalized /\ shutdown_lock w' = None /\ calls w' !! 1%positive = None.
Proof.
  apply (shutdown_completes (trace to_wait));
    [apply (sample_worker_run to_wait); by eexists|reflexivity|by vm_compute|reflexivity].
Defined.

(** When the grace period ends before the pumps do, [shutdown] says so and touches nothing the
    pumps need: its only event is the error, the worker is not invalidated (a worker that is not
    force-closed still answers [core]), no pump is aborted or dropped, it gives its own reference
    and the lock back, and a background task takes over; and from any world that task can reach
    with the pumps gone, nobody in Core and the lock free, it finalizes the worker. *)
Theorem grace_expiry ls w tid bg :
  run worker_step worker_new ls w ->
  (calls w !! tid = Some Awaiting -> 0 < live_pumps w -> calls w !! bg = None ->
   exists w', await_pumps w tid bg true = Some (w', [EvReturned tid (Err grace_expired)]) /\
     state w' = state w /\ core w' = core w /\ pumps w' = pumps w /\ live_pumps w' = live_pumps w /\
     shutdown_lock w' = None /\ strong_count w = S (strong_count w') /\
     calls w' = <[bg := BgAwaiting]> (delete tid (calls w))) /\
  (calls w !! bg = Some BgAwaiting -> state w = WDraining -> live_pumps w = 0 -> users w = ∅ ->
   shutdown_lock w = None ->
   forall e, exists w', exec wstep w [WBgWake bg; WLock bg; WTryFinalize bg e; WClosed bg] =
     Some (w', [(WBgWake bg, []); (WLock bg, []); (WTryFinalize bg e, [EvFinalize]);
                (WClosed bg, [EvFinalized])]) /\
     state w' = WFinalized /\ strong_count w' = 0%nat).
Proof.
  intros [Hw _]%run_history. split.
  - intros Hc Hl Hb. eexists. unfold await_pumps. rewrite !decide_True by done. split; [done|].
    split_and!; try done. unfold strong_count. simpl.
    rewrite mcount_insert by (rewrite lookup_delete_ne; [done|congruence]).
    rewrite (mcount_delete _ (calls w) tid _ Hc). simpl. case_decide; lia.
  - intros Hc Hs Hl Hu Hlk e.
    assert (wstep w (WBgWake bg) = Some (set_call bg BgQueued w, [])) as H1.
    { cbn [wstep]. rewrite decide_True; [done|]. split; [done|lia]. }
    pose proof (wstep_inv w (WBgWake bg, []) _ Hw H1) as Hw1.
    assert (wstep (set_call bg BgQueued w) (WLock bg) =
      Some (set_call bg (Finalizing true) (set_state WFinalized (set_lock (Some bg) (set_call bg BgQueued w))), [])) as H2.
    { cbn [wstep]. unfold shutdown_locked. cbn [calls set_call]. rewrite lookup_insert_eq.
      cbn [mbind option_bind]. rewrite decide_True by done. unfold core. simpl. by rewrite Hs. }
    pose proof (wstep_inv _ (WLock bg, []) _ Hw1 H2) as Hw2.
    set (w2 := set_call bg (Finalizing true) _) in *.
    assert (calls w2 !! bg = Some (Finalizing true)) as Hc2 by apply lookup_insert_eq.
    pose proof (ends_alone w2 bg true e Hw2 Hc2 Hu) as H3.
    rewrite (exec_cons wstep _ _ _ _ _ _ _ H1 (exec_cons wstep _ _ _ _ _ _ _ H2 H3)).
    eexists. split; [done|]. split; [done|]. apply no_owner. destruct (ending_call w2 bg _ Hw2 Hc2 eq_refl) as [Hp _].
    split_and!; try done; simpl.
    + intros id p. change (pumps w !! id) with (pumps w2 !! id). by rewrite Hp.
    + intros i x. rewrite delete_insert_eq. intros [Hi Hx]%lookup_delete_Some.
      assert (calls w2 !! i = Some x) as Hx2 by (subst w2; cbn [calls set_call]; by rewrite lookup_insert_ne by done).
      destruct (holds_core x) eqn:Hh; [|done]. exfalso. apply Hi.
      apply (one_holder w2 _ _ _ _ Hw2 Hc2 Hx2 eq_refl). unfold holds_lock. by rewrite Hh.
Qed.

Lemma grace_expiry_witness :
  (exists w', await_pumps (at_end to_wait) 1 2 true = Some (w', [EvReturned 1 (Err grace_expired)]) /\
     state w' = WDraining /\ pumps w' = three_pumps /\ live_pumps w' = 3) /\
  (let acts := to_wait ++ [WAwait 1%positive 2%positive true; WPoll 1%positive 7 PolledShutDown;
     WLeave 1%positive; WPoll 2%positive 7 PolledShutDown; WLeave 2%positive;
     WPoll 3%positive 7 PolledShutDown; WLeave 3%positive] in
   exists w', exec wstep (at_end acts) [WBgWake 2; WLock 2; WTryFinalize 2 true; WClosed 2] =
     Some (w', [(WBgWake 2, []); (WLock 2, []); (WTryFinalize 2 true, [EvFinalize]);
                (WClosed 2, [EvFinalized])]) /\
     state w' = WFinalized /\ strong_count w' = 0%nat).
Proof.
  split.
  - destruct (grace_expiry (trace to_wait) (at_end to_wait) 1 2) as [H _];
      [apply (sample_worker_run to_wait); vm_compute; eauto|].
    destruct H as (w' & H1 & H2 & _ & H3 & H4 & _); [vm_compute; reflexivity..|].
    exists w'. rewrite H2, H3, H4. split; [exact H1|]. split; [vm_compute; reflexivity|].
    split; vm_compute; reflexivity.
  - intros acts. destruct (grace_expiry (trace acts) (at_end acts) 1 2) as [_ H];
      [apply (sample_worker_run acts); vm_compute; eauto|].
    apply H; vm_compute; reflexivity.
Defined.

(** Force-closing a worker needs nobody's cooperation: at once no operation reaches Core's
    worker, it cannot be started again, Core is told to shut down (unless it already was over), and
    every pump is aborted; from then on each pump can leave without Core returning a single poll and
    without pushing anything, and a waiting [shutdown] returns [Ok] without finalizing Core. *)
Theorem force_close ls w :
  run worker_step worker_new ls w ->
  let '(w', evs) := free w in
  core w' = Err WorkerShutDown /\ start w' = (w', Err WorkerShutDown) /\
  evs = (if decide (state w = WFinalized) then [] else [EvInitiate]) /\
  (forall id p, pumps w' !! id = Some p -> aborted p = true) /\
  exists acts dls, exec wstep w' acts = Some (drained w', dls) /\
    Forall (fun a => exists id, a = WDrop id \/ a = WLeave id) acts /\
    (length acts <= 2 * size (pumps w))%nat /\
    forall tid bg e, calls w !! tid = Some Awaiting ->
      wstep (drained w') (WAwait tid bg e) =
        Some (return_call tid (drained w'), [EvReturned tid (Ok tt)]).
Proof.
  intros [Hw _]%run_history. pose proof (free_inv w Hw) as Hw'. unfold free in *. cbn [fst] in Hw'.
  split; [done|]. split; [done|]. split; [by destruct (state w)|].
  assert (Hab : forall id p, (abort <$> pumps w) !! id = Some p -> aborted p = true).
  { intros id p. rewrite lookup_fmap. by intros (x & _ & ->)%fmap_Some. }
  split; [done|].
  destruct (drain_pumps WDrop (fun p => aborted p = true)) with
    (set_pumps (abort <$> pumps w) (set_state WFinalized w)) as (acts & dls & Hx & Hf & Hl);
    [|done..|].
  { intros v id p r Hp Ha Hph. cbn [wstep]. unfold pump_drop. rewrite Hp. cbn [mbind option_bind].
    rewrite Hph, Ha. exists []. unfold retire. by rewrite Ha. }
  exists acts, dls. split; [done|]. split; [done|]. split.
  - simpl in Hl. by rewrite map_size_fmap in Hl.
  - intros tid bg e Hc. cbn [wstep]. unfold await_pumps. rewrite decide_True by done. done.
Qed.

Lemma force_close_witness :
  let '(w', evs) := free (at_end to_wait) in
  core w' = Err WorkerShutDown /\ evs = [EvInitiate] /\
  exists acts dls, exec wstep w' acts = Some (drained w', dls) /\ (length acts <= 6)%nat /\
    wstep (drained w') (WAwait 1 2 false) = Some (return_call 1 (drained w'), [EvReturned 1 (Ok tt)]).
Proof.
  pose proof (force_close (trace to_wait) (at_end to_wait)) as H.
  destruct (free (at_end to_wait)) as [w' evs] eqn:E.
  destruct H as (H1 & _ & H2 & _ & acts & dls & H3 & _ & H4 & H5);
    [apply (sample_worker_run to_wait); vm_compute; eauto|].
  split; [exact H1|]. split; [rewrite H2; vm_compute; reflexivity|].
  exists acts, dls. split; [exact H3|]. split.
  - assert (size (pumps (at_end to_wait)) = 3%nat) as Hz by (vm_compute; reflexivity). lia.
  - apply H5. vm_compute; reflexivity.
Defined.

(** A schedule in which a force-close falls between the start of [finalize] and its deadline, while
    a call still uses Core. *)
Definition revived : list action :=
  [WStart; WUse 9%positive; WShutdown 1%positive; WLock 1%positive;
   WPoll 1%positive 7 PolledShutDown; WLeave 1%positive; WPoll 2%positive 7 PolledShutDown;
   WLeave 2%positive; WPoll 3%positive 7 PolledShutDown; WLeave 3%positive;
   WAwait 1%positive 2%positive false; WFree; WTryFinalize 1%positive true].

(** [free] is not final against a concurrent [shutdown]: if it runs while [finalize] waits for
    the last reference, the deadline of [finalize] moves the freed worker back to [Draining], and
    it answers [core] again. *)
Theorem free_undone_by_finalize_timeout :
  exists ls w w', exec wstep worker_new revived = Some (w', ls ++ [(WTryFinalize 1 true, [EvReturned 1 (Err still_referenced)])]) /\
    run worker_step worker_new ls w /\ last ls = Some (WFree, []) /\ core w = Err WorkerShutDown /\
    state w' = WDraining /\ core w' = Ok tt.
Proof.
  exists (trace (take 12 revived)), (at_end (take 12 revived)), (at_end revived).
  split; [vm_compute; reflexivity|]. split; [apply (sample_worker_run (take 12 revived)); vm_compute; eauto|].
  by vm_compute.
Qed.

(** A request that is cancelled before it finalizes gives the lock and its clone of Core back, and
    leaves the worker as it is: another [shutdown] can still do all of the work. *)
Lemma cancel_before_end w tid ph :
  worker_inv w -> calls w !! tid = Some ph -> ph = Queued \/ ph = Awaiting ->
  exists w', cancel_call w tid = Some (w', []) /\ state w' = state w /\ pumps w' = pumps w /\
    users w' = users w /\ calls w' = delete tid (calls w) /\
    shutdown_lock w' = (if decide (shutdown_lock w = Some tid) then None else shutdown_lock w).
Proof.
  intros Hw Hc Hph. unfold cancel_call. rewrite Hc. destruct Hph as [-> | ->].
  - eexists. split; [done|]. split_and!; try done. simpl. case_decide as Hl; [|done].
    apply (wi_lock w Hw) in Hl as (x & Hx & Hh). rewrite Hc in Hx. by simplify_eq.
  - eexists. split; [done|]. split_and!; try done. simpl. rewrite decide_True; [done|].
    apply (wi_lock w Hw). by exists Awaiting.
Qed.

(** A schedule in which a [shutdown] is cancelled while it waits to be the last owner of Core's
    worker, and a second one follows. *)
Definition skipped : list action :=
  [WStart; WUse 9%positive; WShutdown 1%positive; WLock 1%positive;
   WPoll 1%positive 7 PolledShutDown; WLeave 1%positive; WPoll 2%positive 7 PolledShutDown;
   WLeave 2%positive; WPoll 3%positive 7 PolledShutDown; WLeave 3%positive;
   WAwait 1%positive 2%positive false; WTryFinalize 1%positive false; WCancel 1%positive;
   WRelease 9%positive; WShutdown 3%positive; WLock 3%positive].

(** A cancelled request that was finalizing leaves [Finalized] behind it with Core's worker never
    told: the next [shutdown] answers [Ok] at once, though nobody freed the worker, its pumps ran,
    and [finalize_shutdown] was never called. *)
Theorem cancelled_finalize :
  exists ls w, exec wstep worker_new skipped =
    Some (w, ls ++ [(WLock 3%positive, [EvReturned 3%positive (Ok tt)])]) /\
    run worker_step worker_new ls (at_end (take 15 skipped)) /\
    finalizations (wevents ls) = 0%nat /\ ~ (WFree ∈ ls.*1) /\
    state w = WFinalized /\ strong_count w = 0%nat.
Proof.
  exists (trace (take 15 skipped)), (at_end skipped).
  split; [vm_compute; reflexivity|]. split; [apply (sample_worker_run (take 15 skipped)); vm_compute; eauto|].
  split; [by vm_compute|]. split; [|by vm_compute].
  intros H. vm_compute in H. set_solver.
Qed.
