(* ===== verification/Streams.v ===== *)
(** What a worker's three poll streams tell the JVM ([worker.rs], [pump], [start], [finalize]).

    The completions a worker's pumps push, over the worker's whole life, in the worlds and runs of
    [Worker]: every stream ends at most once, nothing follows its end, and unless the worker is
    force-closed Core is finalized only after all three have ended. *)

From S2P Require Import Prelude Abi KtError Panic Handle Queue Runtime Worker.

(** A push of the end of the stream of [k]. *)
Definition is_end_of (k : TaskKind) (e : event) : bool :=
  match e with
  | EvPushed p => bool_decide (p_kind p = TaskStreamEnd) && (p_aux1 p =? task_kind_code k)
  | _ => false
  end.
Definition ends (k : TaskKind) (evs : list event) : nat := count (fun e => is_end_of k e = true) evs.

(** The pumps that still poll the stream of [k]. *)
Definition polls (k : TaskKind) (p : Pump) : bool :=
  bool_decide (pump_kind p = k) && match pump_phase_of p with Pumping _ => true | Leaving => false end.
Definition polling (k : TaskKind) (w : World) : nat := mcount (fun p => polls k p = true) (pumps w).

(** No pump was ever spawned, and no call relies on one. *)
Record unstarted (w : World) : Prop := {
  un_pumps : pumps w = ∅;
  un_calls tid ph : calls w !! tid = Some ph -> ph = Queued \/ ph = Unstarted;
  un_state : match state w with
             | WRunning started => started = false
             | WDraining => exists tid, calls w !! tid = Some Unstarted
             | WFinalized => True
             end;
}.

(** As long as nobody force-closes the worker: its pumps are not aborted, and once they are spawned
    each stream is polled by one pump or has ended once. *)
Record streams_inv (evs : list event) (w : World) : Prop := {
  sv_kept id p : pumps w !! id = Some p -> aborted p = false;
  sv_streams : (unstarted w /\ forall k, ends k evs = 0%nat) \/
               (state w <> WRunning false /\ forall k, (ends k evs + polling k w)%nat = 1%nat);
  sv_finalized : EvFinalize ∈ evs -> forall k, ends k evs = 1%nat;
}.

(** ** Lemmas *)

Lemma ends_app k evs evs' : ends k (evs ++ evs') = (ends k evs + ends k evs')%nat.
Proof. apply count_app. Qed.

Lemma ends_none k evs : Forall (fun e => is_end_of k e = false) evs -> ends k evs = 0%nat.
Proof.
  intros Hf. apply count_zero. intros e He. rewrite (proj1 (Forall_forall _ _) Hf e He). done.
Qed.

Lemma ends_some k evs :
  (0 < ends k evs)%nat -> exists p, EvPushed p ∈ evs /\ p_kind p = TaskStreamEnd /\ p_aux1 p = task_kind_code k.
Proof.
  intros Hn. destruct (decide (Exists (fun e => is_end_of k e = true) evs)) as [He|He].
  - apply Exists_exists in He as (e & He & Hk). destruct e; try done. cbn in Hk.
    apply andb_prop in Hk as [H1 H2]. apply bool_decide_eq_true in H1. apply Z.eqb_eq in H2. by exists p.
  - exfalso. rewrite ends_none in Hn; [lia|]. apply not_Exists_Forall in He; [|apply _].
    eapply Forall_impl; [exact He|]. intros e Hx. by apply not_true_is_false.
Qed.

Lemma polling_none k w : pumps w = ∅ -> polling k w = 0%nat.
Proof. intros Hp. unfold polling. by rewrite Hp, mcount_empty. Qed.

(** The steps of the calls, and of the users of Core. *)
Definition pump_action (a : action) : bool :=
  match a with WStart | WFree | WPoll _ _ _ | WDrop _ | WLeave _ => true | _ => false end.

(** They leave the pumps alone, end no stream, and start nothing. *)
Lemma other_step w a w' evs :
  pump_action a = false -> wstep w a = Some (w', evs) ->
  pumps w' = pumps w /\ (forall k, ends k evs = 0%nat) /\
  (forall s, state w' = WRunning s -> state w = WRunning s).
Proof.
  intros Ha Hs. destruct a as [| |tid|tid| | | |tid|tid|tid|tid bg e|tid e|tid|tid|tid]; try done; cbn [wstep] in Hs.
  - case_decide; [done|]. destruct (core w); simplify_eq; auto.
  - case_decide; [|done]. simplify_eq; auto.
  - case_decide; [|done]. simplify_eq; auto.
  - unfold shutdown_locked in Hs. destruct (calls w !! tid) as [ph|]; [|done]. cbn [mbind option_bind] in Hs.
    case_decide; [|done]. unfold core in Hs. cbn [state set_lock] in Hs.
    destruct ph; try done; destruct (state w) eqn:Hst; simplify_eq; simpl; rewrite ?Hst; done.
  - unfold finish_unstarted in Hs. case_decide; simplify_eq; done.
  - unfold await_pumps in Hs. repeat case_decide; try done; try destruct e; simplify_eq; done.
  - unfold try_finalize, told in Hs. destruct (calls w !! tid) as [[]|]; try done.
    case_decide; [simplify_eq; auto|]. destruct e, background; simplify_eq; auto; done.
  - unfold closed, told in Hs. destruct (calls w !! tid) as [[]|]; try done. destruct background; simplify_eq; auto.
  - case_decide; [|done]. simplify_eq; auto.
  - unfold cancel_call in Hs. destruct (calls w !! tid) as [[]|]; try done; try destruct background; simplify_eq; auto.
Qed.

(** In an unstarted worker a call waits, answers at once, or is cancelled. *)
Lemma unstarted_step w a w' evs :
  worker_inv w -> unstarted w -> pump_action a = false -> wstep w a = Some (w', evs) ->
  unstarted w' /\ ~ EvFinalize ∈ evs.
Proof.
  intros Hw Hu Ha Hs. destruct (other_step w a w' evs Ha Hs) as (Hp & _ & _).
  destruct Hu as [Hu1 Hu2 Hu3].
  assert (Hkeep : state w' = state w -> calls w' = calls w -> unstarted w').
  { intros E1 E2. split; rewrite ?Hp, ?E1, ?E2; done. }
  (* a call that is not there yet, or only waits, is not the one that is under way *)
  assert (Hother : forall tid, calls w !! tid <> Some Unstarted ->
    state w = WDraining -> exists i, i <> tid /\ calls w !! i = Some Unstarted).
  { intros tid Hn Hst. rewrite Hst in Hu3. destruct Hu3 as [i Hi]. exists i. split; [|done]. congruence. }
  destruct a as [| |tid|tid| | | |tid|tid|tid|tid bg e|tid e|tid|tid|tid]; try done; cbn [wstep] in Hs.
  - case_decide; [done|]. destruct (core w); simplify_eq; (split; [by apply Hkeep|set_solver]).
  - case_decide; [|done]. simplify_eq; (split; [by apply Hkeep|set_solver]).
  - case_decide as Hc; [|done]. simplify_eq. split; [|set_solver]. split; simpl; [done| |].
    + intros i ph. rewrite lookup_insert. case_decide; [intros [= <-]; by left|apply Hu2].
    + destruct (state w) eqn:Hst; try done. destruct (Hother tid) as (i & Hi & Hx); [congruence|done|].
      exists i. by rewrite lookup_insert_ne.
  - unfold shutdown_locked in Hs. destruct (calls w !! tid) as [ph|] eqn:Hc; [|done].
    cbn [mbind option_bind] in Hs. case_decide as Hl; [|done]. cbn [state set_lock] in Hs.
    assert (Hn : forall i, calls w !! i <> Some Unstarted).
    { intros i Hi. pose proof (holds_call w i _ Hw Hi eq_refl). congruence. }
    destruct (Hu2 tid ph Hc) as [-> | ->]; [|done].
    destruct (state w) as [s| |] eqn:Hst; simplify_eq.
    + split; [|set_solver]. split; simpl; [done| |by exists tid; apply lookup_insert_eq].
      intros i ph. rewrite lookup_insert. case_decide; [intros [= <-]; by right|apply Hu2].
    + destruct Hu3 as [i Hi]. by destruct (Hn i).
    + split; [|set_solver]. split; simpl; [done| |by rewrite Hst].
      intros i ph [_ Hi]%lookup_delete_Some. by apply (Hu2 i).
  - unfold finish_unstarted in Hs. case_decide; simplify_eq. split; [|set_solver]. split; simpl; [done| |done].
    intros i ph [_ Hi]%lookup_delete_Some. by apply (Hu2 i).
  - unfold await_pumps in Hs. case_decide as Hc; [|done]. by destruct (Hu2 tid _ Hc).
  - unfold try_finalize in Hs. destruct (calls w !! tid) as [ph|] eqn:Hc; [|done].
    by destruct (Hu2 tid _ Hc) as [-> | ->].
  - unfold closed in Hs. destruct (calls w !! tid) as [ph|] eqn:Hc; [|done].
    by destruct (Hu2 tid _ Hc) as [-> | ->].
  - case_decide as Hc; [|done]. destruct Hc as [Hc _]. by destruct (Hu2 tid _ Hc).
  - unfold cancel_call in Hs. destruct (calls w !! tid) as [ph|] eqn:Hc; [|done].
    destruct (Hu2 tid _ Hc) as [-> | ->]; [|done]. simplify_eq. split; [|set_solver]. split; simpl; [done| |].
    + intros i ph [_ Hi]%lookup_delete_Some. by apply (Hu2 i).
    + destruct (state w) eqn:Hst; try done. destruct (Hother tid) as (i & Hi & Hx); [congruence|done|].
      exists i. by rewrite lookup_delete_ne.
Qed.

(** What a poll's pushes end. *)
Lemma poll_ends kind h reported r k :
  ends k (effect_event <$> (pump_poll kind h reported r).1) =
    match (pump_poll kind h reported r).2 with
    | Some _ => 0%nat
    | None => if decide (kind = k) then 1%nat else 0%nat
    end.
Proof. destruct r, reported, kind, k; reflexivity. Qed.

Lemma poll_quiet kind h reported r : EvFinalize ∈ (effect_event <$> (pump_poll kind h reported r).1) -> False.
Proof. destruct r, reported; simpl; rewrite ?elem_of_cons, ?elem_of_nil; naive_solver. Qed.

(** Only a poll pushes, and only a call that is finalizing begins Core's end. *)
Lemma event_origin w a w' evs e :
  wstep w a = Some (w', evs) -> e ∈ evs ->
  match e with
  | EvPushed _ => exists id h r p reported, a = WPoll id h r /\ pumps w !! id = Some p /\
      pump_phase_of p = Pumping reported /\
      e ∈ effect_event <$> (pump_poll (pump_kind p) h reported r).1
  | EvFinalize => exists tid bg, calls w !! tid = Some (Finalizing bg)
  | _ => True
  end.
Proof.
  intros Hs He.
  assert (Hno : (forall x, EvPushed x ∉ evs) -> EvFinalize ∉ evs ->
    match e with
    | EvPushed _ => exists id h r p reported, a = WPoll id h r /\ pumps w !! id = Some p /\
        pump_phase_of p = Pumping reported /\
        e ∈ effect_event <$> (pump_poll (pump_kind p) h reported r).1
    | EvFinalize => exists tid bg, calls w !! tid = Some (Finalizing bg)
    | _ => True
    end).
  { intros H1 H2. destruct e; try done. by destruct (H1 p). }
  destruct a as [| |tid|tid|id h r|id|id|tid|tid|tid|tid bg x|tid x|tid|tid|tid]; cbn [wstep] in Hs.
  - unfold start in Hs. destruct (state w) as [[]| |]; simplify_eq; apply Hno; set_solver.
  - unfold free in Hs. destruct (state w); simplify_eq; apply Hno; set_solver.
  - case_decide; [done|]. destruct (core w); simplify_eq; apply Hno; set_solver.
  - case_decide; [|done]. simplify_eq; apply Hno; set_solver.
  - unfold pump_step in Hs. destruct (pumps w !! id) as [p|] eqn:Hp; [|done]. cbn [mbind option_bind] in Hs.
    destruct (pump_phase_of p) as [reported|] eqn:Hph; [|done].
    pose proof (poll_quiet (pump_kind p) h reported r) as Hq.
    destruct (pump_poll (pump_kind p) h reported r) as [es next] eqn:E. simplify_eq.
    destruct e; try done. exists id, h, r, p, reported. by rewrite E.
  - unfold pump_drop in Hs. destruct (pumps w !! id); [|done]. cbn [mbind option_bind] in Hs.
    destruct (pump_phase_of p), (aborted p); simplify_eq; apply Hno; set_solver.
  - unfold pump_leave in Hs. destruct (pumps w !! id); [|done]. cbn [mbind option_bind] in Hs.
    destruct (pump_phase_of p); simplify_eq; apply Hno; set_solver.
  - case_decide; [|done]. simplify_eq; apply Hno; set_solver.
  - unfold shutdown_locked in Hs. destruct (calls w !! tid) as [ph|]; [|done]. cbn [mbind option_bind] in Hs.
    case_decide; [|done]. unfold core in Hs. destruct ph; try done;
      destruct (state (set_lock (Some tid) w)); simplify_eq; apply Hno; set_solver.
  - unfold finish_unstarted in Hs. case_decide; simplify_eq; apply Hno; set_solver.
  - unfold await_pumps in Hs. repeat case_decide; try done; try destruct x; simplify_eq; apply Hno; set_solver.
  - unfold try_finalize, told in Hs. destruct (calls w !! tid) as [[]|] eqn:Hc; try done.
    destruct e; try done; [|by exists tid, background].
    exfalso. case_decide; [simplify_eq; set_solver|]. destruct x; [|simplify_eq; set_solver].
    destruct background; simplify_eq; set_solver.
  - unfold closed, told in Hs. destruct (calls w !! tid) as [[]|]; try done.
    destruct background; simplify_eq; apply Hno; set_solver.
  - case_decide; [|done]. simplify_eq; apply Hno; set_solver.
  - unfold cancel_call in Hs. destruct (calls w !! tid) as [[]|]; try done; try destruct background;
      simplify_eq; apply Hno; set_solver.
Qed.

Lemma task_kind_code_inj k k' : task_kind_code k = task_kind_code k' -> k = k'.
Proof. by destruct k, k'. Qed.

(** What a push carries, and the pump it comes from. *)
Lemma push_origin w a w' evs p :
  wstep w a = Some (w', evs) -> EvPushed p ∈ evs ->
  exists id h r x reported, a = WPoll id h r /\ pumps w !! id = Some x /\
    pump_phase_of x = Pumping reported /\ from_pump (pump_kind x) h (Push p).
Proof.
  intros Hs Hp. destruct (event_origin w a w' evs _ Hs Hp) as (id & h & r & x & reported & -> & Hx & Hph & Hin).
  exists id, h, r, x, reported. split; [done|]. split; [done|]. split; [done|].
  apply list_elem_of_fmap in Hin as ([q|] & [= ->] & Hq).
  exact (proj1 (Forall_forall _ _) (pump_poll_pushes (pump_kind x) h reported r) _ Hq).
Qed.

Lemma started_step k w id p reported h r :
  pumps w !! id = Some p -> pump_phase_of p = Pumping reported ->
  let '(es, next) := pump_poll (pump_kind p) h reported r in
  let ph := match next with Some reported' => Pumping reported' | None => Leaving end in
  (ends k (effect_event <$> es)
   + polling k (set_pumps (<[id := {| pump_kind := pump_kind p; pump_phase_of := ph; aborted := aborted p |}]> (pumps w)) w)
   = polling k w)%nat.
Proof.
  intros Hp Hph. pose proof (poll_ends (pump_kind p) h reported r k) as He.
  destruct (pump_poll (pump_kind p) h reported r) as [es next]. cbn [fst snd] in He. rewrite He.
  set (p' := {| pump_kind := pump_kind p;
                pump_phase_of := match next with Some reported' => Pumping reported' | None => Leaving end;
                aborted := aborted p |}).
  pose proof (mcount_update (fun p => polls k p = true) (pumps w) id p p' Hp) as Hu.
  change (mcount (fun p => polls k p = true) (pumps w)) with (polling k w) in Hu.
  change (mcount (fun p => polls k p = true) (<[id := p']> (pumps w)))
    with (polling k (set_pumps (<[id := p']> (pumps w)) w)) in Hu.
  assert (polls k p = bool_decide (pump_kind p = k)) as E1
    by (unfold polls; rewrite Hph; apply andb_true_r).
  assert (polls k p' = bool_decide (pump_kind p = k) && match next with Some _ => true | None => false end) as E2
    by (unfold polls, p'; simpl; by destruct next).
  cbv beta in Hu. rewrite E1, E2 in Hu. destruct (decide (pump_kind p = k)) as [Hk|Hk].
  - rewrite bool_decide_eq_true_2 in Hu by done. destruct next; repeat case_decide; naive_solver lia.
  - rewrite bool_decide_eq_false_2 in Hu by done. destruct next; repeat case_decide; naive_solver lia.
Qed.

(** Where a step has to lead for the invariant to hold after it. *)
Lemma streams_kept ev w evs w' :
  streams_inv ev w ->
  (unstarted w' /\ (forall k, ends k (ev ++ evs) = 0%nat) /\ ~ EvFinalize ∈ evs) \/
  (state w' <> WRunning false /\ (forall k, (ends k (ev ++ evs) + polling k w')%nat = 1%nat) /\
   (EvFinalize ∈ evs -> pumps w' = ∅)) ->
  (forall id p, pumps w' !! id = Some p -> aborted p = false) -> streams_inv (ev ++ evs) w'.
Proof.
  intros [_ _ Hf] H1 H2. split; [done| |].
  - destruct H1 as [(? & ? & _)|(? & ? & _)]; [by left|by right].
  - intros [Hin|Hin]%elem_of_app k.
    + specialize (Hf Hin k). destruct H1 as [(_ & Hz & _)|(_ & Hone & _)].
      * specialize (Hz k). rewrite ends_app in Hz. lia.
      * specialize (Hone k). rewrite ends_app in *. lia.
    + destruct H1 as [(_ & _ & Hn)|(_ & Hone & Hp)]; [done|].
      specialize (Hone k). rewrite (polling_none k w' (Hp Hin)) in Hone. lia.
Qed.

Lemma start_streams ev w :
  streams_inv ev w -> streams_inv (ev ++ [EvStarted (start w).2]) (start w).1.
Proof.
  intros Hv. pose proof Hv as [Hk Hs Hf].
  assert (forall k, ends k [EvStarted (start w).2] = 0%nat) as Ez by done.
  assert (Hnop : (start w).1 = w -> streams_inv (ev ++ [EvStarted (start w).2]) (start w).1).
  { intros He. apply (streams_kept ev w _ _ Hv); [|by rewrite He].
    rewrite He. destruct Hs as [[Hu Hz]|[Hst Hone]]; [left|right]; (split; [done|split]); try set_solver;
      intros k; rewrite ends_app, Ez; [by rewrite Hz|specialize (Hone k); lia]. }
  unfold start in *. destruct (state w) as [[]| |] eqn:Hst; try (by apply Hnop).
  destruct Hs as [[Hu Hz]|[Hc _]]; [|done]. apply (streams_kept ev w _ _ Hv).
  - right. split; [done|]. split; [|set_solver]. intros k. rewrite ends_app, Hz. by destruct k.
  - simpl. intros id p. unfold three_pumps.
    rewrite !lookup_insert_Some, lookup_singleton_Some. naive_solver.
Qed.

Lemma poll_streams ev w id h r w' evs :
  streams_inv ev w -> pump_step w id h r = Some (w', evs) -> streams_inv (ev ++ evs) w'.
Proof.
  intros Hv Hstep. pose proof Hv as [Hk Hs Hf].
  unfold pump_step in Hstep. destruct (pumps w !! id) as [p|] eqn:Hp; [|done]. cbn [mbind option_bind] in Hstep.
  destruct (pump_phase_of p) as [reported|] eqn:Hph; [|done].
  pose proof (fun k => started_step k w id p reported h r Hp Hph) as Hb.
  pose proof (poll_quiet (pump_kind p) h reported r) as Hq.
  destruct (pump_poll (pump_kind p) h reported r) as [es next]. cbn [fst] in Hq. simplify_eq.
  destruct Hs as [[Hu _]|[Hst Hone]]; [by rewrite (un_pumps w Hu) in Hp|]. apply (streams_kept ev w _ _ Hv).
  - right. split; [done|]. split; [|done]. intros k. specialize (Hone k). specialize (Hb k).
    cbv zeta in Hb. rewrite ends_app. lia.
  - simpl. intros i x [[<- <-]|[_ Hx]]%lookup_insert_Some; [exact (Hk id p Hp)|by apply (Hk i)].
Qed.

Lemma leave_streams ev w id w' evs :
  streams_inv ev w -> pump_leave w id = Some (w', evs) -> streams_inv (ev ++ evs) w'.
Proof.
  intros Hv Hstep. pose proof Hv as [Hk Hs Hf].
  unfold pump_leave in Hstep. destruct (pumps w !! id) as [p|] eqn:Hp; [|done]. cbn [mbind option_bind] in Hstep.
  destruct (pump_phase_of p) eqn:Hph; [done|]. simplify_eq.
  destruct Hs as [[Hu _]|[Hst Hone]]; [by rewrite (un_pumps w Hu) in Hp|]. apply (streams_kept ev w _ _ Hv).
  - right. split; [done|]. split; [|set_solver]. intros k. rewrite app_nil_r. specialize (Hone k).
    unfold polling in *. simpl. rewrite (mcount_delete _ (pumps w) id p Hp) in Hone.
    assert (polls k p = false) as E by (unfold polls; rewrite Hph; apply andb_false_r).
    rewrite E in Hone. simpl in Hone. lia.
  - simpl. intros i x [_ Hx]%lookup_delete_Some. by apply (Hk i).
Qed.

Lemma streams_step ev w a evs w' :
  worker_inv w -> streams_inv ev w -> a <> WFree -> worker_step w (a, evs) w' ->
  streams_inv (ev ++ evs) w'.
Proof.
  intros Hw Hv Ha Hstep. unfold worker_step in Hstep. cbn [fst snd] in Hstep.
  destruct (pump_action a) eqn:Hpa.
  - destruct a as [| | | |id h r|id|id| | | | | | | |]; try done; cbn [wstep] in Hstep.
    + pose proof (start_streams ev w Hv) as Hst. destruct (start w) as [w1 x]. by simplify_eq.
    + by eapply poll_streams.
    + unfold pump_drop in Hstep. destruct (pumps w !! id) as [p|] eqn:Hp; [|done]. cbn [mbind option_bind] in Hstep.
      rewrite (sv_kept ev w Hv id p Hp) in Hstep. by destruct (pump_phase_of p).
    + by eapply leave_streams.
  - pose proof Hv as [Hk Hs Hf]. destruct (other_step w a w' evs Hpa Hstep) as (Hp & He & Hr).
    apply (streams_kept ev w _ _ Hv); [|by rewrite Hp]. destruct Hs as [[Hu Hz]|[Hst Hone]].
    + left. destruct (unstarted_step w a w' evs Hw Hu Hpa Hstep) as [Hu' Hn]. split; [done|]. split; [|done].
      intros k. by rewrite ends_app, Hz, He.
    + right. split; [intros Hc; by apply Hr in Hc|]. split.
      * intros k. rewrite ends_app, He. unfold polling in *. rewrite Hp. specialize (Hone k). lia.
      * intros Hin. destruct (event_origin w a w' evs _ Hstep Hin) as (tid & bg & Hc).
        rewrite Hp. by destruct (wi_call w Hw tid _ Hc).
Qed.

Lemma run_streams ls w :
  run worker_step worker_new ls w -> WFree ∉ ls.*1 -> worker_inv w /\ streams_inv (wevents ls) w.
Proof.
  revert ls w. apply (run_invariant worker_step (fun ls w => WFree ∉ ls.*1 -> worker_inv w /\ streams_inv (wevents ls) w)).
  - intros _. split; [apply worker_new_inv|]. split; simpl; [done| |by intros ?%elem_of_nil].
    left. split; [|done]. by split.
  - intros ls w [a evs] w' _ IH Hs Hn. rewrite fmap_app in Hn.
    destruct IH as [Hw Hv]; [set_solver|]. split; [by eapply wstep_inv|].
    rewrite wevents_snoc. apply (streams_step _ w a evs w' Hw Hv); [|done]. set_solver.
Qed.

(** *** After the end *)

(** No pump is left, and none will be spawned. *)
Definition settled (w : World) : Prop := pumps w = ∅ /\ forall s, state w <> WRunning s.

Lemma settled_step w a w' evs :
  settled w -> wstep w a = Some (w', evs) -> settled w' /\ forall p, EvPushed p ∉ evs.
Proof.
  intros [Hp Hst] Hs. destruct (pump_action a) eqn:Ha.
  - destruct a as [| | | |id h r|id|id| | | | | | | |]; try done; cbn [wstep] in Hs.
    + unfold start in Hs. destruct (state w) as [s| |] eqn:E; [by destruct (Hst s)|..];
        simplify_eq; (split; [by split; [done|intros s; rewrite E]|set_solver]).
    + unfold free in Hs. simplify_eq. split; [split; simpl; [by rewrite Hp, fmap_empty|done]|].
      destruct (state w); set_solver.
    + unfold pump_step in Hs. by rewrite Hp in Hs.
    + unfold pump_drop in Hs. by rewrite Hp in Hs.
    + unfold pump_leave in Hs. by rewrite Hp in Hs.
  - destruct (other_step w a w' evs Ha Hs) as (Hp' & _ & Hr). split.
    + split; [by rewrite Hp'|]. intros s Hc. by apply (Hst s), Hr.
    + intros p Hin. destruct (push_origin w a w' evs p Hs Hin) as (? & ? & ? & ? & ? & -> & _). done.
Qed.

Lemma settled_run w ls w' :
  run worker_step w ls w' -> settled w -> settled w' /\ forall p, EvPushed p ∉ wevents ls.
Proof.
  intros Hr Hw. induction Hr as [w|w ls w1 [a evs] w2 _ IH Hs]; [split; [done|]; intros p; apply not_elem_of_nil|].
  destruct (IH Hw) as [H1 H2]. destruct (settled_step w1 a w2 evs H1 Hs) as [H3 H4].
  split; [done|]. intros p. rewrite wevents_snoc, elem_of_app. intros [|]; [by eapply H2|by eapply H4].
Qed.

(** A worker that nobody force-closes is invalidated only when its pumps are gone. *)
Lemma invalidated_alone w a w' evs :
  worker_inv w -> (state w = WFinalized -> pumps w = ∅) -> a <> WFree ->
  wstep w a = Some (w', evs) -> state w' = WFinalized -> pumps w' = ∅.
Proof.
  intros Hw Hf Ha Hs Hst'. destruct (decide (state w = WFinalized)) as [Hst|Hst].
  - assert (settled w) as He by (split; [by apply Hf|intros s; by rewrite Hst]).
    by destruct (settled_step w a w' evs He Hs) as [[? _] _].
  - destruct a as [| |tid|tid|id h r|id|id|tid|tid|tid|tid bg e|tid e|tid|tid|tid]; try done; cbn [wstep] in Hs.
    + unfold start in Hs. destruct (state w) as [[]| |] eqn:E; simplify_eq; congruence.
    + case_decide; [done|]. unfold core in Hs. destruct (state w) eqn:E; simplify_eq; simpl in *; congruence.
    + case_decide; [|done]. simplify_eq; simpl in *; congruence.
    + unfold pump_step in Hs. destruct (pumps w !! id) as [p|]; [|done]. cbn [mbind option_bind] in Hs.
      destruct (pump_phase_of p); [|done]. destruct (pump_poll _ _ _ _). simplify_eq; simpl in *; congruence.
    + unfold pump_drop in Hs. destruct (pumps w !! id) as [p|]; [|done]. cbn [mbind option_bind] in Hs.
      destruct (pump_phase_of p), (aborted p); simplify_eq; simpl in *; congruence.
    + unfold pump_leave in Hs. destruct (pumps w !! id) as [p|]; [|done]. cbn [mbind option_bind] in Hs.
      destruct (pump_phase_of p); simplify_eq; simpl in *; congruence.
    + case_decide; [|done]. simplify_eq; simpl in *; congruence.
    + unfold shutdown_locked in Hs. destruct (calls w !! tid) as [ph|] eqn:Hc; [|done].
      cbn [mbind option_bind] in Hs. case_decide; [|done]. cbn [state set_lock] in Hs.
      pose proof (wi_call w Hw tid ph Hc) as Hph. unfold core in Hs. cbn [state set_lock] in Hs.
      destruct ph; try done; destruct (state w) eqn:E; simplify_eq; simpl in *; congruence.
    + unfold finish_unstarted in Hs. case_decide as Hc; [|done]. pose proof (wi_call w Hw tid _ Hc). simplify_eq; simpl in *; congruence.
    + unfold await_pumps in Hs. case_decide; [|done]. case_decide as Hl.
      * destruct e; [case_decide|]; simplify_eq; simpl in *; congruence.
      * pose proof (pumps_empty w Hw Hl). case_decide; simplify_eq; simpl in *; congruence.
    + unfold try_finalize in Hs. destruct (calls w !! tid) as [[]|] eqn:Hc; try done.
      pose proof (wi_call w Hw tid _ Hc) as [? ?]. done.
    + unfold closed in Hs. destruct (calls w !! tid) as [[]|] eqn:Hc; try done.
      pose proof (wi_call w Hw tid _ Hc) as [? ?]. done.
    + case_decide; [|done]. simplify_eq; simpl in *; congruence.
    + unfold cancel_call in Hs. destruct (calls w !! tid) as [[]|]; try done; try destruct background; simplify_eq; simpl in *; congruence.
Qed.

(** A [shutdown] that answered [Ok], nobody having force-closed the worker, left it settled, and
    for a reason. *)
Lemma ok_settles ls w tid :
  run worker_step worker_new ls w -> WFree ∉ ls.*1 -> EvReturned tid (Ok tt) ∈ wevents ls ->
  settled w /\ ended ls.
Proof.
  intros Hr Hn Hin.
  enough (worker_inv w /\ (state w = WFinalized -> pumps w = ∅) /\
    (EvReturned tid (Ok tt) ∈ wevents ls -> settled w /\ ended ls)) as (_ & _ & H) by auto.
  clear Hin. revert Hn. revert ls w Hr.
  apply (run_invariant worker_step (fun ls w => WFree ∉ ls.*1 -> worker_inv w /\
    (state w = WFinalized -> pumps w = ∅) /\ (EvReturned tid (Ok tt) ∈ wevents ls -> settled w /\ ended ls))).
  - intros _. split; [apply worker_new_inv|]. split; [done|]. by intros ?%elem_of_nil.
  - intros ls w [a evs] w' Hr IH Hs Hn. rewrite fmap_app in Hn. destruct IH as (Hw & Hf & He); [set_solver|].
    assert (state w' = WFinalized -> pumps w' = ∅) as Hf'.
    { apply (invalidated_alone w a w' evs Hw Hf); [set_solver|done]. }
    split; [by eapply wstep_inv|]. split; [done|]. rewrite wevents_snoc, elem_of_app. intros [Hin|Hin].
    + destruct (He Hin) as [H1 H2]. split; [by apply (settled_step w a w' evs H1)|by apply ended_snoc].
    + split; [|by eapply returned_ended]. destruct (returned_ok w a evs w' tid Hw Hs Hin) as (Hst & _).
      split; [by apply Hf'|intros s; by rewrite Hst].
Qed.

(** A worker's streams end in good order.  Over any run in which nobody force-closes the worker:
    each stream's end is pushed at most once, nothing of a stream is pushed after its end, and when
    Core's finalization begins all three streams have ended: by then the JVM has been sent every task
    and every end there will ever be. *)
Theorem streams_end_once ls w :
  run worker_step worker_new ls w -> WFree ∉ ls.*1 ->
  (forall k, (ends k (wevents ls) <= 1)%nat) /\
  (EvFinalize ∈ wevents ls -> forall k, ends k (wevents ls) = 1%nat) /\
  (forall a evs w' k p, worker_step w (a, evs) w' -> EvPushed p ∈ evs -> p_aux1 p = task_kind_code k ->
     ends k (wevents ls) = 0%nat).
Proof.
  intros Hr Hn. destruct (run_streams ls w Hr Hn) as [Hw [Hk Hs Hf]]. split; [|split; [done|]].
  - intros k. destruct Hs as [[_ Hz]|[_ Hone]]; [rewrite Hz; lia|specialize (Hone k); lia].
  - intros a evs w' k p Hstep Hp Hc.
    destruct (push_origin w a w' evs p Hstep Hp) as (id & h & r & x & reported & _ & Hx & Hph & _ & _ & Hkind & _).
    destruct Hs as [[_ Hz]|[_ Hone]]; [done|]. specialize (Hone k).
    assert (0 < polling k w)%nat as Hpos.
    { apply (mcount_pos _ _ id x Hx). unfold polls. rewrite bool_decide_eq_true_2; [by rewrite Hph|].
      apply task_kind_code_inj. congruence. }
    lia.
Qed.

Lemma streams_end_once_witness :
  let ls := trace orderly in
  EvFinalize ∈ wevents ls /\ ends WorkflowActivation (wevents ls) = 1%nat /\
  ends Activity (wevents ls) = 1%nat /\ ends Nexus (wevents ls) = 1%nat.
Proof.
  intros ls. assert (EvFinalize ∈ wevents ls) as Hf.
  { apply (bool_decide_unpack (EvFinalize ∈ wevents ls)). vm_compute. exact I. }
  destruct (streams_end_once ls (at_end orderly)) as (_ & H & _).
  - apply (sample_worker_run orderly). vm_compute. by eexists.
  - intros Hin. vm_compute in Hin. set_solver.
  - split; [exact Hf|]. split; [by apply H|]. split; by apply H.
Defined.
