(* ===== verification/Telemetry.v ===== *)
(** Buffered metrics and logs ([telemetry.rs]; [runtime.rs] lines 141 to 162; [lib.rs], the export
    [kt_runtime_retrieve_metrics]).

    The state of a [BridgeMeter] is under one mutex, so each operation is a function of it.  A
    label's value that is neither a string, a number nor a boolean is its printed form
    ([OtherValue]); the variants of Core's attributes that are not OTel's are [NotOTel].  The
    protobuf encoder and the JSON printer are parameters. *)

From stdpp Require Import sorting.
From S2P Require Import Prelude KtError Panic.

(** ** Data *)

Definition MAX_UPDATES : Z := 65536.

Record MetricParameters := { mp_name : string; mp_description : string; mp_unit : string }.

Record MetricDefinition := {
  md_id : Z; md_name : string; md_description : string; md_unit : string; md_kind : Z }.

(** [metric_update::Value]. *)
Inductive MetricValue :=
| IntValue (v : Z)
| DoubleValue (v : f64).

(** [opentelemetry::Value]. *)
Inductive LabelValue :=
| LString (s : string)
| LI64 (v : Z)
| LF64 (v : f64)
| LBool (b : bool)
| OtherValue (printed : string).

Record KeyValue := { kv_key : string; kv_value : LabelValue }.

Inductive MetricAttributes :=
| OTel (kvs : list KeyValue)
| NotOTel.

(** [MetricAttributes::Empty]. *)
Definition attributes_empty : MetricAttributes := NotOTel.

Record Sample := { s_instrument : Z; s_attributes : MetricAttributes; s_value : MetricValue }.

Record State := {
  instruments : gmap (string * Z) Z;
  definitions : list MetricDefinition;
  updates : list Sample;
  dropped : Z;
}.

(** [State::default]. *)
Definition state_default : State :=
  {| instruments := ∅; definitions := []; updates := []; dropped := 0 |}.

(** The protobuf messages of a batch. *)
Inductive AttributeValue :=
| StringValue (s : string)
| AIntValue (v : Z)
| ADoubleValue (v : f64)
| BoolValue (b : bool).

Record MetricAttribute := { ma_key : string; ma_value : option AttributeValue }.
Record MetricUpdate := {
  mu_instrument : Z; mu_attributes : list MetricAttribute; mu_value : option MetricValue }.
Record LogRecord := {
  lr_target : string; lr_level : string; lr_message : string; lr_fields_json : string }.
Record MetricBatch := {
  mb_definitions : list MetricDefinition; mb_updates : list MetricUpdate; mb_logs : list LogRecord }.

(** [MetricBatch::default]. *)
Definition batch_default : MetricBatch :=
  {| mb_definitions := []; mb_updates := []; mb_logs := [] |}.

(** ** Instruments *)

Record Instrument := { i_id : Z; i_attributes : MetricAttributes }.

(** [BridgeMeter::instrument]. *)
Definition instrument (kind : Z) (params : MetricParameters) (st : State) : State * Instrument :=
  let key := (mp_name params, kind) in
  match instruments st !! key with
  | Some id => (st, {| i_id := id; i_attributes := attributes_empty |})
  | None =>
      let id := Z.of_nat (length (definitions st)) + 1 in
      ({| instruments := <[key := id]> (instruments st);
          definitions := definitions st ++
            [{| md_id := id; md_name := mp_name params; md_description := mp_description params;
                md_unit := mp_unit params; md_kind := kind |}];
          updates := updates st; dropped := dropped st |},
       {| i_id := id; i_attributes := attributes_empty |})
  end.

(** The instruments of [impl CoreMeter for BridgeMeter]. *)
Inductive InstrumentKind :=
| Counter | Gauge | GaugeF64 | Histogram | HistogramF64 | HistogramDuration | UpDownCounter.

Definition kind_number (k : InstrumentKind) : Z :=
  match k with
  | Counter => 0 | Gauge => 1 | GaugeF64 => 2 | Histogram => 3 | HistogramF64 => 4
  | HistogramDuration => 5 | UpDownCounter => 6
  end.

(** [counter] to [up_down_counter]. *)
Definition create (k : InstrumentKind) (params : MetricParameters) (st : State) :
    State * Instrument :=
  let params :=
    match k with
    | HistogramDuration =>
        {| mp_name := mp_name params; mp_description := mp_description params; mp_unit := "ms" |}
    | _ => params
    end in
  instrument (kind_number k) params st.

(** [Instrument::with_attributes]. *)
Definition with_attributes (i : Instrument) (attributes : MetricAttributes) : Instrument :=
  {| i_id := i_id i; i_attributes := attributes |}.

(** [Instrument::record]. *)
Definition record (i : Instrument) (value : MetricValue) (st : State) : State :=
  let full := bool_decide (Z.of_nat (length (updates st)) = MAX_UPDATES) in
  let kept := if full then tail (updates st) else updates st in
  {| instruments := instruments st; definitions := definitions st;
     updates := kept ++
       [{| s_instrument := i_id i; s_attributes := i_attributes i; s_value := value |}];
     dropped := if full then wrap 64 (dropped st + 1) else dropped st |}.

Definition unsigned (value : Z) : MetricValue := IntValue (Z.min value I64_MAX).

(** What an instrument of each kind is given; a duration is in nanoseconds. *)
Inductive reading :=
| ReadU64 (v : Z)
| ReadF64 (v : f64)
| ReadDuration (nanos : Z)
| ReadI64 (v : Z).

(** [instrument!]: the kind fixes the type of the reading and how it is encoded. *)
Definition encode_reading (k : InstrumentKind) (r : reading) : option MetricValue :=
  match k, r with
  | Counter, ReadU64 v | Gauge, ReadU64 v | Histogram, ReadU64 v => Some (unsigned v)
  | GaugeF64, ReadF64 v | HistogramF64, ReadF64 v => Some (DoubleValue v)
  | HistogramDuration, ReadDuration nanos => Some (IntValue (Z.min (nanos / 1000000) I64_MAX))
  | UpDownCounter, ReadI64 v => Some (IntValue v)
  | _, _ => None
  end.

(** ** Attributes *)

(** [extend_attributes] on labels already converted to OTel's. *)
Definition extend_attributes (existing : MetricAttributes) (attribs : list KeyValue) :
    MetricAttributes :=
  let kvs := match existing with OTel kvs => kvs | _ => [] end in
  OTel (foldl (fun kvs attribute =>
                 filter (fun e => kv_key e <> kv_key attribute) kvs ++ [attribute]) kvs attribs).

Definition new_attributes (attribs : list KeyValue) : MetricAttributes :=
  extend_attributes attributes_empty attribs.

Definition label_to_proto (v : LabelValue) : AttributeValue :=
  match v with
  | LString s => StringValue s
  | LI64 v => AIntValue v
  | LF64 v => ADoubleValue v
  | LBool b => BoolValue b
  | OtherValue printed => StringValue printed
  end.

Definition attributes_to_proto (attributes : MetricAttributes) : list MetricAttribute :=
  match attributes with
  | OTel kvs =>
      (fun kv => {| ma_key := kv_key kv; ma_value := Some (label_to_proto (kv_value kv)) |}) <$> kvs
  | _ => []
  end.

(** ** Draining *)

Definition update_of (s : Sample) : MetricUpdate :=
  {| mu_instrument := s_instrument s; mu_attributes := attributes_to_proto (s_attributes s);
     mu_value := Some (s_value s) |}.

Definition overflow_log (dropped : Z) : LogRecord :=
  {| lr_target := "temporal_kt_bridge::metrics"; lr_level := "WARN";
     lr_message := "Dropped " +:+ pretty dropped +:+
       " oldest metric updates because the JVM did not drain the buffer in time";
     lr_fields_json := EmptyString |}.

(** The ids a batch uses, as a [BTreeSet] iterates them. *)
Definition used_ids (samples : list Sample) : list Z :=
  merge_sort Z.le (remove_dups (s_instrument <$> samples)).

(** [state.definitions[id as usize - 1]]. *)
Definition definition_at (st : State) (id : Z) : outcome MetricDefinition :=
  if decide (id = 0) then Panicked (PayloadString "attempt to subtract with overflow")
  else index (definitions st) (Z.to_nat (id - 1)).

(** [BridgeMeter::drain]. *)
Definition drain (st : State) : outcome (State * MetricBatch) :=
  let samples := updates st in
  defs ← mapM (definition_at st) (used_ids samples);
  mret ({| instruments := instruments st; definitions := definitions st; updates := [];
           dropped := 0 |},
        {| mb_definitions := defs; mb_updates := update_of <$> samples;
           mb_logs := if decide (dropped st = 0) then [] else [overflow_log (dropped st)] |}).

(** ** A meter in use *)

Inductive maction :=
| MCreate (k : InstrumentKind) (params : MetricParameters)
| MRecord (i : Instrument) (value : MetricValue)
| MDrain.

Inductive mevent :=
| MGot (i : Instrument)
| MRecorded (s : Sample)
| MBatch (b : MetricBatch).

Definition mstep (st : State) (a : maction) : option (State * list mevent) :=
  match a with
  | MCreate k params => let '(st', i) := create k params st in Some (st', [MGot i])
  | MRecord i value =>
      Some (record i value st,
            [MRecorded {| s_instrument := i_id i; s_attributes := i_attributes i; s_value := value |}])
  | MDrain => match drain st with Done (st', b) => Some (st', [MBatch b]) | Panicked _ => None end
  end.

(** An instrument is one the meter has handed out. *)
Definition maction_ok (st : State) (a : maction) : Prop :=
  match a with
  | MRecord i _ => 1 <= i_id i <= Z.of_nat (length (definitions st))
  | _ => True
  end.

Definition meter_step (st : State) (l : maction * list mevent) (st' : State) : Prop :=
  maction_ok st l.1 /\ mstep st l.1 = Some (st', l.2).

Definition mevents (ls : list (maction * list mevent)) : list mevent := ls ≫= snd.

(** The samples recorded since the last batch. *)
Definition since_drain (evs : list mevent) : list Sample :=
  foldl (fun acc e => match e with MRecorded s => acc ++ [s] | MBatch _ => [] | MGot _ => acc end)
    [] evs.

Record meter_inv (st : State) : Prop := {
  mi_ids i d : definitions st !! i = Some d -> md_id d = Z.of_nat i + 1;
  mi_keys name kind id : instruments st !! (name, kind) = Some id <->
    exists d, d ∈ definitions st /\ md_name d = name /\ md_kind d = kind /\ md_id d = id;
  mi_used : Forall (fun s => 1 <= s_instrument s <= Z.of_nat (length (definitions st))) (updates st);
}.

(** What is buffered is the end of what was recorded since the last batch. *)
Definition meter_window (rs : list Sample) (st : State) : Prop :=
  let excess := (length rs - Z.to_nat MAX_UPDATES)%nat in
  updates st = list.drop excess rs /\ dropped st = wrap 64 (Z.of_nat excess).

(** ** Lemmas *)

Lemma state_default_inv : meter_inv state_default.
Proof.
  split; simpl; [done| |constructor]. intros name kind id. split; [done|].
  intros (d & Hd & _). set_solver.
Qed.

Lemma definition_unique st d d' :
  meter_inv st -> d ∈ definitions st -> d' ∈ definitions st -> md_id d = md_id d' -> d = d'.
Proof.
  intros Hm [i Hi]%list_elem_of_lookup [j Hj]%list_elem_of_lookup He.
  rewrite (mi_ids st Hm i d Hi), (mi_ids st Hm j d' Hj) in He.
  assert (i = j) as -> by lia. congruence.
Qed.

(** A handed out id names a definition. *)
Lemma definition_lookup st id :
  meter_inv st -> 1 <= id <= Z.of_nat (length (definitions st)) ->
  exists d, definition_at st id = Done d /\ d ∈ definitions st /\ md_id d = id.
Proof.
  intros Hm Hid. destruct (lookup_lt_is_Some_2 (definitions st) (Z.to_nat (id - 1))) as [d Hd]; [lia|].
  exists d. split; [|split].
  - unfold definition_at, index. rewrite decide_False by lia. by rewrite Hd.
  - by eapply list_elem_of_lookup_2.
  - rewrite (mi_ids st Hm _ d Hd). lia.
Qed.

(** [instrument] finds or makes the definition of its name and kind. *)
Lemma instrument_spec kind params st st' i :
  meter_inv st -> instrument kind params st = (st', i) ->
  meter_inv st' /\ updates st' = updates st /\ dropped st' = dropped st /\
  i_attributes i = attributes_empty /\ definitions st `prefix_of` definitions st' /\
  (exists d, d ∈ definitions st' /\ md_id d = i_id i /\ md_name d = mp_name params /\ md_kind d = kind) /\
  1 <= i_id i <= Z.of_nat (length (definitions st')).
Proof.
  intros Hm. unfold instrument. destruct (instruments st !! (mp_name params, kind)) as [id|] eqn:Hk; intros [= <- <-].
  - pose proof Hk as (d & Hd & Hn & Hkd & Hid)%(mi_keys st Hm). split_and!; try done; [eauto| |].
    + apply list_elem_of_lookup in Hd as [j Hj]. pose proof (mi_ids st Hm j d Hj). simpl. lia.
    + apply list_elem_of_lookup in Hd as [j Hj]. pose proof (mi_ids st Hm j d Hj).
      apply lookup_lt_Some in Hj. simpl. lia.
  - set (d := {| md_id := _ |}). split.
    + split; simpl.
      * intros j e He. destruct (decide (j < length (definitions st))%nat).
        -- rewrite lookup_app_l in He by done. by apply (mi_ids st Hm).
        -- rewrite lookup_app_r in He by lia. apply list_lookup_singleton_Some in He as [Hj <-].
           simpl. lia.
      * intros name k id. rewrite lookup_insert. case_decide as Hkey.
        -- injection Hkey as <- <-. split.
           ++ intros [= <-]. exists d. split; [set_solver|done].
           ++ intros (e & [He| ->%list_elem_of_singleton]%elem_of_app & Hn & Hkd & <-); [|done].
              exfalso. assert (instruments st !! (mp_name params, kind) = Some (md_id e)) as Hx
                by (apply (mi_keys st Hm); eauto). congruence.
        -- rewrite (mi_keys st Hm). split.
           ++ intros (e & He & ?). exists e. split; [set_solver|done].
           ++ intros (e & [He| ->%list_elem_of_singleton]%elem_of_app & Hn & Hkd & Hid); [eauto|].
              simpl in *. congruence.
      * eapply Forall_impl; [apply (mi_used st Hm)|]. intros s Hs. rewrite length_app. simpl in *. lia.
    + simpl. split_and!; try done; [by eexists| |lia|rewrite length_app; simpl; lia].
      exists d. split; [set_solver|done].
Qed.

Lemma record_inv i value st :
  meter_inv st -> 1 <= i_id i <= Z.of_nat (length (definitions st)) -> meter_inv (record i value st).
Proof.
  intros Hm Hi. split; simpl; [apply (mi_ids st Hm)|apply (mi_keys st Hm)|].
  apply Forall_app. split; [|by apply Forall_singleton].
  case_bool_decide; [|apply (mi_used st Hm)].
  pose proof (mi_used st Hm) as Hu. destruct Hu; [constructor|done].
Qed.

(** Draining succeeds, and gives the definitions in use in the order of their ids. *)
Lemma used_ids_spec samples id : id ∈ used_ids samples <-> id ∈ s_instrument <$> samples.
Proof. unfold used_ids. by rewrite merge_sort_Permutation, elem_of_remove_dups. Qed.

Lemma used_ids_sorted samples : StronglySorted Z.le (used_ids samples) /\ NoDup (used_ids samples).
Proof.
  split; [apply StronglySorted_merge_sort; apply _|].
  unfold used_ids. rewrite merge_sort_Permutation. apply NoDup_remove_dups.
Qed.

Lemma mapM_done {A B} (f : A -> outcome B) l :
  (forall x, x ∈ l -> exists y, f x = Done y) ->
  exists k, mapM f l = Done k /\ Forall2 (fun x y => f x = Done y) l k.
Proof.
  induction l as [|x l IH]; intros Hf; [by exists []|].
  destruct (Hf x) as [y Hy]; [by left|]. destruct IH as (k & Hk & Hl); [intros z Hz; apply Hf; by right|].
  exists (y :: k). split; [|by constructor]. cbn [mapM]. rewrite Hy. cbn [mbind outcome_bind].
  rewrite Hk. done.
Qed.

Lemma drain_spec st :
  meter_inv st ->
  exists st' b, drain st = Done (st', b) /\ meter_inv st' /\
    instruments st' = instruments st /\ definitions st' = definitions st /\
    updates st' = [] /\ dropped st' = 0 /\
    mb_updates b = update_of <$> updates st /\
    mb_logs b = (if decide (dropped st = 0) then [] else [overflow_log (dropped st)]) /\
    md_id <$> mb_definitions b = used_ids (updates st) /\
    Forall (fun d => d ∈ definitions st) (mb_definitions b).
Proof.
  intros Hm. destruct (mapM_done (definition_at st) (used_ids (updates st))) as (defs & Hd & Hf).
  - intros id (s & -> & Hs)%used_ids_spec%list_elem_of_fmap.
    pose proof (mi_used st Hm) as Hu. rewrite Forall_forall in Hu.
    destruct (definition_lookup st (s_instrument s) Hm (Hu s Hs)) as (d & H & _). eauto.
  - assert (Hdefs : Forall2 (fun id d => d ∈ definitions st /\ md_id d = id) (used_ids (updates st)) defs).
    { assert (Hin : Forall (fun id => 1 <= id <= Z.of_nat (length (definitions st))) (used_ids (updates st))).
      { apply Forall_forall. intros id (s & -> & Hs)%used_ids_spec%list_elem_of_fmap.
        pose proof (mi_used st Hm) as Hu. rewrite Forall_forall in Hu. by apply Hu. }
      clear Hd. induction Hf as [|id d ids ds He Hf IH]; [constructor|].
      apply Forall_cons in Hin as [Hid Hin]. constructor; [|by apply IH].
      destruct (definition_lookup st id Hm Hid) as (d' & Hd' & Hx & Hy).
      rewrite He in Hd'. by injection Hd' as <-. }
    unfold drain. rewrite Hd. cbn [mbind outcome_bind]. eexists _, _. split; [done|].
    split; [|split_and!; try done].
    + split; simpl; [apply (mi_ids st Hm)|apply (mi_keys st Hm)|constructor].
    + simpl. clear -Hdefs. induction Hdefs as [|id d ids ds [_ <-] Hf IH]; [done|]. csimpl. by rewrite IH.
    + simpl. clear -Hdefs. induction Hdefs as [|id d ids ds [Hd _] Hf IH]; by constructor.
Qed.

Lemma mstep_inv st l st' : meter_inv st -> meter_step st l st' -> meter_inv st'.
Proof.
  destruct l as [a evs]. intros Hm [Hok Hs]. destruct a as [k params|i value|]; cbn in Hok, Hs.
  - destruct (create k params st) as [s i] eqn:E. simplify_eq. unfold create in E.
    by apply instrument_spec in E as (? & _).
  - simplify_eq. by apply record_inv.
  - destruct (drain_spec st Hm) as (s & b & Hd & Hi & _). rewrite Hd in Hs. by simplify_eq.
Qed.

Lemma since_drain_snoc evs e :
  since_drain (evs ++ [e]) =
  match e with MRecorded s => since_drain evs ++ [s] | MBatch _ => [] | MGot _ => since_drain evs end.
Proof. unfold since_drain. by rewrite foldl_app. Qed.

Lemma window_record rs s st i value :
  meter_window rs st ->
  s = {| s_instrument := i_id i; s_attributes := i_attributes i; s_value := value |} ->
  meter_window (rs ++ [s]) (record i value st).
Proof.
  intros [Hu Hd] ->. unfold meter_window, record. simpl.
  set (M := Z.to_nat MAX_UPDATES) in *. assert (Z.of_nat M = MAX_UPDATES) as HM by done.
  assert (0 < M)%nat as HM0 by (unfold MAX_UPDATES in HM; lia). clearbody M.
  rewrite length_app. simpl. case_bool_decide as Hf.
  - rewrite Hu, length_drop in Hf. assert (M <= length rs)%nat as Hle by lia.
    replace (length rs + 1 - M)%nat with (S (length rs - M)) by lia.
    rewrite Hu, Hd. rewrite drop_app_le by lia. split.
    + f_equal. change (drop 1 (drop (length rs - M) rs) = drop (S (length rs - M)) rs).
      rewrite drop_drop. f_equal. lia.
    + unfold wrap. rewrite Zplus_mod_idemp_l. f_equal. lia.
  - rewrite Hu, length_drop in Hf. assert (length rs < M)%nat as Hle by lia.
    replace (length rs + 1 - M)%nat with 0%nat by lia.
    replace (length rs - M)%nat with 0%nat in * by lia. rewrite Hu, Hd. done.
Qed.

Lemma mstep_window evs st l st' :
  meter_inv st -> meter_window (since_drain evs) st -> meter_step st l st' ->
  meter_window (since_drain (evs ++ l.2)) st'.
Proof.
  destruct l as [a evs']. intros Hm Hw [Hok Hs]. destruct a as [k params|i value|]; cbn in Hok, Hs.
  - destruct (create k params st) as [s i] eqn:E. simplify_eq. cbn [snd]. rewrite since_drain_snoc.
    unfold create in E. apply instrument_spec in E as (_ & Hu & Hd & _); [|done].
    unfold meter_window. by rewrite Hu, Hd.
  - simplify_eq. cbn [snd]. rewrite since_drain_snoc. by apply window_record.
  - destruct (drain_spec st Hm) as (s & b & Hd & _ & _ & _ & Hu & Hz & _). rewrite Hd in Hs.
    simplify_eq. cbn [snd]. rewrite since_drain_snoc. split; simpl; by rewrite ?Hu, ?Hz.
Qed.

Lemma run_meter ls st :
  run meter_step state_default ls st -> meter_inv st /\ meter_window (since_drain (mevents ls)) st.
Proof.
  revert ls st. apply (run_invariant meter_step (fun ls st => meter_inv st /\ meter_window (since_drain (mevents ls)) st)).
  - split; [apply state_default_inv|]. by split.
  - intros ls st l st' _ [Hm Hw] Hs. split; [by eapply mstep_inv|].
    unfold mevents. rewrite bind_app. simpl. rewrite app_nil_r. by eapply mstep_window.
Qed.

Lemma kind_number_inj k k' : kind_number k = kind_number k' -> k = k'.
Proof. by destruct k, k'. Qed.

Lemma create_name k params st :
  exists params', create k params st = instrument (kind_number k) params' st /\
    mp_name params' = mp_name params /\
    mp_unit params' = (if decide (kind_number k = 5) then "ms" else mp_unit params).
Proof. destruct k; by eexists. Qed.

(** ** Properties *)

(** C32 Whatever was created and recorded before, draining cannot fail and hands over exactly the
    samples recorded since the previous batch, in order, or the last 65,536 of them, with one log
    record that counts the rest; its definitions are those of the instruments the samples use,
    each once, in the order of their ids; and nothing stays buffered. *)
Theorem metrics_window_delivered ls st :
  run meter_step state_default ls st ->
  let rs := since_drain (mevents ls) in
  exists st' b, drain st = Done (st', b) /\
    mb_updates b = update_of <$> list.drop (length rs - Z.to_nat MAX_UPDATES) rs /\
    (Z.of_nat (length rs) < 2 ^ 64 ->
     mb_logs b = if decide (Z.of_nat (length rs) <= MAX_UPDATES) then []
                 else [overflow_log (Z.of_nat (length rs) - MAX_UPDATES)]) /\
    StronglySorted Z.le (md_id <$> mb_definitions b) /\ NoDup (md_id <$> mb_definitions b) /\
    (forall id, id ∈ md_id <$> mb_definitions b <-> id ∈ mu_instrument <$> mb_updates b) /\
    Forall (fun d => d ∈ definitions st) (mb_definitions b) /\
    updates st' = [] /\ dropped st' = 0 /\ definitions st' = definitions st.
Proof.
  intros [Hm [Hu Hd]]%run_meter rs. fold rs in Hu, Hd.
  destruct (drain_spec st Hm) as (st' & b & Hdr & _ & _ & H1 & H2 & H3 & H4 & H5 & H6 & H7).
  exists st', b. split; [done|]. rewrite <- Hu. split; [done|]. split.
  { intros Hb. rewrite H5, Hd. assert (Z.of_nat (Z.to_nat MAX_UPDATES) = MAX_UPDATES) as HM by done.
    assert (0 < MAX_UPDATES) by done. revert HM. generalize (Z.to_nat MAX_UPDATES). intros M HM.
    rewrite wrap_small by (unfold fits; lia).
    destruct (decide (Z.of_nat (length rs - M) = 0)), (decide (Z.of_nat (length rs) <= MAX_UPDATES));
      [done|lia|lia|]. do 2 f_equal. lia. }
  rewrite H6. destruct (used_ids_sorted (updates st)) as [Hs Hn].
  split; [done|]. split; [done|]. split; [|done].
  intros id. rewrite used_ids_spec, H4. rewrite <- list_fmap_compose. done.
Qed.

(** An instrument's id is its name and kind: creating it again gives the same id and changes
    nothing, another name or kind gives another id; the id names a definition that carries the
    name, the kind and (for a duration histogram) the unit [ms]; and definitions once made stay
    where they are. *)
Theorem instrument_identity ls st k params st1 i k' params' st2 j :
  run meter_step state_default ls st ->
  create k params st = (st1, i) -> create k' params' st1 = (st2, j) ->
  (i_id i = i_id j <-> mp_name params = mp_name params' /\ k = k') /\
  (mp_name params = mp_name params' /\ k = k' -> st2 = st1) /\
  (exists d, d ∈ definitions st2 /\ md_id d = i_id i /\ md_name d = mp_name params /\
     md_kind d = kind_number k) /\
  (forall d, d ∈ definitions st1 -> d ∉ definitions st ->
     md_unit d = match k with HistogramDuration => "ms" | _ => mp_unit params end) /\
  definitions st `prefix_of` definitions st1 /\ definitions st1 `prefix_of` definitions st2.
Proof.
  intros [Hm _]%run_meter H1 H2.
  destruct (create_name k params st) as (q & Hq & Hqn & Hqu). rewrite Hq in H1.
  destruct (create_name k' params' st1) as (q' & Hq' & Hqn' & _). rewrite Hq' in H2.
  pose proof (instrument_spec _ _ _ _ _ Hm H1) as (Hm1 & _ & _ & _ & Hp1 & (d & Hd & Hid & Hn & Hk) & _).
  pose proof (instrument_spec _ _ _ _ _ Hm1 H2) as (Hm2 & _ & _ & _ & Hp2 & (d' & Hd' & Hid' & Hn' & Hk') & _).
  assert (d ∈ definitions st2) as Hd2 by (destruct Hp2 as [? ->]; set_solver).
  assert (Hsame : mp_name params = mp_name params' /\ k = k' -> i_id i = i_id j /\ st2 = st1).
  { intros [He <-]. assert (instruments st1 !! (mp_name q', kind_number k) = Some (i_id i)) as Hx.
    { apply (mi_keys st1 Hm1). exists d. split_and!; congruence. }
    unfold instrument in H2. rewrite Hx in H2. by simplify_eq. }
  split; [split; [|intros Hs; by apply Hsame]|split; [intros Hs; by apply Hsame|]].
  - intros He. assert (d = d') as <- by (apply (definition_unique st2); [done..|congruence]).
    split; [congruence|]. apply kind_number_inj. congruence.
  - split; [exists d; by rewrite Hn, Hqn|]. split; [|done]. intros e He Hne.
    unfold instrument in H1. destruct (instruments st !! _); simplify_eq; [done|].
    simpl in He. apply elem_of_app in He as [He|He%list_elem_of_singleton]; [done|]. subst e. simpl.
    rewrite Hqu. by destruct k.
Qed.

Lemma extend_filter k kvs attribs :
  filter (fun e => kv_key e = k)
    (foldl (fun kvs attribute => filter (fun e => kv_key e <> kv_key attribute) kvs ++ [attribute]) kvs attribs) =
  match last (filter (fun e => kv_key e = k) attribs) with
  | Some e => [e]
  | None => filter (fun e => kv_key e = k) kvs
  end.
Proof.
  induction attribs as [|a attribs IH] using rev_ind; [done|].
  rewrite foldl_snoc, !filter_app, !filter_cons, !filter_nil, list_filter_filter.
  case_decide as Hk.
  - rewrite last_snoc, (list_filter_iff _ (fun _ => False)) by naive_solver.
    clear. by induction (foldl _ kvs attribs).
  - rewrite !app_nil_r. rewrite <- IH. apply list_filter_iff. intros x. split; [naive_solver|].
    intros <-. by split; [|congruence].
Qed.

Definition labels (a : MetricAttributes) : list KeyValue :=
  match a with OTel kvs => kvs | NotOTel => [] end.

(** Extending attributes overrides: for every key, the result has the last of the new labels with
    that key and nothing else, or, when there is none, exactly what was there before; so keys stay
    distinct, and the labels go out with the type they had. *)
Theorem extend_attributes_overrides existing attribs :
  let result := extend_attributes existing attribs in
  (forall k, filter (fun e => kv_key e = k) (labels result) =
     match last (filter (fun e => kv_key e = k) attribs) with
     | Some e => [e]
     | None => filter (fun e => kv_key e = k) (labels existing)
     end) /\
  (NoDup (kv_key <$> labels existing) -> NoDup (kv_key <$> labels result)) /\
  (fun a => (ma_key a, ma_value a)) <$> attributes_to_proto result =
    (fun e => (kv_key e, Some (label_to_proto (kv_value e)))) <$> labels result.
Proof.
  intros result. subst result. split; [|split].
  - intros k. unfold extend_attributes. cbn [labels]. by destruct existing; apply extend_filter.
  - unfold extend_attributes. cbn [labels].
    change (match existing with OTel kvs => kvs | NotOTel => [] end) with (labels existing).
    generalize (labels existing) as kvs. induction attribs as [|a attribs IH]; intros kvs Hn; [done|].
    cbn [foldl]. apply IH. rewrite fmap_app. apply NoDup_app. split; [|split].
    + clear IH. induction kvs as [|x kvs IH]; [constructor|]. cbn in Hn.
      apply NoDup_cons in Hn as [Hx Hn]. rewrite filter_cons. case_decide; [|by apply IH].
      cbn. constructor; [|by apply IH]. intros (y & Hy & Hin)%list_elem_of_fmap.
      apply list_elem_of_filter in Hin as [_ Hin]. apply Hx. rewrite Hy. by apply list_elem_of_fmap_2.
    + intros x (y & -> & [Hy _]%list_elem_of_filter)%list_elem_of_fmap.
      cbn. by intros ?%list_elem_of_singleton.
    + cbn. apply NoDup_singleton.
  - unfold extend_attributes. cbn [labels attributes_to_proto]. rewrite <- list_fmap_compose. done.
Qed.

(** The number in a reading that is one. *)
Definition number (r : reading) : Z :=
  match r with ReadU64 v | ReadI64 v | ReadDuration v => v | ReadF64 _ => 0 end.

(** C37 No reading is misread on the wire.  Each of the seven instruments accepts the reading of its
    kind, over the whole range of its Rust type: counters, gauges and histograms a [u64], which becomes
    a non-negative integer of the signed 64-bit field, exact if it fits and otherwise the field's
    largest; the float instruments an [f64], unchanged; the duration histogram a [Duration], as whole
    milliseconds rounded down, saturating likewise; the up-down counter an [i64], exact.  So nothing
    wraps, and of two readings of an instrument the larger is never sent as the smaller. *)
Theorem readings_saturate :
  (forall k u, k ∈ [Counter; Gauge; Histogram] -> fits 64 u ->
     exists n, encode_reading k (ReadU64 u) = Some (IntValue n) /\ 0 <= n <= I64_MAX /\
       (u <= I64_MAX -> n = u) /\ (I64_MAX < u -> n = I64_MAX)) /\
  (forall k x, k ∈ [GaugeF64; HistogramF64] -> encode_reading k (ReadF64 x) = Some (DoubleValue x)) /\
  (forall nanos, 0 <= nanos < 2 ^ 64 * 1000000000 ->
     exists n, encode_reading HistogramDuration (ReadDuration nanos) = Some (IntValue n) /\ 0 <= n <= I64_MAX /\
       (nanos < (I64_MAX + 1) * 1000000 -> n * 1000000 <= nanos < (n + 1) * 1000000) /\
       ((I64_MAX + 1) * 1000000 <= nanos -> n = I64_MAX)) /\
  (forall v, - 2 ^ 63 <= v <= I64_MAX -> encode_reading UpDownCounter (ReadI64 v) = Some (IntValue v)) /\
  (forall k r r' n n', encode_reading k r = Some (IntValue n) -> encode_reading k r' = Some (IntValue n') ->
     number r <= number r' -> n <= n').
Proof.
  split; [|split; [|split; [|split]]].
  - intros k u Hk Hu. exists (Z.min u I64_MAX). split; [|unfold fits, I64_MAX in *; lia].
    repeat (apply elem_of_cons in Hk as [->|Hk]; [done|]). by apply elem_of_nil in Hk.
  - intros k x Hk. repeat (apply elem_of_cons in Hk as [->|Hk]; [done|]). by apply elem_of_nil in Hk.
  - intros nanos Hn. exists (Z.min (nanos / 1000000) I64_MAX). split; [done|].
    assert (1000000 * (nanos / 1000000) <= nanos < 1000000 * (nanos / 1000000) + 1000000) as Hq.
    { pose proof (Z.div_mod nanos 1000000 ltac:(done)). pose proof (Z.mod_pos_bound nanos 1000000 ltac:(done)). lia. }
    unfold I64_MAX in *. lia.
  - done.
  - intros k r r' n n' H1 H2 Hle. destruct k, r, r'; cbn in H1, H2; unfold unsigned in *; simplify_eq/=; try lia.
    match type of Hle with ?a <= ?b => pose proof (Z.div_le_mono a b 1000000) end. lia.
Qed.

(** ** Retrieving batches *)

Section retrieve.
Context {F : Type} (to_json : F -> option string) (encode : MetricBatch -> list byte).

(** A record of Core's log buffer; the level as it prints. *)
Record CoreLog := { cl_target : string; cl_level : string; cl_message : string; cl_fields : F }.

(** The part of [RuntimeEntry] that metrics use, and Core's log buffer. *)
Record MeterRuntime := {
  metrics : option State;
  core_logs : list CoreLog;
  metric_batch : option (list byte);
}.

Definition log_to_proto (log : CoreLog) : outcome LogRecord :=
  fields ← expect (to_json (cl_fields log)) "log fields serialize as JSON";
  mret {| lr_target := cl_target log; lr_level := cl_level log; lr_message := cl_message log;
          lr_fields_json := fields |}.

(** [drain_metrics]. *)
Definition drain_metrics (rt : MeterRuntime) : outcome (MeterRuntime * MetricBatch) :=
  '(meter, batch) ←
    match metrics rt with
    | Some st => '(st', b) ← drain st; mret (Some st', b)
    | None => mret (None, batch_default)
    end;
  logs ← mapM log_to_proto (core_logs rt);
  mret ({| metrics := meter; core_logs := []; metric_batch := metric_batch rt |},
        {| mb_definitions := mb_definitions batch; mb_updates := mb_updates batch;
           mb_logs := mb_logs batch ++ logs |}).

Definition set_batch (b : option (list byte)) (rt : MeterRuntime) : MeterRuntime :=
  {| metrics := metrics rt; core_logs := core_logs rt; metric_batch := b |}.

Inductive mr_action :=
| MrCreate (k : InstrumentKind) (params : MetricParameters)
| MrRecord (i : Instrument) (value : MetricValue)
| MrLog (log : CoreLog)
| MrRetrieve (out : option (list byte)) (cap : Z) (out_len : option Z).

Inductive mr_event :=
| MrDrained (b : MetricBatch)
| MrReturned (r : KtResult unit) (out : option (list byte)) (out_len : option Z).

(** The retained batch, or a fresh one: [get_or_insert_with]. *)
Definition batch_bytes (rt : MeterRuntime) :
    outcome (MeterRuntime * list byte * list mr_event) :=
  match metric_batch rt with
  | Some bytes => mret (rt, bytes, [])
  | None =>
      '(rt', b) ← drain_metrics rt;
      mret (set_batch (Some (encode b)) rt', encode b, [MrDrained b])
  end.

(** [kt_runtime_retrieve_metrics], once the runtime is found. *)
Definition retrieve_metrics (rt : MeterRuntime) (out : option (list byte)) (cap : Z)
    (out_len : option Z) : outcome (MeterRuntime * list mr_event) :=
  '(rt', bytes, evs) ← batch_bytes rt;
  let '(r, out', len') := write_out bytes out cap out_len in
  mret (match r with Ok _ => set_batch None rt' | Err _ => rt' end, evs ++ [MrReturned r out' len']).

Definition on_meter (f : State -> State) (rt : MeterRuntime) : MeterRuntime :=
  {| metrics := f <$> metrics rt; core_logs := core_logs rt; metric_batch := metric_batch rt |}.

Definition mr_step (rt : MeterRuntime) (a : mr_action) : option (MeterRuntime * list mr_event) :=
  match a with
  | MrCreate k params => Some (on_meter (fun st => (create k params st).1) rt, [])
  | MrRecord i value => Some (on_meter (record i value) rt, [])
  | MrLog log =>
      Some ({| metrics := metrics rt; core_logs := core_logs rt ++ [log];
               metric_batch := metric_batch rt |}, [])
  | MrRetrieve out cap out_len =>
      match retrieve_metrics rt out cap out_len with
      | Done r => Some r
      | Panicked _ => None
      end
  end.

Definition mr_action_ok (rt : MeterRuntime) (a : mr_action) : Prop :=
  match a with
  | MrRecord i _ =>
      match metrics rt with
      | Some st => 1 <= i_id i <= Z.of_nat (length (definitions st))
      | None => False
      end
  | MrRetrieve _ cap _ => fits 32 cap
  | _ => True
  end.

Definition retrieve_step (rt : MeterRuntime) (l : mr_action * list mr_event) (rt' : MeterRuntime) : Prop :=
  mr_action_ok rt l.1 /\ mr_step rt l.1 = Some (rt', l.2).

Definition mr_events (ls : list (mr_action * list mr_event)) : list mr_event := ls ≫= snd.

(** The batches drained, and the bytes the calls that returned [Ok] left in their buffers. *)
Definition drained_batches (evs : list mr_event) : list MetricBatch :=
  omap (fun e => match e with MrDrained b => Some b | _ => None end) evs.
Definition delivered (evs : list mr_event) : list (list byte) :=
  omap (fun e => match e with
                 | MrReturned (Ok _) out (Some len) => Some (take (Z.to_nat len) (default [] out))
                 | _ => None
                 end) evs.

Definition runtime_new (buffer_metrics : bool) : MeterRuntime :=
  {| metrics := if buffer_metrics then Some state_default else None; core_logs := [];
     metric_batch := None |}.

Lemma write_out_room bytes buf cap l r out' len' :
  Z.of_nat (length bytes) <= cap -> write_out bytes (Some buf) cap (Some l) = (r, out', len') ->
  r = Ok tt.
Proof.
  intros Hc Hw. unfold write_out in Hw. rewrite decide_False in Hw by lia. by case_decide; simplify_eq.
Qed.

Lemma write_out_ok bytes out cap out_len r out' len' :
  fits 32 cap -> write_out bytes out cap out_len = (Ok r, out', len') ->
  exists n, len' = Some n /\ take (Z.to_nat n) (default [] out') = bytes.
Proof.
  intros Hc. unfold write_out. destruct out_len; [|done].
  case_decide as Hlen; [done|]. assert (u32 (Z.of_nat (length bytes)) = Z.of_nat (length bytes)) as ->.
  { apply wrap_small. unfold fits in *. lia. }
  case_decide as Hb; [intros [= <- <- <-]; eexists; split; [done|]; by rewrite Hb|].
  destruct out as [buf|]; intros [= <- <- <-]. eexists. split; [done|]. simpl.
  rewrite copy_out_whole, Nat2Z.id. by rewrite take_app_length.
Qed.

Context (to_json_total : forall f, is_Some (to_json f)).

Lemma drain_metrics_done rt :
  (forall st, metrics rt = Some st -> meter_inv st) ->
  exists rt' b, drain_metrics rt = Done (rt', b) /\ metric_batch rt' = metric_batch rt /\
    (forall st, metrics rt' = Some st -> meter_inv st).
Proof.
  intros Hm. destruct (mapM_done log_to_proto (core_logs rt)) as (logs & Hl & _).
  { intros log _. destruct (to_json_total (cl_fields log)) as [s Hs]. unfold log_to_proto. rewrite Hs.
    by eexists. }
  unfold drain_metrics. destruct (metrics rt) as [st|] eqn:E.
  - destruct (drain_spec st (Hm st eq_refl)) as (st' & b & -> & Hi & _).
    cbn [mbind outcome_bind mret outcome_ret]. rewrite Hl.
    eexists _, _. split; [done|]. split; [done|]. by intros s [= <-].
  - cbn [mbind outcome_bind mret outcome_ret]. rewrite Hl. by eexists _, _.
Qed.

Lemma retrieve_step_inv rt l rt' :
  (forall st, metrics rt = Some st -> meter_inv st) -> retrieve_step rt l rt' ->
  (forall st, metrics rt' = Some st -> meter_inv st) /\
  delivered l.2 ++ option_list (metric_batch rt') =
    option_list (metric_batch rt) ++ (encode <$> drained_batches l.2).
Proof.
  destruct l as [a evs]. intros Hm [Hok Hs]. cbn [fst snd] in *.
  destruct a as [k params|i value|log|out cap out_len]; cbn in Hs, Hok.
  - simplify_eq. split; [|simpl; by rewrite app_nil_r]. intros st. simpl.
    intros (s & Hs & ->)%fmap_Some. destruct (create k params s) as [s' i] eqn:E.
    unfold create in E. by destruct (instrument_spec _ _ _ _ _ (Hm s Hs) E).
  - simplify_eq. split; [|simpl; by rewrite app_nil_r]. intros st. simpl.
    intros (s & Hs & ->)%fmap_Some. rewrite Hs in Hok. apply record_inv; auto.
  - simplify_eq. split; [done|]. simpl. by rewrite app_nil_r.
  - destruct (retrieve_metrics rt out cap out_len) as [[s es]|] eqn:E; simplify_eq.
    assert (Hb : exists rt1 bytes es, batch_bytes rt = Done (rt1, bytes, es) /\
      metric_batch rt1 = Some bytes /\ (forall st, metrics rt1 = Some st -> meter_inv st) /\
      option_list (metric_batch rt) ++ (encode <$> drained_batches es) = [bytes] /\ delivered es = []).
    { unfold batch_bytes. destruct (metric_batch rt) as [bytes|] eqn:Hbt; [by eexists _, _, _|].
      destruct (drain_metrics_done rt Hm) as (rt1 & b & -> & _ & Hi). by eexists _, _, _. }
    destruct Hb as (rt1 & bytes & es & Hb & Hbt & Hi & Heq & Hde).
    unfold retrieve_metrics in E. rewrite Hb in E. cbn [mbind outcome_bind] in E.
    destruct (write_out bytes out cap out_len) as [[r out'] len'] eqn:Ew.
    injection E as <- <-. split; [by destruct r|].
    assert (drained_batches (es ++ [MrReturned r out' len']) = drained_batches es) as ->.
    { unfold drained_batches. rewrite omap_app. cbn. by rewrite app_nil_r. }
    rewrite Heq. unfold delivered. rewrite omap_app. fold (delivered es). rewrite Hde. cbn [app].
    destruct r as [u|e]; [|cbn; by rewrite Hbt].
    destruct (write_out_ok bytes out cap out_len u out' len' Hok Ew) as (n & -> & Ht). cbn. by rewrite Ht.
Qed.

Lemma run_retrieve buffer ls rt :
  run retrieve_step (runtime_new buffer) ls rt ->
  (forall st, metrics rt = Some st -> meter_inv st) /\
  delivered (mr_events ls) ++ option_list (metric_batch rt) = encode <$> drained_batches (mr_events ls).
Proof.
  revert ls rt. apply (run_invariant retrieve_step (fun ls rt =>
    (forall st, metrics rt = Some st -> meter_inv st) /\
    delivered (mr_events ls) ++ option_list (metric_batch rt) = encode <$> drained_batches (mr_events ls))).
  - split; [|done]. intros st. destruct buffer; simpl; [intros [= <-]; apply state_default_inv|done].
  - intros ls rt l rt' _ [Hm He] Hs. destruct (retrieve_step_inv rt l rt' Hm Hs) as [Hm' He'].
    split; [done|]. unfold mr_events, delivered, drained_batches in *. rewrite bind_app. simpl.
    rewrite app_nil_r, !omap_app, fmap_app, <- He, <- !app_assoc. by rewrite He'.
Qed.

(** C21 No batch is lost to a buffer that is too small and none is delivered twice: over any run, the
    bytes the successful retrievals left in their buffers are the encodings of the batches drained,
    each once, in order, except the last drained one while it is retained for a retry; a failed
    retrieval changes nothing but drains a fresh batch if none is retained; and a retrieval with
    room for its bytes, those of the retained batch or of the fresh one, always succeeds. *)
Theorem batches_survive_retries buffer ls rt :
  run retrieve_step (runtime_new buffer) ls rt ->
  delivered (mr_events ls) ++ option_list (metric_batch rt) = encode <$> drained_batches (mr_events ls) /\
  forall out cap len, exists rt' evs r out' len',
    retrieve_metrics rt out cap len = Done (rt', evs ++ [MrReturned r out' len']) /\
    (evs = [] <-> is_Some (metric_batch rt)) /\
    (is_err r = true -> is_Some (metric_batch rt) -> rt' = rt) /\
    (forall bytes buf l, metric_batch rt = Some bytes -> out = Some buf -> len = Some l ->
      Z.of_nat (length bytes) <= cap -> r = Ok tt /\ metric_batch rt' = None) /\
    (forall rt1 bytes evs1 buf l, batch_bytes rt = Done (rt1, bytes, evs1) -> out = Some buf -> len = Some l ->
      Z.of_nat (length bytes) <= cap -> r = Ok tt /\ metric_batch rt' = None).
Proof.
  intros [Hm He]%run_retrieve. split; [done|]. intros out cap len.
  unfold retrieve_metrics, batch_bytes. destruct (metric_batch rt) as [bytes|] eqn:Hb.
  - cbn [mbind outcome_bind mret outcome_ret].
    destruct (write_out bytes out cap len) as [[r out'] len'] eqn:Ew.
    exists (match r with Ok _ => set_batch None rt | Err _ => rt end), [], r, out', len'.
    split; [done|]. split; [by split; eauto|]. split; [by destruct r|].
    split; [intros bs buf l [= <-]|intros rt1 bs evs1 buf l [= _ <- _]]; intros -> -> Hc;
      by rewrite (write_out_room bytes buf cap l r out' len' Hc Ew).
  - destruct (drain_metrics_done rt Hm) as (rt1 & b & -> & _). cbn [mbind outcome_bind mret outcome_ret].
    destruct (write_out (encode b) out cap len) as [[r out'] len'] eqn:Ew.
    eexists _, [MrDrained b], r, out', len'. split; [done|].
    split; [split; [done|by intros [? ?]]|]. split; [by intros _ [? ?]|]. split; [done|].
    intros rt2 bs evs1 buf l [= _ <- _] -> -> Hc.
    by rewrite (write_out_room (encode b) buf cap l r out' len' Hc Ew).
Qed.
End retrieve.

(** ** Witnesses *)

Definition params_of (name : string) : MetricParameters :=
  {| mp_name := name; mp_description := "a metric"; mp_unit := "1" |}.

Definition sample_meter_schedule : list maction :=
  [MCreate Counter (params_of "requests"); MCreate HistogramDuration (params_of "latency");
   MRecord {| i_id := 2; i_attributes := NotOTel |} (IntValue 12);
   MRecord {| i_id := 1; i_attributes := new_attributes [{| kv_key := "k"; kv_value := LBool true |}] |} (IntValue 1)].

Definition sample_meter : State := default state_default (fst <$> exec mstep state_default sample_meter_schedule).
Definition sample_meter_trace : list (maction * list mevent) :=
  default [] (snd <$> exec mstep state_default sample_meter_schedule).

Lemma sample_meter_run : run meter_step state_default sample_meter_trace sample_meter.
Proof.
  apply (exec_run mstep maction_ok state_default sample_meter_schedule).
  - vm_compute. repeat split; discriminate.
  - vm_compute. reflexivity.
Qed.

Lemma metrics_window_delivered_witness :
  exists st' b, drain sample_meter = Done (st', b) /\
    mu_value <$> mb_updates b = [Some (IntValue 12); Some (IntValue 1)] /\ mb_logs b = [] /\
    updates st' = [].
Proof.
  destruct (metrics_window_delivered sample_meter_trace sample_meter sample_meter_run)
    as (st' & b & Hd & Hu & Hl & _ & _ & _ & _ & He & _).
  exists st', b. split; [exact Hd|]. split; [|split; [|exact He]].
  - rewrite Hu. vm_compute. reflexivity.
  - rewrite Hl; vm_compute; reflexivity.
Defined.

Lemma instrument_identity_witness :
  let '(st1, i) := create HistogramDuration (params_of "wait") sample_meter in
  let '(st2, j) := create HistogramDuration (params_of "wait") st1 in
  i_id i = i_id j /\ st2 = st1 /\ i_id i = 3.
Proof.
  destruct (create HistogramDuration (params_of "wait") sample_meter) as [st1 i] eqn:E1.
  destruct (create HistogramDuration (params_of "wait") st1) as [st2 j] eqn:E2.
  destruct (instrument_identity _ _ _ _ _ _ _ _ _ _ sample_meter_run E1 E2) as (H1 & H2 & _).
  split; [by apply H1|]. split; [by apply H2|].
  assert (i_id (create HistogramDuration (params_of "wait") sample_meter).2 = 3) as H3 by (vm_compute; reflexivity).
  rewrite E1 in H3. exact H3.
Defined.

Lemma readings_saturate_witness :
  encode_reading Gauge (ReadU64 (2 ^ 64 - 1)) = Some (IntValue I64_MAX) /\
  encode_reading UpDownCounter (ReadI64 (-2)) = Some (IntValue (-2)) /\
  exists n, encode_reading HistogramDuration (ReadDuration 1234567890) = Some (IntValue n) /\
    n * 1000000 <= 1234567890 < (n + 1) * 1000000.
Proof.
  destruct readings_saturate as (Hu & _ & Hd & Hi & _). split; [|split].
  - destruct (Hu Gauge (2 ^ 64 - 1)) as (n & He & _ & _ & Hn); [right; left|split; vm_compute; congruence|].
    rewrite He. do 2 f_equal. apply Hn. vm_compute. reflexivity.
  - apply Hi. split; vm_compute; discriminate.
  - destruct (Hd 1234567890) as (n & He & _ & Hn & _); [split; vm_compute; congruence|].
    exists n. split; [exact He|]. apply Hn. vm_compute. reflexivity.
Defined.

(** A runtime whose logs have no fields, and an encoder that gives two bytes an update. *)
Definition no_fields (_ : unit) : option string := Some "{}".
Definition two_bytes (b : MetricBatch) : list byte := replicate (2 * length (mb_updates b)) x00.

Definition sample_retrievals : list mr_action :=
  [MrCreate Counter (params_of "requests"); MrRecord {| i_id := 1; i_attributes := NotOTel |} (IntValue 5);
   MrRetrieve (Some (replicate 2 xff)) 1 (Some 0);
   MrRecord {| i_id := 1; i_attributes := NotOTel |} (IntValue 6);
   MrLog {| cl_target := "core"; cl_level := "WARN"; cl_message := "m"; cl_fields := tt |}].

Definition sample_retriever : MeterRuntime :=
  default (runtime_new true) (fst <$> exec (mr_step no_fields two_bytes) (runtime_new true) sample_retrievals).
Definition sample_retrieve_trace : list (mr_action * list mr_event) :=
  default [] (snd <$> exec (mr_step no_fields two_bytes) (runtime_new true) sample_retrievals).

Lemma sample_retrieve_run :
  run (retrieve_step no_fields two_bytes) (runtime_new true) sample_retrieve_trace sample_retriever.
Proof.
  apply (exec_run (mr_step no_fields two_bytes) mr_action_ok (runtime_new true) sample_retrievals).
  - vm_compute. repeat split; discriminate.
  - vm_compute. reflexivity.
Qed.

Lemma batches_survive_retries_witness :
  metric_batch sample_retriever = Some [x00; x00] /\
  delivered (mr_events sample_retrieve_trace) ++ option_list (metric_batch sample_retriever) =
    two_bytes <$> drained_batches (mr_events sample_retrieve_trace) /\
  exists rt' evs r out' len',
    retrieve_metrics no_fields two_bytes sample_retriever (Some (replicate 2 xff)) 2 (Some 0) =
      Done (rt', evs ++ [MrReturned r out' len']) /\ r = Ok tt /\ metric_batch rt' = None.
Proof.
  destruct (batches_survive_retries no_fields two_bytes ltac:(by eexists) true _ _ sample_retrieve_run) as [H1 H2].
  split; [vm_compute; reflexivity|]. split; [exact H1|].
  destruct (H2 (Some (replicate 2 xff)) 2 (Some 0)) as (rt' & evs & r & out' & len' & Hr & _ & _ & Hok & _).
  exists rt', evs, r, out', len'. split; [exact Hr|].
  apply (Hok [x00; x00] (replicate 2 xff) 0); [vm_compute; reflexivity|reflexivity|reflexivity|vm_compute; discriminate].
Defined.
