(* ===== verification/Services.v ===== *)
(** The gRPC services as the protocol files under [src/protos] declare them: each RPC with the name
    of its request message, in the order of declaration.  [Rpc.v] states against these lists which
    RPCs the bridge can reach. *)

From S2P Require Import Prelude.

(** [temporal/api/workflowservice/v1/service.proto]. *)
Definition workflow_proto : list (string * string) :=
  [("RegisterNamespace", "RegisterNamespaceRequest");
   ("DescribeNamespace", "DescribeNamespaceRequest");
   ("ListNamespaces", "ListNamespacesRequest");
   ("UpdateNamespace", "UpdateNamespaceRequest");
   ("DeprecateNamespace", "DeprecateNamespaceRequest");
   ("StartWorkflowExecution", "StartWorkflowExecutionRequest");
   ("ExecuteMultiOperation", "ExecuteMultiOperationRequest");
   ("GetWorkflowExecutionHistory", "GetWorkflowExecutionHistoryRequest");
   ("GetWorkflowExecutionHistoryReverse", "GetWorkflowExecutionHistoryReverseRequest");
   ("PollWorkflowTaskQueue", "PollWorkflowTaskQueueRequest");
   ("RespondWorkflowTaskCompleted", "RespondWorkflowTaskCompletedRequest");
   ("RespondWorkflowTaskFailed", "RespondWorkflowTaskFailedRequest");
   ("PollActivityTaskQueue", "PollActivityTaskQueueRequest");
   ("RecordActivityTaskHeartbeat", "RecordActivityTaskHeartbeatRequest");
   ("RecordActivityTaskHeartbeatById", "RecordActivityTaskHeartbeatByIdRequest");
   ("RespondActivityTaskCompleted", "RespondActivityTaskCompletedRequest");
   ("RespondActivityTaskCompletedById", "RespondActivityTaskCompletedByIdRequest");
   ("RespondActivityTaskFailed", "RespondActivityTaskFailedRequest");
   ("RespondActivityTaskFailedById", "RespondActivityTaskFailedByIdRequest");
   ("RespondActivityTaskCanceled", "RespondActivityTaskCanceledRequest");
   ("RespondActivityTaskCanceledById", "RespondActivityTaskCanceledByIdRequest");
   ("RequestCancelWorkflowExecution", "RequestCancelWorkflowExecutionRequest");
   ("SignalWorkflowExecution", "SignalWorkflowExecutionRequest");
   ("SignalWithStartWorkflowExecution", "SignalWithStartWorkflowExecutionRequest");
   ("ResetWorkflowExecution", "ResetWorkflowExecutionRequest");
   ("TerminateWorkflowExecution", "TerminateWorkflowExecutionRequest");
   ("DeleteWorkflowExecution", "DeleteWorkflowExecutionRequest");
   ("ListOpenWorkflowExecutions", "ListOpenWorkflowExecutionsRequest");
   ("ListClosedWorkflowExecutions", "ListClosedWorkflowExecutionsRequest");
   ("ListWorkflowExecutions", "ListWorkflowExecutionsRequest");
   ("ListArchivedWorkflowExecutions", "ListArchivedWorkflowExecutionsRequest");
   ("ScanWorkflowExecutions", "ScanWorkflowExecutionsRequest");
   ("CountWorkflowExecutions", "CountWorkflowExecutionsRequest");
   ("GetSearchAttributes", "GetSearchAttributesRequest");
   ("RespondQueryTaskCompleted", "RespondQueryTaskCompletedRequest");
   ("ResetStickyTaskQueue", "ResetStickyTaskQueueRequest");
   ("ShutdownWorker", "ShutdownWorkerRequest");
   ("QueryWorkflow", "QueryWorkflowRequest");
   ("DescribeWorkflowExecution", "DescribeWorkflowExecutionRequest");
   ("DescribeTaskQueue", "DescribeTaskQueueRequest");
   ("GetClusterInfo", "GetClusterInfoRequest");
   ("GetSystemInfo", "GetSystemInfoRequest");
   ("ListTaskQueuePartitions", "ListTaskQueuePartitionsRequest");
   ("CreateSchedule", "CreateScheduleRequest");
   ("DescribeSchedule", "DescribeScheduleRequest");
   ("UpdateSchedule", "UpdateScheduleRequest");
   ("PatchSchedule", "PatchScheduleRequest");
   ("ListScheduleMatchingTimes", "ListScheduleMatchingTimesRequest");
   ("DeleteSchedule", "DeleteScheduleRequest");
   ("ListSchedules", "ListSchedulesRequest");
   ("CountSchedules", "CountSchedulesRequest");
   ("UpdateWorkerBuildIdCompatibility", "UpdateWorkerBuildIdCompatibilityRequest");
   ("GetWorkerBuildIdCompatibility", "GetWorkerBuildIdCompatibilityRequest");
   ("UpdateWorkerVersioningRules", "UpdateWorkerVersioningRulesRequest");
   ("GetWorkerVersioningRules", "GetWorkerVersioningRulesRequest");
   ("GetWorkerTaskReachability", "GetWorkerTaskReachabilityRequest");
   ("DescribeDeployment", "DescribeDeploymentRequest");
   ("DescribeWorkerDeploymentVersion", "DescribeWorkerDeploymentVersionRequest");
   ("ListDeployments", "ListDeploymentsRequest");
   ("GetDeploymentReachability", "GetDeploymentReachabilityRequest");
   ("GetCurrentDeployment", "GetCurrentDeploymentRequest");
   ("SetCurrentDeployment", "SetCurrentDeploymentRequest");
   ("SetWorkerDeploymentCurrentVersion", "SetWorkerDeploymentCurrentVersionRequest");
   ("DescribeWorkerDeployment", "DescribeWorkerDeploymentRequest");
   ("DeleteWorkerDeployment", "DeleteWorkerDeploymentRequest");
   ("DeleteWorkerDeploymentVersion", "DeleteWorkerDeploymentVersionRequest");
   ("SetWorkerDeploymentRampingVersion", "SetWorkerDeploymentRampingVersionRequest");
   ("ListWorkerDeployments", "ListWorkerDeploymentsRequest");
   ("CreateWorkerDeployment", "CreateWorkerDeploymentRequest");
   ("CreateWorkerDeploymentVersion", "CreateWorkerDeploymentVersionRequest");
   ("UpdateWorkerDeploymentVersionComputeConfig", "UpdateWorkerDeploymentVersionComputeConfigRequest");
   ("ValidateWorkerDeploymentVersionComputeConfig", "ValidateWorkerDeploymentVersionComputeConfigRequest");
   ("UpdateWorkerDeploymentVersionMetadata", "UpdateWorkerDeploymentVersionMetadataRequest");
   ("SetWorkerDeploymentManager", "SetWorkerDeploymentManagerRequest");
   ("UpdateWorkflowExecution", "UpdateWorkflowExecutionRequest");
   ("PollWorkflowExecutionUpdate", "PollWorkflowExecutionUpdateRequest");
   ("StartBatchOperation", "StartBatchOperationRequest");
   ("StopBatchOperation", "StopBatchOperationRequest");
   ("DescribeBatchOperation", "DescribeBatchOperationRequest");
   ("ListBatchOperations", "ListBatchOperationsRequest");
   ("PollNexusTaskQueue", "PollNexusTaskQueueRequest");
   ("RespondNexusTaskCompleted", "RespondNexusTaskCompletedRequest");
   ("RespondNexusTaskFailed", "RespondNexusTaskFailedRequest");
   ("UpdateActivityOptions", "UpdateActivityOptionsRequest");
   ("UpdateWorkflowExecutionOptions", "UpdateWorkflowExecutionOptionsRequest");
   ("PauseActivity", "PauseActivityRequest");
   ("UnpauseActivity", "UnpauseActivityRequest");
   ("ResetActivity", "ResetActivityRequest");
   ("CreateWorkflowRule", "CreateWorkflowRuleRequest");
   ("DescribeWorkflowRule", "DescribeWorkflowRuleRequest");
   ("DeleteWorkflowRule", "DeleteWorkflowRuleRequest");
   ("ListWorkflowRules", "ListWorkflowRulesRequest");
   ("TriggerWorkflowRule", "TriggerWorkflowRuleRequest");
   ("RecordWorkerHeartbeat", "RecordWorkerHeartbeatRequest");
   ("ListWorkers", "ListWorkersRequest");
   ("CountWorkers", "CountWorkersRequest");
   ("UpdateTaskQueueConfig", "UpdateTaskQueueConfigRequest");
   ("FetchWorkerConfig", "FetchWorkerConfigRequest");
   ("UpdateWorkerConfig", "UpdateWorkerConfigRequest");
   ("DescribeWorker", "DescribeWorkerRequest");
   ("PauseWorkflowExecution", "PauseWorkflowExecutionRequest");
   ("UnpauseWorkflowExecution", "UnpauseWorkflowExecutionRequest");
   ("StartActivityExecution", "StartActivityExecutionRequest");
   ("StartNexusOperationExecution", "StartNexusOperationExecutionRequest");
   ("DescribeActivityExecution", "DescribeActivityExecutionRequest");
   ("DescribeNexusOperationExecution", "DescribeNexusOperationExecutionRequest");
   ("PollActivityExecution", "PollActivityExecutionRequest");
   ("PollNexusOperationExecution", "PollNexusOperationExecutionRequest");
   ("ListActivityExecutions", "ListActivityExecutionsRequest");
   ("ListNexusOperationExecutions", "ListNexusOperationExecutionsRequest");
   ("CountActivityExecutions", "CountActivityExecutionsRequest");
   ("CountNexusOperationExecutions", "CountNexusOperationExecutionsRequest");
   ("RequestCancelActivityExecution", "RequestCancelActivityExecutionRequest");
   ("RequestCancelNexusOperationExecution", "RequestCancelNexusOperationExecutionRequest");
   ("TerminateActivityExecution", "TerminateActivityExecutionRequest");
   ("DeleteActivityExecution", "DeleteActivityExecutionRequest");
   ("PauseActivityExecution", "PauseActivityExecutionRequest");
   ("ResetActivityExecution", "ResetActivityExecutionRequest");
   ("UnpauseActivityExecution", "UnpauseActivityExecutionRequest");
   ("UpdateActivityExecutionOptions", "UpdateActivityExecutionOptionsRequest");
   ("TerminateNexusOperationExecution", "TerminateNexusOperationExecutionRequest");
   ("DeleteNexusOperationExecution", "DeleteNexusOperationExecutionRequest");
   ("PollWorkflowExecutionTimeSkipping", "PollWorkflowExecutionTimeSkippingRequest")].

(** [temporal/api/operatorservice/v1/service.proto]. *)
Definition operator_proto : list (string * string) :=
  [("AddSearchAttributes", "AddSearchAttributesRequest");
   ("RemoveSearchAttributes", "RemoveSearchAttributesRequest");
   ("ListSearchAttributes", "ListSearchAttributesRequest");
   ("DeleteNamespace", "DeleteNamespaceRequest");
   ("AddOrUpdateRemoteCluster", "AddOrUpdateRemoteClusterRequest");
   ("RemoveRemoteCluster", "RemoveRemoteClusterRequest");
   ("ListClusters", "ListClustersRequest");
   ("GetNexusEndpoint", "GetNexusEndpointRequest");
   ("CreateNexusEndpoint", "CreateNexusEndpointRequest");
   ("UpdateNexusEndpoint", "UpdateNexusEndpointRequest");
   ("DeleteNexusEndpoint", "DeleteNexusEndpointRequest");
   ("ListNexusEndpoints", "ListNexusEndpointsRequest")].

(** [temporal/api/testservice/v1/service.proto]; [GetCurrentTime] takes [google.protobuf.Empty]. *)
Definition test_proto : list (string * string) :=
  [("LockTimeSkipping", "LockTimeSkippingRequest");
   ("UnlockTimeSkipping", "UnlockTimeSkippingRequest");
   ("Sleep", "SleepRequest");
   ("SleepUntil", "SleepUntilRequest");
   ("UnlockTimeSkippingWithSleep", "SleepRequest");
   ("GetCurrentTime", "Empty")].
