(* ===== verification/Rpc.v ===== *)
(** Raw gRPC dispatch ([rpc.rs]).

    The tables of the [dispatch!] macro are data; a call finds its arm by name, decodes the request
    at the arm's type, calls the client's method under the deadline and encodes what comes back.
    The generated client, prost's encoding and the request types are parameters.  A [Future] is when
    it is ready, in milliseconds from now, if ever, and its output; awaiting one that is never ready
    has no result ([None]). *)

From S2P Require Import Prelude Abi KtError Services.

(** ** Data *)

Inductive Service := Workflow | Operator | Test.

#[export] Instance Service_eq_dec : EqDecision Service.
Proof. solve_decision. Defined.

(** [Service::from_u32]; [other] prints in decimal. *)
Definition from_u32 (value : Z) : KtResult Service :=
  if decide (value = 0) then Ok Workflow
  else if decide (value = 1) then Ok Operator
  else if decide (value = 2) then Ok Test
  else Err (InvalidArgument ("unknown service " +:+ pretty value)).

(** The discriminant of [#[repr(u32)]]. *)
Definition service_number (s : Service) : Z :=
  match s with Workflow => 0 | Operator => 1 | Test => 2 end.

Record RpcOutcome := { payload : list byte; status_code : Z; message : string }.

(** [kt_bridge.RpcFailure]. *)
Record RpcFailure := { f_message : string; f_details : list byte }.

(** An arm of [dispatch!]: the name, the client's method, the request's type. *)
Record RpcEntry := { rpc_name : string; rpc_method : string; rpc_request : string }.
Definition rpc (name method request : string) : RpcEntry :=
  {| rpc_name := name; rpc_method := method; rpc_request := request |}.

(** The table of [call_workflow_service]. *)
Definition workflow_service : list RpcEntry :=
  [rpc "RegisterNamespace" "register_namespace" "RegisterNamespaceRequest";
   rpc "DescribeNamespace" "describe_namespace" "DescribeNamespaceRequest";
   rpc "ListNamespaces" "list_namespaces" "ListNamespacesRequest";
   rpc "UpdateNamespace" "update_namespace" "UpdateNamespaceRequest";
   rpc "DeprecateNamespace" "deprecate_namespace" "DeprecateNamespaceRequest";
   rpc "StartWorkflowExecution" "start_workflow_execution" "StartWorkflowExecutionRequest";
   rpc "GetWorkflowExecutionHistory" "get_workflow_execution_history" "GetWorkflowExecutionHistoryRequest";
   rpc "GetWorkflowExecutionHistoryReverse" "get_workflow_execution_history_reverse" "GetWorkflowExecutionHistoryReverseRequest";
   rpc "PollWorkflowTaskQueue" "poll_workflow_task_queue" "PollWorkflowTaskQueueRequest";
   rpc "RespondWorkflowTaskCompleted" "respond_workflow_task_completed" "RespondWorkflowTaskCompletedRequest";
   rpc "RespondWorkflowTaskFailed" "respond_workflow_task_failed" "RespondWorkflowTaskFailedRequest";
   rpc "PollActivityTaskQueue" "poll_activity_task_queue" "PollActivityTaskQueueRequest";
   rpc "RecordActivityTaskHeartbeat" "record_activity_task_heartbeat" "RecordActivityTaskHeartbeatRequest";
   rpc "RecordActivityTaskHeartbeatById" "record_activity_task_heartbeat_by_id" "RecordActivityTaskHeartbeatByIdRequest";
   rpc "RespondActivityTaskCompleted" "respond_activity_task_completed" "RespondActivityTaskCompletedRequest";
   rpc "RespondActivityTaskCompletedById" "respond_activity_task_completed_by_id" "RespondActivityTaskCompletedByIdRequest";
   rpc "RespondActivityTaskFailed" "respond_activity_task_failed" "RespondActivityTaskFailedRequest";
   rpc "RespondActivityTaskFailedById" "respond_activity_task_failed_by_id" "RespondActivityTaskFailedByIdRequest";
   rpc "RespondActivityTaskCanceled" "respond_activity_task_canceled" "RespondActivityTaskCanceledRequest";
   rpc "RespondActivityTaskCanceledById" "respond_activity_task_canceled_by_id" "RespondActivityTaskCanceledByIdRequest";
   rpc "RequestCancelWorkflowExecution" "request_cancel_workflow_execution" "RequestCancelWorkflowExecutionRequest";
   rpc "SignalWorkflowExecution" "signal_workflow_execution" "SignalWorkflowExecutionRequest";
   rpc "SignalWithStartWorkflowExecution" "signal_with_start_workflow_execution" "SignalWithStartWorkflowExecutionRequest";
   rpc "ResetWorkflowExecution" "reset_workflow_execution" "ResetWorkflowExecutionRequest";
   rpc "TerminateWorkflowExecution" "terminate_workflow_execution" "TerminateWorkflowExecutionRequest";
   rpc "DeleteWorkflowExecution" "delete_workflow_execution" "DeleteWorkflowExecutionRequest";
   rpc "ListOpenWorkflowExecutions" "list_open_workflow_executions" "ListOpenWorkflowExecutionsRequest";
   rpc "ListClosedWorkflowExecutions" "list_closed_workflow_executions" "ListClosedWorkflowExecutionsRequest";
   rpc "ListWorkflowExecutions" "list_workflow_executions" "ListWorkflowExecutionsRequest";
   rpc "ListArchivedWorkflowExecutions" "list_archived_workflow_executions" "ListArchivedWorkflowExecutionsRequest";
   rpc "ScanWorkflowExecutions" "scan_workflow_executions" "ScanWorkflowExecutionsRequest";
   rpc "CountWorkflowExecutions" "count_workflow_executions" "CountWorkflowExecutionsRequest";
   rpc "CreateWorkflowRule" "create_workflow_rule" "CreateWorkflowRuleRequest";
   rpc "DescribeWorkflowRule" "describe_workflow_rule" "DescribeWorkflowRuleRequest";
   rpc "DeleteWorkflowRule" "delete_workflow_rule" "DeleteWorkflowRuleRequest";
   rpc "ListWorkflowRules" "list_workflow_rules" "ListWorkflowRulesRequest";
   rpc "TriggerWorkflowRule" "trigger_workflow_rule" "TriggerWorkflowRuleRequest";
   rpc "GetSearchAttributes" "get_search_attributes" "GetSearchAttributesRequest";
   rpc "RespondQueryTaskCompleted" "respond_query_task_completed" "RespondQueryTaskCompletedRequest";
   rpc "ResetStickyTaskQueue" "reset_sticky_task_queue" "ResetStickyTaskQueueRequest";
   rpc "QueryWorkflow" "query_workflow" "QueryWorkflowRequest";
   rpc "DescribeWorkflowExecution" "describe_workflow_execution" "DescribeWorkflowExecutionRequest";
   rpc "DescribeTaskQueue" "describe_task_queue" "DescribeTaskQueueRequest";
   rpc "GetClusterInfo" "get_cluster_info" "GetClusterInfoRequest";
   rpc "GetSystemInfo" "get_system_info" "GetSystemInfoRequest";
   rpc "ListTaskQueuePartitions" "list_task_queue_partitions" "ListTaskQueuePartitionsRequest";
   rpc "CreateSchedule" "create_schedule" "CreateScheduleRequest";
   rpc "DescribeSchedule" "describe_schedule" "DescribeScheduleRequest";
   rpc "UpdateSchedule" "update_schedule" "UpdateScheduleRequest";
   rpc "PatchSchedule" "patch_schedule" "PatchScheduleRequest";
   rpc "ListScheduleMatchingTimes" "list_schedule_matching_times" "ListScheduleMatchingTimesRequest";
   rpc "DeleteSchedule" "delete_schedule" "DeleteScheduleRequest";
   rpc "ListSchedules" "list_schedules" "ListSchedulesRequest";
   rpc "CountSchedules" "count_schedules" "CountSchedulesRequest";
   rpc "UpdateWorkerBuildIdCompatibility" "update_worker_build_id_compatibility" "UpdateWorkerBuildIdCompatibilityRequest";
   rpc "GetWorkerBuildIdCompatibility" "get_worker_build_id_compatibility" "GetWorkerBuildIdCompatibilityRequest";
   rpc "GetWorkerTaskReachability" "get_worker_task_reachability" "GetWorkerTaskReachabilityRequest";
   rpc "UpdateWorkflowExecution" "update_workflow_execution" "UpdateWorkflowExecutionRequest";
   rpc "PollWorkflowExecutionUpdate" "poll_workflow_execution_update" "PollWorkflowExecutionUpdateRequest";
   rpc "StartBatchOperation" "start_batch_operation" "StartBatchOperationRequest";
   rpc "StopBatchOperation" "stop_batch_operation" "StopBatchOperationRequest";
   rpc "DescribeBatchOperation" "describe_batch_operation" "DescribeBatchOperationRequest";
   rpc "DescribeDeployment" "describe_deployment" "DescribeDeploymentRequest";
   rpc "ListBatchOperations" "list_batch_operations" "ListBatchOperationsRequest";
   rpc "ListDeployments" "list_deployments" "ListDeploymentsRequest";
   rpc "ExecuteMultiOperation" "execute_multi_operation" "ExecuteMultiOperationRequest";
   rpc "GetCurrentDeployment" "get_current_deployment" "GetCurrentDeploymentRequest";
   rpc "GetDeploymentReachability" "get_deployment_reachability" "GetDeploymentReachabilityRequest";
   rpc "GetWorkerVersioningRules" "get_worker_versioning_rules" "GetWorkerVersioningRulesRequest";
   rpc "UpdateWorkerVersioningRules" "update_worker_versioning_rules" "UpdateWorkerVersioningRulesRequest";
   rpc "PollNexusTaskQueue" "poll_nexus_task_queue" "PollNexusTaskQueueRequest";
   rpc "RespondNexusTaskCompleted" "respond_nexus_task_completed" "RespondNexusTaskCompletedRequest";
   rpc "RespondNexusTaskFailed" "respond_nexus_task_failed" "RespondNexusTaskFailedRequest";
   rpc "SetCurrentDeployment" "set_current_deployment" "SetCurrentDeploymentRequest";
   rpc "ShutdownWorker" "shutdown_worker" "ShutdownWorkerRequest";
   rpc "UpdateActivityOptions" "update_activity_options" "UpdateActivityOptionsRequest";
   rpc "PauseActivity" "pause_activity" "PauseActivityRequest";
   rpc "UnpauseActivity" "unpause_activity" "UnpauseActivityRequest";
   rpc "UpdateWorkflowExecutionOptions" "update_workflow_execution_options" "UpdateWorkflowExecutionOptionsRequest";
   rpc "ResetActivity" "reset_activity" "ResetActivityRequest";
   rpc "DeleteWorkerDeployment" "delete_worker_deployment" "DeleteWorkerDeploymentRequest";
   rpc "DeleteWorkerDeploymentVersion" "delete_worker_deployment_version" "DeleteWorkerDeploymentVersionRequest";
   rpc "DescribeWorkerDeployment" "describe_worker_deployment" "DescribeWorkerDeploymentRequest";
   rpc "DescribeWorkerDeploymentVersion" "describe_worker_deployment_version" "DescribeWorkerDeploymentVersionRequest";
   rpc "ListWorkerDeployments" "list_worker_deployments" "ListWorkerDeploymentsRequest";
   rpc "SetWorkerDeploymentCurrentVersion" "set_worker_deployment_current_version" "SetWorkerDeploymentCurrentVersionRequest";
   rpc "SetWorkerDeploymentRampingVersion" "set_worker_deployment_ramping_version" "SetWorkerDeploymentRampingVersionRequest";
   rpc "UpdateWorkerDeploymentVersionMetadata" "update_worker_deployment_version_metadata" "UpdateWorkerDeploymentVersionMetadataRequest";
   rpc "ListWorkers" "list_workers" "ListWorkersRequest";
   rpc "CountWorkers" "count_workers" "CountWorkersRequest";
   rpc "RecordWorkerHeartbeat" "record_worker_heartbeat" "RecordWorkerHeartbeatRequest";
   rpc "UpdateTaskQueueConfig" "update_task_queue_config" "UpdateTaskQueueConfigRequest";
   rpc "FetchWorkerConfig" "fetch_worker_config" "FetchWorkerConfigRequest";
   rpc "UpdateWorkerConfig" "update_worker_config" "UpdateWorkerConfigRequest";
   rpc "DescribeWorker" "describe_worker" "DescribeWorkerRequest";
   rpc "SetWorkerDeploymentManager" "set_worker_deployment_manager" "SetWorkerDeploymentManagerRequest";
   rpc "PauseWorkflowExecution" "pause_workflow_execution" "PauseWorkflowExecutionRequest";
   rpc "UnpauseWorkflowExecution" "unpause_workflow_execution" "UnpauseWorkflowExecutionRequest";
   rpc "StartActivityExecution" "start_activity_execution" "StartActivityExecutionRequest";
   rpc "DescribeActivityExecution" "describe_activity_execution" "DescribeActivityExecutionRequest";
   rpc "PollActivityExecution" "poll_activity_execution" "PollActivityExecutionRequest";
   rpc "ListActivityExecutions" "list_activity_executions" "ListActivityExecutionsRequest";
   rpc "CountActivityExecutions" "count_activity_executions" "CountActivityExecutionsRequest";
   rpc "RequestCancelActivityExecution" "request_cancel_activity_execution" "RequestCancelActivityExecutionRequest";
   rpc "TerminateActivityExecution" "terminate_activity_execution" "TerminateActivityExecutionRequest";
   rpc "DeleteActivityExecution" "delete_activity_execution" "DeleteActivityExecutionRequest";
   rpc "PauseActivityExecution" "pause_activity_execution" "PauseActivityExecutionRequest";
   rpc "UnpauseActivityExecution" "unpause_activity_execution" "UnpauseActivityExecutionRequest";
   rpc "ResetActivityExecution" "reset_activity_execution" "ResetActivityExecutionRequest";
   rpc "UpdateActivityExecutionOptions" "update_activity_execution_options" "UpdateActivityExecutionOptionsRequest";
   rpc "CountNexusOperationExecutions" "count_nexus_operation_executions" "CountNexusOperationExecutionsRequest";
   rpc "CreateWorkerDeployment" "create_worker_deployment" "CreateWorkerDeploymentRequest";
   rpc "CreateWorkerDeploymentVersion" "create_worker_deployment_version" "CreateWorkerDeploymentVersionRequest";
   rpc "DeleteNexusOperationExecution" "delete_nexus_operation_execution" "DeleteNexusOperationExecutionRequest";
   rpc "DescribeNexusOperationExecution" "describe_nexus_operation_execution" "DescribeNexusOperationExecutionRequest";
   rpc "ListNexusOperationExecutions" "list_nexus_operation_executions" "ListNexusOperationExecutionsRequest";
   rpc "PollNexusOperationExecution" "poll_nexus_operation_execution" "PollNexusOperationExecutionRequest";
   rpc "PollWorkflowExecutionTimeSkipping" "poll_workflow_execution_time_skipping" "PollWorkflowExecutionTimeSkippingRequest";
   rpc "RequestCancelNexusOperationExecution" "request_cancel_nexus_operation_execution" "RequestCancelNexusOperationExecutionRequest";
   rpc "StartNexusOperationExecution" "start_nexus_operation_execution" "StartNexusOperationExecutionRequest";
   rpc "TerminateNexusOperationExecution" "terminate_nexus_operation_execution" "TerminateNexusOperationExecutionRequest";
   rpc "UpdateWorkerDeploymentVersionComputeConfig" "update_worker_deployment_version_compute_config" "UpdateWorkerDeploymentVersionComputeConfigRequest";
   rpc "ValidateWorkerDeploymentVersionComputeConfig" "validate_worker_deployment_version_compute_config" "ValidateWorkerDeploymentVersionComputeConfigRequest"].

(** The table of [call_operator_service]. *)
Definition operator_service : list RpcEntry :=
  [rpc "AddSearchAttributes" "add_search_attributes" "AddSearchAttributesRequest";
   rpc "RemoveSearchAttributes" "remove_search_attributes" "RemoveSearchAttributesRequest";
   rpc "ListSearchAttributes" "list_search_attributes" "ListSearchAttributesRequest";
   rpc "AddOrUpdateRemoteCluster" "add_or_update_remote_cluster" "AddOrUpdateRemoteClusterRequest";
   rpc "RemoveRemoteCluster" "remove_remote_cluster" "RemoveRemoteClusterRequest";
   rpc "ListClusters" "list_clusters" "ListClustersRequest";
   rpc "GetNexusEndpoint" "get_nexus_endpoint" "GetNexusEndpointRequest";
   rpc "CreateNexusEndpoint" "create_nexus_endpoint" "CreateNexusEndpointRequest";
   rpc "UpdateNexusEndpoint" "update_nexus_endpoint" "UpdateNexusEndpointRequest";
   rpc "DeleteNexusEndpoint" "delete_nexus_endpoint" "DeleteNexusEndpointRequest";
   rpc "ListNexusEndpoints" "list_nexus_endpoints" "ListNexusEndpointsRequest"].

(** The table of [call_test_service]. *)
Definition test_service : list RpcEntry :=
  [rpc "LockTimeSkipping" "lock_time_skipping" "LockTimeSkippingRequest";
   rpc "UnlockTimeSkipping" "unlock_time_skipping" "UnlockTimeSkippingRequest";
   rpc "Sleep" "sleep" "SleepRequest";
   rpc "SleepUntil" "sleep_until" "SleepUntilRequest";
   rpc "UnlockTimeSkippingWithSleep" "unlock_time_skipping_with_sleep" "SleepRequest"].

(** The arm [match $rpc] takes. *)
Fixpoint find_rpc (name : string) (table : list RpcEntry) : option RpcEntry :=
  match table with
  | [] => None
  | e :: rest => if decide (rpc_name e = name) then Some e else find_rpc name rest
  end.

(** ** Futures and deadlines *)

Record Future (A : Type) := { ready_after : option Z; output : A }.
Arguments ready_after {A}.
Arguments output {A}.

(** A [Duration] of milliseconds, as [{:?}] prints it. *)
Definition debug_fraction (ms : Z) : string :=
  if decide (ms = 0) then EmptyString
  else if decide (ms mod 100 = 0) then "." +:+ pretty (ms / 100)
  else if decide (ms mod 10 = 0) then
    "." +:+ (if decide (ms < 100) then "0" else EmptyString) +:+ pretty (ms / 10)
  else "." +:+ (if decide (ms < 10) then "00" else if decide (ms < 100) then "0" else EmptyString)
           +:+ pretty ms.
Definition debug_millis (ms : Z) : string :=
  if decide (ms = 0) then "0ns"
  else if decide (ms < 1000) then pretty ms +:+ "ms"
  else pretty (ms / 1000) +:+ debug_fraction (ms mod 1000) +:+ "s".

(** [tonic::Request]: the unit requests have no message.  [set_timeout] writes the deadline into the
    request's metadata, which it can for every [Duration]. *)
Record Request (Req : Type) := { message_of : option Req; request_timeout : option Z }.
Arguments message_of {Req}.
Arguments request_timeout {Req}.

Section rpc.
Context {C : Type} `{GrpcCode C} {Req Resp : Type}.

Context (decode_request : string -> list byte -> result string Req)
        (encode_response : Resp -> list byte)
        (encode_failure : RpcFailure -> list byte)
        (client : string -> Request Req -> Future (result (Status C) Resp)).

(** [tonic::Status::deadline_exceeded]. *)
Definition deadline_status (text : string) : Status C :=
  {| status_code_of := grpc_deadline_exceeded; status_text := text; status_details := [];
     status_source := None |}.

(** [with_deadline]: the result of awaiting it, if the wait ends. *)
Definition with_deadline {A} (timeout : option Z) (call : Future (result (Status C) A)) :
    option (result (Status C) A) :=
  match timeout with
  | None => (fun _ => output call) <$> ready_after call
  | Some t =>
      let elapsed := deadline_status ("client deadline of " +:+ debug_millis t +:+ " elapsed") in
      match ready_after call with
      | Some d => Some (if decide (d <= t) then output call else Err elapsed)
      | None => Some (Err elapsed)
      end
  end.

(** [status_message]. *)
Definition status_message (status : Status C) : string :=
  if decide (status_text status <> EmptyString) then status_text status
  else
    let parts := error_text <$> causes (status_source status) in
    if decide (parts = []) then code_debug (status_code_of status) +:+ " with no message"
    else code_debug (status_code_of status) +:+ ": " +:+ String.concat ": " parts.

(** The two arms every call ends in. *)
Definition outcome_of (r : result (Status C) Resp) : RpcOutcome :=
  match r with
  | Ok response => {| payload := encode_response response; status_code := 0; message := EmptyString |}
  | Err status =>
      {| payload := encode_failure {| f_message := status_message status;
                                      f_details := status_details status |};
         status_code := grpc_status_code status; message := status_message status |}
  end.

(** [dispatch!]. *)
Definition dispatch (table : list RpcEntry) (name : string) (bytes : list byte)
    (timeout : option Z) : option (KtResult RpcOutcome) :=
  match find_rpc name table with
  | None => Some (Err (InvalidArgument ("unknown rpc " +:+ name)))
  | Some e =>
      match decode_request (rpc_request e) bytes with
      | Err text => Some (Err (InvalidArgument (rpc_name e +:+ " request: " +:+ text)))
      | Ok decoded =>
          let request := {| message_of := Some decoded; request_timeout := timeout |} in
          (fun r => Ok (outcome_of r)) <$> with_deadline timeout (client (rpc_method e) request)
      end
  end.

Definition call_workflow_service := dispatch workflow_service.
Definition call_operator_service := dispatch operator_service.

(** [call_test_service_unit]: [Some None] when the RPC is not one of its own. *)
Definition call_test_service_unit (name : string) (timeout : option Z) :
    option (option RpcOutcome) :=
  if decide (name = "GetCurrentTime") then
    (fun r => Some (outcome_of r)) <$>
      with_deadline timeout
        (client "get_current_time" {| message_of := None; request_timeout := timeout |})
  else Some None.

Definition call_test_service (name : string) (bytes : list byte) (timeout : option Z) :
    option (KtResult RpcOutcome) :=
  u ← call_test_service_unit name timeout;
  match u with
  | Some outcome => Some (Ok outcome)
  | None => dispatch test_service name bytes timeout
  end.

(** [call]. *)
Definition call (service : Service) (name : string) (bytes : list byte) (timeout : option Z) :
    option (KtResult RpcOutcome) :=
  match service with
  | Workflow => call_workflow_service name bytes timeout
  | Operator => call_operator_service name bytes timeout
  | Test => call_test_service name bytes timeout
  end.

(** ** Specification *)

(** What a service's RPCs are: the arms, and the one with no request message. *)
Definition table_of (service : Service) : list RpcEntry :=
  match service with
  | Workflow => workflow_service
  | Operator => operator_service
  | Test => test_service
  end.
Definition is_unit (service : Service) (name : string) : bool :=
  bool_decide (service = Test /\ name = "GetCurrentTime").
Definition reachable (service : Service) (name : string) : Prop :=
  name ∈ rpc_name <$> table_of service \/ is_unit service name = true.
End rpc.

(** The RPCs the protocol declares. *)
Definition proto_of (service : Service) : list (string * string) :=
  match service with
  | Workflow => workflow_proto
  | Operator => operator_proto
  | Test => test_proto
  end.

(** [GetSystemInfo] to [get_system_info]: how prost names a method. *)
Definition is_upper (c : Ascii.ascii) : bool :=
  (65 <=? Ascii.nat_of_ascii c)%nat && (Ascii.nat_of_ascii c <=? 90)%nat.
Definition to_lower (c : Ascii.ascii) : Ascii.ascii :=
  if is_upper c then Ascii.ascii_of_nat (Ascii.nat_of_ascii c + 32) else c.
Fixpoint snake_tail (s : string) : string :=
  match s with
  | EmptyString => EmptyString
  | String c rest =>
      (if is_upper c then String (Ascii.ascii_of_nat 95) (String (to_lower c) (snake_tail rest))
       else String c (snake_tail rest))
  end.
Definition snake_case (s : string) : string :=
  match s with EmptyString => EmptyString | String c rest => String (to_lower c) (snake_tail rest) end.

(** ** Lemmas *)

Lemma find_rpc_spec name table :
  match find_rpc name table with
  | Some e => e ∈ table /\ rpc_name e = name
  | None => name ∉ rpc_name <$> table
  end.
Proof.
  induction table as [|e table IH]; [set_solver|]. cbn [find_rpc]. case_decide; [set_solver|].
  destruct (find_rpc name table); set_solver.
Qed.

Lemma find_rpc_unique e table :
  NoDup (rpc_name <$> table) -> e ∈ table -> find_rpc (rpc_name e) table = Some e.
Proof.
  intros Hn He. induction table as [|x table IH]; [set_solver|]. cbn in Hn |- *.
  apply NoDup_cons in Hn as [Hx Hn]. apply elem_of_cons in He as [->|He]; [by rewrite decide_True|].
  rewrite decide_False; [by apply IH|]. intros Hxe. apply Hx. rewrite Hxe. by apply list_elem_of_fmap_2.
Qed.

Lemma table_names_nodup service : NoDup (rpc_name <$> table_of service).
Proof. destruct service; apply (bool_decide_unpack _); vm_compute; exact I. Qed.

Lemma table_methods service :
  Forall (fun e => rpc_method e = snake_case (rpc_name e)) (table_of service).
Proof. destruct service; apply (bool_decide_unpack _); vm_compute; exact I. Qed.

Lemma table_requests service :
  Forall (fun e => (rpc_name e, rpc_request e) ∈ proto_of service) (table_of service).
Proof. destruct service; apply (bool_decide_unpack _); vm_compute; exact I. Qed.

Lemma proto_reached service :
  Forall (fun n => n ∈ rpc_name <$> table_of service \/ is_unit service n = true \/
                   service = Operator /\ n = "DeleteNamespace") (proto_of service).*1.
Proof. destruct service; apply (bool_decide_unpack _); vm_compute; exact I. Qed.

Lemma delete_namespace_missing : "DeleteNamespace" ∉ rpc_name <$> operator_service.
Proof. apply (bool_decide_unpack _). vm_compute. exact I. Qed.

Lemma reachable_dec_table service name :
  ~ reachable service name -> find_rpc name (table_of service) = None /\ is_unit service name = false.
Proof.
  intros Hr. pose proof (find_rpc_spec name (table_of service)) as Hf. split.
  - destruct (find_rpc name (table_of service)) as [e|]; [|done]. destruct Hf as [He <-].
    exfalso. apply Hr. left. by apply list_elem_of_fmap_2.
  - destruct (is_unit service name) eqn:E; [|done]. exfalso. apply Hr. by right.
Qed.

(** ** Properties *)

(** The bridge reaches exactly the RPCs the protocol files declare, with one exception
    ([OperatorService.DeleteNamespace]): each name is in one arm, which decodes the request message
    the protocol gives that RPC and calls the client method prost generates for it; and the three
    service numbers are the only ones accepted. *)
Theorem services_covered service name :
  (reachable service name <->
     name ∈ (proto_of service).*1 /\ ~ (service = Operator /\ name = "DeleteNamespace")) /\
  NoDup (rpc_name <$> table_of service) /\
  Forall (fun e => (rpc_name e, rpc_request e) ∈ proto_of service /\
                   rpc_method e = snake_case (rpc_name e)) (table_of service) /\
  forall v, from_u32 v = Ok service <-> v = service_number service.
Proof.
  pose proof (table_requests service) as Hq. rewrite Forall_forall in Hq.
  split; [split|split; [apply table_names_nodup|split]].
  - intros [(e & -> & He)%list_elem_of_fmap|Hu].
    + split; [apply list_elem_of_fmap; eexists; split; [|by apply Hq]; done|].
      intros [-> Hd]. apply delete_namespace_missing. rewrite <- Hd. by apply list_elem_of_fmap_2.
    + unfold is_unit in Hu. apply bool_decide_eq_true in Hu as [-> ->]. split; [|by intros [? _]].
      apply (bool_decide_unpack _). vm_compute. exact I.
  - intros [Hp Hd]. pose proof (proto_reached service) as Hr. rewrite Forall_forall in Hr.
    destruct (Hr name Hp) as [?|[?|?]]; [by left|by right|done].
  - pose proof (table_methods service) as Hm. apply Forall_and. split; [by apply Forall_forall|done].
  - intros v. unfold from_u32, service_number. destruct service; repeat case_decide; split; congruence || done.
Qed.

Section calls.
Context {C : Type} `{GrpcCode C} {Req Resp : Type}
        (decode_request : string -> list byte -> result string Req)
        (encode_response : Resp -> list byte)
        (encode_failure : RpcFailure -> list byte)
        (client : string -> Request Req -> Future (result (Status C) Resp)).

Abbreviation the_call := (call decode_request encode_response encode_failure client).
Abbreviation the_outcome := (outcome_of encode_response encode_failure).

(** The call comes to the client's [method] with the message [msg]: an arm whose request decodes, or the
    RPC that has none. *)
Definition calls (service : Service) (name : string) (bytes : list byte) (method : string) (msg : option Req) : Prop :=
  (exists e req, e ∈ table_of service /\ rpc_name e = name /\ decode_request (rpc_request e) bytes = Ok req /\
     method = rpc_method e /\ msg = Some req) \/
  (service = Test /\ name = "GetCurrentTime" /\ method = "get_current_time" /\ msg = None).

(** What a caller is told of [status]: DEADLINE_EXCEEDED for a deadline of the local transport, the
    server's own code otherwise; the server's text or, without one, the code's name and the causes. *)
Definition tells (status : Status C) (o : RpcOutcome) : Prop :=
  (status_code_of status = grpc_cancelled ->
     Exists (fun c => is_timeout c = true) (causes (status_source status)) ->
     status_code o = code_i32 grpc_deadline_exceeded) /\
  (status_code_of status <> grpc_cancelled \/
     Forall (fun c => is_timeout c = false) (causes (status_source status)) ->
     status_code o = code_i32 (status_code_of status)) /\
  (status_text status <> EmptyString -> message o = status_text status) /\
  (status_text status = EmptyString -> causes (status_source status) = [] ->
     message o = code_debug (status_code_of status) +:+ " with no message") /\
  (status_text status = EmptyString -> causes (status_source status) <> [] ->
     message o = code_debug (status_code_of status) +:+ ": " +:+
                 String.concat ": " (error_text <$> causes (status_source status))) /\
  payload o = encode_failure {| f_message := message o; f_details := status_details status |}.

Lemma outcome_tells status : tells status (the_outcome (Err status)).
Proof.
  unfold tells. cbn [outcome_of status_code message payload]. rewrite grpc_status_code_spec. unfold status_message.
  split_and!; try done.
  - intros Hc Hx. by rewrite decide_True.
  - intros Hx. rewrite decide_False; [done|]. intros [Hc Ht]. destruct Hx as [|Hx]; [done|].
    apply Exists_exists in Ht as (c & Hin & Ht). rewrite Forall_forall in Hx. by rewrite (Hx c Hin) in Ht.
  - intros Ht. by rewrite decide_True.
  - intros Ht Hc. rewrite decide_False by (by intros []). by rewrite Hc, decide_True.
  - intros Ht Hc. rewrite decide_False by (by intros []). rewrite decide_False; [done|].
    intros Hn. apply Hc. by destruct (causes (status_source status)).
Qed.

(** An arm's name comes to that arm. *)
Lemma call_arm service e bytes timeout :
  e ∈ table_of service ->
  find_rpc (rpc_name e) (table_of service) = Some e /\
  the_call service (rpc_name e) bytes timeout =
    dispatch decode_request encode_response encode_failure client (table_of service) (rpc_name e) bytes timeout.
Proof.
  intros He. pose proof (find_rpc_unique e _ (table_names_nodup service) He) as Hf. split; [done|].
  destruct service; [done..|]. unfold call, call_test_service, call_test_service_unit.
  rewrite decide_False; [done|]. intros Hn. rewrite Hn in Hf. by vm_compute in Hf.
Qed.

(** A call that comes to the client is the client's method under the deadline. *)
Lemma call_calls service name bytes timeout method msg :
  calls service name bytes method msg ->
  the_call service name bytes timeout =
    (fun r => Ok (the_outcome r)) <$>
      with_deadline timeout (client method {| message_of := msg; request_timeout := timeout |}).
Proof.
  intros [(e & req & He & <- & Hd & -> & ->)|(-> & -> & -> & ->)].
  - destruct (call_arm service e bytes timeout He) as [Hf ->].
    unfold dispatch. by rewrite Hf, Hd.
  - unfold call, call_test_service, call_test_service_unit. rewrite decide_True by done.
    by destruct (with_deadline _ _).
Qed.

(** C28 Every call ends the way the table says.  An unknown name is refused, and so is a request that
    does not decode, with the RPC's name and the decoder's text; every other call comes to the client's
    method, [get_current_time] for the one RPC without a request message, with the decoded message and
    the call's own deadline.  If the client answers in time, a response comes back encoded, with status
    0, and a failure with the server's code ([tells]: DEADLINE_EXCEEDED if it was the local transport's
    deadline), an explanation, and the details.  If it is not ready in time, the call comes back with
    DEADLINE_EXCEEDED and says so; only a call without a deadline can wait for ever. *)
Theorem call_spec service name bytes timeout :
  (~ reachable service name ->
   the_call service name bytes timeout = Some (Err (InvalidArgument ("unknown rpc " +:+ name)))) /\
  (forall e text, e ∈ table_of service -> rpc_name e = name -> decode_request (rpc_request e) bytes = Err text ->
   the_call service name bytes timeout = Some (Err (InvalidArgument (name +:+ " request: " +:+ text)))) /\
  (reachable service name ->
   (exists e text, e ∈ table_of service /\ rpc_name e = name /\ decode_request (rpc_request e) bytes = Err text) \/
   exists method msg, calls service name bytes method msg) /\
  (forall method msg, calls service name bytes method msg ->
   let f := client method {| message_of := msg; request_timeout := timeout |} in
   (forall d, ready_after f = Some d -> (forall t, timeout = Some t -> d <= t) ->
      match output f with
      | Ok response => the_call service name bytes timeout =
          Some (Ok {| payload := encode_response response; status_code := 0; message := EmptyString |})
      | Err status => exists o, the_call service name bytes timeout = Some (Ok o) /\ tells status o
      end) /\
   (forall t, timeout = Some t -> (forall d, ready_after f = Some d -> t < d) ->
      let text := "client deadline of " +:+ debug_millis t +:+ " elapsed" in
      the_call service name bytes timeout =
        Some (Ok {| payload := encode_failure {| f_message := text; f_details := [] |};
                    status_code := code_i32 grpc_deadline_exceeded; message := text |})) /\
   (timeout = None -> ready_after f = None -> the_call service name bytes timeout = None)).
Proof.
  split; [|split; [|split]].
  - intros [Hf Hu]%reachable_dec_table. unfold call. destruct service.
    + unfold call_workflow_service, dispatch. cbn [table_of] in Hf. by rewrite Hf.
    + unfold call_operator_service, dispatch. cbn [table_of] in Hf. by rewrite Hf.
    + unfold call_test_service, call_test_service_unit, dispatch. cbn [table_of] in Hf.
      unfold is_unit in Hu. apply bool_decide_eq_false in Hu.
      rewrite decide_False by naive_solver. cbn [mbind option_bind]. by rewrite Hf.
  - intros e text He <- Hd. destruct (call_arm service e bytes timeout He) as [Hf ->].
    unfold dispatch. by rewrite Hf, Hd.
  - intros [(e & -> & He)%list_elem_of_fmap|Hu].
    + destruct (decode_request (rpc_request e) bytes) as [req|text] eqn:Hd; [right|left; eauto].
      exists (rpc_method e), (Some req). left. eauto 10.
    + unfold is_unit in Hu. apply bool_decide_eq_true in Hu as [-> ->]. right. eexists _, _. right. done.
  - intros method msg Hc f. rewrite (call_calls _ _ _ timeout _ _ Hc). fold f. split; [|split].
    + intros d Hd Ht. assert (with_deadline timeout f = Some (output f)) as ->.
      { unfold with_deadline. rewrite Hd. destruct timeout as [t|]; [by rewrite decide_True by auto|done]. }
      destruct (output f) as [response|status]; [done|]. eexists. split; [done|]. apply outcome_tells.
    + intros t -> Ht text. assert (with_deadline (Some t) f = Some (Err (deadline_status text))) as ->.
      { unfold with_deadline. destruct (ready_after f) as [d|]; [|done].
        specialize (Ht d eq_refl). by rewrite decide_False by lia. }
      cbn [fmap option_fmap option_map]. do 2 f_equal. cbn [outcome_of]. unfold status_message. cbn [status_text deadline_status].
      rewrite decide_True by done. f_equal. rewrite grpc_status_code_spec. cbn [status_source status_code_of deadline_status].
      by case_decide.
    + intros -> Hn. unfold with_deadline. by rewrite Hn.
Qed.

(** A failed call explains itself: its message is never empty (the server's own, or the chain of
    transport causes, or the code's name), its status is the server's code, with a locally expired
    deadline told from a cancellation, and the payload carries the same message with the server's
    details to any decoder that inverts the encoder. *)
Theorem failure_explains status (decode_failure : list byte -> option RpcFailure) :
  (forall c, code_debug c <> EmptyString) ->
  (forall f, decode_failure (encode_failure f) = Some f) ->
  let o := the_outcome (Err status) in
  message o <> EmptyString /\
  (status_text status <> EmptyString -> message o = status_text status) /\
  status_code o = grpc_status_code status /\
  decode_failure (payload o) = Some {| f_message := message o; f_details := status_details status |}.
Proof.
  intros Hc Hd o. subst o. cbn [outcome_of message status_code payload]. split; [|split; [|by split]].
  - unfold status_message. case_decide; [done|]. intros He.
    assert (Hx : forall s s', code_debug (status_code_of status) +:+ s = s' -> s' = EmptyString -> False).
    { intros s s' <- Hs. specialize (Hc (status_code_of status)). by destruct (code_debug _). }
    case_decide; by eapply Hx.
  - intros Ht. unfold status_message. by rewrite decide_True.
Qed.
End calls.

(** ** Witnesses *)

(** Three of gRPC's codes, with their numbers. *)
Inductive SampleCode := SCancelled | SUnknown | SDeadlineExceeded.
#[export] Instance SampleCode_eq_dec : EqDecision SampleCode.
Proof. solve_decision. Defined.
#[export] Instance sample_grpc_code : GrpcCode SampleCode :=
  {| code_i32 c := match c with SCancelled => 1 | SUnknown => 2 | SDeadlineExceeded => 4 end;
     code_debug c := match c with SCancelled => "Cancelled" | SUnknown => "Unknown"
                     | SDeadlineExceeded => "DeadlineExceeded" end;
     grpc_cancelled := SCancelled; grpc_deadline_exceeded := SDeadlineExceeded |}.

(** Requests are their bytes, but not empty; the server echoes after a second. *)
Definition sample_decode (_ : string) (bytes : list byte) : result string (list byte) :=
  match bytes with [] => Err "empty" | _ => Ok bytes end.
Definition sample_client (_ : string) (r : Request (list byte)) :
    Future (result (Status SampleCode) (list byte)) :=
  {| ready_after := Some 1000; output := Ok (default [] (message_of r)) |}.

(** A failure as its message with its length in front, in one byte. *)
Definition sample_encode_failure (f : RpcFailure) : list byte :=
  replicate (String.length (f_message f)) x01 ++ [x00] ++
  String.list_byte_of_string (f_message f) ++ f_details f.
Fixpoint ones (bytes : list byte) : nat * list byte :=
  match bytes with
  | x01 :: rest => let '(n, tl) := ones rest in (S n, tl)
  | _ :: rest => (O, rest)
  | [] => (O, [])
  end.
Definition sample_decode_failure (bytes : list byte) : option RpcFailure :=
  let '(n, rest) := ones bytes in
  Some {| f_message := String.string_of_list_byte (take n rest); f_details := list.drop n rest |}.

Lemma sample_failure_roundtrip f : sample_decode_failure (sample_encode_failure f) = Some f.
Proof.
  destruct f as [m d]. unfold sample_decode_failure, sample_encode_failure. cbn [f_message f_details].
  assert (Ho : forall n rest, ones (replicate n x01 ++ x00 :: rest) = (n, rest)).
  { induction n as [|n IH]; intros rest; [done|]. cbn [replicate app ones]. by rewrite IH. }
  cbn [app]. rewrite Ho. assert (length (String.list_byte_of_string m) = String.length m) as <-.
  { clear. induction m as [|c m IH]; [done|]. cbn. by rewrite <- IH. }
  rewrite take_app_length, drop_app_length. by rewrite String.string_of_list_byte_of_string.
Qed.

Lemma call_spec_witness :
  call (C := SampleCode) sample_decode id sample_encode_failure sample_client Operator "DeleteNamespace" [] None =
    Some (Err (InvalidArgument "unknown rpc DeleteNamespace")) /\
  call (C := SampleCode) sample_decode id sample_encode_failure sample_client Test "Sleep" [x05] (Some 1500) =
    Some (Ok {| payload := [x05]; status_code := 0; message := EmptyString |}) /\
  exists p, call (C := SampleCode) sample_decode id sample_encode_failure sample_client Test "GetCurrentTime" [] (Some 900) =
    Some (Ok {| payload := p; status_code := 4; message := "client deadline of 900ms elapsed" |}).
Proof.
  split; [|split].
  - apply (call_spec sample_decode id sample_encode_failure sample_client Operator "DeleteNamespace" [] None).
    intros [Hr|Hr]; [by apply delete_namespace_missing|by vm_compute in Hr].
  - destruct (call_spec sample_decode id sample_encode_failure sample_client Test "Sleep" [x05] (Some 1500)) as (_ & _ & _ & H).
    destruct (H "sleep" (Some [x05])) as (H1 & _).
    + left. exists (rpc "Sleep" "sleep" "SleepRequest"), [x05]. split; [|repeat split].
      cbn [table_of test_service]. apply elem_of_cons; right; apply elem_of_cons; right; left.
    + apply (H1 1000); [reflexivity|]. intros t [= <-]. lia.
  - destruct (call_spec sample_decode id sample_encode_failure sample_client Test "GetCurrentTime" [] (Some 900)) as (_ & _ & _ & H).
    destruct (H "get_current_time" None) as (_ & H2 & _); [right; repeat split|].
    eexists. apply (H2 900); [reflexivity|]. intros d [= <-]. lia.
Defined.

Lemma failure_explains_witness :
  let o := outcome_of (C := SampleCode) id sample_encode_failure
    (Err {| status_code_of := SCancelled; status_text := EmptyString; status_details := [x07];
            status_source := Some (MkStdError "transport" false (Some (MkStdError "timed out" true None))) |}) in
  message o <> EmptyString /\ status_code o = 4 /\
  sample_decode_failure (payload o) = Some {| f_message := message o; f_details := [x07] |}.
Proof.
  destruct (failure_explains (C := SampleCode) (Resp := list byte) id sample_encode_failure
    {| status_code_of := SCancelled; status_text := EmptyString; status_details := [x07];
       status_source := Some (MkStdError "transport" false (Some (MkStdError "timed out" true None))) |}
    sample_decode_failure) as (H1 & _ & H2 & H3); [by intros []|apply sample_failure_roundtrip|].
  split; [exact H1|]. split; [rewrite H2; reflexivity|exact H3].
Defined.
