(* ===== verification/WorkerConfig.v ===== *)
(** The worker's configuration ([worker.rs], lines 288 to 617): validation of the decoded
    [WorkerOptions] and its translation to Core's config and slot tuner.

    Core's builders (what they still refuse, and the tuner they make) are parameters.  Durations are
    milliseconds; floats are compared the way IEEE 754 does; a set of workflow error types that can
    only be empty or [{Nondeterminism}] is a boolean. *)

From S2P Require Import Prelude Abi KtError Handle Slots.

(** ** Messages *)

Record ResourceSlotLimits := { minimum_slots : Z; maximum_slots : Z; ramp_throttle_millis : Z }.

Record ResourceBasedTuner := {
  jvm_resource_based : bool;
  target_memory_usage : f64; target_cpu_usage : f64;
  memory_p_gain : f64; memory_i_gain : f64; memory_d_gain : f64; memory_output_threshold : f64;
  cpu_p_gain : f64; cpu_i_gain : f64; cpu_d_gain : f64; cpu_output_threshold : f64;
}.

Record Deployment := {
  deployment_name : string; deployment_build_id : string; use_worker_versioning : bool;
  default_versioning_behavior : Z;
}.

Inductive Strategy :=
| OptSimpleMaximum (maximum : Z)
| OptAutoscaling (minimum maximum initial : Z).

(** [kt_bridge.PollerBehavior]: its [oneof] may be unset. *)
Record PollerOptions := { strategy : option Strategy }.

Record WorkerOptions := {
  namespace : string; task_queue : string; identity : string;
  max_cached_workflows : Z;
  max_concurrent_workflow_tasks : option Z; max_concurrent_activities : option Z;
  max_concurrent_local_activities : option Z; max_concurrent_nexus_tasks : option Z;
  no_workflows : bool; no_local_activities : bool; no_remote_activities : bool; enable_nexus : bool;
  build_id : string;
  resource_tuner : option ResourceBasedTuner;
  workflow_resource_limits : option ResourceSlotLimits;
  activity_resource_limits : option ResourceSlotLimits;
  local_activity_resource_limits : option ResourceSlotLimits;
  nexus_resource_limits : option ResourceSlotLimits;
  deployment_options : option Deployment;
  workflow_poller_behavior : option PollerOptions;
  activity_poller_behavior : option PollerOptions;
  nexus_poller_behavior : option PollerOptions;
  max_heartbeat_throttle_interval_millis : option Z;
  default_heartbeat_throttle_interval_millis : option Z;
  max_activities_per_second : option f64;
  max_task_queue_activities_per_second : option f64;
  nonsticky_to_sticky_poll_ratio : option f64;
  sticky_queue_schedule_to_start_timeout_millis : option Z;
  graceful_shutdown_period_millis : option Z;
  nondeterminism_as_workflow_fail : bool;
  nondeterminism_as_workflow_fail_for_types : list string;
  max_eager_activity_reservations_per_workflow_task : option Z;
  disable_payload_error_limit : bool;
}.

(** ** What Core is given *)

Inductive PollerBehavior :=
| SimpleMaximum (maximum : Z)
| Autoscaling (minimum maximum initial : Z).

Inductive VersioningBehavior := Pinned | AutoUpgrade.

Inductive VersioningStrategy :=
| VersioningNone (build_id : string)
| WorkerDeploymentBased (name build_id : string) (use : bool) (default : option VersioningBehavior).

(** [SlotSupplierOptions]: a custom supplier is the bridge's own, with the gate it shares. *)
Inductive SlotSupplierOptions :=
| FixedSize (slots : Z)
| ResourceBased (minimum maximum ramp : Z)
| Custom (gate : arc) (s : JvmSlots).

(** [ResourceBasedSlotsOptions]: the two targets and the eight gains, as the message has them. *)
Definition ResourceBasedSlotsOptions : Type := ResourceBasedTuner.

Record TunerHolderOptions := {
  resource_based_config : option ResourceBasedSlotsOptions;
  workflow_slot_options : SlotSupplierOptions;
  activity_slot_options : SlotSupplierOptions;
  local_activity_slot_options : SlotSupplierOptions;
  nexus_slot_options : SlotSupplierOptions;
}.

Record WorkerConfig (Tuner : Type) := {
  wc_tuner : Tuner;
  wc_namespace : string; wc_task_queue : string; wc_max_cached_workflows : Z;
  wc_enable_workflows : bool; wc_enable_local_activities : bool;
  wc_enable_remote_activities : bool; wc_enable_nexus : bool;
  wc_versioning : VersioningStrategy; wc_identity : option string;
  wc_workflow_poller : option PollerBehavior; wc_activity_poller : option PollerBehavior;
  wc_nexus_poller : option PollerBehavior;
  wc_max_heartbeat : Z; wc_default_heartbeat : Z;
  wc_worker_rate : option f64; wc_task_queue_rate : option f64;
  wc_ratio : f64; wc_sticky_timeout : Z; wc_graceful : option Z;
  wc_fail_on_nondeterminism : bool; wc_fail_types : gset string;
  wc_max_eager : Z; wc_disable_payload_error_limit : bool;
}.
Arguments wc_tuner {Tuner}.

(** ** Validation *)

(** [s.trim().is_empty()]: nothing but characters with the White_Space property, in UTF-8. *)
Fixpoint blank_bytes (bs : list byte) : bool :=
  match bs with
  | [] => true
  | (x09 | x0a | x0b | x0c | x0d | x20) :: rest => blank_bytes rest
  | xc2 :: (x85 | xa0) :: rest => blank_bytes rest
  | xe1 :: x9a :: x80 :: rest => blank_bytes rest
  | xe2 :: x80 :: (x80 | x81 | x82 | x83 | x84 | x85 | x86 | x87 | x88 | x89 | x8a
                  | xa8 | xa9 | xaf) :: rest => blank_bytes rest
  | xe2 :: x81 :: x9f :: rest => blank_bytes rest
  | xe3 :: x80 :: x80 :: rest => blank_bytes rest
  | _ => false
  end.
Definition is_blank (s : string) : bool := blank_bytes (String.list_byte_of_string s).

Definition invalid {A} (text : string) : KtResult A := Err (InvalidArgument text).

Definition f32_one : f64 := S754_finite false (2 ^ 23) (-23).
(** [0.2_f32]. *)
Definition default_ratio : f64 := S754_finite false 13421773 (-26).

(** [(0.0..=one).contains(&x)] on a finite [x]. *)
Definition within_unit (one x : f64) : bool :=
  f64_is_finite x && (f64_le f64_zero x && f64_le x one).

Definition duration_millis (value : Z) : KtResult Z :=
  if decide (I64_MAX < value) then invalid "duration exceeds signed 64-bit milliseconds"
  else Ok value.

Definition rate (value : option f64) : KtResult (option f64) :=
  if (match value with Some v => negb (f64_is_finite v) || f64_lt v f64_zero | None => false end)
  then invalid "activity rate limits must be finite and nonnegative"
  else Ok (v ← value; if f64_lt f64_zero v then Some v else None).

Definition poller (options : option PollerOptions) : KtResult (option PollerBehavior) :=
  transpose ((fun o =>
    match strategy o with
    | Some (OptSimpleMaximum maximum) => Ok (SimpleMaximum maximum)
    | Some (OptAutoscaling minimum maximum initial) => Ok (Autoscaling minimum maximum initial)
    | None => invalid "poller behavior must select a strategy"
    end) <$> options).

Definition versioning (options : WorkerOptions) : KtResult VersioningStrategy :=
  match deployment_options options with
  | None => Ok (VersioningNone (build_id options))
  | Some d =>
      if is_blank (deployment_name d) || is_blank (deployment_build_id d) then
        invalid "deployment name and build ID must not be blank"
      else
        behavior ←
          (if decide (default_versioning_behavior d = 0) then Ok None
           else if decide (default_versioning_behavior d = 1) then Ok (Some Pinned)
           else if decide (default_versioning_behavior d = 2) then Ok (Some AutoUpgrade)
           else invalid "unknown default versioning behavior");
        Ok (WorkerDeploymentBased (deployment_name d) (deployment_build_id d)
              (use_worker_versioning d) behavior)
  end.

(** ** The tuner *)

(** [slot]; [now] is the clock a custom supplier starts from. *)
Definition slot (now : Z) (fixed_slots : option Z) (limits : option ResourceSlotLimits)
    (resource_gate : option arc) (kind : nat) (sticky : bool) : KtResult SlotSupplierOptions :=
  match fixed_slots, limits with
  | Some _, Some _ => invalid "a slot supplier cannot be both fixed and resource-based"
  | _, Some l =>
      if decide (maximum_slots l = 0 \/ maximum_slots l < minimum_slots l) then
        invalid "resource slots require minimum <= maximum and maximum > 0"
      else match resource_gate with
           | Some gate =>
               _ ← duration_millis (ramp_throttle_millis l);
               Ok (Custom gate (supplier (Z.to_nat (minimum_slots l)) (Z.to_nat (maximum_slots l))
                                  (ramp_throttle_millis l) kind sticky now))
           | None =>
               ramp ← duration_millis (ramp_throttle_millis l);
               Ok (ResourceBased (minimum_slots l) (maximum_slots l) ramp)
           end
  | Some slots, None =>
      if decide (slots = 0) then invalid "fixed slot counts must be positive" else Ok (FixedSize slots)
  | None, None => Ok (FixedSize 100)
  end.

(** Workflows are cached: the sticky queue is in use. *)
Definition caches_workflows (options : WorkerOptions) : bool :=
  negb (no_workflows options) && bool_decide (0 < max_cached_workflows options).

(** The limit on workflow tasks, before the supplier's own check. *)
Definition workflow_limit (options : WorkerOptions) : Z :=
  match workflow_resource_limits options with
  | Some l => maximum_slots l
  | None => default 100 (max_concurrent_workflow_tasks options)
  end.

Definition is_jvm (options : WorkerOptions) : bool :=
  match resource_tuner options with Some rb => jvm_resource_based rb | None => false end.

Definition gains (rb : ResourceBasedTuner) : list f64 :=
  [memory_p_gain rb; memory_i_gain rb; memory_d_gain rb; memory_output_threshold rb;
   cpu_p_gain rb; cpu_i_gain rb; cpu_d_gain rb; cpu_output_threshold rb].

Definition resource_config (rb : ResourceBasedTuner) : KtResult ResourceBasedSlotsOptions :=
  if negb (within_unit f64_one (target_memory_usage rb)) ||
     negb (within_unit f64_one (target_cpu_usage rb)) then
    invalid "resource targets must be between 0 and 1"
  else if existsb (fun v => negb (f64_is_finite v)) (gains rb) then
    invalid "resource PID gains and thresholds must be finite"
  else Ok rb.

Section config.
Context {Tuner : Type}
        (build_options : TunerHolderOptions -> result string TunerHolderOptions)
        (build_tuner_holder : TunerHolderOptions -> result string Tuner)
        (build_config : WorkerConfig Tuner -> result string (WorkerConfig Tuner))
        (now : Z) (new_gate : arc).

(** [tuner]; [new_gate] is the [ResourceGate] made here when none is given. *)
Definition tuner (options : WorkerOptions) (resource_gate : option arc) : KtResult Tuner :=
  if caches_workflows options && bool_decide (workflow_limit options < 2) then
    invalid "cached workflows require at least 2 workflow slots"
  else
    let jvm := is_jvm options in
    let resource_gate := if jvm then Some (default new_gate resource_gate) else None in
    checked ← transpose (resource_config <$> resource_tuner options);
    let config := if jvm then None else checked in
    workflow ← slot now (max_concurrent_workflow_tasks options) (workflow_resource_limits options)
                 resource_gate 0 (caches_workflows options);
    activity ← slot now (max_concurrent_activities options) (activity_resource_limits options)
                 resource_gate 1 false;
    local ← slot now (max_concurrent_local_activities options)
              (local_activity_resource_limits options) resource_gate 2 false;
    nexus ← slot now (max_concurrent_nexus_tasks options) (nexus_resource_limits options)
              resource_gate 3 false;
    holder ← map_err (fun e => InvalidArgument ("invalid slot options: " +:+ e))
               (build_options {| resource_based_config := config; workflow_slot_options := workflow;
                  activity_slot_options := activity; local_activity_slot_options := local;
                  nexus_slot_options := nexus |});
    map_err from_anyhow (build_tuner_holder holder).

(** [worker_config_with_resource_gate]. *)
Definition worker_config_with_resource_gate (options : WorkerOptions) (resource_gate : option arc) :
    KtResult (WorkerConfig Tuner) :=
  let ratio := default default_ratio (nonsticky_to_sticky_poll_ratio options) in
  if is_blank (namespace options) || is_blank (task_queue options) then
    invalid "namespace and task_queue must not be blank"
  else if negb (within_unit f32_one ratio) then
    invalid "nonsticky_to_sticky_poll_ratio must be between 0 and 1"
  else if existsb is_blank (nondeterminism_as_workflow_fail_for_types options) then
    invalid "nondeterminism workflow type names must not be blank"
  else
    t ← tuner options resource_gate;
    strategy ← versioning options;
    workflow ← poller (workflow_poller_behavior options);
    activity ← poller (activity_poller_behavior options);
    nexus ← poller (nexus_poller_behavior options);
    max_hb ← duration_millis (default 60000 (max_heartbeat_throttle_interval_millis options));
    default_hb ← duration_millis (default 30000 (default_heartbeat_throttle_interval_millis options));
    worker_rate ← rate (max_activities_per_second options);
    task_queue_rate ← rate (max_task_queue_activities_per_second options);
    sticky ← duration_millis (default 10000 (sticky_queue_schedule_to_start_timeout_millis options));
    graceful ← transpose (duration_millis <$> graceful_shutdown_period_millis options);
    map_err (fun e => InvalidArgument ("invalid worker config: " +:+ e))
      (build_config
        {| wc_tuner := t; wc_namespace := namespace options; wc_task_queue := task_queue options;
           wc_max_cached_workflows := max_cached_workflows options;
           wc_enable_workflows := negb (no_workflows options);
           wc_enable_local_activities := negb (no_local_activities options);
           wc_enable_remote_activities := negb (no_remote_activities options);
           wc_enable_nexus := enable_nexus options; wc_versioning := strategy;
           wc_identity := then_some (bool_decide (identity options <> EmptyString)) (identity options);
           wc_workflow_poller := workflow; wc_activity_poller := activity; wc_nexus_poller := nexus;
           wc_max_heartbeat := max_hb; wc_default_heartbeat := default_hb;
           wc_worker_rate := worker_rate; wc_task_queue_rate := task_queue_rate; wc_ratio := ratio;
           wc_sticky_timeout := sticky; wc_graceful := graceful;
           wc_fail_on_nondeterminism := nondeterminism_as_workflow_fail options;
           wc_fail_types := list_to_set (nondeterminism_as_workflow_fail_for_types options);
           wc_max_eager := default 3 (max_eager_activity_reservations_per_workflow_task options);
           wc_disable_payload_error_limit := disable_payload_error_limit options |}).

(** [worker_config]. *)
Definition worker_config (options : WorkerOptions) : KtResult (WorkerConfig Tuner) :=
  worker_config_with_resource_gate options None.
End config.

(** ** Specification: which options are valid, and what they mean *)

Definition slot_valid (fixed_slots : option Z) (limits : option ResourceSlotLimits) : Prop :=
  match fixed_slots, limits with
  | Some _, Some _ => False
  | None, Some l =>
      maximum_slots l <> 0 /\ minimum_slots l <= maximum_slots l /\ ramp_throttle_millis l <= I64_MAX
  | Some n, None => n <> 0
  | None, None => True
  end.

Definition slot_of (now : Z) (fixed_slots : option Z) (limits : option ResourceSlotLimits)
    (resource_gate : option arc) (kind : nat) (sticky : bool) : SlotSupplierOptions :=
  match limits with
  | Some l =>
      match resource_gate with
      | Some gate => Custom gate (supplier (Z.to_nat (minimum_slots l)) (Z.to_nat (maximum_slots l))
                                    (ramp_throttle_millis l) kind sticky now)
      | None => ResourceBased (minimum_slots l) (maximum_slots l) (ramp_throttle_millis l)
      end
  | None => FixedSize (default 100 fixed_slots)
  end.

Definition poller_valid (p : option PollerOptions) : Prop :=
  match p with Some o => is_Some (strategy o) | None => True end.
Definition poller_of (p : option PollerOptions) : option PollerBehavior :=
  o ← p;
  s ← strategy o;
  Some (match s with
        | OptSimpleMaximum m => SimpleMaximum m
        | OptAutoscaling lo hi init => Autoscaling lo hi init
        end).

Definition rate_valid (v : option f64) : Prop :=
  match v with Some x => f64_is_finite x = true /\ f64_lt x f64_zero = false | None => True end.
Definition rate_of (v : option f64) : option f64 :=
  x ← v; if f64_lt f64_zero x then Some x else None.

Definition deployment_valid (o : WorkerOptions) : Prop :=
  match deployment_options o with
  | Some d => is_blank (deployment_name d) = false /\ is_blank (deployment_build_id d) = false /\
              0 <= default_versioning_behavior d <= 2
  | None => True
  end.
Definition versioning_of (o : WorkerOptions) : VersioningStrategy :=
  match deployment_options o with
  | Some d =>
      WorkerDeploymentBased (deployment_name d) (deployment_build_id d) (use_worker_versioning d)
        (if decide (default_versioning_behavior d = 1) then Some Pinned
         else if decide (default_versioning_behavior d = 2) then Some AutoUpgrade else None)
  | None => VersioningNone (build_id o)
  end.

Definition tuner_valid (rb : ResourceBasedTuner) : Prop :=
  within_unit f64_one (target_memory_usage rb) = true /\
  within_unit f64_one (target_cpu_usage rb) = true /\
  Forall (fun v => f64_is_finite v = true) (gains rb).

Definition ratio_of (o : WorkerOptions) : f64 := default default_ratio (nonsticky_to_sticky_poll_ratio o).

(** The durations of the config, with the bridge's defaults. *)
Definition max_heartbeat_of (o : WorkerOptions) : Z :=
  default 60000 (max_heartbeat_throttle_interval_millis o).
Definition default_heartbeat_of (o : WorkerOptions) : Z :=
  default 30000 (default_heartbeat_throttle_interval_millis o).
Definition sticky_timeout_of (o : WorkerOptions) : Z :=
  default 10000 (sticky_queue_schedule_to_start_timeout_millis o).

Record options_valid (o : WorkerOptions) : Prop := {
  ov_namespace : is_blank (namespace o) = false;
  ov_task_queue : is_blank (task_queue o) = false;
  ov_ratio : within_unit f32_one (ratio_of o) = true;
  ov_types : Forall (fun s => is_blank s = false) (nondeterminism_as_workflow_fail_for_types o);
  ov_cached : caches_workflows o = true -> 2 <= workflow_limit o;
  ov_tuner : forall rb, resource_tuner o = Some rb -> tuner_valid rb;
  ov_workflow : slot_valid (max_concurrent_workflow_tasks o) (workflow_resource_limits o);
  ov_activity : slot_valid (max_concurrent_activities o) (activity_resource_limits o);
  ov_local : slot_valid (max_concurrent_local_activities o) (local_activity_resource_limits o);
  ov_nexus : slot_valid (max_concurrent_nexus_tasks o) (nexus_resource_limits o);
  ov_deployment : deployment_valid o;
  ov_pollers : poller_valid (workflow_poller_behavior o) /\ poller_valid (activity_poller_behavior o) /\
               poller_valid (nexus_poller_behavior o);
  ov_durations : max_heartbeat_of o <= I64_MAX /\ default_heartbeat_of o <= I64_MAX /\
                 sticky_timeout_of o <= I64_MAX;
  ov_graceful : forall g, graceful_shutdown_period_millis o = Some g -> g <= I64_MAX;
  ov_rates : rate_valid (max_activities_per_second o) /\
             rate_valid (max_task_queue_activities_per_second o);
}.

(** What valid options mean to Core. *)
Definition gate_of (new_gate : arc) (o : WorkerOptions) (gate : option arc) : option arc :=
  if is_jvm o then Some (default new_gate gate) else None.

Definition tuner_options_of (now : Z) (new_gate : arc) (o : WorkerOptions) (gate : option arc) :
    TunerHolderOptions :=
  let g := gate_of new_gate o gate in
  {| resource_based_config := if is_jvm o then None else resource_tuner o;
     workflow_slot_options := slot_of now (max_concurrent_workflow_tasks o)
       (workflow_resource_limits o) g 0 (caches_workflows o);
     activity_slot_options := slot_of now (max_concurrent_activities o)
       (activity_resource_limits o) g 1 false;
     local_activity_slot_options := slot_of now (max_concurrent_local_activities o)
       (local_activity_resource_limits o) g 2 false;
     nexus_slot_options := slot_of now (max_concurrent_nexus_tasks o)
       (nexus_resource_limits o) g 3 false |}.

Definition config_of {Tuner} (o : WorkerOptions) (t : Tuner) : WorkerConfig Tuner :=
  {| wc_tuner := t; wc_namespace := namespace o; wc_task_queue := task_queue o;
     wc_max_cached_workflows := max_cached_workflows o;
     wc_enable_workflows := negb (no_workflows o);
     wc_enable_local_activities := negb (no_local_activities o);
     wc_enable_remote_activities := negb (no_remote_activities o);
     wc_enable_nexus := enable_nexus o; wc_versioning := versioning_of o;
     wc_identity := if decide (identity o = EmptyString) then None else Some (identity o);
     wc_workflow_poller := poller_of (workflow_poller_behavior o);
     wc_activity_poller := poller_of (activity_poller_behavior o);
     wc_nexus_poller := poller_of (nexus_poller_behavior o);
     wc_max_heartbeat := max_heartbeat_of o; wc_default_heartbeat := default_heartbeat_of o;
     wc_worker_rate := rate_of (max_activities_per_second o);
     wc_task_queue_rate := rate_of (max_task_queue_activities_per_second o);
     wc_ratio := ratio_of o; wc_sticky_timeout := sticky_timeout_of o;
     wc_graceful := graceful_shutdown_period_millis o;
     wc_fail_on_nondeterminism := nondeterminism_as_workflow_fail o;
     wc_fail_types := list_to_set (nondeterminism_as_workflow_fail_for_types o);
     wc_max_eager := default 3 (max_eager_activity_reservations_per_workflow_task o);
     wc_disable_payload_error_limit := disable_payload_error_limit o |}.

(** ** Lemmas: each validator accepts exactly the valid values, and refuses as invalid *)

(** A stage accepts exactly [P], with value [v], and otherwise reports an invalid argument. *)
Definition validates {A} (r : KtResult A) (P : Prop) (v : A) : Prop :=
  match r with
  | Ok a => P /\ a = v
  | Err e => ~ P /\ exists text, e = InvalidArgument text
  end.

Lemma validates_invalid {A} text P (v : A) : ~ P -> validates (invalid text) P v.
Proof. intros. split; [done|by eexists]. Qed.

Lemma duration_validates v : validates (duration_millis v) (v <= I64_MAX) v.
Proof. unfold duration_millis. case_decide; [apply validates_invalid; lia|split; [lia|done]]. Qed.

Lemma optional_duration_validates v :
  validates (transpose (duration_millis <$> v)) (forall g, v = Some g -> g <= I64_MAX) v.
Proof.
  destruct v as [g|]; [|by split]. simpl. pose proof (duration_validates g) as Hd.
  destruct (duration_millis g); simpl in *; [|naive_solver].
  destruct Hd as [? ->]. split; [by intros ? [= <-]|done].
Qed.

Lemma rate_validates v : validates (rate v) (rate_valid v) (rate_of v).
Proof.
  unfold rate, rate_valid. destruct v as [x|]; [|by split].
  destruct (f64_is_finite x), (f64_lt x f64_zero); cbn [negb orb];
    first [apply validates_invalid; by intros [? ?]|by repeat split].
Qed.

Lemma poller_validates p : validates (poller p) (poller_valid p) (poller_of p).
Proof.
  destruct p as [[[[m|lo hi init]|]]|]; simpl; [by split; [eexists|]..| |by split].
  split; [by intros [? ?]|by eexists].
Qed.

Lemma versioning_validates o : validates (versioning o) (deployment_valid o) (versioning_of o).
Proof.
  unfold versioning, deployment_valid, versioning_of. destruct (deployment_options o) as [d|]; [|by split].
  destruct (is_blank (deployment_name d)), (is_blank (deployment_build_id d)); cbn [orb];
    try (apply validates_invalid; intros (? & ? & _); done).
  repeat case_decide; cbn [mbind result_bind]; try (exfalso; lia);
    first [apply validates_invalid; intros (_ & _ & ?); lia|split; [split_and!; (done || lia)|done]].
Qed.

Lemma slot_validates now fixed_slots limits gate kind sticky :
  validates (slot now fixed_slots limits gate kind sticky) (slot_valid fixed_slots limits)
    (slot_of now fixed_slots limits gate kind sticky).
Proof.
  unfold slot, slot_valid, slot_of. destruct fixed_slots as [n|], limits as [l|].
  - apply validates_invalid. by intros [].
  - case_decide as Hn; [apply validates_invalid; by intros []|by split].
  - case_decide as Hd; [apply validates_invalid; lia|].
    pose proof (duration_validates (ramp_throttle_millis l)) as Hr.
    destruct gate; cbn [mbind result_bind]; destruct (duration_millis (ramp_throttle_millis l)) as [r|e];
      cbn [mbind result_bind] in *; destruct Hr as [Hr Hx]; split; try done; [lia|lia|lia|by subst|lia].
  - by split.
Qed.

Lemma resource_config_validates rb : validates (resource_config rb) (tuner_valid rb) rb.
Proof.
  unfold resource_config, tuner_valid.
  destruct (within_unit f64_one (target_memory_usage rb)), (within_unit f64_one (target_cpu_usage rb));
    cbn [negb orb]; try (apply validates_invalid; by intros (? & ? & _)).
  destruct (existsb (fun v => negb (f64_is_finite v)) (gains rb)) eqn:E.
  - apply validates_invalid. intros (_ & _ & Hf). apply existsb_exists in E as (v & Hv & He).
    rewrite Forall_forall in Hf. apply list_elem_of_In in Hv. specialize (Hf v Hv). by rewrite Hf in He.
  - split; [|done]. split_and!; [done..|]. apply Forall_forall. intros v Hv.
    destruct (f64_is_finite v) eqn:Hx; [done|]. exfalso. apply not_true_iff_false in E. apply E.
    apply existsb_exists. exists v. split; [by apply list_elem_of_In|by rewrite Hx].
Qed.

Lemma optional_tuner_validates o :
  validates (transpose (resource_config <$> resource_tuner o))
    (forall rb, resource_tuner o = Some rb -> tuner_valid rb) (resource_tuner o).
Proof.
  destruct (resource_tuner o) as [rb|]; [|by split]. simpl. pose proof (resource_config_validates rb) as Hd.
  destruct (resource_config rb); simpl in *; [|naive_solver]. destruct Hd as [? ->].
  split; [by intros ? [= <-]|done].
Qed.

(** The conjunction of the checks before Core is asked, as the code meets them. *)
Lemma valid_parts o :
  options_valid o <->
  ((is_blank (namespace o) = false /\ is_blank (task_queue o) = false) /\
   within_unit f32_one (ratio_of o) = true /\
   Forall (fun s => is_blank s = false) (nondeterminism_as_workflow_fail_for_types o)) /\
  ((caches_workflows o = true -> 2 <= workflow_limit o) /\
   (forall rb, resource_tuner o = Some rb -> tuner_valid rb) /\
   slot_valid (max_concurrent_workflow_tasks o) (workflow_resource_limits o) /\
   slot_valid (max_concurrent_activities o) (activity_resource_limits o) /\
   slot_valid (max_concurrent_local_activities o) (local_activity_resource_limits o) /\
   slot_valid (max_concurrent_nexus_tasks o) (nexus_resource_limits o)) /\
  (deployment_valid o /\
   poller_valid (workflow_poller_behavior o) /\ poller_valid (activity_poller_behavior o) /\
   poller_valid (nexus_poller_behavior o) /\
   max_heartbeat_of o <= I64_MAX /\ default_heartbeat_of o <= I64_MAX /\
   rate_valid (max_activities_per_second o) /\ rate_valid (max_task_queue_activities_per_second o) /\
   sticky_timeout_of o <= I64_MAX /\
   (forall g, graceful_shutdown_period_millis o = Some g -> g <= I64_MAX)).
Proof.
  split.
  - intros []. tauto.
  - intros H. by repeat match goal with H : _ /\ _ |- _ => destruct H end; split.
Qed.

Lemma existsb_blank l :
  existsb is_blank l = false <-> Forall (fun s => is_blank s = false) l.
Proof.
  induction l as [|s l IH]; [by split; [constructor|]|]. cbn [existsb].
  rewrite orb_false_iff, Forall_cons, IH. done.
Qed.

(** *** Composing checks with what Core says *)

(** Either [P] holds and the rest is Core's answer [core], or it does not and the argument is
    invalid. *)
Definition checks {A} (r : KtResult A) (P : Prop) (core : KtResult A) : Prop :=
  (P /\ r = core) \/ (~ P /\ exists text, r = Err (InvalidArgument text)).

Lemma checks_bind {A B} (r : KtResult A) (f : A -> KtResult B) P v Q core :
  validates r P v -> checks (f v) Q core -> checks (r ≫= f) (P /\ Q) core.
Proof.
  unfold validates, checks. intros Hr Hf. destruct r as [a|e]; cbn [mbind result_bind].
  - destruct Hr as [HP ->]. destruct Hf as [[? ?]|[? ?]]; [by left|right]. split; [by intros [? ?]|done].
  - destruct Hr as [HP [text ->]]. right. split; [by intros [? _]|by eexists].
Qed.

Lemma checks_if {A} (b : bool) text (r : KtResult A) P Q core :
  (b = true -> ~ P) -> (b = false -> P) -> checks r Q core ->
  checks (if b then invalid text else r) (P /\ Q) core.
Proof.
  intros H1 H2 Hr. destruct b.
  - right. split; [intros [HP _]; by destruct (H1 eq_refl)|by eexists].
  - destruct Hr as [[? ?]|[? ?]]; [left|right]; split; [by split; [apply H2|]|done|by intros [? ?]|done].
Qed.

Lemma checks_last {A B} (r : KtResult A) (f : A -> KtResult B) P v core :
  validates r P v -> f v = core -> checks (r ≫= f) P core.
Proof.
  unfold validates, checks. intros Hr <-. destruct r as [a|e]; cbn [mbind result_bind].
  - destruct Hr as [HP ->]. by left.
  - destruct Hr as [HP [text ->]]. right. split; [done|by eexists].
Qed.

Section theorems.
Context {Tuner : Type}
        (build_options : TunerHolderOptions -> result string TunerHolderOptions)
        (build_tuner_holder : TunerHolderOptions -> result string Tuner)
        (build_config : WorkerConfig Tuner -> result string (WorkerConfig Tuner))
        (now : Z) (new_gate : arc).

(** The checks of [tuner]. *)
Definition tuner_checks (o : WorkerOptions) : Prop :=
  (caches_workflows o = true -> 2 <= workflow_limit o) /\
  (forall rb, resource_tuner o = Some rb -> tuner_valid rb) /\
  slot_valid (max_concurrent_workflow_tasks o) (workflow_resource_limits o) /\
  slot_valid (max_concurrent_activities o) (activity_resource_limits o) /\
  slot_valid (max_concurrent_local_activities o) (local_activity_resource_limits o) /\
  slot_valid (max_concurrent_nexus_tasks o) (nexus_resource_limits o).

(** Core's part of [tuner]. *)
Definition core_tuner (o : WorkerOptions) (gate : option arc) : KtResult Tuner :=
  h ← map_err (fun e => InvalidArgument ("invalid slot options: " +:+ e))
        (build_options (tuner_options_of now new_gate o gate));
  map_err from_anyhow (build_tuner_holder h).

Lemma tuner_spec o gate :
  checks (tuner build_options build_tuner_holder now new_gate o gate) (tuner_checks o) (core_tuner o gate).
Proof.
  unfold tuner, tuner_checks. apply checks_if.
  - intros [Hc Hl%bool_decide_eq_true]%andb_true_iff Hv. specialize (Hv Hc). lia.
  - intros [Hc|Hl%bool_decide_eq_false]%andb_false_iff; [congruence|lia].
  - eapply checks_bind; [apply optional_tuner_validates|].
    do 3 (eapply checks_bind; [apply slot_validates|]).
    eapply checks_last; [apply slot_validates|done].
Qed.

(** The checks before the tuner and after it. *)
Definition first_checks (o : WorkerOptions) : Prop :=
  (is_blank (namespace o) = false /\ is_blank (task_queue o) = false) /\
  within_unit f32_one (ratio_of o) = true /\
  Forall (fun s => is_blank s = false) (nondeterminism_as_workflow_fail_for_types o).

Definition last_checks (o : WorkerOptions) : Prop :=
  deployment_valid o /\
  poller_valid (workflow_poller_behavior o) /\ poller_valid (activity_poller_behavior o) /\
  poller_valid (nexus_poller_behavior o) /\
  max_heartbeat_of o <= I64_MAX /\ default_heartbeat_of o <= I64_MAX /\
  rate_valid (max_activities_per_second o) /\ rate_valid (max_task_queue_activities_per_second o) /\
  sticky_timeout_of o <= I64_MAX /\
  (forall g, graceful_shutdown_period_millis o = Some g -> g <= I64_MAX).

(** Core's part of the config. *)
Definition core_config (o : WorkerOptions) (t : Tuner) : KtResult (WorkerConfig Tuner) :=
  map_err (fun e => InvalidArgument ("invalid worker config: " +:+ e)) (build_config (config_of o t)).

Lemma identity_of o :
  then_some (bool_decide (identity o <> EmptyString)) (identity o) =
  if decide (identity o = EmptyString) then None else Some (identity o).
Proof. unfold then_some. case_bool_decide; case_decide; done. Qed.

Abbreviation the_config := (worker_config_with_resource_gate build_options build_tuner_holder build_config now new_gate).

(** The config is the first checks, the tuner, and the last checks. *)
Lemma config_stages o gate :
  exists rest, (forall t, checks (rest t) (last_checks o) (core_config o t)) /\
    checks (the_config o gate) (first_checks o)
      (tuner build_options build_tuner_holder now new_gate o gate ≫= rest).
Proof.
  eexists. split; cycle 1.
  - unfold worker_config_with_resource_gate, first_checks. apply checks_if.
    + intros [Hb|Hb]%orb_true_iff [? ?]; congruence.
    + by intros [? ?]%orb_false_iff.
    + apply checks_if.
      * intros Hr%negb_true_iff. unfold ratio_of. by rewrite Hr.
      * by intros Hr%negb_false_iff.
      * destruct (existsb is_blank _) eqn:E; [right|left].
        -- split; [by intros Hf%existsb_blank; rewrite Hf in E|by eexists].
        -- split; [by apply existsb_blank|reflexivity].
  - intros t. unfold last_checks, core_config, config_of. rewrite <- identity_of.
    eapply checks_bind; [apply versioning_validates|].
    do 3 (eapply checks_bind; [apply poller_validates|]).
    do 2 (eapply checks_bind; [apply duration_validates|]).
    do 2 (eapply checks_bind; [apply rate_validates|]).
    eapply checks_bind; [apply duration_validates|].
    eapply checks_last; [apply optional_duration_validates|]. reflexivity.
Qed.

Lemma valid_stages o : options_valid o <-> first_checks o /\ tuner_checks o /\ last_checks o.
Proof. apply valid_parts. Qed.

Lemma config_accepts o gate c :
  the_config o gate = Ok c <->
  options_valid o /\ exists h t,
    build_options (tuner_options_of now new_gate o gate) = Ok h /\ build_tuner_holder h = Ok t /\
    build_config (config_of o t) = Ok c.
Proof.
  destruct (config_stages o gate) as (rest & Hrest & Hc). pose proof (tuner_spec o gate) as Ht.
  rewrite valid_stages. split.
  - destruct Hc as [[Hf ->]|[_ [text ->]]]; [|done]. intros (t & Hx & Hy)%result_bind_ok.
    destruct Ht as [[Htc Heq]|[_ [text Heq]]]; rewrite Heq in Hx; [|done].
    destruct (Hrest t) as [[Hl Hr]|[_ [text Hr]]]; rewrite Hr in Hy; [|done].
    split; [done|]. unfold core_tuner in Hx. apply result_bind_ok in Hx as (h & Hh & Hx).
    apply map_err_ok in Hh, Hx, Hy. by exists h, t.
  - intros [(Hf & Htc & Hl) (h & t & Hh & Hx & Hy)].
    destruct Hc as [[_ ->]|[? _]]; [|done]. destruct Ht as [[_ ->]|[? _]]; [|done].
    unfold core_tuner. rewrite Hh. cbn [map_err mbind result_bind]. rewrite Hx. cbn [map_err mbind result_bind].
    destruct (Hrest t) as [[_ ->]|[? _]]; [|done]. unfold core_config. by rewrite Hy.
Qed.

(** C29 The bridge accepts exactly the valid options: it builds a config when, and only when, the
    options satisfy [options_valid] and Core accepts what they mean, and the config it builds is
    then the one they mean, field by field, with the documented defaults. *)
Theorem worker_config_accepts_valid o gate c :
  the_config o gate = Ok c <->
  options_valid o /\ exists h t,
    build_options (tuner_options_of now new_gate o gate) = Ok h /\ build_tuner_holder h = Ok t /\
    build_config (config_of o t) = Ok c.
Proof. apply config_accepts. Qed.

(** Every rejection is told as what it is: invalid options are refused as an invalid argument
    unless Core refused first, and a valid configuration fails only with an error of Core's, marked
    as an invalid argument when it names the slot options or the worker config. *)
Theorem worker_config_errors o gate e :
  the_config o gate = Err e ->
  (exists text, e = InvalidArgument text) \/
  (exists h text, build_options (tuner_options_of now new_gate o gate) = Ok h /\
     build_tuner_holder h = Err text /\ e = Failed text).
Proof.
  destruct (config_stages o gate) as (rest & Hrest & Hc). pose proof (tuner_spec o gate) as Ht.
  destruct Hc as [[_ ->]|[_ [text ->]]]; [|intros [= <-]; left; by eexists].
  destruct Ht as [[_ ->]|[_ [text ->]]]; [|intros [= <-]; left; by eexists].
  unfold core_tuner. destruct (build_options _) as [h|text] eqn:Hh; [|intros [= <-]; left; by eexists].
  cbn [map_err mbind result_bind]. destruct (build_tuner_holder h) as [t|text] eqn:Hb;
    [|intros [= <-]; right; by eexists _, _]. cbn [map_err mbind result_bind].
  destruct (Hrest t) as [[_ ->]|[_ [text ->]]]; [|intros [= <-]; left; by eexists].
  unfold core_config. destruct (build_config _); [done|]. intros [= <-]. left. by eexists.
Qed.
End theorems.

(** The four suppliers of a tuner, by kind. *)
Definition slot_options (t : TunerHolderOptions) : list SlotSupplierOptions :=
  [workflow_slot_options t; activity_slot_options t; local_activity_slot_options t;
   nexus_slot_options t].

Lemma slot_of_shape now fixed_slots limits gate k st s :
  slot_valid fixed_slots limits -> slot_of now fixed_slots limits gate k st = s ->
  match s with
  | FixedSize n => n <> 0
  | ResourceBased lo hi r => gate = None /\ hi <> 0 /\ lo <= hi /\ r <= I64_MAX
  | Custom g s' => gate = Some g /\ kind s' = k /\ sticky s' = st /\ total s' = 0%nat /\
                   (minimum s' <= maximum s')%nat
  end.
Proof.
  unfold slot_valid, slot_of. intros Hv <-.
  destruct limits as [l|], fixed_slots as [n|]; try done.
  destruct Hv as (? & ? & ?). destruct gate as [g|]; [|done]. split_and!; try done. simpl. lia.
Qed.

(** The suppliers of an accepted configuration fit together: fixed counts are positive and
    resource bounds ordered; with the JVM's tuner every resource-bound supplier is the bridge's own,
    fresh, on the one shared gate, under the index of its kind (inside the gate's four counters) and
    sticky exactly for workflows that are cached, and Core's own resource controller is off; without
    it no supplier is the bridge's, and Core's controller gets the caller's targets and gains. *)
Theorem suppliers_share_gate now new_gate o gate c :
  worker_config_with_resource_gate Ok Ok Ok now new_gate o gate = Ok c ->
  (forall k s, slot_options (wc_tuner c) !! k = Some s ->
     match s with
     | FixedSize n => n <> 0
     | ResourceBased lo hi r => is_jvm o = false /\ hi <> 0 /\ lo <= hi /\ r <= I64_MAX
     | Custom g s' =>
         is_jvm o = true /\ g = default new_gate gate /\ kind s' = k /\
         (kind s' < length (reserved gate_new))%nat /\
         sticky s' = bool_decide (k = 0%nat) && caches_workflows o /\
         total s' = 0%nat /\ (minimum s' <= maximum s')%nat
     end) /\
  resource_based_config (wc_tuner c) = if is_jvm o then None else resource_tuner o.
Proof.
  intros (Hv & h & t & [= <-] & [= <-] & [= <-])%config_accepts.
  split; [|done]. cbn [wc_tuner config_of]. intros k s Hk.
  assert (Hg : forall g, gate_of new_gate o gate = g ->
    match g with Some a => is_jvm o = true /\ a = default new_gate gate | None => is_jvm o = false end).
  { intros g <-. unfold gate_of. by destruct (is_jvm o). }
  assert (Hs : exists fixed_slots limits, slot_valid fixed_slots limits /\ (k < 4)%nat /\
    slot_of now fixed_slots limits (gate_of new_gate o gate) k (bool_decide (k = 0%nat) && caches_workflows o) = s).
  { destruct k as [|[|[|[|k]]]]; cbn in Hk; simplify_eq; eexists _, _; (split; [|split; [lia|reflexivity]]); apply Hv. }
  destruct Hs as (fixed_slots & limits & Hsv & Hlt & He). apply slot_of_shape in He; [|done].
  destruct s as [n|lo hi r|g s']; [done|..].
  - destruct He as [He ?]. by apply Hg in He.
  - destruct He as (He & Hkind & Hst & Ht & Hm). apply Hg in He as [? ?]. split_and!; try done.
    rewrite Hkind. simpl. lia.
Qed.

(** ** Witnesses *)

Definition sample_limits : ResourceSlotLimits :=
  {| minimum_slots := 2; maximum_slots := 50; ramp_throttle_millis := 100 |}.

Definition half : f64 := S754_finite false (2 ^ 52) (-53).
Definition sample_tuner : ResourceBasedTuner :=
  {| jvm_resource_based := true; target_memory_usage := half; target_cpu_usage := f64_one;
     memory_p_gain := f64_one; memory_i_gain := f64_zero; memory_d_gain := f64_one;
     memory_output_threshold := half; cpu_p_gain := f64_one; cpu_i_gain := f64_zero;
     cpu_d_gain := f64_one; cpu_output_threshold := half |}.

(** Options with the JVM's tuner for workflows and activities, everything else default. *)
Definition sample_options (graceful : Z) : WorkerOptions :=
  {| namespace := "default"; task_queue := "orders"; identity := EmptyString;
     max_cached_workflows := 600; max_concurrent_workflow_tasks := None;
     max_concurrent_activities := None; max_concurrent_local_activities := Some 20;
     max_concurrent_nexus_tasks := None; no_workflows := false; no_local_activities := false;
     no_remote_activities := false; enable_nexus := false; build_id := "v1";
     resource_tuner := Some sample_tuner; workflow_resource_limits := Some sample_limits;
     activity_resource_limits := Some sample_limits; local_activity_resource_limits := None;
     nexus_resource_limits := None; deployment_options := None; workflow_poller_behavior := None;
     activity_poller_behavior := Some {| strategy := Some (OptSimpleMaximum 5) |};
     nexus_poller_behavior := None; max_heartbeat_throttle_interval_millis := None;
     default_heartbeat_throttle_interval_millis := None;
     max_activities_per_second := Some f64_zero; max_task_queue_activities_per_second := Some half;
     nonsticky_to_sticky_poll_ratio := None; sticky_queue_schedule_to_start_timeout_millis := None;
     graceful_shutdown_period_millis := Some graceful; nondeterminism_as_workflow_fail := false;
     nondeterminism_as_workflow_fail_for_types := ["Order"];
     max_eager_activity_reservations_per_workflow_task := None; disable_payload_error_limit := false |}.

Definition sample_config : KtResult (WorkerConfig TunerHolderOptions) :=
  worker_config_with_resource_gate Ok Ok Ok 0 7%positive (sample_options 0) (Some 8%positive).

Lemma worker_config_errors_witness :
  (exists text, InvalidArgument "duration exceeds signed 64-bit milliseconds" = InvalidArgument text) \/
  (exists (h : TunerHolderOptions) (text : string), Ok (E := string) (tuner_options_of 0 7%positive (sample_options (2 ^ 63)) None) = Ok h /\
     Ok (E := string) h = Err text /\ InvalidArgument "duration exceeds signed 64-bit milliseconds" = Failed text).
Proof.
  apply (worker_config_errors (Tuner := TunerHolderOptions) Ok Ok Ok 0 7%positive (sample_options (2 ^ 63)) None).
  vm_compute. reflexivity.
Defined.

Lemma suppliers_share_gate_witness :
  exists c, sample_config = Ok c /\
    resource_based_config (wc_tuner c) = None /\
    exists s, slot_options (wc_tuner c) !! 1%nat = Some (Custom 8%positive s) /\ kind s = 1%nat /\
      sticky s = false.
Proof.
  destruct sample_config as [c|e] eqn:E; [|vm_compute in E; discriminate].
  exists c. split; [reflexivity|]. destruct (suppliers_share_gate _ _ _ _ _ E) as [H1 H2].
  split; [exact H2|]. destruct (slot_options (wc_tuner c) !! 1%nat) as [s|] eqn:Hs;
    [|discriminate Hs]. specialize (H1 1%nat s Hs).
  vm_compute in E. injection E as <-. cbn in Hs. injection Hs as <-.
  destruct H1 as (_ & Hg & Hk & _ & Hst & _). eexists. split; [reflexivity|]. by split.
Defined.
