(* ===== verification/Options.v ===== *)
(** Options of a runtime and of a client ([runtime.rs], [new_runtime] and [runtime_info];
    [client.rs]).

    Core's builders, URL parsing, the host's name and the process id are parameters.  Durations are
    milliseconds. *)

From S2P Require Import Prelude Abi KtError Handle Queue Telemetry Rpc.

(** ** The runtime *)

Record TelemetryOptions := { forward_logs : bool; log_filter : string; buffer_metrics : bool }.
Record RuntimeOptions := {
  telemetry : option TelemetryOptions; worker_heartbeat_interval_millis : option Z }.

(** [CoreRuntimeOptions]: the filter of [Logger::Forward], whether a meter is installed, and the
    heartbeat interval. *)
Record CoreRuntimeOptions := {
  logging : option string; has_meter : bool; heartbeat_interval : option Z }.

Definition core_runtime_options (config : RuntimeOptions) : CoreRuntimeOptions :=
  let heartbeat := default 60000 (worker_heartbeat_interval_millis config) in
  {| logging :=
       t ← telemetry config;
       if forward_logs t then
         Some (if decide (log_filter t = EmptyString) then "WARN" else log_filter t)
       else None;
     has_meter := match telemetry config with Some t => buffer_metrics t | None => false end;
     heartbeat_interval := if decide (heartbeat <> 0) then Some heartbeat else None |}.

(** What [new_runtime] builds: [RuntimeEntry]'s fields. *)
Record NewRuntime (Core : Type) := {
  nr_core : Core;
  nr_queue : Queue.State;
  nr_metrics : option Telemetry.State;
  nr_metric_batch : option (list byte);
  nr_pending : gmap Z arc;
  nr_closed : bool;
}.
Arguments nr_core {Core}. Arguments nr_queue {Core}. Arguments nr_metrics {Core}.
Arguments nr_metric_batch {Core}. Arguments nr_pending {Core}. Arguments nr_closed {Core}.

Definition new_runtime {Core : Type} (build : CoreRuntimeOptions -> result string CoreRuntimeOptions)
    (core_new : CoreRuntimeOptions -> result string Core) (config : RuntimeOptions) :
    KtResult (NewRuntime Core) :=
  let options := core_runtime_options config in
  built ← map_err InvalidArgument (build options);
  core ← map_err from_anyhow (core_new built);
  Ok {| nr_core := core; nr_queue := queue_new;
        nr_metrics := if has_meter options then Some state_default else None;
        nr_metric_batch := None; nr_pending := ∅; nr_closed := false |}.

(** ** The client *)

Record ClientOptions := {
  target_url : string; client_namespace : string; client_identity : string;
  client_name : string; client_version : string; api_key : string;
  connect_timeout_millis : Z; no_compression : bool;
  tls : bool; server_root_ca_cert : list byte; tls_domain : string;
  client_cert : list byte; client_private_key : list byte;
}.

Record TlsOptions := {
  tls_root : option (list byte); tls_server_domain : option string;
  tls_client : option (list byte * list byte);
}.

Inductive GrpcCompression := NoCompression | Gzip.

Record ConnectionOptions (Url : Type) := {
  co_target : Url; co_tls : option TlsOptions; co_client_name : string; co_client_version : string;
  co_identity : string; co_compression : GrpcCompression; co_api_key : option string;
  co_connect_timeout : option Z;
}.
Arguments co_target {Url}. Arguments co_tls {Url}. Arguments co_client_name {Url}.
Arguments co_client_version {Url}. Arguments co_identity {Url}. Arguments co_compression {Url}.
Arguments co_api_key {Url}. Arguments co_connect_timeout {Url}.

Definition non_empty (value : string) : option string :=
  if decide (value = EmptyString) then None else Some value.

(** [Some] of a byte field that is not empty. *)
Definition non_empty_bytes (value : list byte) : option (list byte) :=
  if decide (value = []) then None else Some value.

Definition or_default (value fallback : string) : string :=
  if decide (value = EmptyString) then fallback else value.

Section client.
Context {Url : Type} (parse_url : string -> result string Url)
        (hostname : string) (pid : Z) (pkg_version : string).

Definition default_identity (configured : string) : string :=
  if decide (configured <> EmptyString) then configured
  else pretty pid +:+ "@" +:+ or_default hostname "unknown-host".

Definition wants_tls (config : ClientOptions) : bool :=
  tls config || bool_decide (server_root_ca_cert config <> []) ||
  bool_decide (client_cert config <> []) || bool_decide (client_private_key config <> []) ||
  bool_decide (tls_domain config <> EmptyString).

Definition tls_options (config : ClientOptions) : option TlsOptions :=
  if wants_tls config then
    let client_tls :=
      if decide (client_cert config <> [] \/ client_private_key config <> []) then
        Some (client_cert config, client_private_key config)
      else None in
    Some {| tls_root := non_empty_bytes (server_root_ca_cert config);
            tls_server_domain := non_empty (tls_domain config); tls_client := client_tls |}
  else None.

Definition connection_options (config : ClientOptions) : KtResult (ConnectionOptions Url) :=
  if decide (target_url config = EmptyString) then Err (InvalidArgument "target_url is empty")
  else
    target ← map_err (fun e => InvalidArgument ("target_url is not a URL: " +:+ e))
               (parse_url (target_url config));
    Ok {| co_target := target; co_tls := tls_options config;
          co_client_name := or_default (client_name config) "temporal-kotlin";
          co_client_version := or_default (client_version config) pkg_version;
          co_identity := default_identity (client_identity config);
          co_compression := if no_compression config then NoCompression else Gzip;
          co_api_key := non_empty (api_key config);
          co_connect_timeout :=
            if decide (0 < connect_timeout_millis config) then Some (connect_timeout_millis config)
            else None |}.
End client.

(** [ClientConnectError], as far as the bridge tells its variants apart: the server's answer to the
    first call, or anything else, with its [{:#}] text. *)
Inductive ClientConnectError (C : Type) :=
| SystemInfoCallError (status : Status C)
| OtherConnectError (alternate_text : string).
Arguments SystemInfoCallError {C}. Arguments OtherConnectError {C}.

(** [connect_failure]. *)
Definition connect_failure {C} `{GrpcCode C} (encode_failure : RpcFailure -> list byte)
    (req_id : Z) (error : ClientConnectError C) : Pending :=
  match error with
  | SystemInfoCallError status =>
      with_payload (encode_failure {| f_message := status_text status; f_details := status_details status |})
        (with_kind ClientConnected
           (pending_error req_id (grpc_status_code status) (status_text status)))
  | OtherConnectError text => pending_error req_id KT_ERR_FAILED text
  end.

(** ** Lemmas *)

Lemma or_default_non_empty s d : d <> EmptyString -> or_default s d <> EmptyString.
Proof. intros. unfold or_default. by case_decide. Qed.

Lemma append_non_empty s t u : t <> EmptyString -> s +:+ t +:+ u <> EmptyString.
Proof. destruct s, t; done. Qed.

Lemma default_identity_non_empty hostname pid s : default_identity hostname pid s <> EmptyString.
Proof. unfold default_identity. case_decide; [done|]. by apply append_non_empty. Qed.

(** What the client says of itself: the configured text when there is one, the fallback when not. *)
Definition names_itself (configured fallback result : string) : Prop :=
  (configured <> EmptyString -> result = configured) /\ (configured = EmptyString -> result = fallback).

Lemma or_default_names s d : names_itself s d (or_default s d).
Proof. unfold names_itself, or_default. by case_decide. Qed.

Lemma default_identity_names hostname pid s :
  names_itself s (pretty pid +:+ "@" +:+ or_default hostname "unknown-host") (default_identity hostname pid s).
Proof. unfold names_itself, default_identity. by case_decide. Qed.

Lemma wants_tls_spec config :
  wants_tls config = true <->
  tls config = true \/ server_root_ca_cert config <> [] \/ client_cert config <> [] \/
  client_private_key config <> [] \/ tls_domain config <> EmptyString.
Proof.
  unfold wants_tls. rewrite !orb_true_iff, !bool_decide_eq_true. tauto.
Qed.

(** Every certificate, key and domain goes to Core as it was given, and none as an empty one. *)
Lemma tls_options_spec config t :
  tls_options config = Some t ->
  default [] (tls_root t) = server_root_ca_cert config /\
  default EmptyString (tls_server_domain t) = tls_domain config /\
  default ([], []) (tls_client t) = (client_cert config, client_private_key config) /\
  tls_root t <> Some [] /\ tls_server_domain t <> Some EmptyString /\ tls_client t <> Some ([], []).
Proof.
  intros Ht. unfold tls_options in Ht. destruct (wants_tls config); [|done]. injection Ht as <-.
  cbn [tls_root tls_server_domain tls_client]. unfold non_empty_bytes, non_empty.
  split; [by case_decide|]. split; [by case_decide|]. split; [|split; [|split]].
  - case_decide as Hc; [done|]. cbn. destruct (decide (client_cert config = [])) as [->|];
      [|exfalso; tauto]. destruct (decide (client_private_key config = [])) as [->|]; [done|exfalso; tauto].
  - case_decide; congruence.
  - case_decide; congruence.
  - case_decide as Hc; [|done]. intros [= H1 H2]. tauto.
Qed.

(** ** Properties *)

(** A runtime's options mean what they say: zero turns the worker heartbeat off and absence
    leaves it at a minute; logs are forwarded only when asked, at the caller's filter or WARN; a
    meter is installed in Core exactly when the bridge buffers metrics; a configuration Core refuses
    is an invalid argument; and a new runtime has an open, empty queue and no request. *)
Theorem new_runtime_spec {Core : Type} build (core_new : CoreRuntimeOptions -> result string Core)
    (config : RuntimeOptions) :
  let o := core_runtime_options config in
  (heartbeat_interval o = None <-> worker_heartbeat_interval_millis config = Some 0) /\
  (worker_heartbeat_interval_millis config = None -> heartbeat_interval o = Some 60000) /\
  (forall f, logging o = Some f <->
     exists t, telemetry config = Some t /\ forward_logs t = true /\ f = or_default (log_filter t) "WARN") /\
  match new_runtime build core_new config with
  | Ok rt =>
      exists built, build o = Ok built /\ core_new built = Ok (nr_core rt) /\
        (is_Some (nr_metrics rt) <-> has_meter o = true) /\ nr_queue rt = queue_new /\
        nr_pending rt = ∅ /\ nr_closed rt = false /\ nr_metric_batch rt = None
  | Err e =>
      (exists text, build o = Err text /\ e = InvalidArgument text) \/
      (exists built text, build o = Ok built /\ core_new built = Err text /\ e = Failed text)
  end.
Proof.
  intros o. split; [|split; [|split]].
  - subst o. unfold core_runtime_options. cbn [heartbeat_interval].
    destruct (worker_heartbeat_interval_millis config) as [h|]; [|by split].
    cbn [default from_option]. unfold id. case_decide; split; try done; [congruence|intros _; f_equal; lia].
  - intros Hn. subst o. unfold core_runtime_options. by rewrite Hn.
  - intros f. subst o. unfold core_runtime_options, or_default. cbn [logging].
    destruct (telemetry config) as [t|]; cbn [mbind option_bind]; [|split; [done|by intros (? & ? & _)]].
    destruct (forward_logs t) eqn:E; split; try done.
    + intros [= <-]. by exists t.
    + by intros (? & [= <-] & _ & ->).
    + intros (? & [= <-] & ? & _). congruence.
  - unfold new_runtime. fold o. destruct (build o) as [built|text]; cbn [map_err mbind result_bind]; [|eauto].
    destruct (core_new built) as [core|text] eqn:E; cbn [map_err mbind result_bind]; [|right; eauto].
    exists built. split; [done|]. split; [done|]. cbn [nr_metrics]. split; [|done].
    destruct (has_meter o); split; done.
Qed.

(** C38 A client's connection options are exactly what was configured: TLS is on when the flag or
    any TLS field asks for it and off otherwise, with every certificate and key carried over as it
    was given; name, version and identity are the caller's where it gave one, and otherwise
    ["temporal-kotlin"], the bridge's own version and this process at this host, so none is ever
    empty; gRPC is compressed exactly when the caller did not turn that off; the address is the only
    thing that can be refused, as an invalid argument. *)
Theorem connection_options_spec {Url : Type} (parse_url : string -> result string Url)
    hostname pid pkg_version config :
  match connection_options parse_url hostname pid pkg_version config with
  | Err e =>
      (target_url config = EmptyString /\ e = InvalidArgument "target_url is empty") \/
      (target_url config <> EmptyString /\ exists text, parse_url (target_url config) = Err text /\
         e = InvalidArgument ("target_url is not a URL: " +:+ text))
  | Ok o =>
      target_url config <> EmptyString /\ parse_url (target_url config) = Ok (co_target o) /\
      (is_Some (co_tls o) <->
         tls config = true \/ server_root_ca_cert config <> [] \/ client_cert config <> [] \/
         client_private_key config <> [] \/ tls_domain config <> EmptyString) /\
      (forall t, co_tls o = Some t ->
         default [] (tls_root t) = server_root_ca_cert config /\
         default EmptyString (tls_server_domain t) = tls_domain config /\
         default ([], []) (tls_client t) = (client_cert config, client_private_key config) /\
         tls_root t <> Some [] /\ tls_server_domain t <> Some EmptyString /\
         tls_client t <> Some ([], [])) /\
      names_itself (client_name config) "temporal-kotlin" (co_client_name o) /\
      names_itself (client_version config) pkg_version (co_client_version o) /\
      (exists host, names_itself hostname "unknown-host" host /\
         names_itself (client_identity config) (pretty pid +:+ "@" +:+ host) (co_identity o)) /\
      co_client_name o <> EmptyString /\ co_identity o <> EmptyString /\
      (pkg_version <> EmptyString -> co_client_version o <> EmptyString) /\
      (co_compression o = NoCompression <-> no_compression config = true) /\
      default EmptyString (co_api_key o) = api_key config /\ co_api_key o <> Some EmptyString /\
      (forall ms, co_connect_timeout o = Some ms <-> 0 < ms /\ connect_timeout_millis config = ms)
  end.
Proof.
  unfold connection_options. case_decide as Hu; [by left|].
  destruct (parse_url (target_url config)) as [target|text]; cbn [map_err mbind result_bind];
    [|right; split; [done|by eexists]].
  cbn [co_target co_tls co_client_name co_client_version co_identity co_compression co_api_key co_connect_timeout].
  split; [done|]. split; [done|]. split; [rewrite <- wants_tls_spec; unfold tls_options; by destruct (wants_tls config)|].
  split; [by apply tls_options_spec|].
  split; [apply or_default_names|]. split; [apply or_default_names|]. split; [|split; [|split; [|split; [|split]]]].
  - exists (or_default hostname "unknown-host"). split; [apply or_default_names|apply default_identity_names].
  - by apply or_default_non_empty.
  - apply default_identity_non_empty.
  - apply or_default_non_empty.
  - by destruct (no_compression config).
  - unfold non_empty. split; [by case_decide|]. split; [case_decide; congruence|].
    intros ms. case_decide; split; [intros [= <-]; done|by intros [_ ->]|done|intros [? <-]; lia].
Qed.

Definition sample_client : ClientOptions :=
  {| target_url := "https://x:7233"; client_namespace := "ns"; client_identity := EmptyString;
     client_name := EmptyString; client_version := "9.9"; api_key := "k";
     connect_timeout_millis := 0; no_compression := false; tls := false;
     server_root_ca_cert := []; tls_domain := EmptyString; client_cert := [x01];
     client_private_key := [x02] |}.

Lemma connection_options_spec_witness :
  exists o, connection_options (Url := string) Ok "host" 42 "0.1.0" sample_client = Ok o /\
    is_Some (co_tls o) /\ co_client_version o = "9.9" /\ co_compression o <> NoCompression.
Proof.
  pose proof (connection_options_spec (Url := string) Ok "host" 42 "0.1.0" sample_client) as H.
  destruct (connection_options _ _ _ _ _) as [o|e] eqn:E; [|discriminate E].
  exists o. split; [reflexivity|].
  destruct H as (_ & _ & H1 & _ & _ & H2 & _ & _ & _ & _ & H3 & _).
  split; [|split].
  - apply H1. right; right; left. discriminate.
  - apply H2. discriminate.
  - intros Hc. apply H3 in Hc. discriminate Hc.
Defined.
