(* ===== verification/Ephemeral.v ===== *)
(** Dev and test servers ([ephemeral.rs]).

    First the options; then one server's life as a [World]: the child process, the entry's mutex
    with the server in it, the calls that run [shutdown] with a clone of the entry's [Arc], the task
    that [Drop] leaves behind, and how many tokens of the runtime's [TaskTracker] all this holds,
    which is what the runtime's end waits for.  Core's [shutdown] of the child is the environment's:
    it returns when it likes, with a result.  A mutex or an await is where one transition ends and
    the next may begin; a request can be cancelled at any of them. *)

From S2P Require Import Prelude KtError.

(** ** Options *)

Record EphemeralServerOptions := {
  existing_path : string; download_version : string; download_dest_dir : string;
  sdk_name : string; sdk_version : string; server_namespace : string; ip : string; server_port : Z;
  ui : bool; extra_args : list string; test_server : bool; log_file : string;
  download_ttl_seconds : option Z;
}.

Inductive ExeVersion :=
| SDKDefault (name version : string)
| FixedVersion (version : string).

Inductive EphemeralExe :=
| ExistingPath (path : string)
| CachedDownload (version : ExeVersion) (dest_dir : option string) (ttl_seconds : option Z).

(** [if s.is_empty() { d } else { s }]. *)
Definition or_else (s d : string) : string := if decide (s = EmptyString) then d else s.

Definition exe (options : EphemeralServerOptions) : EphemeralExe :=
  if decide (existing_path options <> EmptyString) then ExistingPath (existing_path options)
  else
    let version :=
      if decide (download_version options = EmptyString \/ download_version options = "default") then
        SDKDefault (or_else (sdk_name options) "sdk-kotlin") (or_else (sdk_version options) "0.1.0")
      else FixedVersion (download_version options) in
    CachedDownload version
      (if decide (download_dest_dir options = EmptyString) then None
       else Some (download_dest_dir options))
      (s ← Some (default (60 * 60 * 24) (download_ttl_seconds options));
       if decide (0 < s) then Some s else None).

(** [port]: [None] lets the server choose. *)
Definition port (options : EphemeralServerOptions) : KtResult (option Z) :=
  if decide (0 <= server_port options <= 65535) then
    Ok (if decide (0 < server_port options) then Some (server_port options) else None)
  else Err (InvalidArgument "port must be between 0 and 65535").

(** [decode_options], on what prost decodes. *)
Definition decode_options (decoded : result string EphemeralServerOptions) :
    KtResult EphemeralServerOptions :=
  options ← map_err from_decode_error decoded;
  _ ← port options;
  Ok options.

(** Where the child's output goes: nowhere, or one file opened twice. *)
Inductive Stdio := StdioNull | StdioFile (path : string).

Definition redirect (open : string -> result string unit) (options : EphemeralServerOptions) :
    result string (Stdio * Stdio) :=
  if decide (log_file options = EmptyString) then Ok (StdioNull, StdioNull)
  else
    let opened := map_err (fun e => "could not open " +:+ log_file options +:+ ": " +:+ e)
                    (open (log_file options)) in
    _ ← opened; _ ← opened;
    Ok (StdioFile (log_file options), StdioFile (log_file options)).

(** The two configs [start] builds. *)
Inductive ServerConfig :=
| TestServerConfig (exe : EphemeralExe) (port : option Z) (extra_args : list string)
| DevServerConfig (exe : EphemeralExe) (namespace ip : string) (port : option Z) (ui : bool)
    (extra_args : list string).

(** [start], up to the server's start: the config and the child's output. *)
Definition start_config (open : string -> result string unit) (options : EphemeralServerOptions) :
    result string (ServerConfig * (Stdio * Stdio)) :=
  p ← map_err error_to_string (port options);
  io ← redirect open options;
  Ok (if test_server options then TestServerConfig (exe options) p (extra_args options)
      else DevServerConfig (exe options) (or_else (server_namespace options) "default")
             (or_else (ip options) "127.0.0.1") p (ui options) (extra_args options), io).

(** ** One server's life *)

(** The child: running, reaped by a successful shutdown, or let go after a failed one.  [LetGo] is a child whose [shutdown] failed in Core: the server object is gone, and with it, by its
    [kill_on_drop], the child as far as the bridge can see to it; nobody has waited for its end. *)
Inductive child_state := Alive | Reaped | LetGo.

#[export] Instance child_state_eq_dec : EqDecision child_state.
Proof. solve_decision. Defined.

(** Who runs [shutdown]: a request, [kt_ephemeral_free], the child loop of [kt_runtime_free] (which
    closes the entry afterwards), or the task [free] spawns. *)
Inductive caller := ByRequest | ByFree | ByRuntimeFree | ByTask.

#[export] Instance caller_eq_dec : EqDecision caller.
Proof. solve_decision. Defined.

(** Waiting for the mutex, or holding it while Core shuts the child down. *)
Inductive call_phase := Waiting | Reaping.

#[export] Instance call_phase_eq_dec : EqDecision call_phase.
Proof. solve_decision. Defined.

Record World := {
  child : child_state;
  server : bool;
  lock : option positive;
  handle : bool;
  calls : gmap positive (caller * call_phase);
  cleanup : bool;
  dropped : bool;
  tokens : Z;
}.

(** What [start] returns: the child in the entry with its reservation, one owner of the entry. *)
Definition started : World :=
  {| child := Alive; server := true; lock := None; handle := true; calls := ∅; cleanup := false;
     dropped := false; tokens := 1 |}.

Inductive action :=
| ECall (tid : positive)
| EFree (tid : positive)
| ERuntimeFree (tid : positive)
| EClose (tid : positive)
| EDiscard
| ELock (tid : positive)
| EReap (tid : positive) (r : result string unit)
| ECancel (tid : positive)
| EDropEntry
| ECleanup (r : result string unit).

Inductive event :=
| EvShutdown (r : result string unit)
| EvReturned (tid : positive) (r : result string unit).

#[export] Instance event_eq_dec : EqDecision event.
Proof. solve_decision. Defined.

(** The child after Core's [shutdown] and the drop of the server value. *)
Definition after_shutdown (r : result string unit) : child_state :=
  match r with Ok _ => Reaped | Err _ => LetGo end.

Definition set_calls (m : gmap positive (caller * call_phase)) (l : option positive) (t : Z)
    (w : World) : World :=
  {| child := child w; server := server w; lock := l; handle := handle w; calls := m;
     cleanup := cleanup w; dropped := dropped w; tokens := t |}.
Definition set_handle (h : bool) (w : World) : World :=
  {| child := child w; server := server w; lock := lock w; handle := h; calls := calls w;
     cleanup := cleanup w; dropped := dropped w; tokens := tokens w |}.

(** A new call of [shutdown]; [free]'s task is tracked. *)
Definition new_call (tid : positive) (k : caller) (w : World) : World :=
  set_calls (<[tid := (k, Waiting)]> (calls w)) (lock w)
    (match k with ByTask => tokens w + 1 | _ => tokens w end) w.

(** [shutdown] returns [r] to its caller: a task logs an error and gives its token back, the loop of
    [kt_runtime_free] goes on to [close], which spawns a task, and the others are done. *)
Definition return_call (tid : positive) (k : caller) (r : result string unit) (w : World) :
    World * list event :=
  match k with
  | ByTask => (set_calls (delete tid (calls w)) None (tokens w - 1) w, [])
  | ByRuntimeFree =>
      (new_call tid ByTask (set_calls (calls w) None (tokens w) w), [EvReturned tid r])
  | _ => (set_calls (delete tid (calls w)) None (tokens w) w, [EvReturned tid r])
  end.

(** [server.take()] after Core's shutdown: the server value and its reservation drop. *)
Definition take_server (r : result string unit) (w : World) : World :=
  {| child := after_shutdown r; server := false; lock := lock w; handle := handle w;
     calls := calls w; cleanup := cleanup w; dropped := dropped w; tokens := tokens w - 1 |}.

(** A request's call begins with its clone of the entry, which its export took from the table: by then
    the handle may be gone, but not the entry.  [Drop] spawns a tracked task for the child; its token
    replaces the reservation's. *)
Definition estep (w : World) (a : action) : option (World * list event) :=
  match a with
  | ECall tid =>
      if decide (dropped w = false /\ calls w !! tid = None) then Some (new_call tid ByRequest w, [])
      else None
  | EFree tid =>
      if decide (handle w = true /\ calls w !! tid = None) then
        Some (new_call tid ByFree (set_handle false w), [])
      else None
  | ERuntimeFree tid =>
      if decide (handle w = true /\ calls w !! tid = None) then
        Some (new_call tid ByRuntimeFree (set_handle false w), [])
      else None
  | EClose tid =>
      if decide (handle w = true /\ calls w !! tid = None) then
        Some (new_call tid ByTask (set_handle false w), [])
      else None
  | EDiscard => if decide (handle w = true) then Some (set_handle false w, []) else None
  | ELock tid =>
      '(k, ph) ← calls w !! tid;
      if decide (ph = Waiting /\ lock w = None) then
        if server w then
          Some (set_calls (<[tid := (k, Reaping)]> (calls w)) (Some tid) (tokens w) w, [])
        else Some (return_call tid k (Ok tt) w)
      else None
  | EReap tid r =>
      '(k, ph) ← calls w !! tid;
      if decide (ph = Reaping) then
        let '(w', evs) := return_call tid k r (take_server r w) in Some (w', EvShutdown r :: evs)
      else None
  | ECancel tid =>
      '(k, ph) ← calls w !! tid;
      if decide (k = ByRequest) then
        Some (set_calls (delete tid (calls w)) (if decide (ph = Reaping) then None else lock w)
                (tokens w) w, [])
      else None
  | EDropEntry =>
      if decide (handle w = false /\ calls w = ∅ /\ dropped w = false) then
        Some ({| child := child w; server := false; lock := lock w; handle := false; calls := ∅;
                 cleanup := server w; dropped := true;
                 tokens := tokens w |}, [])
      else None
  | ECleanup r =>
      if cleanup w then
        Some ({| child := after_shutdown r; server := server w; lock := lock w; handle := handle w;
                 calls := calls w; cleanup := false; dropped := dropped w; tokens := tokens w - 1 |},
              [EvShutdown r])
      else None
  end.

(** ** Specification *)

Definition server_step (w : World) (l : action * list event) (w' : World) : Prop :=
  estep w l.1 = Some (w', l.2).

Definition sevents (ls : list (action * list event)) : list event := ls ≫= snd.
Definition shutdowns (evs : list event) : list (result string unit) :=
  omap (fun e => match e with EvShutdown r => Some r | _ => None end) evs.

Definition is_task (c : caller * call_phase) : Prop := c.1 = ByTask.
#[export] Instance is_task_dec c : Decision (is_task c).
Proof. unfold is_task. apply _. Defined.

Record server_inv (w : World) : Prop := {
  si_tokens : tokens w = (if server w then 1 else 0) + Z.of_nat (mcount is_task (calls w)) +
                         (if cleanup w then 1 else 0);
  si_lock tid : lock w = Some tid <-> exists k, calls w !! tid = Some (k, Reaping);
  si_reaping : is_Some (lock w) -> server w = true;
  si_child : child w = Alive <-> server w = true \/ cleanup w = true;
  si_cleanup : cleanup w = true -> server w = false;
  si_dropped : dropped w = true -> handle w = false /\ calls w = ∅ /\ server w = false;
  si_alive : dropped w = false -> cleanup w = false;
}.

(** ** Lemmas *)

Lemma started_inv : server_inv started.
Proof.
  split; simpl; try done.
  - intros tid. split; [done|]. by intros [k Hk].
  - split; [by left|done].
Qed.

(** How many of the calls are [free]'s tasks, as one changes. *)
Lemma is_task_if (k : caller) ph :
  (if decide (is_task (k, ph)) then 1 else 0)%nat = (if decide (k = ByTask) then 1 else 0)%nat.
Proof. unfold is_task. cbn [fst]. by repeat case_decide. Qed.

Lemma tasks_insert (m : gmap positive (caller * call_phase)) tid (k : caller) ph :
  m !! tid = None ->
  Z.of_nat (mcount is_task (<[tid := (k, ph)]> m)) =
    Z.of_nat (mcount is_task m) + (if decide (k = ByTask) then 1 else 0).
Proof. intros Hn. rewrite mcount_insert, is_task_if by done. case_decide; lia. Qed.

Lemma tasks_delete (m : gmap positive (caller * call_phase)) tid (k : caller) ph :
  m !! tid = Some (k, ph) ->
  Z.of_nat (mcount is_task (delete tid m)) =
    Z.of_nat (mcount is_task m) - (if decide (k = ByTask) then 1 else 0).
Proof. intros Hn. rewrite (mcount_delete is_task m tid (k, ph) Hn), is_task_if. case_decide; lia. Qed.

Lemma tasks_phase (m : gmap positive (caller * call_phase)) tid (k : caller) ph ph' :
  m !! tid = Some (k, ph) -> mcount is_task (<[tid := (k, ph')]> m) = mcount is_task m.
Proof.
  intros Hn. pose proof (mcount_update is_task m tid (k, ph) (k, ph') Hn) as Hu.
  rewrite !is_task_if in Hu. lia.
Qed.

Lemma new_call_inv tid k w :
  server_inv w -> dropped w = false -> calls w !! tid = None -> server_inv (new_call tid k w).
Proof.
  intros [H1 H2 H3 H4 H5 H6 H7] Hd Hn. split; cbn [new_call set_calls child server lock handle calls cleanup dropped tokens]; try done.
  - rewrite tasks_insert by done. destruct k; simpl; lia.
  - intros i. rewrite H2. split; intros [x Hx]; exists x.
    + rewrite lookup_insert_ne; [done|]. intros ->. congruence.
    + rewrite lookup_insert in Hx. case_decide; [done|done].
  - by rewrite Hd.
Qed.

Lemma set_handle_inv w : server_inv w -> server_inv (set_handle false w).
Proof. intros [H1 H2 H3 H4 H5 H6 H7]. split; cbn; try done. intros Hd. split; [done|]. by apply H6. Qed.

(** The lock and the calls, when [tid] has returned. *)
Lemma returned_lock w tid k ph :
  server_inv w -> calls w !! tid = Some (k, ph) -> ph = Reaping \/ lock w = None ->
  forall i, (None : option positive) = Some i <-> exists x, delete tid (calls w) !! i = Some (x, Reaping).
Proof.
  intros Hw Hc Hph i. split; [done|]. intros [x [Hi Hx]%lookup_delete_Some].
  assert (lock w = Some i) as Hl by (apply (si_lock w Hw); eauto).
  destruct Hph as [->|Hn]; [|congruence].
  assert (lock w = Some tid) by (apply (si_lock w Hw); eauto). congruence.
Qed.

(** A call returns from a world in which it no longer matters who has the lock. *)
Lemma server_call_inv w tid k ph r w' evs :
  calls w !! tid = Some (k, ph) ->
  (forall i, (None : option positive) = Some i <-> exists x, delete tid (calls w) !! i = Some (x, Reaping)) ->
  tokens w = (if server w then 1 else 0) + Z.of_nat (mcount is_task (calls w)) + (if cleanup w then 1 else 0) ->
  (child w = Alive <-> server w = true \/ cleanup w = true) ->
  cleanup w = false -> dropped w = false ->
  return_call tid k r w = (w', evs) -> server_inv w'.
Proof.
  intros Hc Hl Ht Hch Hcl Hd. rewrite Hcl in *.
  assert (Hk : forall tk, tk = tokens w - (if decide (k = ByTask) then 1 else 0) ->
    server_inv (set_calls (delete tid (calls w)) None tk w)).
  { intros tk ->. split; cbn [set_calls child server lock handle calls cleanup dropped tokens]; rewrite ?Hcl; try done.
    - rewrite (tasks_delete _ _ _ _ Hc), Ht. lia.
    - by rewrite Hd. }
  destruct k; cbn [return_call]; intros [= <- <-]; try (apply Hk; simpl; lia).
  split; cbn [new_call set_calls child server lock handle calls cleanup dropped tokens]; rewrite ?Hcl, ?Hd; try done.
  - rewrite <- insert_delete_eq, tasks_insert by apply lookup_delete_eq.
    rewrite (tasks_delete _ _ _ _ Hc), Ht. simpl. lia.
  - intros i. rewrite Hl. split; intros [x Hx]; exists x.
    + apply lookup_delete_Some in Hx as [? Hx]. by rewrite lookup_insert_ne.
    + rewrite lookup_insert in Hx. case_decide; [done|]. by rewrite lookup_delete_ne.
Qed.

Lemma not_dropped w tid c : server_inv w -> calls w !! tid = Some c -> dropped w = false.
Proof.
  intros Hw Hc. destruct (dropped w) eqn:Hd; [|done].
  destruct (si_dropped w Hw Hd) as (_ & He & _). by rewrite He in Hc.
Qed.

(** A call takes the server's mutex and goes on to reap the child. *)
Lemma reaping_inv w tid k ph :
  server_inv w -> calls w !! tid = Some (k, ph) -> lock w = None -> server w = true ->
  server_inv (set_calls (<[tid := (k, Reaping)]> (calls w)) (Some tid) (tokens w) w).
Proof.
  intros Hw Hc Hl Hsv. pose proof (not_dropped w tid _ Hw Hc) as Hd. pose proof (si_alive w Hw Hd) as Hcl.
  destruct Hw as [H1 H2 H3 H4 H5 H6 H7].
  split; cbn [set_calls child server lock handle calls cleanup dropped tokens]; rewrite ?Hsv, ?Hcl, ?Hd in *; try done.
  - rewrite (tasks_phase _ _ _ _ _ Hc). lia.
  - intros i. rewrite lookup_insert. case_decide as Hi.
    + subst. split; [by eexists|done].
    + split; [congruence|]. intros [x Hx]. assert (lock w = Some i) by (apply H2; eauto). congruence.
Qed.

(** A request's call drops. *)
Lemma cancelled_inv w tid ph :
  server_inv w -> calls w !! tid = Some (ByRequest, ph) ->
  server_inv (set_calls (delete tid (calls w)) (if decide (ph = Reaping) then None else lock w) (tokens w) w).
Proof.
  intros Hw Hc. pose proof (not_dropped w tid _ Hw Hc) as Hd. pose proof Hw as [H1 H2 H3 H4 H5 H6 H7].
  split; cbn [set_calls child server lock handle calls cleanup dropped tokens]; try done.
  - rewrite (tasks_delete _ _ _ _ Hc). simpl. lia.
  - intros i. case_decide as Hp.
    + subst ph. by apply (returned_lock w tid ByRequest Reaping); [|done|left].
    + rewrite H2. split; intros [x Hx]; exists x; [rewrite lookup_delete_ne; [done|]|].
      * intros ->. congruence.
      * by apply lookup_delete_Some in Hx as [_ Hx].
  - case_decide; [by intros [? ?]|done].
  - by rewrite Hd.
Qed.

(** The last reference to the entry drops. *)
Lemma entry_dropped_inv w :
  server_inv w -> calls w = ∅ -> dropped w = false ->
  server_inv {| child := child w; server := false; lock := lock w; handle := false; calls := ∅;
                cleanup := server w; dropped := true; tokens := tokens w |}.
Proof.
  intros Hw Hc Hd. pose proof (si_alive w Hw Hd) as Hcl. destruct Hw as [H1 H2 H3 H4 H5 H6 H7].
  rewrite Hc in *. rewrite Hcl in *.
  split; cbn [child server lock handle calls cleanup dropped tokens]; try done.
  - rewrite mcount_empty in *. destruct (server w); lia.
  - intros Hl. exfalso. destruct Hl as [i Hi]. apply H2 in Hi as [k Hk]. done.
  - rewrite H4. naive_solver.
Qed.

Lemma server_step_inv w l w' : server_inv w -> server_step w l w' -> server_inv w'.
Proof.
  destruct l as [a evs]. intros Hw Hs. unfold server_step in Hs. cbn [fst snd] in Hs.
  assert (Hopen : handle w = true -> dropped w = false).
  { intros Hh. destruct (dropped w) eqn:Hd; [|done]. destruct (si_dropped w Hw Hd). congruence. }
  destruct a; cbn [estep] in Hs.
  - case_decide as Hc; [|done]. destruct Hc as [Hh Hc]. simplify_eq. apply new_call_inv; auto.
  - case_decide as Hc; [|done]. destruct Hc as [Hh Hc]. simplify_eq.
    apply new_call_inv; [by apply set_handle_inv|by apply Hopen|done].
  - case_decide as Hc; [|done]. destruct Hc as [Hh Hc]. simplify_eq.
    apply new_call_inv; [by apply set_handle_inv|by apply Hopen|done].
  - case_decide as Hc; [|done]. destruct Hc as [Hh Hc]. simplify_eq.
    apply new_call_inv; [by apply set_handle_inv|by apply Hopen|done].
  - case_decide; [|done]. simplify_eq. by apply set_handle_inv.
  - destruct (calls w !! tid) as [[k ph]|] eqn:Hc; [|done]. cbn [mbind option_bind] in Hs.
    pose proof (not_dropped w tid _ Hw Hc) as Hd.
    case_decide as Hp; [|done]. destruct Hp as [-> Hl]. destruct (server w) eqn:Hsv; simplify_eq;
      [by apply (reaping_inv w tid k Waiting)|].
    destruct (return_call tid k (Ok tt) w) as [w1 es] eqn:Er. simplify_eq.
    eapply (server_call_inv w tid k Waiting); try done.
    + by apply (returned_lock w tid k Waiting Hw Hc); right.
    + apply (si_tokens w Hw).
    + apply (si_child w Hw).
    + by apply (si_alive w Hw).
  - destruct (calls w !! tid) as [[k ph]|] eqn:Hc; [|done]. cbn [mbind option_bind] in Hs.
    pose proof (not_dropped w tid _ Hw Hc) as Hd. pose proof (si_alive w Hw Hd) as Hcl.
    case_decide as Hp; [|done]. subst ph.
    assert (server w = true) as Hsv.
    { apply (si_reaping w Hw). exists tid. apply (si_lock w Hw). eauto. }
    destruct (return_call tid k r (take_server r w)) as [w1 es] eqn:Er. simplify_eq.
    eapply (server_call_inv (take_server r w) tid k Reaping); try done.
    + by apply (returned_lock w tid k Reaping Hw Hc); left.
    + cbn. rewrite (si_tokens w Hw), Hsv. lia.
    + cbn. rewrite Hcl. destruct r; simpl; split; try done; by intros [|].
  - destruct (calls w !! tid) as [[k ph]|] eqn:Hc; [|done]. cbn [mbind option_bind] in Hs.
    case_decide as Hp; [|done]. subst k. simplify_eq. by apply cancelled_inv.
  - case_decide as Hc; [|done]. destruct Hc as (Hh & Hc & Hd). simplify_eq. by apply entry_dropped_inv.
  - destruct (cleanup w) eqn:Hcl; [|done]. simplify_eq. destruct Hw as [H1 H2 H3 H4 H5 H6 H7].
    rewrite Hcl, (H5 eq_refl) in *.
    split; cbn [child server lock handle calls cleanup dropped tokens]; rewrite ?(H5 eq_refl); try done.
    + lia.
    + destruct r; simpl; split; try done; by intros [|].
Qed.

Lemma run_server_inv ls w : run server_step started ls w -> server_inv w.
Proof.
  revert ls w. apply (run_invariant server_step (fun _ w => server_inv w)); [apply started_inv|].
  intros ls w l w' _ Hw Hs. by eapply server_step_inv.
Qed.

(** The child is what Core's one shutdown left of it. *)
Definition child_history (evs : list event) (w : World) : Prop :=
  (shutdowns evs = [] /\ child w = Alive) \/
  exists r, shutdowns evs = [r] /\ child w = after_shutdown r.

(** What a step does to the child, and what its returns say. *)
Definition step_child (w : World) (evs : list event) (w' : World) : Prop :=
  (shutdowns evs = [] /\ child w' = child w /\
   forall tid r, EvReturned tid r ∈ evs -> r = Ok tt /\ child w <> Alive) \/
  exists r, shutdowns evs = [r] /\ child w = Alive /\ child w' = after_shutdown r /\
    forall tid r', EvReturned tid r' ∈ evs -> r' = r.

Lemma return_call_child tid k r w w' evs :
  return_call tid k r w = (w', evs) ->
  child w' = child w /\ shutdowns evs = [] /\
  (forall i r', EvReturned i r' ∈ evs -> r' = r).
Proof.
  destruct k; cbn [return_call]; intros [= <- <-]; (split; [done|]); split; try done; set_solver.
Qed.

Lemma server_step_child w l w' : server_inv w -> server_step w l w' -> step_child w l.2 w'.
Proof.
  destruct l as [a evs]. intros Hw Hs. unfold server_step in Hs. cbn [fst snd] in *.
  assert (Hquiet : evs = [] -> child w' = child w -> step_child w evs w').
  { intros -> Hc. left. split; [done|]. split; [done|]. set_solver. }
  destruct a; cbn [estep] in Hs.
  1-4: case_decide; [|done]; simplify_eq; by apply Hquiet.
  - case_decide; [|done]. simplify_eq. by apply Hquiet.
  - destruct (calls w !! tid) as [[k ph]|] eqn:Hc; [|done]. cbn [mbind option_bind] in Hs.
    case_decide; [|done]. destruct (server w) eqn:Hsv; simplify_eq; [by apply Hquiet|].
    destruct (return_call tid k (Ok tt) w) as [w1 es] eqn:Er. simplify_eq.
    destruct (return_call_child _ _ _ _ _ _ Er) as (H1 & H2 & H3). left.
    split; [done|]. split; [done|]. intros i r Hr. split; [by eapply H3|].
    rewrite (si_child w Hw), Hsv, (si_alive w Hw (not_dropped w tid _ Hw Hc)). by intros [|].
  - destruct (calls w !! tid) as [[k ph]|] eqn:Hc; [|done]. cbn [mbind option_bind] in Hs.
    case_decide as Hp; [|done]. subst ph.
    destruct (return_call tid k r (take_server r w)) as [w1 es] eqn:Er. simplify_eq.
    destruct (return_call_child _ _ _ _ _ _ Er) as (H1 & H2 & H3). right. exists r.
    split; [cbn; fold (shutdowns es); by rewrite H2|]. split.
    + apply (si_child w Hw). left. apply (si_reaping w Hw). exists tid. apply (si_lock w Hw). eauto.
    + split; [done|]. intros i r' [?|?]%elem_of_cons; [done|by eapply H3].
  - destruct (calls w !! tid) as [[k ph]|] eqn:Hc; [|done]. cbn [mbind option_bind] in Hs.
    case_decide; [|done]. simplify_eq. by apply Hquiet.
  - case_decide; [|done]. simplify_eq. by apply Hquiet.
  - destruct (cleanup w) eqn:Hcl; [|done]. simplify_eq. right. exists r.
    split; [done|]. split; [apply (si_child w Hw); by right|]. split; [done|]. set_solver.
Qed.

Lemma shutdowns_app evs evs' : shutdowns (evs ++ evs') = shutdowns evs ++ shutdowns evs'.
Proof. apply omap_app. Qed.

Lemma run_child ls w : run server_step started ls w -> server_inv w /\ child_history (sevents ls) w.
Proof.
  revert ls w. apply (run_invariant server_step (fun ls w => server_inv w /\ child_history (sevents ls) w)).
  - split; [apply started_inv|]. by left.
  - intros ls w l w' _ [Hw Hh] Hs. split; [by eapply server_step_inv|].
    unfold sevents. rewrite bind_app. simpl. rewrite app_nil_r. fold (sevents ls).
    unfold child_history. rewrite shutdowns_app.
    destruct (server_step_child w l w' Hw Hs) as [(-> & -> & _)|(r & -> & Ha & -> & _)].
    + by rewrite app_nil_r.
    + destruct Hh as [[-> _]|(r' & _ & Hr)]; [right; by exists r|]. rewrite Hr in Ha. by destruct r'.
Qed.

(** *** Ending the calls *)

(** Steps that need nobody outside but Core: a call goes on, the entry is dropped, the cleanup task
    ends. *)
Definition internal (a : action) : Prop :=
  match a with ELock _ | EReap _ (Ok _) | EDropEntry | ECleanup (Ok _) => True | _ => False end.

Definition is_closing (c : caller * call_phase) : Prop := c.1 = ByRuntimeFree.
#[export] Instance is_closing_dec c : Decision (is_closing c).
Proof. unfold is_closing. apply _. Defined.

Lemma is_closing_if (k : caller) ph :
  (if decide (is_closing (k, ph)) then 1 else 0)%nat = (if decide (k = ByRuntimeFree) then 1 else 0)%nat.
Proof. unfold is_closing. cbn [fst]. by repeat case_decide. Qed.

(** Rounds left: one for each call, and one for the task that [kt_runtime_free] will spawn. *)
Definition rounds (w : World) : nat := (size (calls w) + mcount is_closing (calls w))%nat.

Lemma return_call_rounds w tid k ph r w' evs :
  calls w !! tid = Some (k, ph) -> return_call tid k r w = (w', evs) ->
  rounds w = S (rounds w') /\ handle w' = handle w /\ dropped w' = dropped w.
Proof.
  intros Hc Hr. unfold rounds.
  assert (size (calls w) = S (size (delete tid (calls w)))) as Hs.
  { rewrite map_size_delete, Hc. destruct (size (calls w)) eqn:E; [|simpl; lia].
    apply map_size_empty_inv in E. by rewrite E in Hc. }
  pose proof (mcount_delete is_closing (calls w) tid (k, ph) Hc) as Hd. rewrite is_closing_if in Hd.
  destruct k; cbn [return_call] in Hr; injection Hr as <- <-; cbn [set_calls new_call calls];
    (split; [|done]); simpl in Hd; try (rewrite Hd, Hs; lia).
  rewrite map_size_insert_Some by (by eexists).
  rewrite <- insert_delete_eq, mcount_insert, is_closing_if by apply lookup_delete_eq.
  rewrite Hd. simpl. lia.
Qed.

(** What carries through steps that end calls. *)
Definition same_owner (w w' : World) : Prop := handle w' = handle w /\ dropped w' = dropped w.

Lemma reap_round w tid k :
  server_inv w -> calls w !! tid = Some (k, Reaping) ->
  exists w' evs, estep w (EReap tid (Ok tt)) = Some (w', evs) /\ rounds w = S (rounds w') /\ same_owner w w'.
Proof.
  intros Hw Hc. cbn [estep]. rewrite Hc. cbn [mbind option_bind]. rewrite decide_True by done.
  destruct (return_call tid k (Ok tt) (take_server (Ok tt) w)) as [w' evs] eqn:Er.
  destruct (return_call_rounds _ _ _ Reaping _ _ _ (Hc : calls (take_server (Ok tt) w) !! tid = _) Er) as (H1 & H2 & H3).
  eexists _, _. split; [done|]. by split; [|split].
Qed.

Lemma one_round w :
  server_inv w -> calls w <> ∅ ->
  exists acts w' ls, exec estep w acts = Some (w', ls) /\ Forall internal acts /\
    (length acts <= 2)%nat /\ rounds w = S (rounds w') /\ same_owner w w' /\ server_inv w'.
Proof.
  intros Hw Hne. destruct (lock w) as [tid|] eqn:Hl.
  - pose proof Hl as [k Hc]%(si_lock w Hw). destruct (reap_round w tid k Hw Hc) as (w' & evs & Hs & Hr & Ho).
    exists [EReap tid (Ok tt)], w', [(EReap tid (Ok tt), evs)]. cbn [exec]. rewrite Hs.
    split; [done|]. split; [by repeat constructor|]. split; [simpl; lia|]. split; [done|]. split; [done|].
    by apply (server_step_inv w (EReap tid (Ok tt), evs) w' Hw).
  - destruct (map_choose (calls w) Hne) as (tid & [k ph] & Hc).
    assert (ph = Waiting) as ->.
    { destruct ph; [done|]. assert (lock w = Some tid) by (apply (si_lock w Hw); eauto). congruence. }
    destruct (server w) eqn:Hsv.
    + set (w1 := set_calls (<[tid := (k, Reaping)]> (calls w)) (Some tid) (tokens w) w).
      assert (estep w (ELock tid) = Some (w1, [])) as Hs1.
      { cbn [estep]. rewrite Hc. cbn [mbind option_bind]. by rewrite decide_True, Hsv by done. }
      assert (server_inv w1) as Hw1 by (by apply (server_step_inv w (ELock tid, []) w1 Hw)).
      destruct (reap_round w1 tid k Hw1) as (w' & evs & Hs & Hr & Ho); [apply lookup_insert_eq|].
      exists [ELock tid; EReap tid (Ok tt)], w', [(ELock tid, []); (EReap tid (Ok tt), evs)].
      cbn [exec]. rewrite Hs1. cbn [mbind option_bind]. rewrite Hs.
      split; [done|]. split; [by repeat constructor|]. split; [simpl; lia|].
      assert (rounds w1 = rounds w) as Hrw.
      { unfold rounds, w1. cbn [set_calls calls]. rewrite map_size_insert_Some by (by eexists).
        pose proof (mcount_update is_closing (calls w) tid (k, Waiting) (k, Reaping) Hc) as Hu.
        rewrite !is_closing_if in Hu. lia. }
      split; [lia|]. split; [done|]. by apply (server_step_inv w1 (EReap tid (Ok tt), evs) w' Hw1).
    + destruct (return_call tid k (Ok tt) w) as [w' evs] eqn:Er.
      assert (estep w (ELock tid) = Some (w', evs)) as Hs.
      { cbn [estep]. rewrite Hc. cbn [mbind option_bind]. by rewrite decide_True, Hsv, Er by done. }
      destruct (return_call_rounds _ _ _ _ _ _ _ Hc Er) as (H1 & H2 & H3).
      exists [ELock tid], w', [(ELock tid, evs)]. cbn [exec]. rewrite Hs.
      split; [done|]. split; [by repeat constructor|]. split; [simpl; lia|]. split; [done|]. split; [done|].
      by apply (server_step_inv w (ELock tid, evs) w' Hw).
Qed.

Lemma end_calls n w :
  server_inv w -> rounds w = n ->
  exists acts w' ls, exec estep w acts = Some (w', ls) /\ Forall internal acts /\
    (length acts <= 2 * n)%nat /\ calls w' = ∅ /\ same_owner w w' /\ server_inv w'.
Proof.
  revert w. induction n as [|n IH]; intros w Hw Hn.
  - exists [], w, []. split; [done|]. split; [constructor|]. split; [done|]. split; [|by split].
    unfold rounds in Hn. apply map_size_empty_inv. lia.
  - destruct (decide (calls w = ∅)) as [He|Hne].
    + exists [], w, []. split; [done|]. split; [constructor|]. split; [simpl; lia|]. by split.
    + destruct (one_round w Hw Hne) as (acts1 & w1 & ls1 & Hx1 & Hi1 & Hl1 & Hr1 & [Ho1 Ho1'] & Hw1).
      destruct (IH w1 Hw1 ltac:(lia)) as (acts2 & w2 & ls2 & Hx2 & Hi2 & Hl2 & Hc2 & [Ho2 Ho2'] & Hw2).
      exists (acts1 ++ acts2), w2, (ls1 ++ ls2). split; [by eapply exec_app|].
      split; [by apply Forall_app|]. split; [rewrite length_app; lia|]. split; [done|].
      split; [|done]. split; congruence.
Qed.

(** ** Properties *)

(** C16 The runtime outlives every child: as long as the child runs, the runtime's tracker holds a
    token for it, so the end of the runtime, which waits for no tokens, comes only when the child
    has been shut down and no cleanup is left to run; and no token leaks: once the child is gone and
    no task of [free] runs, none is held. *)
Theorem child_accounted ls w :
  run server_step started ls w ->
  (child w = Alive -> 1 <= tokens w) /\
  (tokens w = 0 -> child w <> Alive /\ cleanup w = false /\
     forall tid c, calls w !! tid = Some c -> c.1 <> ByTask) /\
  (child w <> Alive -> (forall tid c, calls w !! tid = Some c -> c.1 <> ByTask) -> tokens w = 0).
Proof.
  intros Hw%run_server_inv. pose proof (si_tokens w Hw) as Ht. pose proof (si_child w Hw) as Hc.
  split; [|split].
  - intros [Hs|Hs]%Hc; rewrite Hs in Ht; [destruct (cleanup w)|destruct (server w)]; lia.
  - intros Hz. rewrite Hz in Ht. destruct (server w), (cleanup w); try lia.
    split; [rewrite Hc; by intros [|]|]. split; [done|]. intros tid c Hx Hy.
    pose proof (mcount_pos is_task (calls w) tid c Hx Hy). lia.
  - intros Ha Hn. rewrite (mcount_zero is_task (calls w)) in Ht by (intros tid c Hx; by apply (Hn tid)).
    destruct (server w); [by destruct Ha; apply Hc; left|].
    destruct (cleanup w); [by destruct Ha; apply Hc; right|]. lia.
Qed.

(** C25 Core is asked to shut the child down at most once to the end, and every caller hears the
    truth: the caller that did it hears Core's result, and any other hears [Ok] only when the child
    was already gone. *)
Theorem shutdown_tells_truth ls w :
  run server_step started ls w ->
  (length (shutdowns (sevents ls)) <= 1)%nat /\
  forall a evs w' tid r, server_step w (a, evs) w' -> EvReturned tid r ∈ evs ->
    child w' <> Alive /\
    (shutdowns evs = [r] \/ r = Ok tt /\ exists r', shutdowns (sevents ls) = [r']).
Proof.
  intros [Hw Hh]%run_child. split.
  - destruct Hh as [[-> _]|(r & -> & _)]; simpl; lia.
  - intros a evs w' tid r Hs He. destruct (server_step_child w _ w' Hw Hs) as [(Hz & Hc & Hr)|(r0 & Hz & _ & Hc & Hr)]; cbn [snd] in *.
    + destruct (Hr tid r He) as [-> Ha]. rewrite Hc. split; [done|]. right. split; [done|].
      destruct Hh as [[_ Hx]|(r' & Hx & _)]; [done|by eexists].
    + rewrite (Hr tid r He). split; [rewrite Hc; by destruct r0|]. by left.
Qed.

(** Cancelling a shutdown request at any await leaves the child for others: the server stays in
    the entry with its reservation, the mutex is free again if the request had it, and no other call
    is touched. *)
Theorem cancelled_shutdown_keeps_child ls w tid ph :
  run server_step started ls w -> calls w !! tid = Some (ByRequest, ph) ->
  exists w', estep w (ECancel tid) = Some (w', []) /\
    child w' = child w /\ server w' = server w /\ tokens w' = tokens w /\
    calls w' = delete tid (calls w) /\ (lock w' = None \/ lock w' = lock w /\ lock w <> Some tid).
Proof.
  intros Hw%run_server_inv Hc. cbn [estep]. rewrite Hc. cbn [mbind option_bind].
  rewrite decide_True by done. eexists. split; [done|]. do 4 (split; [done|]). cbn [set_calls lock].
  case_decide as Hp; [by left|right]. split; [done|]. intros Hl.
  apply (si_lock w Hw) in Hl as [k Hk]. congruence.
Qed.

(** With the handle gone, the calls end one by one, and the entry after them. *)
Lemma closing_from w :
  server_inv w -> handle w = false -> dropped w = false ->
  exists acts w' ls', exec estep w acts = Some (w', ls') /\ Forall internal acts /\
    (length acts <= 2 * rounds w + 2)%nat /\
    calls w' = ∅ /\ dropped w' = true /\ child w' <> Alive /\ tokens w' = 0.
Proof.
  intros Hw Hh Hd.
  destruct (end_calls _ w Hw eq_refl) as (acts & w1 & ls1 & Hx & Hi & Hl & Hc & [Ho Ho'] & Hw1).
  rewrite Hh in Ho. rewrite Hd in Ho'.
  destruct (estep w1 EDropEntry) as [[w2 evs2]|] eqn:Hs2;
    [|cbn [estep] in Hs2; by rewrite decide_True in Hs2].
  pose proof (server_step_inv w1 (EDropEntry, evs2) w2 Hw1 Hs2) as Hw2.
  assert (w2 = {| child := child w1; server := false; lock := lock w1; handle := false; calls := ∅;
                 cleanup := server w1; dropped := true;
                 tokens := tokens w1 |} /\ evs2 = []) as [Hw2e ->].
  { cbn [estep] in Hs2. rewrite decide_True in Hs2 by done. by simplify_eq. }
  pose proof (si_tokens w2 Hw2) as Ht. pose proof (si_child w2 Hw2) as Hch.
  destruct (server w1) eqn:Hsv.
  - destruct (estep w2 (ECleanup (Ok tt))) as [[w3 evs3]|] eqn:Hs3; [|cbn [estep] in Hs3; by rewrite Hw2e in Hs3].
    exists (acts ++ [EDropEntry; ECleanup (Ok tt)]), w3, (ls1 ++ [(EDropEntry, []); (ECleanup (Ok tt), evs3)]).
    split; [eapply exec_app; [exact Hx|]; cbn [exec]; rewrite Hs2; cbn [mbind option_bind]; by rewrite Hs3|].
    split; [apply Forall_app; split; [done|by repeat constructor]|].
    split; [rewrite length_app; simpl; lia|].
    cbn [estep] in Hs3. subst w2. cbn in Hs3, Ht. rewrite mcount_empty in Ht. simplify_eq. cbn. split_and!; try done. lia.
  - exists (acts ++ [EDropEntry]), w2, (ls1 ++ [(EDropEntry, [])]).
    split; [eapply exec_app; [exact Hx|]; cbn [exec]; by rewrite Hs2|].
    split; [apply Forall_app; split; [done|by repeat constructor]|].
    split; [rewrite length_app; simpl; lia|].
    subst w2. cbn in Ht, Hch |- *. rewrite mcount_empty in Ht. split_and!; try done.
    rewrite Hch. by intros [|].
Qed.

(** Letting go of a server ends it: from any reachable world whose handle is gone, steps of the
    bridge's own calls and tasks, each finishing Core's shutdown, reach a world with no call, no
    child running and no token held, in at most two steps a round and two more. *)
Theorem closing_reaps ls w :
  run server_step started ls w -> handle w = false -> dropped w = false ->
  exists acts w' ls', exec estep w acts = Some (w', ls') /\ Forall internal acts /\
    (length acts <= 2 * rounds w + 2)%nat /\
    calls w' = ∅ /\ dropped w' = true /\ child w' <> Alive /\ tokens w' = 0.
Proof. intros Hw%run_server_inv. by apply closing_from. Qed.

(** ** Witnesses *)

Definition at_end (acts : list action) : World := default started (fst <$> exec estep started acts).
Definition trace (acts : list action) : list (action * list event) :=
  default [] (snd <$> exec estep started acts).

Lemma sample_server_run acts :
  is_Some (exec estep started acts) -> run server_step started (trace acts) (at_end acts).
Proof.
  intros [[w ls] He]. unfold trace, at_end. rewrite He. exact (exec_runs estep started acts w ls He).
Qed.

(** A request reaps while the runtime is being freed. *)
Definition contended : list action :=
  [ECall 1%positive; ECall 2%positive; ELock 1%positive; ERuntimeFree 3%positive].

Lemma child_accounted_witness :
  1 <= tokens (at_end contended) /\ tokens (at_end (contended ++
    [EReap 1%positive (Ok tt); ECancel 2%positive; ELock 3%positive; ELock 3%positive])) = 0.
Proof.
  split.
  - apply (child_accounted (trace contended)); [apply (sample_server_run contended); vm_compute; eauto|].
    vm_compute; reflexivity.
  - set (acts := contended ++ _).
    apply (child_accounted (trace acts)); [apply (sample_server_run acts); vm_compute; eauto|vm_compute; discriminate|].
    intros tid c Hc. assert (calls (at_end acts) = ∅) as He by (vm_compute; reflexivity).
    rewrite He in Hc. discriminate Hc.
Defined.

Lemma shutdown_tells_truth_witness :
  child (at_end (contended ++ [EReap 1%positive (Ok tt); ELock 2%positive])) <> Alive.
Proof.
  destruct (shutdown_tells_truth (trace (contended ++ [EReap 1%positive (Ok tt)])) (at_end (contended ++ [EReap 1%positive (Ok tt)])))
    as [_ H]; [apply (sample_server_run (contended ++ [EReap 1%positive (Ok tt)])); vm_compute; eauto|].
  apply (H (ELock 2) [EvReturned 2 (Ok tt)] _ 2%positive (Ok tt)); [vm_compute; reflexivity|left].
Defined.

Lemma cancelled_shutdown_keeps_child_witness :
  exists w', estep (at_end contended) (ECancel 1) = Some (w', []) /\ child w' = Alive /\ server w' = true.
Proof.
  destruct (cancelled_shutdown_keeps_child (trace contended) (at_end contended) 1 Reaping) as (w' & H1 & H2 & H3 & _);
    [apply (sample_server_run contended); vm_compute; eauto|vm_compute; reflexivity|].
  exists w'. split; [exact H1|]. split; [rewrite H2|rewrite H3]; vm_compute; reflexivity.
Defined.

Lemma closing_reaps_witness :
  exists acts w' ls', exec estep (at_end contended) acts = Some (w', ls') /\ (length acts <= 10)%nat /\
    calls w' = ∅ /\ child w' <> Alive /\ tokens w' = 0.
Proof.
  destruct (closing_reaps (trace contended) (at_end contended)) as (acts & w' & ls' & H1 & _ & H2 & H3 & _ & H4 & H5);
    [apply (sample_server_run contended); vm_compute; eauto|vm_compute; reflexivity..|].
  exists acts, w', ls'. split; [exact H1|]. split; [|split; [exact H3|split; [exact H4|exact H5]]].
  assert (rounds (at_end contended) = 4%nat) as Hr by (vm_compute; reflexivity). rewrite Hr in H2. exact H2.
Defined.

(** ** The options' meaning *)

Definition config_port (c : ServerConfig) : option Z :=
  match c with TestServerConfig _ p _ | DevServerConfig _ _ _ p _ _ => p end.
Definition config_exe (c : ServerConfig) : EphemeralExe :=
  match c with TestServerConfig e _ _ | DevServerConfig e _ _ _ _ _ => e end.

(** What [exe] chooses. *)
Definition exe_as_asked (options : EphemeralServerOptions) (e : EphemeralExe) : Prop :=
  match e with
  | ExistingPath path => path = existing_path options /\ path <> EmptyString
  | CachedDownload version dir ttl =>
      existing_path options = EmptyString /\ default EmptyString dir = download_dest_dir options /\
      (forall v, version = FixedVersion v -> v = download_version options /\ v <> EmptyString) /\
      ttl = match download_ttl_seconds options with
            | None => Some 86400
            | Some s => if decide (0 < s) then Some s else None
            end
  end.

Lemma exe_spec options : exe_as_asked options (exe options).
Proof.
  unfold exe, exe_as_asked. destruct (decide (existing_path options <> EmptyString)) as [Hp|Hp]; [done|].
  split; [by destruct (existing_path options); [|destruct Hp]|]. split; [by case_decide|]. split.
  - intros v. case_decide as Hd; [done|]. intros [= <-]. split; [done|]. intros He. apply Hd. by left.
  - by destruct (download_ttl_seconds options).
Qed.

Lemma port_spec options p :
  port options = Ok p ->
  0 <= server_port options <= 65535 /\ (p = None <-> server_port options = 0) /\
  (forall n, p = Some n -> n = server_port options).
Proof.
  unfold port. case_decide as Hr; [|done]. intros [= <-]. split; [done|]. case_decide.
  - split; [split; [done|lia]|]. by intros n [= <-].
  - split; [split; [lia|done]|]. done.
Qed.

(** A server starts as it was asked to: a port outside the TCP range is refused when the options
    are decoded, so that no accepted options fail on it later, and zero alone leaves the choice to
    the server; the child's output goes to the caller's file or nowhere, never to the JVM's own; an
    existing binary wins over a download; and a download's lifetime is a day unless given, with
    zero meaning for ever. *)
Theorem start_config_spec open decoded options :
  decode_options decoded = Ok options ->
  decoded = Ok options /\ 0 <= server_port options <= 65535 /\
  match start_config open options with
  | Err text =>
      log_file options <> EmptyString /\ exists e, open (log_file options) = Err e /\
        text = "could not open " +:+ log_file options +:+ ": " +:+ e
  | Ok (c, (out, err)) =>
      (config_port c = None <-> server_port options = 0) /\
      (forall p, config_port c = Some p -> p = server_port options) /\
      out = err /\ out = (if decide (log_file options = EmptyString) then StdioNull
                          else StdioFile (log_file options)) /\
      exe_as_asked options (config_exe c)
  end.
Proof.
  unfold decode_options. intros Hd. apply result_bind_ok in Hd as (o & Ho & Hd).
  apply map_err_ok in Ho. subst decoded. apply result_bind_ok in Hd as (p & Hp & Hd). injection Hd as ->.
  destruct (port_spec options p Hp) as (Hr & Hn & Hs). split; [done|]. split; [done|].
  pose proof (exe_spec options) as He. unfold start_config. rewrite Hp. cbn [map_err mbind result_bind].
  unfold redirect. case_decide as Hl; [cbn [mbind result_bind]; by destruct (test_server options)|].
  destruct (open (log_file options)) as [u|e]; cbn [map_err mbind result_bind];
    [by destruct (test_server options)|]. split; [done|]. by exists e.
Qed.

Definition sample_server (p : Z) : EphemeralServerOptions :=
  {| existing_path := EmptyString; download_version := "v1.2.3"; download_dest_dir := EmptyString;
     sdk_name := EmptyString; sdk_version := EmptyString; server_namespace := EmptyString;
     ip := EmptyString; server_port := p; ui := false; extra_args := []; test_server := false;
     log_file := "server.log"; download_ttl_seconds := Some 0 |}.

Lemma start_config_spec_witness :
  (0 <= 7233 <= 65535) /\
  exists c io, start_config (fun _ => Ok tt) (sample_server 7233) = Ok (c, io) /\
    exe_as_asked (sample_server 7233) (config_exe c).
Proof.
  destruct (start_config_spec (fun _ => Ok tt) (Ok (sample_server 7233)) (sample_server 7233) eq_refl)
    as (_ & H1 & H2).
  split; [exact H1|]. destruct (start_config _ _) as [[c [out err]]|text] eqn:E; [|discriminate E].
  exists c, (out, err). split; [reflexivity|]. apply H2.
Defined.
