(* ===== verification/Utf8.v ===== *)
(** UTF-8 as [std::str::from_utf8] checks it, used by [kt_client_rpc] ([lib.rs]) for the name of an
    RPC: the validation of the Unicode standard's table of well-formed sequences, with the error's
    position and text. *)

From S2P Require Import Prelude.

Definition byte_in (lo hi : Z) (b : byte) : bool :=
  let x := Z.of_N (Byte.to_N b) in (lo <=? x) && (x <=? hi).
Definition continuation : byte -> bool := byte_in 0x80 0xBF.

(** The bounds of the second byte of a character of three or four, by its first. *)
Definition second_ok (b0 : byte) : byte -> bool :=
  if byte_in 0xE0 0xE0 b0 then byte_in 0xA0 0xBF
  else if byte_in 0xED 0xED b0 then byte_in 0x80 0x9F
  else if byte_in 0xF0 0xF0 b0 then byte_in 0x90 0xBF
  else if byte_in 0xF4 0xF4 b0 then byte_in 0x80 0x8F
  else continuation.

(** [from_utf8]: where it stops, and how long the invalid sequence is if the input does not just
    end there. *)
Fixpoint utf8_error (at_ : Z) (bs : list byte) : option (Z * option Z) :=
  match bs with
  | [] => None
  | b0 :: r0 =>
      if byte_in 0 0x7F b0 then utf8_error (at_ + 1) r0
      else if byte_in 0xC2 0xDF b0 then
        match r0 with
        | [] => Some (at_, None)
        | b1 :: r1 => if continuation b1 then utf8_error (at_ + 2) r1 else Some (at_, Some 1)
        end
      else if byte_in 0xE0 0xEF b0 then
        match r0 with
        | [] => Some (at_, None)
        | b1 :: r1 =>
            if second_ok b0 b1 then
              match r1 with
              | [] => Some (at_, None)
              | b2 :: r2 => if continuation b2 then utf8_error (at_ + 3) r2 else Some (at_, Some 2)
              end
            else Some (at_, Some 1)
        end
      else if byte_in 0xF0 0xF4 b0 then
        match r0 with
        | [] => Some (at_, None)
        | b1 :: r1 =>
            if second_ok b0 b1 then
              match r1 with
              | [] => Some (at_, None)
              | b2 :: r2 =>
                  if continuation b2 then
                    match r2 with
                    | [] => Some (at_, None)
                    | b3 :: r3 =>
                        if continuation b3 then utf8_error (at_ + 4) r3 else Some (at_, Some 3)
                    end
                  else Some (at_, Some 2)
              end
            else Some (at_, Some 1)
        end
      else Some (at_, Some 1)
  end.

(** [Utf8Error]'s [Display]. *)
Definition utf8_error_text (e : Z * option Z) : string :=
  match e with
  | (at_, Some n) =>
      "invalid utf-8 sequence of " +:+ pretty n +:+ " bytes from index " +:+ pretty at_
  | (at_, None) => "incomplete utf-8 byte sequence from index " +:+ pretty at_
  end.

(** [std::str::from_utf8]. *)
Definition from_utf8 (bs : list byte) : result string string :=
  match utf8_error 0 bs with
  | None => Ok (String.string_of_list_byte bs)
  | Some e => Err (utf8_error_text e)
  end.

