(* ===== verification/Ffi.v ===== *)
(** The exported functions ([lib.rs], lines 124 to 591; [worker.rs], [complete] and [heartbeat]).

    A [Bridge] is what the exports see: the handle table, the objects behind its [Arc]s by identity,
    the calling thread's last error, the caller's buffers after the call, and [deeds], the log of
    what an export sets going in another component (a spawned operation, a closed entry, a freed
    runtime), whose course the other files model.  An export's body is a computation in [M]: a tree of
    atomic actions, each what is done under one lock, with Rust's early returns and panics.  [seq]
    reads a body with nothing in between, [export] runs that under [guard]; [Threads] interleaves.
    Operations spawned on the runtime are data; the completions they end in, and the bodies of the
    tasks that put what Core created into the table, are here too.  Core, the decoders and the protobuf
    encoders are parameters, in the class [Externals]. *)

From S2P Require Import Prelude Abi KtError Panic Handle Queue Runtime Slots Worker Telemetry.
From S2P Require Import Services Rpc WorkerConfig Options Ephemeral Utf8.

(** ** Operations on the runtime *)

(** [kt_bridge.EphemeralServerInfo]. *)
Record ServerInfo := { si_target : string; si_pid : Z; si_has_test_service : bool }.

(** What the exports take from other crates: prost's decoders and encoders of the messages that
    cross the boundary, [serde_json], the parser of URLs, the host, and Core's builders. *)
Class Externals (Url Core Tuner F : Type) := {
  decode_runtime : list byte -> result string RuntimeOptions;
  decode_client : list byte -> result string ClientOptions;
  decode_worker : list byte -> result string WorkerOptions;
  decode_server : list byte -> result string EphemeralServerOptions;
  decode_heartbeat : list byte -> result string unit;
  encode_info : ServerInfo -> list byte;
  encode_version : string -> list byte;
  to_json : F -> option string;
  encode_batch : MetricBatch -> list byte;
  parse_url : string -> result string Url;
  hostname : string;
  process_id : Z;
  pkg_version : string;
  core_version : string;
  build_runtime : CoreRuntimeOptions -> result string CoreRuntimeOptions;
  core_runtime_new : CoreRuntimeOptions -> result string Core;
  build_options : TunerHolderOptions -> result string TunerHolderOptions;
  build_tuner_holder : TunerHolderOptions -> result string Tuner;
  build_config : WorkerConfig Tuner -> result string (WorkerConfig Tuner);
  init_worker : WorkerConfig Tuner -> result string unit;
  clock_now : Z;
}.

Section ffi.
Context {Url Core Tuner F : Type} {C : Type} `{GrpcCode C} `{!Externals Url Core Tuner F}.

Inductive operation :=
| OpConnect (runtime : Z) (options : ConnectionOptions Url) (namespace : string)
| OpRpc (client : arc) (service : Service) (name : string) (request : list byte) (timeout : option Z)
| OpValidate (worker : arc)
| OpComplete (worker : arc) (task_kind : Z) (bytes : list byte)
| OpShutdown (worker : arc) (grace_millis : Z)
| OpStartServer (runtime : Z) (options : EphemeralServerOptions)
| OpStopServer (server : arc).

(** What an export sets going elsewhere. *)
Inductive deed :=
| DSpawn (runtime : arc) (req_id : Z) (op : operation)
| DReap (server : arc)
| DClose (e : Entry)
| DDrop (server : arc)
| DFreeRuntime (runtime : arc)
| DInitiate (worker : arc)
| DHeartbeat (worker : arc).

Record RuntimeObject := { ro_entry : RuntimeEntry Table; ro_meter : MeterRuntime (F := F) }.
Record WorkerObject := { wo_world : Worker.World; wo_resources : option Slots.World }.

Record Bridge := {
  table : Table;
  runtimes : gmap arc RuntimeObject;
  workers : gmap arc WorkerObject;
  servers : gmap arc ServerInfo;
  poller_runtime : gmap arc arc;
  fresh : arc;
  deeds : list deed;
  written : option (option (list byte) * option Z);
  last : string;
}.

Definition set_table (t : Table) (b : Bridge) : Bridge :=
  {| table := t; runtimes := runtimes b; workers := workers b; servers := servers b;
     poller_runtime := poller_runtime b; fresh := fresh b; deeds := deeds b; written := written b;
     last := last b |}.
Definition set_runtimes (m : gmap arc RuntimeObject) (b : Bridge) : Bridge :=
  {| table := table b; runtimes := m; workers := workers b; servers := servers b;
     poller_runtime := poller_runtime b; fresh := fresh b; deeds := deeds b; written := written b;
     last := last b |}.
Definition set_workers (m : gmap arc WorkerObject) (b : Bridge) : Bridge :=
  {| table := table b; runtimes := runtimes b; workers := m; servers := servers b;
     poller_runtime := poller_runtime b; fresh := fresh b; deeds := deeds b; written := written b;
     last := last b |}.
Definition set_servers (m : gmap arc ServerInfo) (b : Bridge) : Bridge :=
  {| table := table b; runtimes := runtimes b; workers := workers b; servers := m;
     poller_runtime := poller_runtime b; fresh := fresh b; deeds := deeds b; written := written b;
     last := last b |}.
Definition set_pollers (m : gmap arc arc) (b : Bridge) : Bridge :=
  {| table := table b; runtimes := runtimes b; workers := workers b; servers := servers b;
     poller_runtime := m; fresh := fresh b; deeds := deeds b; written := written b;
     last := last b |}.
Definition set_fresh (a : arc) (b : Bridge) : Bridge :=
  {| table := table b; runtimes := runtimes b; workers := workers b; servers := servers b;
     poller_runtime := poller_runtime b; fresh := a; deeds := deeds b; written := written b;
     last := last b |}.
Definition set_deeds (d : list deed) (b : Bridge) : Bridge :=
  {| table := table b; runtimes := runtimes b; workers := workers b; servers := servers b;
     poller_runtime := poller_runtime b; fresh := fresh b; deeds := d; written := written b;
     last := last b |}.
Definition set_written (x : option (option (list byte) * option Z)) (b : Bridge) : Bridge :=
  {| table := table b; runtimes := runtimes b; workers := workers b; servers := servers b;
     poller_runtime := poller_runtime b; fresh := fresh b; deeds := deeds b; written := x;
     last := last b |}.
Definition set_last (s : string) (b : Bridge) : Bridge :=
  {| table := table b; runtimes := runtimes b; workers := workers b; servers := servers b;
     poller_runtime := poller_runtime b; fresh := fresh b; deeds := deeds b; written := written b;
     last := s |}.

#[export] Instance bridge_last_error : LastError Bridge :=
  {| last_error := last; put_last_error := set_last;
     last_error_put _ _ := eq_refl; put_last_error_twice _ _ _ := eq_refl |}.

(** ** The monad of an export's body

    A body is a tree of atomic actions: what it does under one lock, or to what only the caller can
    reach.  Between two of them anything else may run. *)

Definition action (X : Type) : Type := Bridge -> outcome (KtResult X) * Bridge.

Inductive M (A : Type) : Type :=
| Ret (r : outcome (KtResult A))
| Act {X : Type} (f : action X) (k : X -> M A).
Arguments Ret {A} _.
Arguments Act {A X} _ _.

Definition stop {A B} (r : outcome (KtResult A)) (f : A -> M B) : M B :=
  match r with
  | Done (Ok a) => f a
  | Done (Err e) => Ret (Done (Err e))
  | Panicked p => Ret (Panicked p)
  end.

Fixpoint M_then {A B} (f : A -> M B) (m : M A) : M B :=
  match m with
  | Ret r => stop r f
  | Act g k => Act g (fun x => M_then f (k x))
  end.

#[export] Instance M_ret : MRet M := fun A a => Ret (Done (Ok a)).
#[export] Instance M_bind : MBind M := @M_then.

(** The body alone, with nothing in between. *)
Fixpoint seq {A} (m : M A) (b : Bridge) : outcome (KtResult A) * Bridge :=
  match m with
  | Ret r => (r, b)
  | Act f k =>
      match f b with
      | (Done (Ok x), b') => seq (k x) b'
      | (Done (Err e), b') => (Done (Err e), b')
      | (Panicked p, b') => (Panicked p, b')
      end
  end.

Definition discarded {A} (r : outcome (KtResult A)) : outcome (KtResult unit) :=
  match r with
  | Done (Ok _) => Done (Ok tt)
  | Done (Err e) => Done (Err e)
  | Panicked p => Panicked p
  end.

(** [kt_export!]: the body under [guard]. *)
Definition export {A} (m : M A) : Bridge -> Z * Bridge :=
  guard (fun b => let '(r, b') := seq m b in (discarded r, b')).

Definition atomic {A} (f : action A) : M A := Act f (fun a => Ret (Done (Ok a))).
Definition returns {A} (r : KtResult A) : M A := Ret (Done r).
Definition refuse {A} (e : KtError) : M A := returns (Err e).
Definition panics {A} (text : string) : M A := Ret (Panicked (PayloadStr text)).
Definition check (bad : bool) (text : string) : M unit :=
  if bad then refuse (InvalidArgument text) else mret tt.

(** Reads and changes of the handle table, each under its lock. *)
Definition look {A} (f : Table -> outcome (KtResult A)) : M A := atomic (fun b => (f (table b), b)).
Definition on_table {A} (f : Table -> outcome (Table * KtResult A)) : M A := atomic (fun b =>
  match f (table b) with
  | Done (t, r) => (Done r, set_table t b)
  | Panicked p => (Panicked p, b)
  end).

(** The object behind an [Arc] the table gave out. *)
Definition found {A} (x : option A) : outcome (KtResult A) := expect (Ok <$> x) "dangling Arc".
Definition object {A} (f : Bridge -> gmap arc A) (a : arc) : M A :=
  atomic (fun b => (found (f b !! a), b)).

Definition log (ds : list deed) (b : Bridge) : Bridge := set_deeds (deeds b ++ ds) b.
Definition do_ (d : deed) : M unit := atomic (fun b => (Done (Ok tt), log [d] b)).

(** [Arc::new]: [put] has what is behind it. *)
Definition alloc (put : arc -> Bridge -> Bridge) : M arc := atomic (fun b =>
  let a := fresh b in (Done (Ok a), put a (set_fresh (Pos.succ a) b))).
Definition new_arc : M arc := alloc (fun _ b => b).

(** What is done to a runtime, or to a worker, under one of its locks; [ds] is what that sets going. *)
Definition on_runtime {A} (a : arc) (f : RuntimeObject -> RuntimeObject * KtResult A) : M A :=
  atomic (fun b =>
    match found (runtimes b !! a) with
    | Done (Ok ro) =>
        let '(ro', r) := f ro in (Done r, set_runtimes (<[a := ro']> (runtimes b)) b)
    | Done (Err e) => (Done (Err e), b)
    | Panicked p => (Panicked p, b)
    end).
Definition on_worker {A} (a : arc) (f : WorkerObject -> WorkerObject * list deed * KtResult A) : M A :=
  atomic (fun b =>
    match found (workers b !! a) with
    | Done (Ok w) =>
        let '(w', ds, r) := f w in (Done r, log ds (set_workers (<[a := w']> (workers b)) b))
    | Done (Err e) => (Done (Err e), b)
    | Panicked p => (Panicked p, b)
    end).

Definition on_entry {A} (f : RuntimeEntry Table -> RuntimeEntry Table * KtResult A) (ro : RuntimeObject) :
    RuntimeObject * KtResult A :=
  let '(entry, r) := f (ro_entry ro) in ({| ro_entry := entry; ro_meter := ro_meter ro |}, r).
Definition with_world (w : Worker.World) (o : WorkerObject) : WorkerObject :=
  {| wo_world := w; wo_resources := wo_resources o |}.

Definition reserved_req : string := "req_id 0 is reserved for pushed events".

(** [spawn_request] up to its return: [Runtime.v] has the rest. *)
Definition spawn_request (runtime : arc) (req_id : Z) (op : operation) : M unit :=
  token ← new_arc;
  _ ← on_runtime runtime (on_entry (fun e => let '(e', r) := register e req_id token in
                                             (e', match r with Ok _ => Ok tt | Err x => Err x end)));
  do_ (DSpawn runtime req_id op).

(** [write_out] on the caller's pointers. *)
Definition write (bytes : list byte) (out : option (list byte)) (cap : Z) (out_len : option Z) : M unit :=
  atomic (fun b => let '(r, out', len') := write_out bytes out cap out_len in
                   (Done r, set_written (Some (out', len')) b)).

(** ** The exports *)

(** [prost::Message::decode(slice(ptr, len)?)?]. *)
Definition decoded {A} (decode : list byte -> result string A) (ptr : option (list byte)) (len : Z) : M A :=
  bytes ← returns (slice ptr len);
  returns (map_err from_decode_error (decode bytes)).

(** The entry of a runtime that [new_runtime] has built, at the start. *)
Definition runtime_object (rt : NewRuntime Core) : RuntimeObject :=
  {| ro_entry := {| q := {| shared := nr_queue rt; pollers := ∅; threads := ∅; handles := table_new |};
                    pending := nr_pending rt; rt_closed := nr_closed rt; Runtime.tokens := ∅;
                    tasks := ∅; freeing := Open |};
     ro_meter := {| metrics := nr_metrics rt; core_logs := []; metric_batch := nr_metric_batch rt |} |}.

(** An out-pointer argument is [true] when it is null; the value it receives is the result. *)
Definition kt_runtime_new (cfg : option (list byte)) (cfg_len : Z) (out_null : bool) : M Z :=
  _ ← check out_null "out_runtime is null";
  options ← decoded decode_runtime cfg cfg_len;
  rt ← returns (new_runtime build_runtime core_runtime_new options);
  a ← alloc (fun a b => set_runtimes (<[a := runtime_object rt]> (runtimes b)) b);
  on_table (fun t => '(t', h) ← ht_insert t (Handle.Runtime a); mret (t', Ok h)).

Definition kt_runtime_info (runtime : Z) (out : option (list byte)) (cap : Z) (out_len : option Z) : M unit :=
  _ ← look (fun t => get_runtime t runtime);
  write (encode_version core_version) out cap out_len.

(** The retained or fresh batch of a runtime, copied out, under the batch's lock. *)
Definition retrieve (a : arc) (out : option (list byte)) (cap : Z) (out_len : option Z) : M unit :=
  atomic (fun b =>
    match found (runtimes b !! a) with
    | Done (Ok ro) =>
        match batch_bytes to_json encode_batch (ro_meter ro) with
        | Panicked p => (Panicked p, b)
        | Done (m, bytes, _) =>
            let '(r, out', len') := write_out bytes out cap out_len in
            let m' := match r with Ok _ => set_batch None m | Err _ => m end in
            (Done r, set_written (Some (out', len'))
                       (set_runtimes (<[a := {| ro_entry := ro_entry ro; ro_meter := m' |}]> (runtimes b)) b))
        end
    | Done (Err e) => (Done (Err e), b)
    | Panicked p => (Panicked p, b)
    end).

Definition kt_runtime_retrieve_metrics (runtime : Z) (out : option (list byte)) (cap : Z)
    (out_len : option Z) : M unit :=
  a ← look (fun t => get_runtime t runtime);
  retrieve a out cap out_len.

(** [worker::free]. *)
Definition free_worker (a : arc) : M unit :=
  on_worker a (fun w =>
    let '(world, evs) := Worker.free (wo_world w) in
    (with_world world w,
     DClose (Handle.Worker a) :: (if decide (evs = []) then [] else [DInitiate a]), Ok tt)).

(** [Entry::close]; a server's [free] spawns the task of [Ephemeral.v]. *)
Definition close_entry (e : Entry) : M unit :=
  match e with
  | Handle.Worker a => free_worker a
  | Handle.Ephemeral _ => do_ (DClose e)
  | _ => mret tt
  end.

(** The loop over a freed runtime's children; [reap] is what shutting a server down gives. *)
Fixpoint close_children (reap : arc -> result string unit) (children : list Entry)
    (error : option string) : M (option string) :=
  match children with
  | [] => mret error
  | child :: rest =>
      error' ← match child with
               | Handle.Ephemeral a =>
                   _ ← do_ (DReap a);
                   mret (match reap a, error with Err e, None => Some e | _, _ => error end)
               | _ => mret error
               end;
      _ ← close_entry child;
      close_children reap rest error'
  end.

Definition kt_runtime_free (reap : arc -> result string unit) (runtime : Z) : M unit :=
  '(a, children) ← on_table (fun t => remove_runtime t runtime);
  shutdown_error ← close_children reap children None;
  _ ← do_ (DFreeRuntime a);
  match shutdown_error with None => mret tt | Some e => refuse (Failed e) end.

Definition kt_client_connect (runtime : Z) (cfg : option (list byte)) (cfg_len req_id : Z) : M unit :=
  _ ← check (bool_decide (req_id = 0)) reserved_req;
  a ← look (fun t => get_runtime t runtime);
  config ← decoded decode_client cfg cfg_len;
  options ← returns (connection_options parse_url hostname process_id pkg_version config);
  spawn_request a req_id (OpConnect runtime options (client_namespace config)).

Definition kt_client_rpc (runtime client service : Z) (rpc_ptr : option (list byte)) (rpc_len : Z)
    (req_ptr : option (list byte)) (req_len timeout_millis req_id : Z) : M unit :=
  _ ← check (bool_decide (req_id = 0)) reserved_req;
  rt ← look (fun t => get_runtime t runtime);
  _ ← look (fun t => require_owner t client runtime);
  cl ← look (fun t => get_client t client);
  let timeout := if decide (0 < timeout_millis) then Some timeout_millis else None in
  service ← returns (from_u32 service);
  name_bytes ← returns (slice rpc_ptr rpc_len);
  name ← returns (map_err (fun e => InvalidArgument ("rpc name is not UTF-8: " +:+ e)) (from_utf8 name_bytes));
  request ← returns (slice req_ptr req_len);
  spawn_request rt req_id (OpRpc cl service name request timeout).

Definition kt_client_free (client : Z) : M unit :=
  _ ← on_table (fun t => remove_of_kind t client KIND_CLIENT); mret tt.

(** [HANDLES.insert_owned]: what it refuses is closed after the lock is released. *)
Fixpoint close_all (es : list Entry) : M unit :=
  match es with [] => mret tt | e :: rest => _ ← close_entry e; close_all rest end.
Definition closing {A} (f : Table -> outcome (Table * A * list Entry)) : M A :=
  '(r, closed) ← on_table (fun t => '(t', r, closed) ← f t; mret (t', Ok (r, closed)));
  _ ← close_all closed;
  mret r.
Definition insert_owned_entry (runtime : Z) (e : Entry) : M Z :=
  r ← closing (fun t => insert_owned t runtime e); returns r.

(** The gate a worker with the JVM's tuner gets, without suppliers or waiters yet. *)
Definition new_resources : Slots.World :=
  {| gate := gate_new; suppliers := ∅; permits := ∅; waiters := ∅;
     Slots.gate_calls := ∅; Slots.now := clock_now |}.

Definition kt_worker_new (runtime client : Z) (cfg : option (list byte)) (cfg_len : Z)
    (out_null : bool) : M Z :=
  _ ← check out_null "out_worker is null";
  rt ← look (fun t => get_runtime t runtime);
  _ ← look (fun t => require_owner t client runtime);
  cl ← look (fun t => get_client t client);
  options ← decoded decode_worker cfg cfg_len;
  gate_arc ← new_arc;
  let resources := if is_jvm options then Some gate_arc else None in
  config ← returns (worker_config_with_resource_gate build_options build_tuner_holder build_config
                      clock_now gate_arc options resources);
  _ ← returns (map_err from_anyhow (init_worker config));
  a ← alloc (fun a b => set_workers (<[a := {| wo_world := worker_new;
        wo_resources := (fun _ => new_resources) <$> resources |}]> (workers b)) b);
  insert_owned_entry runtime (Handle.Worker a).

(** [entry.core()?] of the worker behind an [Arc]. *)
Definition worker_core (a : arc) : M unit :=
  on_worker a (fun w => (w, [], core (wo_world w))).

Definition kt_worker_validate (runtime worker req_id : Z) : M unit :=
  _ ← check (bool_decide (req_id = 0)) reserved_req;
  rt ← look (fun t => get_runtime t runtime);
  _ ← look (fun t => require_owner t worker runtime);
  a ← look (fun t => get_worker t worker);
  _ ← worker_core a;
  spawn_request rt req_id (OpValidate a).

Definition kt_worker_start (runtime worker : Z) : M unit :=
  _ ← look (fun t => get_runtime t runtime);
  _ ← look (fun t => require_owner t worker runtime);
  a ← look (fun t => get_worker t worker);
  on_worker a (fun w => let '(world, r) := start (wo_world w) in (with_world world w, [], r)).

Definition kt_worker_complete (runtime worker task_kind : Z) (ptr : option (list byte))
    (len req_id : Z) : M unit :=
  _ ← check (bool_decide (req_id = 0)) reserved_req;
  rt ← look (fun t => get_runtime t runtime);
  _ ← look (fun t => require_owner t worker runtime);
  a ← look (fun t => get_worker t worker);
  _ ← worker_core a;
  bytes ← returns (slice ptr len);
  spawn_request rt req_id (OpComplete a task_kind bytes).

(** [worker::heartbeat]. *)
Definition heartbeat (a : arc) (bytes : list byte) : M unit :=
  _ ← returns (map_err from_decode_error (decode_heartbeat bytes));
  do_ (DHeartbeat a).

Definition kt_worker_heartbeat (worker : Z) (ptr : option (list byte)) (len : Z) : M unit :=
  a ← look (fun t => get_worker t worker);
  _ ← worker_core a;
  bytes ← returns (slice ptr len);
  heartbeat a bytes.

Definition kt_worker_initiate_shutdown (worker : Z) : M unit :=
  a ← look (fun t => get_worker t worker);
  running ← on_worker a (fun w => (w, [], Ok (negb (is_err (core (wo_world w))))));
  if running : bool then do_ (DInitiate a) else mret tt.

Definition kt_worker_shutdown (runtime worker grace_millis req_id : Z) : M unit :=
  _ ← check (bool_decide (req_id = 0)) reserved_req;
  rt ← look (fun t => get_runtime t runtime);
  _ ← look (fun t => require_owner t worker runtime);
  a ← look (fun t => get_worker t worker);
  spawn_request rt req_id (OpShutdown a (Z.max grace_millis 1)).

Definition kt_worker_free (worker : Z) : M unit :=
  removed ← on_table (fun t => remove_of_kind t worker KIND_WORKER);
  match removed with
  | Handle.Worker a => free_worker a
  | _ => mret tt
  end.

(** One access to the gate behind a worker. *)
Definition on_gate {A} (a : arc) (f : Slots.World -> Slots.World * A) : M A :=
  on_worker a (fun w =>
    match wo_resources w with
    | Some g => let '(g', x) := f g in
                ({| wo_world := wo_world w; wo_resources := Some g' |}, [], Ok x)
    | None => (w, [], Err (InvalidArgument "worker has no JVM resource tuner"))
    end).

(** A method of the gate: its accesses one after the other, and what they load. *)
Fixpoint gate_call (a : arc) (ops : list gate_op) : M (list Z) :=
  match ops with
  | [] => mret []
  | op :: ops =>
      values ← on_gate a (fun g => gate_step g op);
      rest ← gate_call a ops;
      mret (values ++ rest)
  end.

(** The eight statistics are the result. *)
Definition kt_worker_update_resource (worker allow : Z) (out_null : bool) : M (list Z) :=
  _ ← check out_null "out_stats is null";
  _ ← check (bool_decide (15 < allow)) "resource admission mask must be between 0 and 15";
  a ← look (fun t => get_worker t worker);
  _ ← worker_core a;
  _ ← gate_call a (update allow);
  gate_call a stats.

Definition kt_ephemeral_start (runtime : Z) (cfg : option (list byte)) (cfg_len req_id : Z) : M unit :=
  _ ← check (bool_decide (req_id = 0)) reserved_req;
  rt ← look (fun t => get_runtime t runtime);
  bytes ← returns (slice cfg cfg_len);
  options ← returns (decode_options (decode_server bytes));
  spawn_request rt req_id (OpStartServer runtime options).

Definition kt_ephemeral_info (server : Z) (out : option (list byte)) (cap : Z) (out_len : option Z) : M unit :=
  a ← look (fun t => get_ephemeral t server);
  info ← object servers a;
  write (encode_info info) out cap out_len.

Definition kt_ephemeral_shutdown (runtime server req_id : Z) : M unit :=
  _ ← check (bool_decide (req_id = 0)) reserved_req;
  rt ← look (fun t => get_runtime t runtime);
  _ ← look (fun t => require_owner t server runtime);
  a ← look (fun t => get_ephemeral t server);
  spawn_request rt req_id (OpStopServer a).

Definition kt_ephemeral_free (reap : arc -> result string unit) (server : Z) : M unit :=
  removed ← on_table (fun t => remove_of_kind t server KIND_EPHEMERAL);
  match removed with
  | Handle.Ephemeral a => _ ← do_ (DReap a); _ ← do_ (DDrop a); returns (map_err Failed (reap a))
  | _ => panics "internal error: entered unreachable code"
  end.

(** A queue operation on the runtime behind an [Arc]. *)
Definition on_runtime_queue (a : arc) (f : Queue.World Table -> Queue.World Table) : M unit :=
  on_runtime a (on_entry (fun e => (set_q (f (q e)) e, Ok tt))).

Definition kt_poller_new (runtime : Z) (out_null : bool) : M Z :=
  _ ← check out_null "out_poller is null";
  rt ← look (fun t => get_runtime t runtime);
  a ← alloc (fun a b => set_pollers (<[a := rt]> (poller_runtime b)) b);
  _ ← on_runtime_queue rt (set_poller a poller_new);
  on_table (fun t => '(t', h) ← ht_insert t (Handle.Poller a); mret (t', Ok h)).

(** The checks and the lookup before [PollerEntry::poll], which blocks and runs on the queue's own
    locks: its rounds are the steps of [Queue.v]. *)
Definition kt_poller_poll (poller : Z) (out_null : bool) : M arc :=
  _ ← check out_null "out/out_count is null";
  look (fun t => get_poller t poller).

Definition kt_poller_wake (poller : Z) : M unit :=
  a ← look (fun t => get_poller t poller);
  rt ← object poller_runtime a;
  on_runtime_queue rt wake.

Definition kt_poller_free (poller : Z) : M unit :=
  _ ← on_table (fun t => remove_of_kind t poller KIND_POLLER); mret tt.

Definition kt_cancel (runtime req_id : Z) : M unit :=
  a ← look (fun t => get_runtime t runtime);
  on_runtime a (on_entry (fun e => (Runtime.cancel e req_id, Ok tt))).

(** ** What spawned operations answer

    The completion an operation's future returns, from what Core gave it.  A creation enters its
    object in the handle table, under the runtime it was asked for; the last result lists the
    entries the table refused, which are closed. *)

Definition plain_completion (req_id status : Z) (prefix : string) (r : result string unit) : Pending :=
  match r with
  | Ok _ => pending_ack req_id
  | Err text => pending_error req_id status (prefix +:+ text)
  end.

Definition validate_completion (req_id : Z) : result string unit -> Pending :=
  plain_completion req_id KT_ERR_INVALID_ARGUMENT "worker validation failed: ".
(** [kt_worker_complete], [kt_worker_shutdown] and [kt_ephemeral_shutdown]. *)
Definition failed_completion (req_id : Z) : result string unit -> Pending :=
  plain_completion req_id KT_ERR_FAILED EmptyString.

Definition rpc_completion (req_id : Z) (r : KtResult RpcOutcome) : Pending :=
  match r with
  | Ok outcome =>
      if decide (status_code outcome = 0) then
        with_payload (payload outcome) (with_kind Abi.Rpc (pending_ack req_id))
      else
        with_payload (payload outcome)
          (with_kind Abi.Rpc (pending_error req_id (status_code outcome) (message outcome)))
  | Err err => with_kind Abi.Rpc (pending_error req_id (code err) (error_to_string err))
  end.

Definition connect_completion (encode_failure : RpcFailure -> list byte) (t : Table)
    (runtime req_id : Z) (r : result (ClientConnectError C) arc) :
    outcome (Table * Pending * list Entry) :=
  match r with
  | Ok client =>
      '(t', h, closed) ← insert_owned t runtime (Handle.Client client);
      mret (t', match h with
                | Ok handle => with_aux0 handle (with_kind ClientConnected (pending_ack req_id))
                | Err error => pending_error req_id (code error) (error_to_string error)
                end, closed)
  | Err error => mret (t, connect_failure encode_failure req_id error, [])
  end.

Definition server_completion (t : Table) (runtime req_id : Z) (r : result string (arc * ServerInfo)) :
    outcome (Table * Pending * list Entry) :=
  match r with
  | Ok (server, info) =>
      '(t', h, closed) ← insert_owned t runtime (Handle.Ephemeral server);
      mret (t', match h with
                | Ok handle =>
                    with_payload (encode_info info)
                      (with_aux0 handle (with_kind EphemeralStarted (pending_ack req_id)))
                | Err error => pending_error req_id (code error) (error_to_string error)
                end, closed)
  | Err text => mret (t, pending_error req_id KT_ERR_FAILED text, [])
  end.

(** The task of a connection, and of a server start, from where Core is done with it: the table's
    step, the close of what the table refused, and the completion.  The server's [Arc] is new. *)
Definition connected (encode_failure : RpcFailure -> list byte) (runtime req_id : Z)
    (r : result (ClientConnectError C) arc) : M Pending :=
  closing (fun t => connect_completion encode_failure t runtime req_id r).
Definition server_started (runtime req_id : Z) (r : result string ServerInfo) : M Pending :=
  match r with
  | Ok info =>
      server ← alloc (fun a b => set_servers (<[a := info]> (servers b)) b);
      closing (fun t => server_completion t runtime req_id (Ok (server, info)))
  | Err text => closing (fun t => server_completion t runtime req_id (Err text))
  end.

(** [Drop for Pending], on the bridge: the table drops its [Arc] of an object nobody received. *)
Definition discard_pending (p : Pending) : M unit :=
  removed ← on_table (fun t =>
    if decide (p_status p <> KT_OK \/ p_aux0 p = 0) then mret (t, Ok None)
    else match owned_kind (p_kind p) with
         | None => mret (t, Ok None)
         | Some kind =>
             '(t', r) ← remove_of_kind t (p_aux0 p) kind;
             mret (t', Ok (match r with Ok e => Some e | Err _ => None end))
         end);
  match removed with
  | Some (Handle.Ephemeral a) => do_ (DDrop a)
  | _ => mret tt
  end.

(** [worker::complete]: the decoder and Core's operation of each task kind. *)
Definition complete {A B D : Type}
    (activation : list byte -> result string A) (core_activation : A -> result string unit)
    (activity : list byte -> result string B) (core_activity : B -> result string unit)
    (nexus : list byte -> result string D) (core_nexus : D -> result string unit)
    (task_kind : Z) (bytes : list byte) : result string unit :=
  if decide (task_kind = 0) then c ← activation bytes; core_activation c
  else if decide (task_kind = 1) then c ← activity bytes; core_activity c
  else if decide (task_kind = 2) then c ← nexus bytes; core_nexus c
  else Err ("unknown task kind " +:+ pretty task_kind).

(** ** The boundary as a whole *)

(** One call of an exported function, with its arguments. *)
Inductive call :=
| CRuntimeNew (cfg : option (list byte)) (cfg_len : Z) (out_null : bool)
| CRuntimeInfo (runtime : Z) (out : option (list byte)) (cap : Z) (out_len : option Z)
| CRetrieveMetrics (runtime : Z) (out : option (list byte)) (cap : Z) (out_len : option Z)
| CRuntimeFree (reap : arc -> result string unit) (runtime : Z)
| CConnect (runtime : Z) (cfg : option (list byte)) (cfg_len req_id : Z)
| CRpc (runtime client service : Z) (rpc : option (list byte)) (rpc_len : Z)
    (req : option (list byte)) (req_len timeout_millis req_id : Z)
| CClientFree (client : Z)
| CWorkerNew (runtime client : Z) (cfg : option (list byte)) (cfg_len : Z) (out_null : bool)
| CValidate (runtime worker req_id : Z)
| CStart (runtime worker : Z)
| CComplete (runtime worker task_kind : Z) (ptr : option (list byte)) (len req_id : Z)
| CHeartbeat (worker : Z) (ptr : option (list byte)) (len : Z)
| CInitiateShutdown (worker : Z)
| CShutdown (runtime worker grace_millis req_id : Z)
| CWorkerFree (worker : Z)
| CUpdateResource (worker allow : Z) (out_null : bool)
| CServerStart (runtime : Z) (cfg : option (list byte)) (cfg_len req_id : Z)
| CServerInfo (server : Z) (out : option (list byte)) (cap : Z) (out_len : option Z)
| CServerShutdown (runtime server req_id : Z)
| CServerFree (reap : arc -> result string unit) (server : Z)
| CPollerNew (runtime : Z) (out_null : bool)
| CPoll (poller : Z) (out_null : bool)
| CWake (poller : Z)
| CPollerFree (poller : Z)
| CCancel (runtime req_id : Z).

Definition discard {A} (m : M A) : M unit := _ ← m; mret tt.

Definition dispatch (c : call) : M unit :=
  match c with
  | CRuntimeNew cfg len null => discard (kt_runtime_new cfg len null)
  | CRuntimeInfo rt out cap out_len => kt_runtime_info rt out cap out_len
  | CRetrieveMetrics rt out cap out_len => kt_runtime_retrieve_metrics rt out cap out_len
  | CRuntimeFree reap rt => kt_runtime_free reap rt
  | CConnect rt cfg len req => kt_client_connect rt cfg len req
  | CRpc rt client service name name_len bytes len timeout req =>
      kt_client_rpc rt client service name name_len bytes len timeout req
  | CClientFree client => kt_client_free client
  | CWorkerNew rt client cfg len null => discard (kt_worker_new rt client cfg len null)
  | CValidate rt worker req => kt_worker_validate rt worker req
  | CStart rt worker => kt_worker_start rt worker
  | CComplete rt worker kind ptr len req => kt_worker_complete rt worker kind ptr len req
  | CHeartbeat worker ptr len => kt_worker_heartbeat worker ptr len
  | CInitiateShutdown worker => kt_worker_initiate_shutdown worker
  | CShutdown rt worker grace req => kt_worker_shutdown rt worker grace req
  | CWorkerFree worker => kt_worker_free worker
  | CUpdateResource worker allow null => discard (kt_worker_update_resource worker allow null)
  | CServerStart rt cfg len req => kt_ephemeral_start rt cfg len req
  | CServerInfo server out cap out_len => kt_ephemeral_info server out cap out_len
  | CServerShutdown rt server req => kt_ephemeral_shutdown rt server req
  | CServerFree reap server => kt_ephemeral_free reap server
  | CPollerNew rt null => discard (kt_poller_new rt null)
  | CPoll poller null => discard (kt_poller_poll poller null)
  | CWake poller => kt_poller_wake poller
  | CPollerFree poller => kt_poller_free poller
  | CCancel rt req => kt_cancel rt req
  end.

(** The handles of a call are machine words. *)
Definition call_fits (c : call) : Prop :=
  match c with
  | CRuntimeNew _ _ _ => True
  | CRpc h h' _ _ _ _ _ _ _ | CWorkerNew h h' _ _ _ | CValidate h h' _ | CStart h h'
  | CComplete h h' _ _ _ _ | CShutdown h h' _ _ | CServerShutdown h h' _ => fits 64 h /\ fits 64 h'
  | CRuntimeInfo h _ _ _ | CRetrieveMetrics h _ _ _ | CRuntimeFree _ h | CConnect h _ _ _
  | CClientFree h | CHeartbeat h _ _ | CInitiateShutdown h | CWorkerFree h | CUpdateResource h _ _
  | CServerStart h _ _ _ | CServerInfo h _ _ _ | CServerFree _ h | CPollerNew h _ | CPoll h _
  | CWake h | CPollerFree h | CCancel h _ => fits 64 h
  end.

(** The runtime and the id of a call that is answered by a completion. *)
Definition request_of (c : call) : option (Z * Z) :=
  match c with
  | CConnect rt _ _ req | CRpc rt _ _ _ _ _ _ _ req | CValidate rt _ req | CComplete rt _ _ _ _ req
  | CShutdown rt _ _ req | CServerStart rt _ _ req | CServerShutdown rt _ req => Some (rt, req)
  | _ => None
  end.

(** ** Specification *)

(** What is behind an entry of the table. *)
Definition has_object (b : Bridge) (e : Entry) : Prop :=
  match e with
  | Handle.Runtime a => is_Some (runtimes b !! a)
  | Handle.Client _ => True
  | Handle.Worker a => is_Some (workers b !! a)
  | Handle.Ephemeral a => is_Some (servers b !! a)
  | Handle.Poller a => exists rt, poller_runtime b !! a = Some rt /\ is_Some (runtimes b !! rt)
  end.

(** Every live handle names an object the bridge has, and every meter is well formed. *)
Record bridge_ok (b : Bridge) : Prop := {
  bo_table : table_inv (table b);
  bo_object h e o : live (table b) !! h = Some (e, o) -> has_object b e;
  bo_meter a ro st : runtimes b !! a = Some ro -> metrics (ro_meter ro) = Some st -> meter_inv st;
}.

Definition bridge_new : Bridge :=
  {| table := table_new; runtimes := ∅; workers := ∅; servers := ∅; poller_runtime := ∅;
     fresh := 1%positive; deeds := []; written := None; last := EmptyString |}.

(** [m] from [b] ends without a panic, in a result and a state that satisfy [post]. *)
Definition wp {A} (m : M A) (b : Bridge) (post : KtResult A -> Bridge -> Prop) : Prop :=
  exists r b', seq m b = (Done r, b') /\ post r b'.

(** An error that says a handle is not what it was taken for. *)
Definition handle_error (e : KtError) : Prop := e = StaleHandle \/ e = WrongHandleKind.

Lemma bo_ok b : bridge_ok b -> table_ok (table b).
Proof. intros Hb. apply Hb. Qed.

(** *** The rules *)

Lemma seq_bind {A B} (m : M A) (f : A -> M B) b :
  seq (m ≫= f) b =
    match seq m b with
    | (Done (Ok a), b') => seq (f a) b'
    | (Done (Err e), b') => (Done (Err e), b')
    | (Panicked p, b') => (Panicked p, b')
    end.
Proof.
  unfold mbind, M_bind. revert b. induction m as [[[a|e]|p]|X g k IH]; intros b; try done.
  cbn [seq M_then]. by destruct (g b) as [[[x|e]|p] b'].
Qed.

Lemma seq_atomic {A} (f : action A) b : seq (atomic f) b = f b.
Proof. unfold atomic. cbn [seq]. by destruct (f b) as [[[x|e]|p] b']. Qed.

Lemma wp_bind {A B} (m : M A) (f : A -> M B) b post :
  wp m b (fun r b' => match r with Ok a => wp (f a) b' post | Err e => post (Err e) b' end) ->
  wp (m ≫= f) b post.
Proof.
  intros (r & b' & Hm & Hr). unfold wp. rewrite seq_bind, Hm.
  destruct r as [a|e]; [done|]. by exists (Err e), b'.
Qed.

Lemma wp_atomic {A} (f : action A) b (post : KtResult A -> Bridge -> Prop) r b' :
  f b = (Done r, b') -> post r b' -> wp (atomic f) b post.
Proof. intros Hf Hp. exists r, b'. by rewrite seq_atomic. Qed.

Lemma wp_returns {A} (r : KtResult A) b (post : KtResult A -> Bridge -> Prop) :
  post r b -> wp (returns r) b post.
Proof. intros Hp. by exists r, b. Qed.

Lemma wp_ret {A} (a : A) b (post : KtResult A -> Bridge -> Prop) : post (Ok a) b -> wp (mret a) b post.
Proof. intros Hp. by exists (Ok a), b. Qed.

Lemma wp_check (bad : bool) text b (post : KtResult unit -> Bridge -> Prop) :
  post (if bad then Err (InvalidArgument text) else Ok tt) b -> wp (check bad text) b post.
Proof. intros Hp. by destruct bad; [exists (Err (InvalidArgument text)), b|exists (Ok tt), b]. Qed.

Lemma wp_getter h (f : Entry -> KtResult arc) (inj : arc -> Entry) b (post : KtResult arc -> Bridge -> Prop) :
  table_ok (table b) -> fits 64 h ->
  (forall e a, f e = Ok a <-> e = inj a) -> (forall e err, f e = Err err -> err = WrongHandleKind) ->
  (forall a o, live (table b) !! h = Some (inj a, o) -> post (Ok a) b) ->
  (forall e, handle_error e -> post (Err e) b) ->
  wp (look (fun t => with_entry t h f)) b post.
Proof.
  intros Ht Hh Hok Herr H1 H2.
  destruct (getter_spec (table b) h f inj Ht Hh Hok Herr) as (r & Hr & Ha & He).
  eapply wp_atomic; [by rewrite Hr|]. destruct r as [a|e].
  - destruct (proj1 (Ha a) eq_refl) as [o Ho]. by eapply H1.
  - by apply H2, He.
Qed.

Lemma wp_owner h rt b (post : KtResult unit -> Bridge -> Prop) :
  table_ok (table b) -> fits 64 h ->
  (forall e, live (table b) !! h = Some (e, rt) -> post (Ok tt) b) ->
  (forall e, post (Err e) b) ->
  wp (look (fun t => require_owner t h rt)) b post.
Proof.
  intros Ht Hh H1 H2. pose proof (require_owner_spec (table b) h rt Ht Hh) as Hr.
  destruct (live (table b) !! h) as [[e o]|] eqn:Hl.
  - eapply wp_atomic; [by rewrite Hr|]. case_decide; [subst o; by eapply H1|apply H2].
  - destruct Hr as (err & Hr & _). eapply wp_atomic; [by rewrite Hr|]. apply H2.
Qed.

Lemma wp_on_runtime {A} a ro (f : RuntimeObject -> RuntimeObject * KtResult A) b
    (post : KtResult A -> Bridge -> Prop) :
  runtimes b !! a = Some ro ->
  post (f ro).2 (set_runtimes (<[a := (f ro).1]> (runtimes b)) b) -> wp (on_runtime a f) b post.
Proof. intros Hx. apply wp_atomic. rewrite Hx. simpl. by destruct (f ro). Qed.

Lemma wp_on_worker {A} a w (f : WorkerObject -> WorkerObject * list deed * KtResult A) b
    (post : KtResult A -> Bridge -> Prop) :
  workers b !! a = Some w ->
  post (f w).2 (log (f w).1.2 (set_workers (<[a := (f w).1.1]> (workers b)) b)) ->
  wp (on_worker a f) b post.
Proof. intros Hx. apply wp_atomic. rewrite Hx. simpl. by destruct (f w) as [[? ?] ?]. Qed.

(** *** Requests *)

(** What a request export does: on [Ok] it has registered the request, under an id that was free, in
    the open runtime its handle names, and spawned one operation that [ops] describes; on an error
    it has spawned and changed nothing. *)
Definition spawned (b : Bridge) (runtime req_id : Z) (ops : operation -> Prop) (r : KtResult unit)
    (b' : Bridge) : Prop :=
  table b' = table b /\ workers b' = workers b /\
  match r with
  | Err _ => deeds b' = deeds b /\ runtimes b' = runtimes b
  | Ok _ =>
      req_id <> 0 /\
      exists a o ro ro' op token,
        live (table b) !! runtime = Some (Handle.Runtime a, o) /\ runtimes b !! a = Some ro /\
        rt_closed (ro_entry ro) = false /\ pending (ro_entry ro) !! req_id = None /\
        ops op /\ deeds b' = deeds b ++ [DSpawn a req_id op] /\
        runtimes b' = <[a := ro']> (runtimes b) /\
        pending (ro_entry ro') = <[req_id := token]> (pending (ro_entry ro))
  end.

Lemma set_runtime_id b a ro :
  runtimes b !! a = Some ro ->
  set_runtimes (<[a := {| ro_entry := ro_entry ro; ro_meter := ro_meter ro |}]> (runtimes b)) b = b.
Proof. intros Hro. rewrite insert_id; [by destruct b|]. by destruct ro. Qed.

Lemma set_worker_id b a w :
  workers b !! a = Some w -> log [] (set_workers (<[a := w]> (workers b)) b) = b.
Proof. intros Hw. unfold log. rewrite insert_id by done. destruct b. simpl. by rewrite app_nil_r. Qed.

Lemma wp_spawn b runtime req_id ops a o ro op :
  live (table b) !! runtime = Some (Handle.Runtime a, o) -> runtimes b !! a = Some ro ->
  req_id <> 0 -> ops op ->
  wp (spawn_request a req_id op) b (spawned b runtime req_id ops).
Proof.
  intros Hl Hro Hreq Hop. unfold spawn_request. apply wp_bind. eapply wp_atomic; [reflexivity|].
  apply wp_bind, (wp_on_runtime _ ro); [done|]. unfold on_entry, register.
  destruct (rt_closed (ro_entry ro)) eqn:Hcl; [by cbn [fst snd]; rewrite set_runtime_id|].
  case_decide as Hp; [by cbn [fst snd]; rewrite set_runtime_id|]. eapply wp_atomic; [reflexivity|].
  split; [done|]. split; [done|]. split; [done|].
  exists a, o, ro. eexists _, op, (fresh b). split; [done|]. split; [done|]. split; [done|]. split.
  { by destruct (pending (ro_entry ro) !! req_id) eqn:E; [destruct Hp|]. }
  split; [done|]. split; [done|]. split; reflexivity.
Qed.

Lemma spawned_refused b runtime req_id ops e : spawned b runtime req_id ops (Err e) b.
Proof. done. Qed.

Lemma wp_runtime h b (post : KtResult arc -> Bridge -> Prop) :
  table_ok (table b) -> fits 64 h ->
  (forall a o, live (table b) !! h = Some (Handle.Runtime a, o) -> post (Ok a) b) ->
  (forall e, handle_error e -> post (Err e) b) ->
  wp (look (fun t => get_runtime t h)) b post.
Proof. intros Ht Hh. apply wp_getter; [done..| |]; clear; intros []; naive_solver. Qed.

Lemma wp_client h b (post : KtResult arc -> Bridge -> Prop) :
  table_ok (table b) -> fits 64 h ->
  (forall a o, live (table b) !! h = Some (Handle.Client a, o) -> post (Ok a) b) ->
  (forall e, handle_error e -> post (Err e) b) ->
  wp (look (fun t => get_client t h)) b post.
Proof. intros Ht Hh. apply wp_getter; [done..| |]; clear; intros []; naive_solver. Qed.

Lemma wp_worker h b (post : KtResult arc -> Bridge -> Prop) :
  table_ok (table b) -> fits 64 h ->
  (forall a o, live (table b) !! h = Some (Handle.Worker a, o) -> post (Ok a) b) ->
  (forall e, handle_error e -> post (Err e) b) ->
  wp (look (fun t => get_worker t h)) b post.
Proof. intros Ht Hh. apply wp_getter; [done..| |]; clear; intros []; naive_solver. Qed.

Lemma wp_server h b (post : KtResult arc -> Bridge -> Prop) :
  table_ok (table b) -> fits 64 h ->
  (forall a o, live (table b) !! h = Some (Handle.Ephemeral a, o) -> post (Ok a) b) ->
  (forall e, handle_error e -> post (Err e) b) ->
  wp (look (fun t => get_ephemeral t h)) b post.
Proof. intros Ht Hh. apply wp_getter; [done..| |]; clear; intros []; naive_solver. Qed.

Lemma wp_core b a h o (post : KtResult unit -> Bridge -> Prop) :
  bridge_ok b -> live (table b) !! h = Some (Handle.Worker a, o) ->
  (forall w, workers b !! a = Some w -> core (wo_world w) = Ok tt -> post (Ok tt) b) ->
  post (Err WorkerShutDown) b ->
  wp (worker_core a) b post.
Proof.
  intros Hb Hl H1 H2. destruct (bo_object b Hb h _ o Hl) as [w Hw].
  apply (wp_on_worker _ w); [done|]. cbn [fst snd]. rewrite set_worker_id by done.
  destruct (core (wo_world w)) as [[]|e] eqn:Hc; [by apply (H1 w)|].
  unfold core in Hc. by destruct (state (wo_world w)); simplify_eq.
Qed.

Lemma map_err_inv {E E' A} (f : E -> E') (r : result E A) a : map_err f r = Ok a -> r = Ok a.
Proof. apply map_err_ok. Qed.
Local Hint Resolve map_err_inv : core.

Lemma wp_decoded_slice {A} (decode : list byte -> result string A) ptr len b
    (post : KtResult A -> Bridge -> Prop) :
  (forall bytes a, slice ptr len = Ok bytes -> decode bytes = Ok a -> post (Ok a) b) ->
  (forall e, post (Err e) b) -> wp (decoded decode ptr len) b post.
Proof.
  intros H1 H2. unfold decoded. apply wp_bind, wp_returns. destruct (slice ptr len) as [bytes|]; [|done].
  apply wp_returns. destruct (map_err _ _) eqn:E; [|auto]. by eapply H1, map_err_ok.
Qed.

Lemma wp_decoded {A} (decode : list byte -> result string A) ptr len b (post : KtResult A -> Bridge -> Prop) :
  (forall a, post (Ok a) b) -> (forall e, post (Err e) b) -> wp (decoded decode ptr len) b post.
Proof. intros H1 H2. apply wp_decoded_slice; auto. Qed.

(** One rule of a request's body; an early return has changed nothing. *)
Ltac refused := intros; apply spawned_refused.
Ltac request_step :=
  lazymatch goal with
  | |- wp (mbind _ (check (bool_decide _) _)) _ _ =>
      apply wp_bind, wp_check; case_bool_decide; [by refused|]
  | |- wp (mbind _ (look (fun t => get_runtime t _))) _ _ =>
      apply wp_bind, wp_runtime; [by apply bo_ok|done| |by refused]; intros ? ? ?
  | |- wp (mbind _ (look (fun t => require_owner t _ _))) _ _ =>
      apply wp_bind, wp_owner; [by apply bo_ok|done| |by refused]; intros ? ?
  | |- wp (mbind _ (look (fun t => get_client t _))) _ _ =>
      apply wp_bind, wp_client; [by apply bo_ok|done| |by refused]; intros ? ? ?
  | |- wp (mbind _ (look (fun t => get_worker t _))) _ _ =>
      apply wp_bind, wp_worker; [by apply bo_ok|done| |by refused]; intros ? ? ?
  | |- wp (mbind _ (look (fun t => get_ephemeral t _))) _ _ =>
      apply wp_bind, wp_server; [by apply bo_ok|done| |by refused]; intros ? ? ?
  | |- wp (mbind _ (worker_core _)) _ _ =>
      apply wp_bind; eapply wp_core; [done|done| |by refused]; intros ? ? ?
  | |- wp (mbind _ (returns ?r)) _ _ =>
      apply wp_bind, wp_returns; destruct r eqn:?; [|by refused]
  | |- wp (mbind _ (decoded _ _ _)) _ _ =>
      apply wp_bind, wp_decoded; [|by refused]; intros ?
  end.
(** The spawn at the end, of a runtime that is live. *)
Ltac request_spawn Hb :=
  repeat request_step;
  match goal with
  | Hl : live (table ?b) !! _ = Some (Handle.Runtime ?a, _) |- wp (spawn_request ?a _ _) ?b _ =>
      destruct (bo_object b Hb _ _ _ Hl) as [ro Hro]; eapply (wp_spawn _ _ _ _ _ _ ro _ Hl Hro); [done|]
  end.

(** The object of a handle that [runtime] owns. *)
Definition owned_by (b : Bridge) (runtime h : Z) (e : Entry) : Prop :=
  live (table b) !! h = Some (e, runtime).

(** The operation a request is for, on the objects its handles name. *)
Definition asked (b : Bridge) (c : call) (op : operation) : Prop :=
  match c, op with
  | CConnect rt _ _ _, OpConnect rt' _ _ | CServerStart rt _ _ _, OpStartServer rt' _ => rt' = rt
  | CRpc rt client service name name_len req req_len timeout _, OpRpc a s n bytes t =>
      owned_by b rt client (Handle.Client a) /\ from_u32 service = Ok s /\
      (exists text, slice name name_len = Ok text /\ from_utf8 text = Ok n) /\
      slice req req_len = Ok bytes /\ t = (if decide (0 < timeout) then Some timeout else None)
  | CValidate rt worker _, OpValidate a => owned_by b rt worker (Handle.Worker a)
  | CComplete rt worker kind ptr len _, OpComplete a kind' bytes =>
      owned_by b rt worker (Handle.Worker a) /\ kind' = kind /\ slice ptr len = Ok bytes
  | CShutdown rt worker grace _, OpShutdown a grace' =>
      owned_by b rt worker (Handle.Worker a) /\ grace' = Z.max grace 1
  | CServerShutdown rt server _, OpStopServer a => owned_by b rt server (Handle.Ephemeral a)
  | _, _ => False
  end.

Section requests.
Context (b : Bridge) (Hb : bridge_ok b).

Lemma owned_live runtime h e e' o :
  live (table b) !! h = Some (e, runtime) -> live (table b) !! h = Some (e', o) ->
  owned_by b runtime h e'.
Proof. unfold owned_by. intros -> [= <- <-]. done. Qed.
Local Hint Resolve owned_live : core.

Lemma request_spawns c runtime req_id :
  call_fits c -> request_of c = Some (runtime, req_id) ->
  wp (dispatch c) b (spawned b runtime req_id (asked b c)).
Proof.
  destruct c; simpl; intros Hf [= <- <-]; try destruct Hf;
    unfold kt_client_connect, kt_client_rpc, kt_worker_validate, kt_worker_complete,
      kt_worker_shutdown, kt_ephemeral_start, kt_ephemeral_shutdown; request_spawn Hb; simpl; eauto 10.
Qed.
End requests.

(** *** Every export *)

(** The state has every object it had. *)
Definition grows (b b' : Bridge) : Prop := forall e, has_object b e -> has_object b' e.

Lemma bridge_ok_grows b b' :
  bridge_ok b -> table b' = table b -> grows b b' ->
  (forall a ro st, runtimes b' !! a = Some ro -> metrics (ro_meter ro) = Some st -> meter_inv st) ->
  bridge_ok b'.
Proof.
  intros Hb Ht Hg Hm. split; [rewrite Ht; apply Hb| |done]. intros h e o. rewrite Ht.
  intros Hl. apply Hg. by eapply bo_object.
Qed.

Lemma grows_runtime b a ro : grows b (set_runtimes (<[a := ro]> (runtimes b)) b).
Proof.
  intros []; simpl; try done; [by intros; apply lookup_insert_is_Some'; right|].
  intros (rt & Hr & Hs). exists rt. split; [done|]. apply lookup_insert_is_Some'. by right.
Qed.

Lemma set_table_id b : set_table (table b) b = b.
Proof. by destruct b. Qed.

Lemma wp_insert_owned rt e a o b (post : KtResult Z -> Bridge -> Prop) :
  bridge_ok b -> has_room (table b) -> fits 64 rt -> has_object b e -> entry_kind e <> KIND_RUNTIME ->
  live (table b) !! rt = Some (Handle.Runtime a, o) ->
  (forall h t', live (table b) !! h = None -> bridge_ok (set_table t' b) ->
     live t' = <[h := (e, rt)]> (live (table b)) -> post (Ok h) (set_table t' b)) ->
  wp (insert_owned_entry rt e) b post.
Proof.
  intros Hb Hroom Hrt He Hk Hl Hp.
  pose proof (insert_owned_spec (table b) rt e (bo_ok b Hb) Hroom Hrt) as Hs. rewrite Hl in Hs.
  destruct Hs as (t' & h & Hi & Hin).
  apply wp_bind, wp_bind. eapply wp_atomic; [by rewrite Hi|]. apply wp_bind, wp_ret, wp_ret, wp_returns.
  destruct (insert_into_spec (table b) e rt (bo_ok b Hb) Hroom) as (t2 & h2 & Hi2 & _ & Hn & Hl' & _).
  rewrite Hin in Hi2. simplify_eq. apply Hp; [done| |done].
  split; simpl; [by apply (table_step_inv _ _ _ (bo_table b Hb) (step_insert_owned _ _ _ _ _ _ Hroom Hrt Hk Hi))| |apply Hb].
  intros h' e' o'. rewrite Hl'. intros [[<- [= <- <-]]|[_ Hl2]]%lookup_insert_Some; [by destruct e|].
  by pose proof (bo_object b Hb _ _ _ Hl2); destruct e'.
Qed.

(** *** Freeing a runtime *)

Definition is_finalized (b : Bridge) (a : arc) : Prop :=
  exists w, workers b !! a = Some w /\ state (wo_world w) = WFinalized.

(** What went wrong first among the servers that were shut down, in order. *)
Definition first_error (reap : arc -> result string unit) (children : list Entry)
    (error : option string) : option string :=
  match error with
  | Some e => Some e
  | None => head (omap (fun c => match c with
                                 | Handle.Ephemeral a =>
                                     match reap a with Err e => Some e | Ok _ => None end
                                 | _ => None
                                 end) children)
  end.

(** [b'] is [b] with some children closed: [ds] is what was set going. *)
Record closed_to (b : Bridge) (ds : list deed) (b' : Bridge) : Prop := {
  ct_table : table b' = table b;
  ct_deeds : deeds b' = deeds b ++ ds;
  ct_runtimes : runtimes b' = runtimes b;
  ct_grows : grows b b';
  ct_finalized a : is_finalized b a -> is_finalized b' a;
}.

Lemma closed_refl b : closed_to b [] b.
Proof. split; try done; [by rewrite app_nil_r|by intros e]. Qed.

Lemma closed_trans b ds b1 ds' b2 :
  closed_to b ds b1 -> closed_to b1 ds' b2 -> closed_to b (ds ++ ds') b2.
Proof.
  intros [T1 D1 R1 G1 F1] [T2 D2 R2 G2 F2]. split; try congruence; [|intros e ?; auto|auto].
  by rewrite D2, D1, <- app_assoc.
Qed.

Lemma closed_log b ds : closed_to b ds (log ds b).
Proof. split; try done. by intros []. Qed.

Lemma free_worker_closes b a :
  is_Some (workers b !! a) ->
  exists ds b', seq (free_worker a) b = (Done (Ok tt), b') /\ closed_to b ds b' /\ is_finalized b' a.
Proof.
  intros [w Hw]. unfold free_worker, on_worker. rewrite seq_atomic, Hw. simpl.
  set (w' := with_world _ _). set (b1 := set_workers (<[a := w']> (workers b)) b). set (ds := _ :: _).
  assert (closed_to b [] b1 /\ is_finalized b1 a) as [H1 H2].
  { split; [split; try done|by exists w'; simpl; rewrite lookup_insert_eq].
    - by rewrite app_nil_r.
    - intros []; simpl; try done. intros. apply lookup_insert_is_Some'. by right.
    - intros a' (x & Hx & Hs). destruct (decide (a' = a)) as [->|].
      + exists w'. simpl. by rewrite lookup_insert_eq.
      + exists x. simpl. by rewrite lookup_insert_ne. }
  exists ds. eexists. split; [reflexivity|]. split; [|done].
  apply (closed_trans b [] b1 _ _ H1 (closed_log b1 ds)).
Qed.

Lemma close_entry_closes b e :
  has_object b e ->
  exists ds b', seq (close_entry e) b = (Done (Ok tt), b') /\ closed_to b ds b' /\
    forall a, e = Handle.Worker a -> is_finalized b' a.
Proof.
  intros He. destruct e as [a|a|a|a|a]; simpl in *;
    try (exists [], b; split; [done|]; split; [apply closed_refl|done]).
  - destruct (free_worker_closes b a He) as (ds & b' & ? & ? & ?). exists ds, b'.
    split; [done|]. split; [done|]. by intros ? [= <-].
  - eexists _, _. split; [reflexivity|]. split; [apply closed_log|done].
Qed.

Lemma close_children_closes reap children : forall error b,
  Forall (has_object b) children ->
  exists ds b', seq (close_children reap children error) b = (Done (Ok (first_error reap children error)), b') /\
    closed_to b ds b' /\
    (forall a, Handle.Worker a ∈ children -> is_finalized b' a) /\
    (forall a, Handle.Ephemeral a ∈ children -> DReap a ∈ ds).
Proof.
  induction children as [|e children IH]; intros error b.
  - intros _. exists [], b. split; [by destruct error|]. split; [apply closed_refl|].
    split; by intros a ?%elem_of_nil.
  - intros [He Hc]%Forall_cons.
    (* the reaping of a server child *)
    assert (exists ds0 b0 error0,
      seq (match e with
       | Handle.Ephemeral a =>
           _ ← do_ (DReap a);
           mret (match reap a, error with Err e, None => Some e | _, _ => error end)
       | _ => mret error
       end) b = (Done (Ok error0), b0) /\ closed_to b ds0 b0 /\
      first_error reap children error0 = first_error reap (e :: children) error /\
      (forall a, e = Handle.Ephemeral a -> DReap a ∈ ds0)) as (ds0 & b0 & error0 & E0 & C0 & F0 & R0).
    { destruct e as [a|a|a|a|a];
        try (exists [], b, error; split; [done|]; split; [apply closed_refl|]; by destruct error).
      eexists [DReap a], _, _. split; [reflexivity|]. split; [apply closed_log|].
      split; [|intros ? [= <-]; by apply list_elem_of_singleton]. unfold first_error. simpl. by destruct error, (reap a). }
    destruct (close_entry_closes b0 e) as (ds1 & b1 & E1 & C1 & W1).
    { by apply (ct_grows _ _ _ C0). }
    destruct (IH error0 b1) as (ds2 & b2 & E2 & C2 & W2 & R2).
    { eapply Forall_impl; [done|]. intros x ?. by apply (ct_grows _ _ _ C1), (ct_grows _ _ _ C0). }
    exists (ds0 ++ ds1 ++ ds2), b2. rewrite <- F0.
    split; [|split; [by eapply closed_trans, closed_trans|split]].
    + cbn [close_children]. by rewrite seq_bind, E0, seq_bind, E1.
    + intros a [<-|Ha]%elem_of_cons; [|auto]. apply (ct_finalized _ _ _ C2). by apply W1.
    + intros a [<-|Ha]%elem_of_cons; rewrite !elem_of_app; [left|right; right]; auto.
Qed.

(** [insert_owned] of a creation's object, as its completion sees it. *)
Lemma creation_cases t rt e :
  table_ok t -> has_room t -> fits 64 rt ->
  (exists h t', insert_owned t rt e = Done (t', Ok h, []) /\ is_Some (live t !! rt) /\
     live t !! h = None /\ live t' = <[h := (e, rt)]> (live t) /\ fits 64 h /\ h <> 0) \/
  (insert_owned t rt e = Done (t, Err Shutdown, [e]) /\
   forall a o, live t !! rt <> Some (Handle.Runtime a, o)).
Proof.
  intros Ht Hroom Hrt. pose proof (insert_owned_spec t rt e Ht Hroom Hrt) as Hs.
  destruct (live t !! rt) as [[[] o]|] eqn:Hl; [left|by right..].
  destruct Hs as (t' & h & Hi & Hin).
  destruct (insert_into_spec t e rt Ht Hroom) as (t2 & h2 & Hi2 & _ & Hn & Hl' & Hf & Hz & _).
  rewrite Hin in Hi2. simplify_eq. exists h2, t2. rewrite Hi. split_and!; try done; apply Hf.
Qed.

(** ** Theorems *)

(** C18 A request is admitted whole or refused whole.  Each of the seven calls that are answered by a
    completion returns, and: on [KT_OK] its id is not the reserved one, the runtime its handle names
    was open and had no request of that id, the id is now pending there, and exactly one operation
    was spawned, for the objects that its other handles name and that this runtime owns; on an error
    nothing was registered, spawned or changed. *)
Theorem requests_admitted_whole c b runtime req_id :
  bridge_ok b -> call_fits c -> request_of c = Some (runtime, req_id) ->
  wp (dispatch c) b (spawned b runtime req_id (asked b c)).
Proof. intros Hb. by apply request_spawns. Qed.

(** C27 What an operation ends in answers its request, and a creation hands over its object exactly
    when it reports success.  The completions of a connection and of a server start carry the
    request's id; if the object was created and the runtime is still live, the completion succeeds
    with a fresh handle of its kind that names the object under that runtime; if the runtime is
    gone, it reports [KT_ERR_SHUTDOWN] and why, holds no handle, and the object is closed.  If creation
    failed, nothing enters the table, and the completion holds no handle and reports the failure: a
    server that refused the connection with its status's code ([DEADLINE_EXCEEDED] if it was the local
    transport's deadline), message and details, anything else as [KT_ERR_FAILED] with its text; never as
    a success, as long as the server's status is not itself OK. *)
Theorem creations_answered encode_failure t runtime req_id :
  table_ok t -> has_room t -> fits 64 runtime ->
  (forall client, exists t' p closed,
     connect_completion encode_failure t runtime req_id (Ok client) = Done (t', p, closed) /\
     p_req_id p = req_id /\ pending_ok p /\
     ((p_status p = KT_OK /\ closed = [] /\ p_kind p = ClientConnected /\ p_aux0 p <> 0 /\
       live t !! p_aux0 p = None /\
       live t' = <[p_aux0 p := (Handle.Client client, runtime)]> (live t)) \/
      (p_status p = KT_ERR_SHUTDOWN /\ closed = [Handle.Client client] /\ p_aux0 p = 0 /\ t' = t /\
       p_payload p = String.list_byte_of_string "runtime is shutting down" /\
       forall a o, live t !! runtime <> Some (Handle.Runtime a, o)))) /\
  (forall server info, exists t' p closed,
     server_completion t runtime req_id (Ok (server, info)) = Done (t', p, closed) /\
     p_req_id p = req_id /\ pending_ok p /\
     ((p_status p = KT_OK /\ closed = [] /\ p_kind p = EphemeralStarted /\ p_aux0 p <> 0 /\
       p_payload p = encode_info info /\ live t !! p_aux0 p = None /\
       live t' = <[p_aux0 p := (Handle.Ephemeral server, runtime)]> (live t)) \/
      (p_status p = KT_ERR_SHUTDOWN /\ closed = [Handle.Ephemeral server] /\ p_aux0 p = 0 /\ t' = t /\
       p_payload p = String.list_byte_of_string "runtime is shutting down" /\
       forall a o, live t !! runtime <> Some (Handle.Runtime a, o)))) /\
  (forall err, exists p,
     connect_completion encode_failure t runtime req_id (Err err) = Done (t, p, []) /\
     match err with
     | SystemInfoCallError status =>
         p = {| p_req_id := req_id; p_kind := ClientConnected;
                p_status := if decide (status_code_of status = grpc_cancelled /\
                                       Exists (fun c => is_timeout c = true) (causes (status_source status)))
                            then code_i32 (grpc_deadline_exceeded (C := C))
                            else code_i32 (status_code_of status);
                p_payload := encode_failure {| f_message := status_text status; f_details := status_details status |};
                p_aux0 := 0; p_aux1 := 0 |} /\
         (code_i32 (status_code_of status) <> KT_OK -> code_i32 (grpc_deadline_exceeded (C := C)) <> KT_OK ->
          p_status p <> KT_OK)
     | OtherConnectError text =>
         p = {| p_req_id := req_id; p_kind := Ack; p_status := KT_ERR_FAILED;
                p_payload := String.list_byte_of_string text; p_aux0 := 0; p_aux1 := 0 |}
     end) /\
  (forall text,
     server_completion t runtime req_id (Err text) =
       Done (t, {| p_req_id := req_id; p_kind := Ack; p_status := KT_ERR_FAILED;
                   p_payload := String.list_byte_of_string text; p_aux0 := 0; p_aux1 := 0 |}, [])).
Proof.
  intros Ht Hroom Hrt. split; [|split; [|split; [|done]]].
  - intros client. unfold connect_completion.
    destruct (creation_cases t runtime (Handle.Client client) Ht Hroom Hrt)
      as [(h & t' & -> & _ & Hn & Hl & Hf & Hz)|[-> Hn]]; cbn [mbind outcome_bind mret outcome_ret];
      eexists _, _, _; (split; [reflexivity|]); (split; [reflexivity|]); (split; [done|]); [left|right]; done.
  - intros server info. unfold server_completion.
    destruct (creation_cases t runtime (Handle.Ephemeral server) Ht Hroom Hrt)
      as [(h & t' & -> & _ & Hn & Hl & Hf & Hz)|[-> Hn]]; cbn [mbind outcome_bind mret outcome_ret];
      eexists _, _, _; (split; [reflexivity|]); (split; [reflexivity|]); (split; [done|]); [left|right]; done.
  - intros [status|text]; (eexists; split; [reflexivity|]); [|done].
    cbn [connect_failure]. rewrite grpc_status_code_spec. split; [done|]. intros H1 H2. cbn. by case_decide.
Qed.

(** C20 Freeing a runtime tears down everything it owns before the runtime itself.  If the handle names
    a live runtime, the call removes it and exactly the entries it owns from the table, shuts every
    server it owns down and finalizes every worker, all before the runtime is freed, which is the last
    thing it sets going; it reports the first server that failed to shut down, if any, but only after
    the rest was torn down.  Any other handle is refused and nothing changes. *)
Theorem runtime_free_tears_down b reap rt :
  bridge_ok b -> fits 64 rt ->
  (exists a cs ds b', live (table b) !! rt = Some (Handle.Runtime a, 0) /\
     cs ≡ₚ children_of rt (live (table b)) /\
     seq (kt_runtime_free reap rt) b
       = (Done match first_error reap cs None with None => Ok tt | Some e => Err (Failed e) end, b') /\
     live (table b') = without_runtime rt (live (table b)) /\
     deeds b' = deeds b ++ ds ++ [DFreeRuntime a] /\
     (forall c, Handle.Worker c ∈ cs -> is_finalized b' c) /\
     (forall c, Handle.Ephemeral c ∈ cs -> DReap c ∈ ds)) \/
  ((forall a o, live (table b) !! rt <> Some (Handle.Runtime a, o)) /\
   exists err, seq (kt_runtime_free reap rt) b = (Done (Err err), b)).
Proof.
  intros Hb Hrt. unfold kt_runtime_free. rewrite seq_bind. unfold on_table. rewrite seq_atomic.
  destruct (remove_runtime_cases (table b) rt (bo_table b Hb) Hrt) as [[a Hl]|[Hn [err Hr]]].
  - left. destruct (remove_runtime_spec (table b) rt a (bo_ok b Hb) Hl) as (t' & cs & Hr & _ & Hl' & Hcs & _).
    destruct (close_children_closes reap cs None (set_table t' b)) as (ds & b1 & E & Hcl & W & R).
    { apply Forall_forall. intros e. rewrite Hcs. unfold children_of.
      rewrite list_elem_of_fmap. intros ([h [e' o]] & -> & [_ Hm%elem_of_map_to_list]%list_elem_of_filter).
      pose proof (bo_object b Hb _ _ _ Hm). by destruct e'. }
    exists a, cs, ds. eexists. split; [done|]. split; [done|]. split.
    { rewrite Hr, seq_bind, E, seq_bind. unfold do_. rewrite seq_atomic.
      by destruct (first_error reap cs None). }
    simpl. rewrite (ct_table _ _ _ Hcl), (ct_deeds _ _ _ Hcl), <- app_assoc. done.
  - right. split; [done|]. exists err. by rewrite Hr, set_table_id.
Qed.

(** A worker is handed out only complete.  [kt_worker_new] returns; if it returns a handle, the
    handle is fresh and names, under the given runtime, a new running worker that was not started,
    with a JVM gate exactly if its options ask for one, and the client was one that this runtime
    owns; if it returns an error, a null out-pointer included, no handle and no worker were made. *)
Theorem worker_new_hands_over b rt client cfg len null :
  bridge_ok b -> has_room (table b) -> fits 64 rt -> fits 64 client ->
  wp (kt_worker_new rt client cfg len null) b (fun r b' =>
    match r with
    | Ok h =>
        null = false /\ live (table b) !! h = None /\
        exists bytes options a cl w, slice cfg len = Ok bytes /\ decode_worker bytes = Ok options /\
          owned_by b rt client (Handle.Client cl) /\
          live (table b') = <[h := (Handle.Worker a, rt)]> (live (table b)) /\
          workers b' !! a = Some w /\ wo_world w = worker_new /\
          (is_Some (wo_resources w) <-> is_jvm options = true)
    | Err _ => table b' = table b /\ workers b' = workers b
    end).
Proof.
  intros Hb Hroom Hrt Hcl. unfold kt_worker_new.
  apply wp_bind, wp_check. destruct null; [done|].
  apply wp_bind, wp_runtime; [by apply bo_ok|done| |done]. intros a o Hl.
  apply wp_bind, wp_owner; [by apply bo_ok|done| |done]. intros e He.
  apply wp_bind, wp_client; [by apply bo_ok|done| |done]. intros cl o' Hc.
  apply wp_bind, wp_decoded_slice; [|done]. intros bytes options Hs Hd.
  apply wp_bind. exists (Ok (fresh b)). eexists. split; [reflexivity|].
  assert (forall x, bridge_ok (set_fresh x b)) as Hf.
  { intros x. by apply (bridge_ok_grows b); [|done|intros []|apply Hb]. }
  apply wp_bind, wp_returns. destruct (worker_config_with_resource_gate _ _ _ _ _ _ _) as [config|]; [|done].
  apply wp_bind, wp_returns. destruct (map_err from_anyhow (init_worker config)); [|done].
  apply wp_bind. eexists (Ok _), _. split; [reflexivity|].
  set (w := {| wo_world := worker_new; wo_resources := _ |}). set (b2 := set_workers _ _).
  assert (bridge_ok b2) as Hb2.
  { apply (bridge_ok_grows b); [done|done| |apply Hb]. intros []; simpl; try done.
    intros. apply lookup_insert_is_Some'. by right. }
  eapply wp_insert_owned; [done..| |done|exact Hl|].
  { simpl. by rewrite lookup_insert_eq. }
  intros h t' Hn _ Hl'. split; [done|]. split; [done|].
  eexists bytes, options, _, cl, w. split; [done|]. split; [done|]. split; [by eapply owned_live|]. split; [exact Hl'|].
  split; [apply lookup_insert_eq|]. split; [done|].
  subst w. simpl. destruct (is_jvm options); split; try done. by intros [? ?].
Qed.
End ffi.
#[global] Arguments Ret {Url F A} _.
#[global] Arguments Act {Url F A X} _ _.

(** ** Witnesses *)

(** A runtime that owns a worker and a server. *)
Definition sample_bridge_runtime : Z := encode_handle KIND_RUNTIME 1 0.
Definition sample_bridge_worker : Z := encode_handle KIND_WORKER 1 1.
Definition sample_bridge_server : Z := encode_handle KIND_EPHEMERAL 1 2.
Definition sample_bridge_client : Z := encode_handle KIND_CLIENT 1 3.
Definition sample_bridge_table : Table :=
  {| slots := [{| generation := 1; owner := 0; entry := Some (Handle.Runtime 1) |};
               {| generation := 1; owner := sample_bridge_runtime; entry := Some (Handle.Worker 2) |};
               {| generation := 1; owner := sample_bridge_runtime; entry := Some (Handle.Ephemeral 3) |};
               {| generation := 1; owner := sample_bridge_runtime; entry := Some (Handle.Client 4) |}];
     Handle.free := [] |}.

Definition sample_runtime_object : RuntimeObject (F := unit) :=
  {| ro_entry := {| q := {| shared := queue_new; pollers := ∅; threads := ∅; handles := table_new |};
                    pending := ∅; rt_closed := false; Runtime.tokens := ∅; tasks := ∅; freeing := Open |};
     ro_meter := {| metrics := Some state_default; core_logs := []; metric_batch := None |} |}.

Definition sample_bridge : Bridge (Url := string) (F := unit) :=
  {| table := sample_bridge_table; runtimes := {[1%positive := sample_runtime_object]};
     workers := {[2%positive := {| wo_world := worker_new; wo_resources := None |}]};
     servers := {[3%positive := {| si_target := "127.0.0.1:7233"; si_pid := 42; si_has_test_service := false |}]};
     poller_runtime := ∅; fresh := 5%positive; deeds := []; written := None; last := EmptyString |}.

Lemma sample_bridge_run :
  run table_step table_new
    [OpInsert (Handle.Runtime 1); OpInsertOwned sample_bridge_runtime (Handle.Worker 2);
     OpInsertOwned sample_bridge_runtime (Handle.Ephemeral 3);
     OpInsertOwned sample_bridge_runtime (Handle.Client 4)] sample_bridge_table.
Proof.
  pose (t n := {| slots := take n (slots sample_bridge_table); Handle.free := [] |}).
  change (run table_step (t 0%nat) ([] ++ [OpInsert (Handle.Runtime 1)] ++
    [OpInsertOwned sample_bridge_runtime (Handle.Worker 2)] ++
    [OpInsertOwned sample_bridge_runtime (Handle.Ephemeral 3)] ++
    [OpInsertOwned sample_bridge_runtime (Handle.Client 4)]) (t 4%nat)).
  rewrite !app_assoc.
  apply (run_snoc table_step _ _ (t 3%nat)); [apply (run_snoc table_step _ _ (t 2%nat));
    [apply (run_snoc table_step _ _ (t 1%nat)); [apply (run_one table_step)|]|]|].
  - by apply (step_insert _ _ _ sample_bridge_runtime); [right|].
  - by apply (step_insert_owned _ _ _ _ (Ok sample_bridge_worker) []); [right|..].
  - by apply (step_insert_owned _ _ _ _ (Ok sample_bridge_server) []); [right|..].
  - by apply (step_insert_owned _ _ _ _ (Ok sample_bridge_client) []); [right|..].
Qed.

Lemma sample_bridge_ok : bridge_ok sample_bridge.
Proof.
  split.
  - apply (run_table_inv _ _ _ table_new_inv sample_bridge_run).
  - intros h e o Hl. apply elem_of_list_to_map_2 in Hl.
    change (slot_list _) with
      [(sample_bridge_runtime, (Handle.Runtime 1, 0));
       (sample_bridge_worker, (Handle.Worker 2, sample_bridge_runtime));
       (sample_bridge_server, (Handle.Ephemeral 3, sample_bridge_runtime));
       (sample_bridge_client, (Handle.Client 4, sample_bridge_runtime))] in Hl.
    repeat (apply elem_of_cons in Hl as [Hl|Hl];
      [injection Hl as -> -> ->; first [exact I|by eexists]|]).
    by apply elem_of_nil in Hl.
  - intros a ro st. simpl. intros [<- <-]%lookup_singleton_Some. intros [= <-]. apply state_default_inv.
Qed.

(** Decoders and Core that answer without looking. *)
#[export] Instance sample_externals : Externals string unit unit unit := {|
  decode_runtime _ := Ok {| Options.telemetry := None; worker_heartbeat_interval_millis := None |}; decode_client _ := Err "truncated";
  decode_worker _ := Ok (sample_options 0); decode_server _ := Err "truncated";
  decode_heartbeat _ := Ok tt; encode_info _ := []; encode_version _ := [];
  to_json _ := Some "{}"%string; encode_batch _ := [x07]; parse_url s := Ok s; hostname := "host";
  process_id := 7; pkg_version := "1.0"; core_version := "0.1"; build_runtime o := Ok o;
  core_runtime_new _ := Ok tt; build_options := Ok; build_tuner_holder _ := Ok tt;
  build_config := Ok; init_worker _ := Ok tt; clock_now := 0;
|}.

Lemma requests_admitted_whole_witness :
  let c := CShutdown sample_bridge_runtime sample_bridge_worker 0 9 in
  wp (dispatch c) sample_bridge
    (spawned sample_bridge sample_bridge_runtime 9 (asked sample_bridge c)) /\
  (seq (dispatch c) sample_bridge).1 = Done (Ok tt).
Proof.
  intros c. split; [|vm_compute; reflexivity].
  apply requests_admitted_whole; [apply sample_bridge_ok|by split|reflexivity].
Defined.

Lemma creations_answered_witness :
  (exists t' p closed,
    connect_completion (C := SampleCode) sample_encode_failure sample_bridge_table
      sample_bridge_runtime 9 (Ok 7%positive) = Done (t', p, closed) /\
    p_req_id p = 9 /\ p_status p = KT_OK) /\
  exists p, connect_completion (C := SampleCode) sample_encode_failure sample_bridge_table sample_bridge_runtime 9
      (Err (SystemInfoCallError {| status_code_of := SCancelled; status_text := "Timeout expired"; status_details := [];
         status_source := Some (MkStdError "Timeout expired" true None) |})) = Done (sample_bridge_table, p, []) /\
    p_status p = 4 /\ p_status p <> KT_OK.
Proof.
  destruct (creations_answered (C := SampleCode) sample_encode_failure
    sample_bridge_table sample_bridge_runtime 9) as (Hc & _ & He & _);
    [apply (bo_ok _ sample_bridge_ok)|by right|done|].
  split.
  - destruct (Hc 7%positive) as (t' & p & closed & E & Hr & _ & [H|H]); exists t', p, closed;
      (split; [exact E|]); (split; [exact Hr|]); [exact (proj1 H)|].
    exfalso. destruct H as (_ & _ & _ & _ & _ & Hn). by apply (Hn 1%positive 0).
  - destruct (He (SystemInfoCallError {| status_code_of := SCancelled; status_text := "Timeout expired";
      status_details := []; status_source := Some (MkStdError "Timeout expired" true None) |})) as (p & E & Hp & Hn).
    exists p. split; [exact E|]. split; [|by apply Hn]. rewrite Hp. cbn [p_status]. rewrite decide_True; [reflexivity|].
    split; [reflexivity|]. apply Exists_cons_hd. reflexivity.
Defined.

Lemma runtime_free_tears_down_witness :
  let stops := fun _ => Err "did not exit" in
  exists b', seq (kt_runtime_free stops sample_bridge_runtime) sample_bridge
    = (Done (Err (Failed "did not exit")), b') /\
    deeds b' = [DClose (Handle.Worker 2); DInitiate 2%positive; DReap 3%positive;
                DClose (Handle.Ephemeral 3); DFreeRuntime 1%positive].
Proof.
  intros stops. destruct (runtime_free_tears_down sample_bridge stops sample_bridge_runtime)
    as [(a & cs & ds & b' & Hl & Hcs & E & _)|(Hn & _)]; [apply sample_bridge_ok|done| |].
  - exists b'. assert (b' = (seq (kt_runtime_free stops sample_bridge_runtime) sample_bridge).2)
      as -> by (by rewrite E). split; vm_compute; reflexivity.
  - exfalso. by apply (Hn 1%positive 0).
Defined.

Lemma worker_new_hands_over_witness :
  exists h b', seq (kt_worker_new sample_bridge_runtime sample_bridge_client (Some [x01]) 1 false)
      sample_bridge = (Done (Ok h), b') /\
    live (table sample_bridge) !! h = None /\ is_Some (live (table b') !! h).
Proof.
  destruct (worker_new_hands_over sample_bridge sample_bridge_runtime sample_bridge_client
    (Some [x01]) 1 false) as (r & b' & E & Hr); [apply sample_bridge_ok|by right|done|done|].
  destruct r as [h|e].
  - exists h, b'. split; [exact E|]. destruct Hr as (_ & Hn & bytes & o & a & cl & w & _ & _ & _ & Hl & _).
    split; [exact Hn|]. rewrite Hl, lookup_insert_eq. by eexists.
  - apply (f_equal fst) in E. vm_compute in E. discriminate E.
Defined.
