(* ===== verification/Threads.v ===== *)
(** Many threads at the boundary, the request tasks that create objects, and the drops of undelivered
    completions, interleaved at every lock.

    A [Pool] is one [Bridge] with the bodies that are running on it.  A step of the pool is one atomic
    action of one body, the start or the return of a call, or anything the components behind the
    objects may do meanwhile ([PWorld]).  The last error and the out-parameters are the thread's own.
    [safe] is a rely-guarantee triple for one body: the rely is that objects stay ([grows]) and that
    the invariant holds; the guarantee balances what the body has in hand against the table and the
    log of closed objects, so that a pool's bodies add up. *)

From S2P Require Import Prelude Abi KtError Panic Handle Queue Runtime Slots Worker Telemetry.
From S2P Require Import Services Rpc WorkerConfig Options Ephemeral Utf8 Ffi.

Section threads.
Context {Url Core Tuner F : Type} {C : Type} `{GrpcCode C} `{!Externals Url Core Tuner F}.
Context (encode_failure : RpcFailure -> list byte).

#[local] Abbreviation Bridge := (@Ffi.Bridge Url F).
#[local] Abbreviation M := (@Ffi.M Url F).
#[local] Abbreviation deed := (@Ffi.deed Url).
#[local] Abbreviation RuntimeObject := (@Ffi.RuntimeObject F).

(** ** The pool *)

(** What else runs a body on the bridge. *)
Inductive task :=
| TConnected (runtime req_id : Z) (r : result (ClientConnectError C) arc)
| TServerStarted (runtime req_id : Z) (r : result string ServerInfo)
| TDiscard (p : Pending).

Definition task_body (t : task) : M unit :=
  match t with
  | TConnected runtime req_id r => discard (connected encode_failure runtime req_id r)
  | TServerStarted runtime req_id r => discard (server_started runtime req_id r)
  | TDiscard p => discard_pending p
  end.

Definition task_fits (t : task) : Prop :=
  match t with
  | TConnected runtime _ _ | TServerStarted runtime _ _ => fits 64 runtime
  | TDiscard p => pending_ok p
  end.

Record Local := { l_last : string; l_written : option (option (list byte) * option Z) }.
Definition local_new : Local := {| l_last := EmptyString; l_written := None |}.

Record Pool := {
  bridge : Bridge;
  running : gmap positive (M unit);
  locals : gmap positive Local;
}.

Definition pool_new : Pool := {| bridge := bridge_new; running := ∅; locals := ∅ |}.

(** A thread sees its own last error and out-parameters, and keeps them. *)
Definition enter (p : Pool) (tid : positive) : Bridge :=
  let l := default local_new (locals p !! tid) in
  set_last (l_last l) (set_written (l_written l) (bridge p)).
Definition leave (p : Pool) (tid : positive) (b : Bridge) (run : gmap positive (M unit)) : Pool :=
  {| bridge := b; running := run;
     locals := <[tid := {| l_last := last b; l_written := written b |}]> (locals p) |}.

Inductive pool_action :=
| PCall (tid : positive) (c : call)
| PTask (tid : positive) (t : task)
| PAct (tid : positive)
| PReturn (tid : positive)
| PWorld (rs : gmap arc RuntimeObject) (ws : gmap arc WorkerObject).

(** A return: the status, and the thread's last error. *)
Inductive pool_event := Returned (tid : positive) (status : Z) (last_error : string).

Definition begin_body (p : Pool) (tid : positive) (m : M unit) : option (Pool * list pool_event) :=
  match running p !! tid with
  | Some _ => None
  | None => Some ({| bridge := bridge p; running := <[tid := m]> (running p); locals := locals p |}, [])
  end.

Definition pool_step_fn (p : Pool) (a : pool_action) : option (Pool * list pool_event) :=
  match a with
  | PCall tid c => begin_body p tid (dispatch c)
  | PTask tid t => begin_body p tid (task_body t)
  | PAct tid =>
      match running p !! tid with
      | Some (Act f k) =>
          let '(o, b) := f (enter p tid) in
          Some (leave p tid b (<[tid := stop o k]> (running p)), [])
      | _ => None
      end
  | PReturn tid =>
      match running p !! tid with
      | Some (Ret r) =>
          let '(status, b) := guard (fun b => (r, b)) (enter p tid) in
          Some (leave p tid b (delete tid (running p)), [Returned tid status (last b)])
      | _ => None
      end
  | PWorld rs ws =>
      Some ({| bridge := set_runtimes rs (set_workers ws (bridge p)); running := running p;
               locals := locals p |}, [])
  end.

(** The handle table has not outgrown its indices. *)
Definition table_bounded (t : Table) : Prop := Z.of_nat (length (slots t)) <= 2 ^ 32.

(** What is asked of whoever takes the step: a call's handles are machine words; the table stays
    bounded; the other components make and lose no object, and keep their meters well formed. *)
Definition pool_action_ok (p : Pool) (a : pool_action) : Prop :=
  match a with
  | PCall _ c => call_fits c
  | PTask _ t => task_fits t
  | PAct tid => match pool_step_fn p a with
                | Some (p', _) => table_bounded (table (bridge p'))
                | None => True
                end
  | PReturn _ => True
  | PWorld rs ws =>
      dom rs = dom (runtimes (bridge p)) /\ dom ws = dom (workers (bridge p)) /\
      forall a ro st, rs !! a = Some ro -> metrics (ro_meter ro) = Some st -> meter_inv st
  end.

Definition pool_step (p : Pool) (l : pool_action * list pool_event) (p' : Pool) : Prop :=
  pool_action_ok p l.1 /\ pool_step_fn p l.1 = Some (p', l.2).

(** ** Specification: objects in hand *)

(** The entries that have to be closed. *)
Definition child (e : Entry) : bool :=
  match e with Handle.Worker _ | Handle.Ephemeral _ => true | _ => false end.
Definition hand (es : list Entry) : list Entry := filter (fun e => child e = true) es.

Definition known (b : Bridge) (e : Entry) : bool :=
  match e with
  | Handle.Worker a => bool_decide (is_Some (workers b !! a))
  | Handle.Ephemeral a => bool_decide (is_Some (servers b !! a))
  | _ => false
  end.

(** The deeds that end the table's claim on an object. *)
Definition closes (e : Entry) (d : deed) : bool :=
  match d with
  | DClose e' => bool_decide (e' = e)
  | DDrop a => bool_decide (Handle.Ephemeral a = e)
  | _ => false
  end.

(** How often an object is named by a live handle, and how often it was closed. *)
Definition naming (b : Bridge) (e : Entry) : nat :=
  mcount (fun x => x.1 = e) (live (table b)).
Definition closings (b : Bridge) (e : Entry) : nat :=
  count (fun d => closes e d = true) (deeds b).
Definition in_hand (O : list Entry) (e : Entry) : nat := count (fun x => x = e) O.
Definition one (x : bool) : nat := if x then 1%nat else 0%nat.

(** Every object's arc has been handed out, and a child has an owner. *)
Record bridge_inv (b : Bridge) : Prop := {
  bi_ok : bridge_ok b;
  bi_worker a : is_Some (workers b !! a) -> (a < fresh b)%positive;
  bi_server a : is_Some (servers b !! a) -> (a < fresh b)%positive;
  bi_owned h e o : live (table b) !! h = Some (e, o) -> child e = true -> o <> 0;
}.

(** A step of a body that had [O] in hand and now has [O']: what enters the table, the log or the
    hand came from one of the others, or is new. *)
Record moved (O : list Entry) (b : Bridge) (O' : list Entry) (b' : Bridge) : Prop := {
  mv_inv : bridge_inv b';
  mv_grows : grows b b';
  mv_balance e : child e = true ->
    (naming b' e + closings b' e + in_hand O' e + one (known b e) =
     naming b e + closings b e + in_hand O e + one (known b' e))%nat;
}.

Definition Post (A : Type) : Type := list Entry -> KtResult A -> Bridge -> Prop.

(** From [b] or any later state, however others interfere before each of its actions, [m] panics
    nowhere, every action balances, and it ends in [Q]. *)
Fixpoint safe {A} (m : M A) (O : list Entry) (Q : Post A) (b : Bridge) : Prop :=
  match m with
  | Ret (Done r) => Q O r b
  | Ret (Panicked _) => False
  | Act f k => forall b1, bridge_inv b1 -> grows b b1 -> table_bounded (table (f b1).2) ->
      exists r b2 O', f b1 = (Done r, b2) /\ moved O b1 O' b2 /\
        match r with Ok x => safe (k x) O' Q b2 | Err e => Q O' (Err e) b2 end
  end.

(** Nothing is left in hand. *)
Definition settled {A} : Post A := fun O _ _ => O = [].

(** ** Lemmas *)

Lemma grows_refl (b : Bridge) : grows b b.
Proof. by intros e. Qed.

Lemma grows_trans (b1 b2 b3 : Bridge) : grows b1 b2 -> grows b2 b3 -> grows b1 b3.
Proof. intros H1 H2 e He. by apply H2, H1. Qed.

(** *** Rules *)

Lemma safe_bind {A B} (m : M A) (f : A -> M B) O Q b :
  safe m O (fun O' r b' => match r with Ok a => safe (f a) O' Q b' | Err e => Q O' (Err e) b' end) b ->
  safe (m ≫= f) O Q b.
Proof.
  unfold mbind, M_bind. revert O b. induction m as [[[a|e]|p]|X g k IH]; intros O b; simpl; try done.
  intros Hm b1 Hi Hg Hb. destruct (Hm b1 Hi Hg Hb) as (r & b2 & O' & E & Hmv & Hr).
  exists r, b2, O'. split; [done|]. split; [done|]. destruct r; [by apply IH|done].
Qed.

Lemma safe_atomic {A} (f : action A) O (Q : Post A) b :
  (forall b1, bridge_inv b1 -> grows b b1 -> table_bounded (table (f b1).2) ->
     exists r b2 O', f b1 = (Done r, b2) /\ moved O b1 O' b2 /\ Q O' r b2) ->
  safe (atomic f) O Q b.
Proof.
  intros Hf b1 Hi Hg Hb. destruct (Hf b1 Hi Hg Hb) as (r & b2 & O' & E & Hm & Hq).
  exists r, b2, O'. by destruct r.
Qed.

Lemma safe_mono {A} (m : M A) O (Q : Post A) b b' :
  (forall O r b b', Q O r b -> grows b b' -> Q O r b') -> grows b b' -> safe m O Q b -> safe m O Q b'.
Proof.
  intros HQ Hg. destruct m as [[r|p]|X f k]; simpl; [by intros; eapply HQ|done|].
  intros Hm b1 Hi Hg1. by apply Hm; [|by eapply grows_trans].
Qed.

(** A step that touches no handle, closes nothing and makes or loses no object. *)
Lemma moved_same O b b' :
  bridge_inv b' -> grows b b' -> table b' = table b -> (forall e, closings b' e = closings b e) ->
  (forall e, known b' e = known b e) -> moved O b O b'.
Proof. intros Hi Hg Ht Hc Hk. split; [done..|]. intros e _. unfold naming. by rewrite Ht, Hc, Hk. Qed.

Lemma moved_refl O b : bridge_inv b -> moved O b O b.
Proof. intros Hi. apply moved_same; try done. apply grows_refl. Qed.
(** *** Looks *)

Lemma safe_look {A} (g : Table -> outcome (KtResult A)) O (Q : Post A) b :
  (forall b1, bridge_inv b1 -> grows b b1 -> exists r, g (table b1) = Done r /\ Q O r b1) ->
  safe (look g) O Q b.
Proof.
  intros Hg. apply safe_atomic. intros b1 Hi Hg1 _. destruct (Hg b1 Hi Hg1) as (r & E & Hq).
  exists r, b1, O. split; [by rewrite E|]. split; [by apply moved_refl|done].
Qed.

Lemma safe_getter h (f : Entry -> KtResult arc) (inj : arc -> Entry) O (Q : Post arc) b :
  fits 64 h -> (forall e a, f e = Ok a <-> e = inj a) ->
  (forall e err, f e = Err err -> err = WrongHandleKind) ->
  (forall a b1, grows b b1 -> has_object b1 (inj a) -> Q O (Ok a) b1) ->
  (forall e b1, grows b b1 -> Q O (Err e) b1) ->
  safe (look (fun t => with_entry t h f)) O Q b.
Proof.
  intros Hh Hok Herr H1 H2. apply safe_look. intros b1 [Hb _ _ _] Hg.
  destruct (getter_spec (table b1) h f inj (bo_ok b1 Hb) Hh Hok Herr) as (r & Hr & Ha & _).
  exists r. split; [done|]. destruct r as [a|e]; [|by apply H2]. apply H1; [done|].
  destruct (proj1 (Ha a) eq_refl) as [o Ho]. by eapply bo_object.
Qed.

Lemma safe_runtime h O (Q : Post arc) b :
  fits 64 h -> (forall a b1, grows b b1 -> has_object b1 (Handle.Runtime a) -> Q O (Ok a) b1) ->
  (forall e b1, grows b b1 -> Q O (Err e) b1) -> safe (look (fun t => get_runtime t h)) O Q b.
Proof. intros Hh. apply safe_getter; [done| |]; clear; intros []; naive_solver. Qed.
Lemma safe_client h O (Q : Post arc) b :
  fits 64 h -> (forall a b1, grows b b1 -> has_object b1 (Handle.Client a) -> Q O (Ok a) b1) ->
  (forall e b1, grows b b1 -> Q O (Err e) b1) -> safe (look (fun t => get_client t h)) O Q b.
Proof. intros Hh. apply safe_getter; [done| |]; clear; intros []; naive_solver. Qed.
Lemma safe_worker h O (Q : Post arc) b :
  fits 64 h -> (forall a b1, grows b b1 -> has_object b1 (Handle.Worker a) -> Q O (Ok a) b1) ->
  (forall e b1, grows b b1 -> Q O (Err e) b1) -> safe (look (fun t => get_worker t h)) O Q b.
Proof. intros Hh. apply safe_getter; [done| |]; clear; intros []; naive_solver. Qed.
Lemma safe_server h O (Q : Post arc) b :
  fits 64 h -> (forall a b1, grows b b1 -> has_object b1 (Handle.Ephemeral a) -> Q O (Ok a) b1) ->
  (forall e b1, grows b b1 -> Q O (Err e) b1) -> safe (look (fun t => get_ephemeral t h)) O Q b.
Proof. intros Hh. apply safe_getter; [done| |]; clear; intros []; naive_solver. Qed.
Lemma safe_poller h O (Q : Post arc) b :
  fits 64 h -> (forall a b1, grows b b1 -> has_object b1 (Handle.Poller a) -> Q O (Ok a) b1) ->
  (forall e b1, grows b b1 -> Q O (Err e) b1) -> safe (look (fun t => get_poller t h)) O Q b.
Proof. intros Hh. apply safe_getter; [done| |]; clear; intros []; naive_solver. Qed.

Lemma safe_owner h rt O (Q : Post unit) b :
  fits 64 h -> (forall r b1, grows b b1 -> Q O r b1) -> safe (look (fun t => require_owner t h rt)) O Q b.
Proof.
  intros Hh H1. apply safe_look. intros b1 [Hb _ _ _] Hg.
  pose proof (require_owner_spec (table b1) h rt (bo_ok b1 Hb) Hh) as Hr.
  destruct (live (table b1) !! h) as [[e o]|]; [rewrite Hr|destruct Hr as (err & -> & _)];
    eexists; (split; [done|]); by apply H1.
Qed.

(** *** Objects *)

Lemma safe_object {A} (g : Bridge -> gmap arc A) a O (Q : Post A) b :
  (forall b1, grows b b1 -> is_Some (g b1 !! a)) -> (forall x b1, grows b b1 -> g b1 !! a = Some x -> Q O (Ok x) b1) ->
  safe (object g a) O Q b.
Proof.
  intros Hs HQ. apply safe_atomic. intros b1 Hi Hg _. destruct (Hs b1 Hg) as [x Hx].
  exists (Ok x), b1, O. split; [by rewrite Hx|]. split; [by apply moved_refl|by apply HQ].
Qed.

Lemma inv_runtime b a ro :
  bridge_inv b -> (forall st, metrics (ro_meter ro) = Some st -> meter_inv st) ->
  bridge_inv (set_runtimes (<[a := ro]> (runtimes b)) b).
Proof.
  intros [Hb Hw Hs Ho] Hm. split; [|done..].
  apply (bridge_ok_grows b); [done|done|apply grows_runtime|]. simpl. intros a' ro' st.
  intros [[<- <-]|[_ Hl]]%lookup_insert_Some; [auto|]. by eapply bo_meter.
Qed.

Lemma safe_on_runtime {A} a (f : RuntimeObject -> RuntimeObject * KtResult A) O (Q : Post A) b :
  has_object b (Handle.Runtime a) -> (forall ro, metrics (ro_meter (f ro).1) = metrics (ro_meter ro)) ->
  (forall r b1, grows b b1 -> Q O r b1) -> safe (on_runtime a f) O Q b.
Proof.
  intros Ha Hf HQ. apply safe_atomic. intros b1 Hi Hg _. destruct (Hg _ Ha) as [ro Hro].
  rewrite Hro. simpl. specialize (Hf ro). destruct (f ro) as [ro' r]. simpl in Hf.
  eexists r, _, O. split; [done|].
  assert (grows b1 (set_runtimes (<[a := ro']> (runtimes b1)) b1)) by apply grows_runtime.
  split; [|apply HQ; by eapply grows_trans]. apply moved_same; try done. apply inv_runtime; [done|].
  rewrite Hf. intros st. by eapply bo_meter, Hro; apply Hi.
Qed.

Lemma on_entry_meter {A} (f : RuntimeEntry Table -> RuntimeEntry Table * KtResult A) (ro : RuntimeObject) :
  metrics (ro_meter (on_entry f ro).1) = metrics (ro_meter ro).
Proof. unfold on_entry. by destruct (f (ro_entry ro)). Qed.

Lemma inv_log b ds : bridge_inv b -> bridge_inv (log ds b).
Proof.
  intros [Hb Hw Hs Ho]. split; [|done..].
  apply (bridge_ok_grows b); [done|done|by intros []|]. simpl. apply Hb.
Qed.

Lemma grows_log (b : Bridge) ds : grows b (log ds b).
Proof. by intros []. Qed.

Lemma grows_worker (b : Bridge) a w : grows b (set_workers (<[a := w]> (workers b)) b).
Proof. intros []; simpl; try done. intros. apply lookup_insert_is_Some'. by right. Qed.

(** The closings a list of deeds adds. *)
Definition closing_of (ds : list deed) (e : Entry) : nat := count (fun d => closes e d = true) ds.

Lemma closings_log (b : Bridge) ds e : closings (log ds b) e = (closings b e + closing_of ds e)%nat.
Proof. unfold closings, log. simpl. by rewrite count_app. Qed.

Lemma moved_log O O' b ds :
  bridge_inv b ->
  (forall e, child e = true -> (closing_of ds e + in_hand O' e = in_hand O e)%nat) ->
  moved O b O' (log ds b).
Proof.
  intros Hi Hd. split; [by apply inv_log|apply grows_log|]. intros e He. rewrite closings_log.
  specialize (Hd e He). change (naming (log ds b) e) with (naming b e).
  replace (known (log ds b) e) with (known b e) by (by destruct e). lia.
Qed.

(** A change of a worker that is there, and the deeds with it. *)
Lemma safe_on_worker {A} a (f : WorkerObject -> WorkerObject * list deed * KtResult A) O O' (Q : Post A) b :
  has_object b (Handle.Worker a) ->
  (forall w e, child e = true -> (closing_of (f w).1.2 e + in_hand O' e = in_hand O e)%nat) ->
  (forall w b1, grows b b1 -> Q O' (f w).2 b1) -> safe (on_worker a f) O Q b.
Proof.
  intros Ha Hf HQ. apply safe_atomic. intros b1 Hi Hg _. destruct (Hg _ Ha) as [w Hw].
  rewrite Hw. simpl. specialize (Hf w). specialize (HQ w). destruct (f w) as [[w' ds] r]. simpl in *.
  set (b2 := set_workers (<[a := w']> (workers b1)) b1).
  assert (grows b1 b2) by apply grows_worker.
  assert (bridge_inv b2) as Hi2.
  { destruct Hi as [Hb Hf' Hs Ho]. split; [|intros x; simpl; intros [->|]%lookup_insert_is_Some'; eauto|done..].
    apply (bridge_ok_grows b1); [done|done|done|apply Hb]. }
  eexists r, _, O'. split; [done|]. split; [|apply HQ; eapply grows_trans, grows_trans, grows_log; done].
  destruct (moved_log O O' b2 ds Hi2 Hf) as [Hm1 Hm2 Hm3]. split; [done|by eapply grows_trans|].
  intros e He. specialize (Hm3 e He). change (naming b2 e) with (naming b1 e) in Hm3.
  change (closings b2 e) with (closings b1 e) in Hm3.
  replace (known b2 e) with (known b1 e) in Hm3; [lia|]. destruct e as [| |x| |]; try done. simpl.
  apply bool_decide_ext. rewrite lookup_insert_is_Some'. split; [by right|]. intros [<-|]; [by eexists|done].
Qed.

Lemma safe_quiet {A} a (f : WorkerObject -> WorkerObject * list deed * KtResult A) O (Q : Post A) b :
  has_object b (Handle.Worker a) -> (forall w, (f w).1.2 = []) ->
  (forall r b1, grows b b1 -> Q O r b1) -> safe (on_worker a f) O Q b.
Proof.
  intros Ha Hf HQ. apply safe_on_worker with O; [done| |by intros; apply HQ].
  intros w e _. by rewrite Hf.
Qed.

Lemma safe_on_gate {A} a (f : Slots.World -> Slots.World * A) O (Q : Post A) b :
  has_object b (Handle.Worker a) -> (forall r b1, grows b b1 -> Q O r b1) -> safe (on_gate a f) O Q b.
Proof.
  intros Ha HQ. apply safe_quiet; [done| |done].
  intros w. destruct (wo_resources w) as [g|]; [by destruct (f g)|done].
Qed.

Lemma safe_write bytes out cap out_len O (Q : Post unit) b :
  (forall r b1, grows b b1 -> Q O r b1) -> safe (write bytes out cap out_len) O Q b.
Proof.
  intros HQ. apply safe_atomic. intros b1 Hi Hg _. destruct (write_out bytes out cap out_len) as [[r out'] len'].
  eexists r, _, O. split; [done|].
  assert (grows b1 (set_written (Some (out', len')) b1)) as Hg' by (by intros []).
  split; [|apply HQ; by eapply grows_trans]. destruct Hi as [Hb Hw Hs Ho]. apply moved_same; try done.
  split; [|done..]. by apply (bridge_ok_grows b1); [|done|intros []|apply Hb].
Qed.

Lemma safe_do d O O' (Q : Post unit) b :
  (forall e, child e = true -> (closing_of [d] e + in_hand O' e = in_hand O e)%nat) ->
  (forall b1, grows b b1 -> Q O' (Ok tt) b1) -> safe (do_ d) O Q b.
Proof.
  intros Hd HQ. apply safe_atomic. intros b1 Hi Hg _. eexists (Ok tt), _, O'. split; [done|].
  split; [by apply moved_log|]. apply HQ. eapply grows_trans; [done|apply grows_log].
Qed.
(** *** New objects *)

(** One object more is known exactly if it is the new one. *)
Lemma new_known (b b' : Bridge) (new : option Entry) e :
  child e = true -> (known b' e = true <-> known b e = true \/ new = Some e) ->
  (new = Some e -> known b e = false) ->
  one (known b' e) = (one (known b e) + count (fun x => x = e) (hand (option_list new)))%nat.
Proof.
  intros He Hk Hn. destruct (decide (new = Some e)) as [->|Hne].
  - rewrite (Hn eq_refl), (proj2 Hk) by auto. change (hand (option_list (Some e))) with (hand [e]). unfold hand.
    by rewrite filter_cons_True, count_cons, decide_True.
  - assert (count (fun x => x = e) (hand (option_list new)) = 0%nat) as ->.
    { destruct new as [x|]; [|done]. change (hand (option_list (Some x))) with (hand [x]). unfold hand. rewrite filter_cons.
      case_decide; [|done]. rewrite count_cons, decide_False by congruence. done. }
    destruct (known b' e), (known b e); naive_solver.
Qed.

(** [b'] is [b] with the next arc handed out and nothing else of what the balance counts, the object
    behind it included. *)
Lemma moved_alloc O b (new : option Entry) b' :
  bridge_inv b -> table b' = table b -> deeds b' = deeds b -> fresh b' = Pos.succ (fresh b) ->
  (forall a ro st, runtimes b' !! a = Some ro -> metrics (ro_meter ro) = Some st -> meter_inv st) ->
  grows b b' ->
  (forall a, is_Some (workers b' !! a) <-> is_Some (workers b !! a) \/ new = Some (Handle.Worker a)) ->
  (forall a, is_Some (servers b' !! a) <-> is_Some (servers b !! a) \/ new = Some (Handle.Ephemeral a)) ->
  (forall a, new = Some (Handle.Worker a) \/ new = Some (Handle.Ephemeral a) -> a = fresh b) ->
  moved O b (hand (option_list new) ++ O) b'.
Proof.
  intros [Hb Hw Hs Ho] Ht Hd Hf Hm Hg Hw' Hs' Hn. split; [split|done|].
  - by apply (bridge_ok_grows b).
  - intros a [Ha|Ha]%Hw'; rewrite Hf; [specialize (Hw a Ha)|rewrite (Hn a (or_introl Ha))]; lia.
  - intros a [Ha|Ha]%Hs'; rewrite Hf; [specialize (Hs a Ha)|rewrite (Hn a (or_intror Ha))]; lia.
  - intros h e o. rewrite Ht. apply Ho.
  - intros e He. unfold naming, closings, in_hand. rewrite Ht, Hd, count_app.
    rewrite (new_known b b' new e He); [lia| |]; destruct e as [| |a|a|]; try done; simpl.
    + by rewrite !bool_decide_eq_true.
    + by rewrite !bool_decide_eq_true.
    + intros Ha. apply bool_decide_eq_false_2. intros Hs1%Hw. rewrite (Hn a (or_introl Ha)) in Hs1. lia.
    + intros Ha. apply bool_decide_eq_false_2. intros Hs1%Hs. rewrite (Hn a (or_intror Ha)) in Hs1. lia.
Qed.

Lemma safe_alloc (put : arc -> Bridge -> Bridge) O O' (Q : Post arc) b :
  (forall b1, bridge_inv b1 -> grows b b1 ->
     let b2 := put (fresh b1) (set_fresh (Pos.succ (fresh b1)) b1) in
     moved O b1 (O' (fresh b1)) b2 /\ (grows b b2 -> Q (O' (fresh b1)) (Ok (fresh b1)) b2)) ->
  safe (alloc put) O Q b.
Proof.
  intros Hp. apply safe_atomic. intros b1 Hi Hg _. destruct (Hp b1 Hi Hg) as [Hm HQ].
  eexists (Ok _), _, (O' (fresh b1)). split; [done|]. split; [done|]. apply HQ.
  eapply grows_trans; [done|apply Hm].
Qed.

Ltac arcs := intros ?; clear; simpl; rewrite ?lookup_insert_is_Some'; naive_solver.

Lemma safe_new_arc O (Q : Post arc) b :
  (forall a b1, grows b b1 -> Q O (Ok a) b1) -> safe new_arc O Q b.
Proof.
  intros HQ. apply (safe_alloc _ _ (fun _ => O)). intros b1 Hi Hg. split; [|apply HQ].
  apply (moved_alloc O b1 None); try done; [apply Hi|by intros []|arcs..].
Qed.

Lemma safe_alloc_runtime ro O (Q : Post arc) b :
  (forall st, metrics (ro_meter ro) = Some st -> meter_inv st) ->
  (forall a b1, grows b b1 -> has_object b1 (Handle.Runtime a) -> Q O (Ok a) b1) ->
  safe (alloc (fun a b => set_runtimes (<[a := ro]> (runtimes b)) b)) O Q b.
Proof.
  intros Hm HQ. apply (safe_alloc _ _ (fun _ => O)). intros b1 Hi Hg b2. split.
  - apply (moved_alloc O b1 None); try done; [|apply (grows_runtime b1)|arcs..].
    simpl. intros a' ro' st. intros [[<- <-]|[_ Hl]]%lookup_insert_Some; [auto|].
    by eapply bo_meter, Hl; apply Hi.
  - intros Hg2. apply HQ; [done|]. subst b2. simpl. by rewrite lookup_insert_eq.
Qed.

Lemma safe_alloc_worker w O (Q : Post arc) b :
  (forall a b1, grows b b1 -> has_object b1 (Handle.Worker a) -> Q (Handle.Worker a :: O) (Ok a) b1) ->
  safe (alloc (fun a b => set_workers (<[a := w]> (workers b)) b)) O Q b.
Proof.
  intros HQ. apply (safe_alloc _ _ (fun a => Handle.Worker a :: O)). intros b1 Hi Hg b2. split.
  - apply (moved_alloc O b1 (Some (Handle.Worker (fresh b1)))); try done; [apply Hi|apply (grows_worker b1)|arcs..].
  - intros Hg2. apply HQ; [done|]. subst b2. simpl. by rewrite lookup_insert_eq.
Qed.

Lemma safe_alloc_server info O (Q : Post arc) b :
  (forall a b1, grows b b1 -> has_object b1 (Handle.Ephemeral a) -> Q (Handle.Ephemeral a :: O) (Ok a) b1) ->
  safe (alloc (fun a b => set_servers (<[a := info]> (servers b)) b)) O Q b.
Proof.
  intros HQ. apply (safe_alloc _ _ (fun a => Handle.Ephemeral a :: O)). intros b1 Hi Hg b2. split.
  - apply (moved_alloc O b1 (Some (Handle.Ephemeral (fresh b1)))); try done; [apply Hi| |arcs..].
    intros []; simpl; try done. intros. apply lookup_insert_is_Some'. by right.
  - intros Hg2. apply HQ; [done|]. subst b2. simpl. by rewrite lookup_insert_eq.
Qed.

Lemma safe_alloc_poller rt O (Q : Post arc) b :
  has_object b (Handle.Runtime rt) ->
  (forall a b1, grows b b1 -> has_object b1 (Handle.Poller a) -> Q O (Ok a) b1) ->
  safe (alloc (fun a b => set_pollers (<[a := rt]> (poller_runtime b)) b)) O Q b.
Proof.
  intros Hrt HQ. apply (safe_alloc _ _ (fun _ => O)). intros b1 Hi Hg b2. split.
  - apply (moved_alloc O b1 None); try done; [apply Hi| |arcs..].
    intros []; simpl; try done. intros (rt' & Hr' & Hs).
    destruct (decide (a = fresh b1)) as [->|]; [|by exists rt'; rewrite lookup_insert_ne].
    exists rt. rewrite lookup_insert_eq. split; [done|apply (Hg _ Hrt)].
  - intros Hg2. apply HQ; [done|]. exists rt. subst b2. simpl. rewrite lookup_insert_eq.
    split; [done|apply (Hg _ Hrt)].
Qed.
(** *** Handles *)

Lemma has_object_table t (b : Bridge) e : has_object (set_table t b) e <-> has_object b e.
Proof. by destruct e. Qed.

(** What the table may hold. *)
Definition entry_fine (b : Bridge) (e : Entry) (o : Z) : Prop :=
  has_object b e /\ (child e = true -> o <> 0).

Lemma inv_fine b h e o : bridge_inv b -> live (table b) !! h = Some (e, o) -> entry_fine b e o.
Proof. intros Hi Hl. split; [by eapply bo_object; [apply Hi|]|by eapply bi_owned]. Qed.

Lemma inv_table t b :
  bridge_inv b -> table_inv t -> (forall h e o, live t !! h = Some (e, o) -> entry_fine b e o) ->
  bridge_inv (set_table t b).
Proof.
  intros [Hb Hw Hs _] Ht Ho. split; [|done..|intros h e o Hl; by apply (Ho h)].
  split; [done| |apply Hb]. intros h e o Hl. by eapply has_object_table, Ho.
Qed.

(** A step of the table alone, as the balance sees it. *)
Lemma moved_table O O' t b :
  bridge_inv b -> table_inv t -> (forall h e o, live t !! h = Some (e, o) -> entry_fine b e o) ->
  (forall e, child e = true ->
     (mcount (fun x => x.1 = e) (live t) + in_hand O' e = naming b e + in_hand O e)%nat) ->
  moved O b O' (set_table t b).
Proof.
  intros Hi Ht Ho Hn. split; [by apply inv_table|by intros []|]. intros e He. specialize (Hn e He).
  change (naming (set_table t b) e) with (mcount (fun x => x.1 = e) (live t)).
  change (closings (set_table t b) e) with (closings b e).
  replace (known (set_table t b) e) with (known b e) by (by destruct e). lia.
Qed.

Lemma hand_one e x : child x = true -> in_hand (hand [e]) x = if decide (e = x) then 1%nat else 0%nat.
Proof.
  intros Hx. unfold in_hand, hand. rewrite filter_cons. case_decide as Hc; [by rewrite count_cons|].
  by rewrite decide_False by congruence.
Qed.

Lemma in_hand_app O1 O2 e : in_hand (O1 ++ O2) e = (in_hand O1 e + in_hand O2 e)%nat.
Proof. apply count_app. Qed.

Lemma in_hand_hand es e : child e = true -> in_hand (hand es) e = count (fun x => x = e) es.
Proof.
  intros He. unfold in_hand, hand. induction es as [|x es IH]; [done|].
  rewrite filter_cons, count_cons. case_decide; [by rewrite count_cons, IH|].
  by rewrite decide_False by congruence.
Qed.

Lemma safe_remove h k O (Q : Post Entry) b :
  fits 64 h -> k <> KIND_RUNTIME ->
  (forall e b1, grows b b1 -> has_object b1 e -> entry_kind e = k -> Q (hand [e] ++ O) (Ok e) b1) ->
  (forall err b1, grows b b1 -> Q O (Err err) b1) ->
  safe (on_table (fun t => remove_of_kind t h k)) O Q b.
Proof.
  intros Hh Hk H1 H2. apply safe_atomic. intros b1 Hi Hg _. pose proof Hi as [Hb _ _ Ho].
  destruct (remove_of_kind_spec (table b1) h k (bo_ok b1 Hb) Hh)
    as [(e & o & t' & Hl & He & Hr & Ht' & Hl' & _)|(_ & err & Hr)]; rewrite Hr.
  - eexists (Ok e), _, (hand [e] ++ O). split; [done|]. split.
    + apply moved_table; [done| | |].
      * apply (table_step_inv _ _ _ (bo_table b1 Hb) (step_remove _ _ _ _ _ Hh Hk Hr)).
      * intros h' e' o'. rewrite Hl'. intros [_ Hd]%lookup_delete_Some. by eapply inv_fine.
      * intros x Hx. rewrite in_hand_app, hand_one by done. unfold naming.
        rewrite (mcount_delete _ (live (table b1)) h (e, o) Hl), Hl'. simpl. lia.
    + apply H1; [by eapply grows_trans; [|intros []]| |done]. apply has_object_table. by eapply bo_object.
  - eexists (Err err), _, O. split; [by rewrite set_table_id|]. split; [by apply moved_refl|by apply H2].
Qed.

(** What an insertion does, under any owner. *)
Lemma moved_insert O t h e o b :
  bridge_inv b -> table_inv t -> entry_fine b e o -> live (table b) !! h = None ->
  live t = <[h := (e, o)]> (live (table b)) -> moved (hand [e] ++ O) b O (set_table t b).
Proof.
  intros Hi Ht He Hn Hl. apply moved_table; [done..| |].
  - intros h' e' o'. rewrite Hl. intros [[<- [= <- <-]]|[_ Hl']]%lookup_insert_Some; [done|].
    by eapply inv_fine.
  - intros x Hx. rewrite in_hand_app, hand_one, Hl, mcount_insert by done. unfold naming. simpl. lia.
Qed.

Lemma safe_insert e O (Q : Post Z) b :
  has_object b e -> child e = false -> (forall r b1, grows b b1 -> Q O r b1) ->
  safe (on_table (fun t => '(t', h) ← ht_insert t e; mret (t', Ok h))) O Q b.
Proof.
  intros He Hc HQ. apply safe_atomic. intros b1 Hi Hg Hbd. pose proof Hi as [Hb _ _ Ho].
  assert (has_room (table b1)) as Hroom.
  { apply (insert_bounded _ e 0); [by apply bo_ok|]. intros t' h Ht. unfold ht_insert in Hbd. rewrite Ht in Hbd.
    exact Hbd. }
  destruct (insert_into_spec (table b1) e 0 (bo_ok b1 Hb) Hroom) as (t' & h & Ht & _ & Hn & Hl & _).
  unfold ht_insert. rewrite Ht. cbn [mbind outcome_bind mret outcome_ret].
  eexists (Ok h), _, O. split; [done|]. split; [|apply HQ; by eapply grows_trans; [|intros []]].
  assert (hand [e] ++ O = O) as Hh by (unfold hand; by rewrite filter_cons_False by congruence).
  destruct (table_step_inv _ _ _ (bo_table b1 Hb) (step_insert _ _ _ _ Hroom Ht)) as [Hti _].
  assert (entry_fine b1 e 0) as Hf by (split; [by apply Hg|congruence]).
  pose proof (moved_insert O t' h e 0 b1 Hi Hti Hf Hn Hl) as Hm. by rewrite Hh in Hm.
Qed.

Lemma safe_remove_runtime rt O (Q : Post (arc * list Entry)) b :
  fits 64 rt ->
  (forall a cs b1, grows b b1 -> Forall (has_object b1) cs -> Q (hand cs ++ O) (Ok (a, cs)) b1) ->
  (forall err b1, grows b b1 -> Q O (Err err) b1) ->
  safe (on_table (fun t => remove_runtime t rt)) O Q b.
Proof.
  intros Hrt H1 H2. apply safe_atomic. intros b1 Hi Hg _. pose proof Hi as [Hb _ _ Ho].
  destruct (remove_runtime_cases (table b1) rt (bo_table b1 Hb) Hrt) as [[a Hl]|[_ [err Hr]]].
  - destruct (remove_runtime_spec (table b1) rt a (bo_ok b1 Hb) Hl) as (t' & cs & Hr & _ & Hl' & Hcs & _).
    destruct (live_fits _ (bo_ok b1 Hb) _ _ _ Hl) as [_ Hz]. rewrite Hr.
    eexists (Ok (a, cs)), _, (hand cs ++ O). split; [done|]. split.
    + apply moved_table; [done| | |].
      * apply (table_step_inv _ _ _ (bo_table b1 Hb) (step_remove_runtime _ _ _ _ Hrt Hr)).
      * intros h e o. rewrite Hl'. intros [Hd _]%map_lookup_filter_Some. by eapply inv_fine.
      * intros x Hx. rewrite in_hand_app, in_hand_hand, Hl', (count_perm _ _ _ Hcs) by done.
        unfold naming. rewrite (naming_split rt a (live (table b1)) x Hz Hl); [lia|]. by destruct x.
    + apply H1; [by eapply grows_trans; [|intros []]|]. apply Forall_forall. intros e. rewrite Hcs.
      unfold children_of. rewrite list_elem_of_fmap.
      intros ([h [e' o]] & -> & [_ Hm%elem_of_map_to_list]%list_elem_of_filter).
      apply has_object_table. by eapply bo_object.
  - rewrite Hr. eexists (Err err), _, O. split; [by rewrite set_table_id|].
    split; [by apply moved_refl|by apply H2].
Qed.
(** *** Closing *)

Lemma hand_cons e es : hand (e :: es) = hand [e] ++ hand es.
Proof. unfold hand. rewrite !filter_cons. by case_decide. Qed.

Lemma safe_free_worker a O (Q : Post unit) b :
  has_object b (Handle.Worker a) -> (forall b1, grows b b1 -> Q O (Ok tt) b1) ->
  safe (free_worker a) (hand [Handle.Worker a] ++ O) Q b.
Proof.
  intros Ha HQ. apply safe_on_worker with O; [done| |].
  - intros w e He. destruct (Worker.free (wo_world w)) as [world evs]. cbn [fst snd].
    rewrite in_hand_app, hand_one by done. unfold closing_of. rewrite count_cons. simpl closes.
    rewrite (decide_ext (bool_decide (Handle.Worker a = e) = true) (Handle.Worker a = e)) by apply bool_decide_eq_true.
    destruct (decide (evs = [])); [rewrite count_nil|rewrite count_cons, count_nil]; simpl; lia.
  - intros w b1 Hg. destruct (Worker.free (wo_world w)) as [world evs]. by apply HQ.
Qed.

Lemma close_deed e d O x :
  child x = true -> (forall y, child y = true -> closes y d = bool_decide (e = y)) ->
  (closing_of [d] x + in_hand O x = in_hand (hand [e] ++ O) x)%nat.
Proof.
  intros Hx Hd. rewrite in_hand_app, hand_one by done. unfold closing_of.
  rewrite count_cons, count_nil, Hd by done.
  rewrite (decide_ext (bool_decide (e = x) = true) (e = x)) by apply bool_decide_eq_true. lia.
Qed.

Lemma idle_deed d O x : (forall y, closes y d = false) -> (closing_of [d] x + in_hand O x = in_hand O x)%nat.
Proof. intros Hd. unfold closing_of. rewrite count_cons, count_nil, Hd. simpl. lia. Qed.

Lemma safe_close_entry e O (Q : Post unit) b :
  has_object b e -> (forall b1, grows b b1 -> Q O (Ok tt) b1) ->
  safe (close_entry e) (hand [e] ++ O) Q b.
Proof.
  intros He HQ. destruct e as [a|a|a|a|a]; try by apply HQ, grows_refl.
  - by apply safe_free_worker.
  - apply safe_do with O; [|done]. intros x Hx. by apply close_deed.
Qed.

Lemma safe_close_all es O (Q : Post unit) : forall b,
  Forall (has_object b) es -> (forall b1, grows b b1 -> Q O (Ok tt) b1) ->
  safe (close_all es) (hand es ++ O) Q b.
Proof.
  induction es as [|e es IH]; intros b Hes HQ; [apply HQ, grows_refl|].
  apply Forall_cons in Hes as [He Hes]. rewrite hand_cons, <- (assoc_L (++)).
  cbn [close_all]. apply safe_bind, safe_close_entry; [done|]. intros b1 Hg. apply IH.
  - eapply Forall_impl; [done|]. intros x. apply Hg.
  - intros b2 Hg2. apply HQ. by eapply grows_trans.
Qed.

Lemma safe_close_children reap cs O (Q : Post (option string)) : forall error b,
  Forall (has_object b) cs -> (forall r b1, grows b b1 -> Q O r b1) ->
  safe (close_children reap cs error) (hand cs ++ O) Q b.
Proof.
  induction cs as [|e cs IH]; intros error b Hcs HQ; [apply HQ, grows_refl|].
  apply Forall_cons in Hcs as [He Hcs]. rewrite hand_cons, <- (assoc_L (++)). cbn [close_children].
  assert (forall error' b1, grows b b1 ->
    safe (_ ← close_entry e; close_children reap cs error') (hand [e] ++ hand cs ++ O) Q b1) as Hrest.
  { intros error' b1 Hg. apply safe_bind, safe_close_entry; [by apply Hg|]. intros b2 Hg2. apply IH.
    - eapply Forall_impl; [done|]. intros x Hx. by apply Hg2, Hg.
    - intros r b3 Hg3. apply HQ. eapply grows_trans, grows_trans; done. }
  apply safe_bind. destruct e; try apply Hrest, grows_refl.
  apply safe_bind. eapply safe_do; [intros x _; by apply idle_deed|]. intros b1 Hg. by apply Hrest.
Qed.

Lemma safe_closing {A} (g : Table -> outcome (Table * A * list Entry)) (phi : KtResult Z -> A) rt e O
    (Q : Post A) b :
  (forall t, g t = ('(t', r, closed) ← insert_owned t rt e; mret (t', phi r, closed))) ->
  fits 64 rt -> has_object b e -> entry_kind e <> KIND_RUNTIME ->
  (forall r b1, grows b b1 -> Q O (Ok (phi r)) b1) ->
  safe (closing g) (hand [e] ++ O) Q b.
Proof.
  intros Hphi Hrt He Hk HQ. apply safe_bind, safe_atomic. intros b1 Hi Hg Hbd. pose proof Hi as [Hb _ _ Ho].
  rewrite Hphi in Hbd |- *.
  destruct (insert_owned (table b1) rt e) as [[[t' r] closed]|p] eqn:Hio; revert Hio Hbd; unfold insert_owned.
  - destruct (is_err _) eqn:Hv.
    + intros [= <- <- <-] _. eexists (Ok _), _, (hand [e] ++ O). split; [done|]. split.
      { rewrite set_table_id. by apply moved_refl. }
      rewrite set_table_id. apply safe_bind. rewrite <- (app_nil_r [e]) at 1.
      apply (safe_close_all [e]); [constructor; [by apply Hg|done]|].
      intros b2 Hg2. apply HQ. by eapply grows_trans.
    + intros Hio Hbd.
      assert (has_room (table b1)) as Hroom.
      { apply (insert_bounded _ e rt); [by apply bo_ok|]. intros t2 h Ht. rewrite Ht in Hio. injection Hio as -> <- <-. exact Hbd. }
      destruct (insert_into_spec (table b1) e rt (bo_ok b1 Hb) Hroom) as (t2 & h & Ht & _ & Hn & Hl & _).
      rewrite Ht in Hio. injection Hio as -> <- <-.
      eexists (Ok _), _, O. split; [done|].
      destruct (table_step_inv (table b1) (OpInsertOwned rt e) t' (bo_table b1 Hb)) as [Hti _].
      { apply step_insert_owned with (Ok h) []; [done..|]. unfold insert_owned. by rewrite Hv, Ht. }
      assert (entry_fine b1 e rt) as Hf.
      { split; [by apply Hg|]. intros _ ->. by unfold validate in Hv. }
      split; [by apply (moved_insert O t' h e rt b1 Hi Hti Hf Hn Hl)|].
      apply HQ. by eapply grows_trans; [|intros []].
  - destruct (is_err _) eqn:Hv; [done|]. intros Hio Hbd. exfalso.
    assert (has_room (table b1)) as Hroom.
    { apply (insert_bounded _ e rt); [by apply bo_ok|]. intros t2 h Ht. by rewrite Ht in Hio. }
    destruct (insert_into_spec (table b1) e rt (bo_ok b1 Hb) Hroom) as (t2 & h & Ht & _).
    by rewrite Ht in Hio.
Qed.
(** *** The bodies *)

Lemma safe_spawn a req_id op O (Q : Post unit) b :
  has_object b (Handle.Runtime a) -> (forall r b1, grows b b1 -> Q O r b1) ->
  safe (spawn_request a req_id op) O Q b.
Proof.
  intros Ha HQ. apply safe_bind, safe_new_arc. intros token b1 Hg1.
  apply safe_bind, safe_on_runtime; [by apply Hg1|intros; apply on_entry_meter|].
  intros [u|e] b2 Hg2; [|apply HQ; by eapply grows_trans].
  eapply safe_do; [intros x _; by apply idle_deed|]. intros b3 Hg3.
  apply HQ. eapply grows_trans, grows_trans; done.
Qed.

Context (to_json_total : forall f, is_Some (to_json f)).

Lemma safe_retrieve a out cap out_len O (Q : Post unit) b :
  has_object b (Handle.Runtime a) -> (forall r b1, grows b b1 -> Q O r b1) ->
  safe (retrieve a out cap out_len) O Q b.
Proof.
  intros Ha HQ. apply safe_atomic. intros b1 Hi Hg _. destruct (Hg _ Ha) as [ro Hro]. rewrite Hro. simpl.
  assert (forall st, metrics (ro_meter ro) = Some st -> meter_inv st) as Hm
    by (intros st; eapply bo_meter, Hro; apply Hi).
  assert (exists m bytes x, batch_bytes to_json encode_batch (ro_meter ro) = Done (m, bytes, x) /\
    forall st, metrics m = Some st -> meter_inv st) as (m & bytes & x & -> & Hm').
  { unfold batch_bytes. destruct (metric_batch (ro_meter ro)); [by eexists _, _, _|].
    destruct (drain_metrics_done to_json to_json_total (ro_meter ro) Hm) as (m & bt & -> & _ & Hm').
    by eexists _, _, _. }
  destruct (write_out bytes out cap out_len) as [[r out'] len'].
  set (ro' := {| ro_entry := _; ro_meter := _ |}). eexists r, _, O. split; [done|].
  assert (grows b1 (set_runtimes (<[a := ro']> (runtimes b1)) b1)) as Hg' by apply grows_runtime.
  split; [|apply HQ; eapply grows_trans; [done|]; by intros x' Hx%Hg'; destruct x'].
  apply moved_same; try done.
  destruct (inv_runtime b1 a ro' Hi) as [Hb Hw Hs Ho]; [by destruct r|]. split; [|done..].
  apply (bridge_ok_grows (set_runtimes (<[a := ro']> (runtimes b1)) b1)); [done|done|by intros []|apply Hb].
Qed.

Lemma safe_returns {A} (r : KtResult A) O (Q : Post A) b : Q O r b -> safe (returns r) O Q b.
Proof. done. Qed.
Lemma safe_ret {A} (a : A) O (Q : Post A) b : Q O (Ok a) b -> safe (mret a) O Q b.
Proof. done. Qed.
Lemma safe_gate_call a ops O (Q : Post (list Z)) b :
  has_object b (Handle.Worker a) -> (forall r b1, grows b b1 -> Q O r b1) -> safe (gate_call a ops) O Q b.
Proof.
  revert Q b. induction ops as [|op ops IH]; intros Q b Ha HQ; cbn [gate_call].
  - apply safe_ret. apply HQ, grows_refl.
  - apply safe_bind, safe_on_gate; [done|]. intros [values|e] b1 Hg1; [|by apply HQ].
    apply safe_bind, IH; [by apply Hg1|]. intros [rest|e] b2 Hg2; [|apply HQ; by eapply grows_trans].
    apply safe_ret. apply HQ. by eapply grows_trans.
Qed.
Lemma safe_check (bad : bool) text O (Q : Post unit) b :
  (forall e, Q O (Err e) b) -> Q O (Ok tt) b -> safe (check bad text) O Q b.
Proof. intros H1 H2. destruct bad; [apply H1|done]. Qed.

Lemma safe_decoded {A} (decode : list byte -> result string A) ptr len O (Q : Post A) b :
  (forall r, Q O r b) -> safe (decoded decode ptr len) O Q b.
Proof. intros HQ. apply safe_bind. simpl. by destruct (slice ptr len); simpl. Qed.

Ltac there :=
  repeat match goal with
  | |- has_object _ _ => assumption
  | Hg : grows _ ?b1 |- has_object ?b1 _ => apply Hg
  end.
Ltac early := by intros.
(** One action of a body; a refusal is a return with nothing in hand. *)
Ltac body_rule :=
  lazymatch goal with
  | |- safe (check ?c _) _ _ _ => apply safe_check; [early|]; cbv beta iota
  | |- safe (returns ?r) _ _ _ => apply safe_returns; destruct r eqn:?; [|early]; cbv beta iota
  | |- safe (mret _) _ _ _ => apply safe_ret; cbv beta iota
  | |- safe (decoded _ _ _) _ _ _ => apply safe_decoded; intros [?|?]; [|early]
  | |- safe (look (fun t => get_runtime t _)) _ _ _ => apply safe_runtime; [done| |early]; intros ? ? ? ?
  | |- safe (look (fun t => get_client t _)) _ _ _ => apply safe_client; [done| |early]; intros ? ? ? ?
  | |- safe (look (fun t => get_worker t _)) _ _ _ => apply safe_worker; [done| |early]; intros ? ? ? ?
  | |- safe (look (fun t => get_ephemeral t _)) _ _ _ => apply safe_server; [done| |early]; intros ? ? ? ?
  | |- safe (look (fun t => get_poller t _)) _ _ _ => apply safe_poller; [done| |early]; intros ? ? ? ?
  | |- safe (look (fun t => require_owner t _ _)) _ _ _ => apply safe_owner; [done|]; intros [?|?] ? ?; [|early]
  | |- safe (worker_core _) _ _ _ => apply safe_on_worker with []; [there|early|]; intros w ? ?; destruct (core (wo_world w)); [|early]; cbn [snd]
  | |- safe (gate_call _ _) _ _ _ => apply safe_gate_call; [there|]; intros [?|?] ? ?; [|early]
  | |- safe (write _ _ _ _) _ _ _ => apply safe_write; early
  | |- safe (spawn_request _ _ _) _ _ _ => apply safe_spawn; [there|early]
  | |- safe (retrieve _ _ _ _) _ _ _ => apply safe_retrieve; [there|early]
  | |- safe (on_runtime _ _) _ _ _ => apply safe_on_runtime; [there|intros; apply on_entry_meter|]; intros [?|?] ? ?; [|early]
  | |- safe (on_runtime_queue _ _) _ _ _ => apply safe_on_runtime; [there|intros; apply on_entry_meter|]; intros [?|?] ? ?; [|early]
  | |- safe new_arc _ _ _ => apply safe_new_arc; intros ? ? ?
  | |- safe (mbind _ _) _ _ _ => apply safe_bind
  | |- safe (discard _) _ _ _ => apply safe_bind
  end.
Ltac body := repeat (body_rule; try done).

Lemma request_safe c b runtime req_id :
  call_fits c -> request_of c = Some (runtime, req_id) -> safe (dispatch c) [] settled b.
Proof.
  destruct c; simpl; intros Hf [= <- <-]; try destruct Hf;
    unfold kt_client_connect, kt_client_rpc, kt_worker_validate, kt_worker_complete,
      kt_worker_shutdown, kt_ephemeral_start, kt_ephemeral_shutdown; body.
Qed.
Lemma runtime_new_safe cfg len null b : safe (discard (kt_runtime_new cfg len null)) [] settled b.
Proof.
  unfold kt_runtime_new. apply safe_bind. do 4 body_rule.
  apply safe_bind, safe_returns. destruct (new_runtime _ _ a) as [rt|] eqn:Hrt; [|done].
  apply safe_bind, safe_alloc_runtime.
  - simpl. intros st. unfold new_runtime in Hrt.
    destruct (map_err InvalidArgument _); [|done]. cbn in Hrt.
    destruct (map_err from_anyhow _); [|done]. cbn in Hrt. injection Hrt as <-. simpl.
    case_match; [|done]. intros [= <-]. apply state_default_inv.
  - intros p b1 _ Hp. apply safe_insert; [done|done|]. by intros [].
Qed.

Lemma worker_new_safe rt client cfg len null b :
  fits 64 rt -> fits 64 client -> safe (discard (kt_worker_new rt client cfg len null)) [] settled b.
Proof.
  intros Hrt Hcl. unfold kt_worker_new. apply safe_bind. body.
  apply safe_alloc_worker. intros wk bw _ Hw.
  change [Handle.Worker wk] with (hand [Handle.Worker wk] ++ []). apply safe_bind.
  apply (safe_closing _ (fun r => r) rt); [|done..|].
  - intros t. by destruct (insert_owned t rt _) as [[[? ?] ?]|].
  - by intros [].
Qed.

Lemma poller_new_safe rt null b : fits 64 rt -> safe (discard (kt_poller_new rt null)) [] settled b.
Proof.
  intros Hrt. unfold kt_poller_new. apply safe_bind. do 4 body_rule.
  apply safe_bind, safe_alloc_poller; [there|]. intros p b2 Hg Hp. apply safe_bind. body_rule.
  apply safe_insert; [there|done|by intros []].
Qed.

Lemma runtime_free_safe reap rt b : fits 64 rt -> safe (kt_runtime_free reap rt) [] settled b.
Proof.
  intros Hrt. apply safe_bind, safe_remove_runtime; [done| |early]. intros a cs b1 _ Hcs.
  apply safe_bind, safe_close_children; [done|]. intros [error|e] b2 _; [|done].
  apply safe_bind. eapply safe_do; [intros x _; by apply idle_deed|]. intros b3 _. by destruct error.
Qed.

Lemma remove_safe h k b : fits 64 h -> k <> KIND_RUNTIME ->
  (forall e, entry_kind e = k -> child e = false) ->
  safe (_ ← on_table (fun t => remove_of_kind t h k); mret tt) [] settled b.
Proof.
  intros Hh Hk He. apply safe_bind, safe_remove; [done..| |early]. intros e b1 _ _ Hke.
  specialize (He e Hke). unfold hand. by rewrite filter_cons_False by congruence.
Qed.

Lemma worker_free_safe h b : fits 64 h -> safe (kt_worker_free h) [] settled b.
Proof.
  intros Hh. apply safe_bind, safe_remove; [done..| |early]. intros [] b1 _ He Hk; try done.
  by apply safe_free_worker.
Qed.

Lemma server_free_safe reap h b : fits 64 h -> safe (kt_ephemeral_free reap h) [] settled b.
Proof.
  intros Hh. apply safe_bind, safe_remove; [done..| |early]. intros [] b1 _ He Hk; try done.
  apply safe_bind. eapply safe_do; [intros x _; by apply idle_deed|]. intros b2 _.
  apply safe_bind, safe_do with []; [|done]. intros x Hx. by apply close_deed.
Qed.

Lemma update_safe h allow null b : fits 64 h -> safe (discard (kt_worker_update_resource h allow null)) [] settled b.
Proof.
  intros Hh. unfold kt_worker_update_resource. apply safe_bind. body.
Qed.

Lemma start_safe rt worker b : fits 64 rt -> fits 64 worker -> safe (kt_worker_start rt worker) [] settled b.
Proof.
  intros Hrt Hw. unfold kt_worker_start. body. apply safe_quiet; [there| |done].
  intros w. by destruct (start (wo_world w)).
Qed.

Lemma initiate_safe worker b : fits 64 worker -> safe (kt_worker_initiate_shutdown worker) [] settled b.
Proof.
  intros Hw. unfold kt_worker_initiate_shutdown. body. apply safe_quiet; [there|done|].
  intros [[]|e] b2 Hg; [|done..]. eapply safe_do; [intros x _; by apply idle_deed|done].
Qed.

Lemma dispatch_safe c b : call_fits c -> safe (dispatch c) [] settled b.
Proof.
  intros Hf. destruct (request_of c) as [[rt req]|] eqn:Hr; [by eapply request_safe|].
  destruct c; simpl in Hf, Hr; cbn [dispatch]; try done; try match type of Hf with fits _ _ /\ fits _ _ => destruct Hf end;
    eauto using runtime_new_safe, worker_new_safe, poller_new_safe, runtime_free_safe,
      worker_free_safe, server_free_safe, update_safe, start_safe, initiate_safe.
  - unfold kt_runtime_info. body.
  - unfold kt_runtime_retrieve_metrics. body.
  - by apply remove_safe; [| |intros []].
  - unfold kt_worker_heartbeat, heartbeat. body.
    eapply safe_do; [intros x _; by apply idle_deed|done].
  - unfold kt_ephemeral_info. body. apply safe_object; [|intros; body].
    intros b2 Hg. by apply (Hg (Handle.Ephemeral _)).
  - unfold kt_poller_poll. body.
  - unfold kt_poller_wake. body. apply safe_object.
    + intros b2 Hg. destruct (Hg (Handle.Poller _) H1) as (x & Hx & _). by exists x.
    + intros x b2 Hg Hx. destruct (Hg (Handle.Poller _) H1) as (y & Hy & Ha).
      rewrite Hx in Hy. injection Hy as <-. body.
  - by apply remove_safe; [| |intros []].
  - unfold kt_cancel. body.
Qed.
(** *** The tasks *)

Lemma safe_closing_nothing {A} (g : Table -> outcome (Table * A * list Entry)) x O (Q : Post A) b :
  (forall t, g t = mret (t, x, [])) -> (forall b1, grows b b1 -> Q O (Ok x) b1) -> safe (closing g) O Q b.
Proof.
  intros Hg HQ. apply safe_bind, safe_atomic. intros b1 Hi Hg1 _. rewrite Hg. cbn [mbind outcome_bind mret outcome_ret].
  eexists (Ok _), _, O. split; [done|]. rewrite set_table_id. split; [by apply moved_refl|by apply HQ].
Qed.

Lemma connected_safe rt req_id r b :
  fits 64 rt -> safe (discard (connected encode_failure rt req_id r)) [] settled b.
Proof.
  intros Hrt. apply safe_bind. unfold connected. destruct r as [client|err].
  - by eapply (safe_closing _ (fun h => match h with Ok _ => _ | Err _ => _ end) rt (Handle.Client client) []).
  - by eapply safe_closing_nothing.
Qed.

Lemma server_started_safe rt req_id r b :
  fits 64 rt -> safe (discard (server_started rt req_id r)) [] settled b.
Proof.
  intros Hrt. apply safe_bind. unfold server_started. destruct r as [info|text].
  - apply safe_bind, safe_alloc_server. intros a b1 _ Ha.
    change [Handle.Ephemeral a] with (hand [Handle.Ephemeral a] ++ []).
    by eapply (safe_closing _ (fun h => match h with Ok _ => _ | Err _ => _ end) rt).
  - by eapply safe_closing_nothing.
Qed.

Lemma owned_not_runtime k kind : owned_kind k = Some kind -> kind <> KIND_RUNTIME.
Proof. by destruct k; intros [= <-]. Qed.

Lemma discard_safe p b : pending_ok p -> safe (discard_pending p) [] settled b.
Proof.
  intros Hp. unfold discard_pending. apply safe_bind.
  destruct (decide (p_status p <> KT_OK \/ p_aux0 p = 0)) as [Hd|_].
  { apply safe_atomic. intros b1 Hi Hg _. eexists (Ok None), _, []. split; [done|].
    rewrite set_table_id. by split; [apply moved_refl|]. }
  destruct (owned_kind (p_kind p)) as [kind|] eqn:Hk.
  2: { apply safe_atomic. intros b1 Hi Hg _. eexists (Ok None), _, []. split; [done|].
       rewrite set_table_id. by split; [apply moved_refl|]. }
  (* the removal, with its error dropped *)
  assert (forall Q : Post (option Entry),
    (forall e b1, grows b b1 -> has_object b1 e -> entry_kind e = kind -> Q (hand [e]) (Ok (Some e)) b1) ->
    (forall b1, grows b b1 -> Q [] (Ok None) b1) ->
    safe (on_table (fun t => '(t', r) ← remove_of_kind t (p_aux0 p) kind;
                             mret (t', Ok (match r with Ok e => Some e | Err _ => None end)))) [] Q b) as Hr.
  { intros Q H1 H2. apply safe_atomic. intros b1 Hi Hg Hb.
    pose proof (safe_remove (p_aux0 p) kind [] (fun O r b' => match r with
      | Ok e => Q O (Ok (Some e)) b' | Err _ => Q O (Ok None) b' end) b Hp (owned_not_runtime _ _ Hk)) as Hs.
    destruct (Hs (fun e b1 Hg He Hke => ltac:(rewrite app_nil_r; by apply H1)) (fun _ b1 Hg => H2 b1 Hg) b1 Hi Hg)
      as (r & b2 & O' & E & Hm & HQ); clear Hs; destruct (remove_of_kind (table b1) (p_aux0 p) kind) as [[t' r']|]; try done.
    cbn [mbind outcome_bind mret outcome_ret] in *. injection E as -> <-. eexists _, _, O'. split; [done|].
    split; [done|]. by destruct r. }
  apply Hr; [|done]. intros [] b1 Hg He Hke; try done.
  - by destruct (p_kind p); simplify_eq.
  - apply safe_do with []; [|done]. intros x Hx. by apply (close_deed (Handle.Ephemeral a)).
Qed.

Lemma task_safe t b : task_fits t -> safe (task_body t) [] settled b.
Proof. destruct t; [apply connected_safe|apply server_started_safe|apply discard_safe]. Qed.
(** *** The pool *)

(** What all bodies together have in hand. *)
Definition owing (owes : gmap positive (list Entry)) (e : Entry) : nat :=
  map_fold (fun _ O n => (in_hand O e + n)%nat) 0%nat owes.

Lemma owing_insert owes tid O e :
  owes !! tid = None -> owing (<[tid := O]> owes) e = (in_hand O e + owing owes e)%nat.
Proof. intros Ht. apply (map_fold_insert_L (fun _ O n => (in_hand O e + n)%nat) 0%nat); [lia|done]. Qed.

Lemma owing_delete owes tid O e :
  owes !! tid = Some O -> owing owes e = (in_hand O e + owing (delete tid owes) e)%nat.
Proof.
  intros Ht. rewrite <- (owing_insert (delete tid owes) tid O e) by apply lookup_delete_eq.
  by rewrite insert_delete_id.
Qed.

Lemma owing_update owes tid O O' e :
  owes !! tid = Some O ->
  (owing (<[tid := O']> owes) e + in_hand O e = owing owes e + in_hand O' e)%nat.
Proof.
  intros Ht. rewrite (owing_delete owes tid O e Ht), (owing_delete (<[tid := O']> owes) tid O' e).
  - rewrite delete_insert_eq. lia.
  - apply lookup_insert_eq.
Qed.

(** The pool's bodies are safe with what they have in hand, and that, the table and the log account
    for every object once. *)
Record pool_inv (p : Pool) : Prop := {
  pi_bridge : bridge_inv (bridge p);
  pi_owes : exists owes,
    (forall tid, owes !! tid = None <-> running p !! tid = None) /\
    (forall tid m O, running p !! tid = Some m -> owes !! tid = Some O -> safe m O settled (bridge p)) /\
    (forall e, child e = true ->
       (naming (bridge p) e + closings (bridge p) e + owing owes e)%nat = one (known (bridge p) e));
}.

Lemma settled_mono {A} O (r : KtResult A) (b b' : Bridge) : settled O r b -> grows b b' -> settled O r b'.
Proof. done. Qed.

Lemma inv_locals l w b : bridge_inv b -> bridge_inv (set_last l (set_written w b)).
Proof.
  intros [Hb Hw Hs Ho]. split; [|done..]. by apply (bridge_ok_grows b); [|done|intros []|apply Hb].
Qed.

Lemma grows_locals l w (b : Bridge) : grows b (set_last l (set_written w b)).
Proof. by intros []. Qed.

Lemma begin_inv p tid m p' evs :
  pool_inv p -> (forall b, safe m [] settled b) -> begin_body p tid m = Some (p', evs) -> pool_inv p'.
Proof.
  intros [Hi (owes & Hd & Hs & Hn)] Hm Hb. unfold begin_body in Hb.
  destruct (running p !! tid) eqn:Hr; simplify_eq. split; [done|].
  apply Hd in Hr. exists (<[tid := []]> owes). split_and!.
  - intros tid'. simpl. rewrite !lookup_insert_None, Hd. done.
  - simpl. intros tid' m' O. destruct (decide (tid' = tid)) as [->|].
    + rewrite !lookup_insert_eq. intros [= <-] [= <-]. apply Hm.
    + rewrite !lookup_insert_ne by done. apply Hs.
  - intros e He. rewrite owing_insert by done. unfold in_hand. rewrite count_nil. by apply Hn.
Qed.

Lemma act_inv p tid p' evs :
  pool_inv p -> pool_action_ok p (PAct tid) -> pool_step_fn p (PAct tid) = Some (p', evs) -> pool_inv p'.
Proof.
  intros [Hi (owes & Hd & Hs & Hn)]. cbn [pool_action_ok]. cbn [pool_step_fn].
  destruct (running p !! tid) as [[r|X f k]|] eqn:Hr; try done.
  destruct (f (enter p tid)) as [o b'] eqn:Hf. intros Hbd [= <- <-].
  destruct (owes !! tid) as [O|] eqn:Ho; [|apply Hd in Ho; congruence].
  pose proof (Hs tid _ O Hr Ho) as Hsafe. cbn [safe] in Hsafe.
  destruct (Hsafe (enter p tid)) as (r & b2 & O' & E & [Hi' Hg Hbal] & Hk);
    [by apply inv_locals|apply grows_locals|by rewrite Hf|].
  rewrite Hf in E. injection E as -> ->.
  split; [done|]. exists (<[tid := O']> owes). split_and!.
  - intros tid'. simpl. rewrite !lookup_insert_None, Hd. done.
  - simpl. intros tid' m' O''. destruct (decide (tid' = tid)) as [->|].
    + rewrite !lookup_insert_eq. intros [= <-] [= <-]. by destruct r.
    + rewrite !lookup_insert_ne by done. intros Hm' HO''.
      eapply safe_mono, (Hs _ _ _ Hm' HO''); [intros; by eapply settled_mono|].
      eapply grows_trans; [apply grows_locals|done].
  - intros e He. specialize (Hbal e He). specialize (Hn e He). pose proof (owing_update owes tid O O' e Ho).
    change (naming (enter p tid) e) with (naming (bridge p) e) in Hbal.
    change (closings (enter p tid) e) with (closings (bridge p) e) in Hbal.
    replace (known (enter p tid) e) with (known (bridge p) e) in Hbal by (by destruct e).
    cbn [bridge leave]. lia.
Qed.

(** A return is of a body that ended well, with nothing in hand. *)
Lemma return_inv p tid p' evs :
  pool_inv p -> pool_step_fn p (PReturn tid) = Some (p', evs) ->
  pool_inv p' /\ exists status text, evs = [Returned tid status text] /\ status <> KT_ERR_PANIC /\
    (status = KT_OK \/ exists e, status = code e /\ text = error_to_string e).
Proof.
  intros [Hi (owes & Hd & Hs & Hn)]. cbn [pool_step_fn].
  destruct (running p !! tid) as [[r|X f k]|] eqn:Hr; try done.
  destruct (owes !! tid) as [O|] eqn:Ho; [|apply Hd in Ho; congruence].
  pose proof (Hs tid _ O Hr Ho) as Hsafe. destruct r as [r|q]; [|done]. simpl in Hsafe.
  unfold settled in Hsafe. subst O. unfold guard.
  assert (forall l w, pool_inv (leave p tid (set_last l (set_written w (bridge p))) (delete tid (running p)))) as Hinv.
  { intros l w. split; [by apply inv_locals|]. exists (delete tid owes). split_and!.
    - intros tid'. simpl. rewrite !lookup_delete_None, Hd. done.
    - simpl. intros tid' m' O' [_ Hm']%lookup_delete_Some [_ HO']%lookup_delete_Some.
      eapply safe_mono, (Hs _ _ _ Hm' HO'); [intros; by eapply settled_mono|apply grows_locals].
    - intros e He. specialize (Hn e He). rewrite (owing_delete owes tid [] e Ho) in Hn.
      unfold in_hand in Hn. rewrite count_nil in Hn. simpl in Hn.
      replace (known _ e) with (known (bridge p) e) by (by destruct e). exact Hn. }
  destruct r as [u|e]; intros [= <- <-].
  - split; [apply Hinv|]. eexists _, _. split; [done|]. by split; [|left].
  - split; [apply (Hinv (error_to_string e))|]. eexists _, _. split; [done|].
    split; [by destruct e|right; by exists e].
Qed.

Lemma world_inv p rs ws p' evs :
  pool_inv p -> pool_action_ok p (PWorld rs ws) -> pool_step_fn p (PWorld rs ws) = Some (p', evs) -> pool_inv p'.
Proof.
  intros [Hi (owes & Hd & Hs & Hn)] (Hrs & Hws & Hm) [= <- <-].
  assert (forall a, is_Some (rs !! a) <-> is_Some (runtimes (bridge p) !! a)) as Hr by (intros; by rewrite <- !elem_of_dom, Hrs).
  assert (forall a, is_Some (ws !! a) <-> is_Some (workers (bridge p) !! a)) as Hw by (intros; by rewrite <- !elem_of_dom, Hws).
  set (b' := set_runtimes rs (set_workers ws (bridge p))).
  assert (grows (bridge p) b') as Hg.
  { intros []; simpl; try done; [apply Hr|apply Hw|]. intros (rt & Hx & Hs'). exists rt. split; [done|by apply Hr]. }
  split; cbn [bridge].
  - destruct Hi as [Hb Hw' Hs' Ho]. split; [|intros a Ha; by apply Hw', Hw|done..]. by apply (bridge_ok_grows (bridge p)).
  - exists owes. split; [done|]. split.
    + intros tid m O Hm' HO. eapply safe_mono, (Hs _ _ _ Hm' HO); [intros; by eapply settled_mono|done].
    + intros e He. change (naming b' e) with (naming (bridge p) e).
      change (closings b' e) with (closings (bridge p) e). rewrite (Hn e He). f_equal.
      destruct e as [| |a|a|]; try done. simpl. apply bool_decide_ext. symmetry. apply Hw.
Qed.
Lemma pool_new_inv : pool_inv pool_new.
Proof.
  split; simpl.
  - split; [split; [apply table_new_inv| |by intros ???; simpl; rewrite lookup_empty]| | |];
      try (intros a; simpl; rewrite lookup_empty; by intros []);
      intros h e o Hl; unfold live, slot_list in Hl; simpl in Hl; by rewrite lookup_empty in Hl.
  - exists ∅. split_and!; [by intros|by intros|]. intros e He.
    replace (known bridge_new e) with false by (by destruct e). done.
Qed.

(** What the pool's history says: every return so far was of a call or task that ended well. *)
Definition returns_well (evs : list pool_event) : Prop :=
  Forall (fun '(Returned _ status text) => status <> KT_ERR_PANIC /\
            (status = KT_OK \/ exists e, status = code e /\ text = error_to_string e)) evs.

Lemma pool_step_inv p l p' : pool_inv p -> pool_step p l p' -> pool_inv p' /\ returns_well l.2.
Proof.
  destruct l as [a evs]. intros Hp [Hok Hs]. cbn [fst snd] in *.
  destruct a as [tid c|tid t|tid|tid|rs ws].
  - split; [eapply begin_inv; [done| |exact Hs]; intros b; by apply dispatch_safe|].
    cbn [pool_step_fn] in Hs. unfold begin_body in Hs. destruct (running p !! tid); simplify_eq. constructor.
  - split; [eapply begin_inv; [done| |exact Hs]; intros b; by apply task_safe|].
    cbn [pool_step_fn] in Hs. unfold begin_body in Hs. destruct (running p !! tid); simplify_eq. constructor.
  - split; [by eapply act_inv|]. cbn [pool_step_fn] in Hs.
    destruct (running p !! tid) as [[r|X f k]|]; try done. destruct (f (enter p tid)). simplify_eq. constructor.
  - destruct (return_inv p tid p' evs Hp Hs) as (Hp' & status & text & -> & H1 & H2).
    split; [done|]. by constructor.
  - split; [by eapply world_inv|]. cbn [pool_step_fn] in Hs. simplify_eq. constructor.
Qed.

Lemma pool_run_inv ls p : run pool_step pool_new ls p -> pool_inv p /\ returns_well (ls ≫= snd).
Proof.
  apply (run_invariant pool_step (fun ls p => pool_inv p /\ returns_well (ls ≫= snd))); [split; [apply pool_new_inv|constructor]|].
  intros ls' p' l p'' _ [Hp Hw] Hs. destruct (pool_step_inv p' l p'' Hp Hs) as [Hp' Hw'].
  split; [done|]. rewrite bind_app. apply Forall_app. split; [done|]. by rewrite bind_cons, app_nil_r.
Qed.

(** *** One body alone *)

Lemma enter_leave p tid b r : enter (leave p tid b r) tid = b.
Proof. unfold enter, leave. cbn [locals bridge]. rewrite lookup_insert_eq. by destruct b. Qed.

Lemma alone_returns (m : M unit) : forall p tid,
  running p !! tid = Some m ->
  exists n p' ls, exec pool_step_fn p (replicate n (PAct tid) ++ [PReturn tid]) = Some (p', ls) /\
    let '(status, b) := export m (enter p tid) in
    bridge p' = b /\ running p' = delete tid (running p) /\ ls ≫= snd = [Returned tid status (last b)].
Proof.
  induction m as [r|X f k IH]; intros p tid Hr.
  - destruct (export (Ret r) (enter p tid)) as [status b] eqn:E.
    eexists 0%nat, _, _. split.
    + cbn [replicate app exec pool_step_fn]. rewrite Hr.
      assert (guard (fun b => (r, b)) (enter p tid) = (status, b)) as ->.
      { rewrite <- E. unfold export, guard. cbn [seq]. by destruct r as [[[]|]|]. }
      reflexivity.
    + done.
  - destruct (f (enter p tid)) as [o b1] eqn:Hf.
    set (p1 := leave p tid b1 (<[tid := stop o k]> (running p))).
    assert (pool_step_fn p (PAct tid) = Some (p1, [])) as H1 by (cbn [pool_step_fn]; by rewrite Hr, Hf).
    assert (running p1 !! tid = Some (stop o k)) as Hr1 by apply lookup_insert_eq.
    assert (export (Act f k) (enter p tid) = export (stop o k) (enter p1 tid)) as ->.
    { unfold p1. rewrite enter_leave. unfold export, guard. cbn [seq]. rewrite Hf. by destruct o as [[x|e]|q]. }
    assert (exists n p' ls, exec pool_step_fn p1 (replicate n (PAct tid) ++ [PReturn tid]) = Some (p', ls) /\
      let '(status, b) := export (stop o k) (enter p1 tid) in
      bridge p' = b /\ running p' = delete tid (running p1) /\ ls ≫= snd = [Returned tid status (last b)])
      as (n & p' & ls & Hx & Hrest).
    { destruct o as [[x|e]|q]; [by apply IH| |];
        (eexists 0%nat, _, _; split; [cbn [replicate app exec pool_step_fn]; rewrite Hr1; reflexivity|done]). }
    exists (S n), p', ((PAct tid, []) :: ls). split; [by apply exec_cons with p1|].
    destruct (export (stop o k) (enter p1 tid)) as [status b]. destruct Hrest as (Hb & Hd & He).
    split; [done|]. split; [by rewrite Hd; unfold p1; simpl; rewrite delete_insert_eq|done].
Qed.
(** A call that runs alone does what the sequential reading of its body says: from any pool in
    which the thread is idle, the call and some number of its own actions, with none of another's in
    between, end in exactly the state, the status and the last error that [export] computes, and
    leave every other body as it was. *)
Lemma alone_is_export p tid c :
  running p !! tid = None ->
  exists n p' ls,
    exec pool_step_fn p (PCall tid c :: replicate n (PAct tid) ++ [PReturn tid]) = Some (p', ls) /\
    let '(status, b) := export (dispatch c) (enter p tid) in
    bridge p' = b /\ running p' = running p /\ ls ≫= snd = [Returned tid status (last b)].
Proof.
  intros Hr. set (p1 := {| bridge := bridge p; running := <[tid := dispatch c]> (running p); locals := locals p |}).
  destruct (alone_returns (dispatch c) p1 tid (lookup_insert_eq _ _ _)) as (n & p' & ls & Hx & Hrest).
  exists n, p', ((PCall tid c, []) :: ls). split.
  - apply exec_cons with p1; [|done]. cbn [pool_step_fn]. unfold begin_body. by rewrite Hr.
  - change (enter p1 tid) with (enter p tid) in Hrest. destruct (export (dispatch c) (enter p tid)) as [status b].
    destruct Hrest as (Hb & Hd & He). split; [done|]. split; [|done].
    rewrite Hd. unfold p1. simpl. by rewrite delete_insert_id.
Qed.

(** ** Theorems *)

(** C2 No exported function panics, whatever its arguments, however many threads call at once, and
    however their calls, the tasks that create objects, the drops of undelivered completions and the
    components behind the objects interleave: in every reachable pool each call that has returned
    gave [KT_OK] or an error's code with that error's text as its own thread's last error, never the
    panic code; every live handle names an object; and no body that still runs is stuck. *)
Theorem exports_never_panic ls p :
  run pool_step pool_new ls p ->
  returns_well (ls ≫= snd) /\ bridge_ok (bridge p) /\
  forall tid m, running p !! tid = Some m ->
    is_Some (pool_step_fn p (PAct tid)) \/
    exists r, m = Ret (Done r) /\ is_Some (pool_step_fn p (PReturn tid)).
Proof.
  intros [[Hi (owes & Hd & Hs & _)] Hw]%pool_run_inv. split; [done|]. split; [apply Hi|].
  intros tid m Hm. destruct (owes !! tid) as [O|] eqn:HO; [|apply Hd in HO; congruence].
  pose proof (Hs tid m O Hm HO) as Hsafe. cbn [pool_step_fn]. rewrite Hm.
  destruct m as [[r|q]|X f k]; [right|done|left].
  - exists r. split; [done|]. destruct (guard _ _). by eexists.
  - destruct (f (enter p tid)). by eexists.
Qed.

(** C3 Every worker and every server is given up exactly once.  In every reachable pool, at most one
    live handle names it or it was closed at most once, and not both; a live handle to it is owned by
    a runtime that is itself live; and whenever no call or task is under way, it is either named by
    one live handle or was closed once: whatever raced with whatever, the free of its handle, of its
    runtime, a creation that found its runtime gone, or a completion that nobody took, nothing is
    closed twice and nothing is left behind. *)
Theorem children_closed_once ls p e :
  run pool_step pool_new ls p -> child e = true ->
  (naming (bridge p) e + closings (bridge p) e <= one (known (bridge p) e))%nat /\
  (forall h o, live (table (bridge p)) !! h = Some (e, o) ->
     closings (bridge p) e = 0%nat /\ exists a, live (table (bridge p)) !! o = Some (Handle.Runtime a, 0)) /\
  (running p = ∅ -> (naming (bridge p) e + closings (bridge p) e)%nat = one (known (bridge p) e)).
Proof.
  intros [[Hi (owes & Hd & _ & Hn)] _]%pool_run_inv He. specialize (Hn e He).
  split; [lia|]. split.
  - intros h o Hl. split.
    + assert (0 < naming (bridge p) e)%nat as Hpos by by apply (mcount_pos _ _ h (e, o)).
      destruct (known (bridge p) e); simpl in Hn; lia.
    + destruct (bo_table _ (bi_ok _ Hi)) as [_ Ho]. specialize (Ho h e o Hl).
      rewrite decide_False in Ho by (by eapply bi_owned). naive_solver.
  - intros Hr. assert (owes = ∅) as ->.
    { apply map_empty. intros tid. apply Hd. by rewrite Hr, lookup_empty. }
    unfold owing in Hn. rewrite map_fold_empty in Hn. lia.
Qed.

(** *** Checking a schedule *)

#[export] Instance call_fits_dec (c : call) : Decision (call_fits c).
Proof. destruct c; apply _. Defined.
#[export] Instance task_fits_dec (t : task) : Decision (task_fits t).
Proof. destruct t; unfold task_fits, pending_ok; apply _. Defined.

(** The promises of a schedule's steps, decided; a step of the other components is not. *)
Definition pool_action_okb (p : Pool) (a : pool_action) : bool :=
  match a with
  | PCall _ c => bool_decide (call_fits c)
  | PTask _ t => bool_decide (task_fits t)
  | PAct tid => match pool_step_fn p a with
                | Some (p', _) => Z.of_nat (length (slots (table (bridge p')))) <=? 2 ^ 32
                | None => true
                end
  | PReturn _ => true
  | PWorld _ _ => false
  end.

Fixpoint schedule (p : Pool) (acts : list pool_action) : option Pool :=
  match acts with
  | [] => Some p
  | a :: rest =>
      if pool_action_okb p a then
        match pool_step_fn p a with Some (p', _) => schedule p' rest | None => None end
      else None
  end.

Lemma okb_ok p a : pool_action_okb p a = true -> pool_action_ok p a.
Proof.
  destruct a; cbn [pool_action_okb pool_action_ok]; try done; [apply bool_decide_eq_true_1..|].
  destruct (pool_step_fn p (PAct tid)) as [[p' evs]|]; [|done]. apply Z.leb_le.
Qed.

Lemma schedule_run acts : forall p0 ls p p',
  run pool_step p0 ls p -> schedule p acts = Some p' -> exists ls', run pool_step p0 ls' p'.
Proof.
  induction acts as [|a acts IH]; intros p0 ls p p' Hr Hs; cbn [schedule] in Hs; [simplify_eq; eauto|].
  destruct (pool_action_okb p a) eqn:Hok; [|done].
  destruct (pool_step_fn p a) as [[p1 evs]|] eqn:E; [|done].
  apply (IH p0 (ls ++ [(a, evs)]) p1 p'); [|exact Hs].
  apply (run_snoc _ _ _ p); [exact Hr|]. split; [by apply okb_ok|exact E].
Qed.
End threads.

(** ** Witnesses *)

(** A worker is made while its runtime is freed: the creation has looked its runtime and its client
    up, the free removes and closes what the runtime owns, and the insertion finds the runtime gone.
    Meanwhile a server has started that nobody will take. *)
Definition racing : list (pool_action (F := unit) (C := SampleCode)) :=
  let rt := encode_handle KIND_RUNTIME 1 0 in
  let client := encode_handle KIND_CLIENT 1 1 in
  let turn tid n := replicate n (PAct tid) in
  [PCall 1 (CRuntimeNew None 0 false)] ++ turn 1%positive 2%nat ++ [PReturn 1] ++
  [PTask 7 (TConnected rt 5 (Ok 9%positive))] ++ turn 7%positive 1%nat ++ [PReturn 7] ++
  [PCall 2 (CWorkerNew rt client (Some [x01]) 1 false)] ++ turn 2%positive 5%nat ++
  [PTask 8 (TServerStarted rt 6 (Ok {| si_target := "127.0.0.1:7233"; si_pid := 42; si_has_test_service := false |}))] ++
  turn 8%positive 2%nat ++ [PReturn 8] ++
  [PCall 3 (CRuntimeFree (fun _ => Ok tt) rt)] ++ turn 3%positive 1%nat ++
  turn 2%positive 2%nat ++ [PReturn 2] ++ turn 3%positive 3%nat ++ [PReturn 3].

Definition racing_pool : Pool (Url := string) (F := unit) :=
  default pool_new (schedule sample_encode_failure pool_new racing).

Lemma racing_run : exists ls, run (pool_step sample_encode_failure) pool_new ls racing_pool.
Proof.
  apply (schedule_run sample_encode_failure racing pool_new [] pool_new); [constructor|].
  assert (is_ok (ok_or (schedule sample_encode_failure pool_new racing) tt) = true) as Hs
    by (vm_compute; reflexivity).
  unfold racing_pool. by destruct (schedule sample_encode_failure pool_new racing).
Qed.

Lemma exports_never_panic_witness :
  (exists ls, run (pool_step sample_encode_failure) pool_new ls racing_pool /\
     returns_well (ls ≫= snd)) /\ bridge_ok (bridge racing_pool).
Proof.
  destruct racing_run as [ls Hr].
  destruct (exports_never_panic sample_encode_failure (fun _ => ltac:(done)) ls racing_pool Hr)
    as (Hw & Hb & _).
  split; [by exists ls|exact Hb].
Defined.

Lemma children_closed_once_witness :
  naming (bridge racing_pool) (Handle.Worker 3) = 0%nat /\
  closings (bridge racing_pool) (Handle.Worker 3) = 1%nat /\
  closings (bridge racing_pool) (Handle.Ephemeral 4) = 1%nat.
Proof.
  assert (forall e, child e = true -> (naming (bridge racing_pool) e + closings (bridge racing_pool) e)%nat
    = one (known (bridge racing_pool) e)) as Hn.
  { intros e He. destruct racing_run as [ls Hr].
    apply (children_closed_once sample_encode_failure (fun _ => ltac:(done)) ls racing_pool e Hr He).
    vm_compute; reflexivity. }
  assert (known (bridge racing_pool) (Handle.Worker 3) = true) as Hw by (vm_compute; reflexivity).
  assert (known (bridge racing_pool) (Handle.Ephemeral 4) = true) as Hs by (vm_compute; reflexivity).
  assert (naming (bridge racing_pool) (Handle.Worker 3) = 0%nat) as Hn0 by (vm_compute; reflexivity).
  assert (naming (bridge racing_pool) (Handle.Ephemeral 4) = 0%nat) as Hn1 by (vm_compute; reflexivity).
  pose proof (Hn (Handle.Worker 3) eq_refl) as H3. pose proof (Hn (Handle.Ephemeral 4) eq_refl) as H4.
  rewrite Hn0, Hw in H3. rewrite Hn1, Hs in H4. split; [exact Hn0|]. split; [exact H3|exact H4].
Defined.
