(* ===== verification/System.v ===== *)
(** One runtime with its workers and its servers ([runtime.rs], [worker.rs], [ephemeral.rs] together,
    and the closures that [lib.rs] hands to [spawn_request]).

    A [System] is a runtime of [Runtime], the worlds of the workers and servers that were made under
    it, and for every request task the operation it runs.  The components meet in three places: what
    a pump pushes goes through the runtime's queue; a request that shuts a worker or a server down is
    polled by the runtime's task, which drives the component's call, answers with its result, and drops
    it when the token is cancelled; and the end of the runtime waits for one tracker, which counts
    request tasks and the servers' tokens alike.  Handles are not part of it: the runtime is
    instantiated with a store that has none.

    A request to stop a server holds the server's entry from the moment it is made until its call
    returns, is cancelled or, if the runtime refuses the request, is dropped: that is the server's
    [calls].  A poll of a request's task takes one step of its operation, then looks whether the call has
    returned; a reactor's poll may take several, so there are more interleavings here than there.  A
    pump's pushes are steps of their own, and the pump goes on when its [outbox] is empty.

    A step gives the steps its components took, in order, so that a run of the system projects to a
    run of every component, and all their theorems hold of it. *)

From S2P Require Import Prelude Abi KtError Panic Handle Queue Runtime.
From S2P Require Worker Streams Ephemeral Ffi.

(** A store without handles. *)
#[export, refine] Instance no_handles : HandleStore unit :=
  {| store_ok _ := True; store_live _ := ∅; store_remove t _ _ := Done (t, Err StaleHandle) |}.
Proof. intros t h k _ _. right. split; [by intros e o; rewrite lookup_empty|by eexists]. Defined.

#[local] Existing Instances Worker.call_phase_eq_dec Worker.event_eq_dec.

(** The operation of a request's task. *)
Inductive job :=
| JShutdown (worker : arc)
| JStop (server : arc)
| JStart
| JOther.

#[export] Instance job_eq_dec : EqDecision job.
Proof. solve_decision. Defined.

(** A worker: its handle, its world, and what each pump still has to push from its last poll. *)
Record Node := {
  node_handle : Z;
  node_world : Worker.World;
  outbox : gmap positive (list Pending);
}.

Record System := {
  rt : RuntimeEntry unit;
  workers : gmap arc Node;
  servers : gmap arc Ephemeral.World;
  jobs : gmap positive job;
}.

Definition set_rt (r : RuntimeEntry unit) (s : System) : System :=
  {| rt := r; workers := workers s; servers := servers s; jobs := jobs s |}.
Definition set_workers (m : gmap arc Node) (s : System) : System :=
  {| rt := rt s; workers := m; servers := servers s; jobs := jobs s |}.
Definition set_servers (m : gmap arc Ephemeral.World) (s : System) : System :=
  {| rt := rt s; workers := workers s; servers := m; jobs := jobs s |}.
Definition set_jobs (m : gmap positive job) (s : System) : System :=
  {| rt := rt s; workers := workers s; servers := servers s; jobs := m |}.

(** What a component did. *)
Inductive deed :=
| OfRuntime (l : raction * list revent)
| OfWorker (a : arc) (l : Worker.action * list Worker.event)
| OfServer (a : arc) (l : Ephemeral.action * list Ephemeral.event).

(** ** Steps of the components *)

Definition step : Type := System -> option (System * list deed).

Definition nothing : step := fun s => Some (s, []).
Definition andthen (f g : step) : step := fun s =>
  '(s1, ds1) ← f s; '(s2, ds2) ← g s1; Some (s2, ds1 ++ ds2).

Definition on_rt (ra : raction) : step := fun s =>
  '(r, evs) ← rstep (rt s) ra; Some (set_rt r s, [OfRuntime (ra, evs)]).

Definition on_server (a : arc) (ea : Ephemeral.action) : step := fun s =>
  w ← servers s !! a;
  '(w', evs) ← Ephemeral.estep w ea;
  Some (set_servers (<[a := w']> (servers s)) s, [OfServer a (ea, evs)]).

Definition pushed (evs : list Worker.event) : list Pending :=
  omap (fun e => match e with Worker.EvPushed p => Some p | _ => None end) evs.

(** The pump whose step it is. *)
Definition pump_of (wa : Worker.action) : option positive :=
  match wa with
  | Worker.WPoll id _ _ | Worker.WDrop id | Worker.WLeave id => Some id
  | _ => None
  end.
Definition unposted (n : Node) (wa : Worker.action) : list Pending :=
  match pump_of wa with Some id => default [] (outbox n !! id) | None => [] end.
Definition posting (n : Node) (wa : Worker.action) (evs : list Worker.event) : gmap positive (list Pending) :=
  match pump_of wa with Some id => <[id := pushed evs]> (outbox n) | None => outbox n end.

(** A pump goes on once it has pushed what its last poll gave. *)
Definition on_worker (a : arc) (wa : Worker.action) : step := fun s =>
  n ← workers s !! a;
  if decide (unposted n wa = []) then
    '(w, evs) ← Worker.wstep (node_world n) wa;
    Some (set_workers (<[a := {| node_handle := node_handle n; node_world := w;
                                 outbox := posting n wa evs |}]> (workers s)) s,
          [OfWorker a (wa, evs)])
  else None.

(** A pump's next [sender.push]. *)
Definition post (a : arc) (id : positive) : step := fun s =>
  n ← workers s !! a;
  match outbox n !! id with
  | Some (p :: rest) =>
      '(s', ds) ← on_rt (RPushed p) s;
      Some (set_workers (<[a := {| node_handle := node_handle n; node_world := node_world n;
                                   outbox := <[id := rest]> (outbox n) |}]> (workers s')) s', ds)
  | _ => None
  end.

(** ** The system *)

Inductive saction :=
| SReserve (tid : positive) (req_id : Z) (j : job)
| SRegister (tid : positive) (token : arc)
| SRuntime (ra : raction)
| SPoll (tid : positive) (op : option (outcome Pending))
| SShutdown (tid : positive) (wa : Worker.action)
| SStop (tid : positive) (ea : Ephemeral.action)
| SStart (tid : positive) (server : arc) (op : outcome Pending)
| SCancelled (tid : positive)
| SWorkerNew (a : arc) (h : Z)
| SWorker (a : arc) (wa : Worker.action)
| SPost (a : arc) (id : positive)
| SServer (a : arc) (ea : Ephemeral.action)
| SWaited.

(** The request and the token of a task that the reactor may poll. *)
Definition running (s : System) (tid : positive) : option (Z * arc) :=
  task ← tasks (rt s) !! tid;
  match t_state task with Running tok => Some (t_req task, tok) | _ => None end.

(** Tasks, and the calls without a request, have names of their own. *)
Definition unused (tid : positive) (s : System) : Prop :=
  jobs s !! tid = None /\
  map_Forall (fun _ n => Worker.calls (node_world n) !! tid = None) (workers s) /\
  map_Forall (fun _ w => Ephemeral.calls w !! tid = None) (servers s).
#[export] Instance unused_dec tid s : Decision (unused tid s).
Proof. unfold unused. apply _. Defined.

(** The steps of a [shutdown] that its request's task drives. *)
Definition by_call (s : System) (tid : positive) (wa : Worker.action) : bool :=
  match wa with
  | Worker.WShutdown t | Worker.WLock t | Worker.WTryFinalize t _ | Worker.WClosed t =>
      bool_decide (t = tid)
  | Worker.WAwait t bg _ => bool_decide (t = tid /\ unused bg s)
  | _ => false
  end.

(** A call of [shutdown] that no task drives: the background finalizer. *)
Definition background (w : Worker.World) (tid : positive) : bool :=
  match Worker.calls w !! tid with
  | Some Worker.BgQueued | Some (Worker.Finalizing true) | Some (Worker.Closing true) => true
  | _ => false
  end.
(** What a worker does without one: its exports, its pumps, the background finalizer. *)
Definition by_itself (n : Node) (wa : Worker.action) : bool :=
  match wa with
  | Worker.WPoll _ h _ => bool_decide (h = node_handle n)
  | Worker.WLock t | Worker.WTryFinalize t _ | Worker.WClosed t => background (node_world n) t
  | Worker.WShutdown _ | Worker.WAwait _ _ _ | Worker.WFinishUnstarted _ | Worker.WCancel _ => false
  | _ => true
  end.

(** The same for a server. *)
Definition server_call (tid : positive) (ea : Ephemeral.action) : bool :=
  match ea with
  | Ephemeral.ELock t | Ephemeral.EReap t _ => bool_decide (t = tid)
  | _ => false
  end.
Definition server_itself (s : System) (w : Ephemeral.World) (ea : Ephemeral.action) : bool :=
  match ea with
  | Ephemeral.ECall _ | Ephemeral.ECancel _ => false
  | Ephemeral.EFree t | Ephemeral.ERuntimeFree t | Ephemeral.EClose t => bool_decide (unused t s)
  | Ephemeral.ELock t | Ephemeral.EReap t _ =>
      match Ephemeral.calls w !! t with Some (Ephemeral.ByRequest, _) => false | _ => true end
  | _ => true
  end.

(** What a call returned to its task. *)
Definition worker_return (tid : positive) (e : Worker.event) : option (result string unit) :=
  match e with
  | Worker.EvReturned t r => if decide (t = tid) then Some r else None
  | _ => None
  end.
Definition server_return (tid : positive) (e : Ephemeral.event) : option (result string unit) :=
  match e with
  | Ephemeral.EvReturned t r => if decide (t = tid) then Some r else None
  | _ => None
  end.
Definition returned (tid : positive) (ds : list deed) : option (result string unit) :=
  head (ds ≫= fun d => match d with
                       | OfWorker _ (_, evs) => omap (worker_return tid) evs
                       | OfServer _ (_, evs) => omap (server_return tid) evs
                       | OfRuntime _ => []
                       end).

(** The poll of a task in which its operation takes the step [f]: when the call has returned, the
    task has its completion. *)
Definition polling (tid : positive) (req_id : Z) (f : step) : step := fun s =>
  '(s1, ds) ← f s;
  let op := (fun r => Done (Ffi.failed_completion req_id r)) <$> returned tid ds in
  '(s2, ds') ← on_rt (RPoll tid op) s1;
  Some (s2, ds ++ ds').

(** A [shutdown] that finds its worker unstarted awaits nothing more. *)
Definition finish_unstarted (a : arc) (tid : positive) : step := fun s =>
  n ← workers s !! a;
  if decide (Worker.calls (node_world n) !! tid = Some Worker.Unstarted) then
    on_worker a (Worker.WFinishUnstarted tid) s
  else nothing s.

(** The export of a server's shutdown took a clone of the entry, which is the call's until it ends. *)
Definition take_job (tid : positive) (j : job) : step :=
  match j with JStop a => on_server a (Ephemeral.ECall tid) | _ => nothing end.

(** The operation of a cancelled task drops, and with it the call it was in. *)
Definition drop_job (tid : positive) (j : job) : step := fun s =>
  match j with
  | JShutdown a =>
      n ← workers s !! a;
      if decide (Worker.calls (node_world n) !! tid = None) then nothing s
      else on_worker a (Worker.WCancel tid) s
  | JStop a =>
      w ← servers s !! a;
      if decide (Ephemeral.calls w !! tid = None) then nothing s
      else on_server a (Ephemeral.ECancel tid) s
  | _ => nothing s
  end.

(** A request that is refused drops its operation. *)
Definition drop_refused (tid : positive) (j : job) : step := fun s =>
  if decide (tasks (rt s) !! tid = None) then drop_job tid j s else nothing s.

(** The runtime's actions that involve no other component. *)
Definition plain (ra : raction) : bool :=
  match ra with
  | RReserve _ _ | RRegister _ _ | RPoll _ _ | RPushed _ | RWaited => false
  | _ => true
  end.

(** The tracker's other reservations: the servers'. *)
Definition all_reaped (s : System) : Prop := map_Forall (fun _ w => Ephemeral.tokens w = 0) (servers s).

(** The component that a request's operation is about; the export had it from the handle table. *)
Definition job_made (s : System) (j : job) : Prop :=
  match j with
  | JShutdown a => is_Some (workers s !! a)
  | JStop a => is_Some (servers s !! a)
  | _ => True
  end.
#[export] Instance job_made_dec s j : Decision (job_made s j).
Proof. destruct j; unfold job_made; apply _. Defined.

Definition sstep (s : System) (a : saction) : option (System * list deed) :=
  match a with
  | SReserve tid req_id j =>
      if decide (unused tid s /\ job_made s j) then
        andthen (take_job tid j) (on_rt (RReserve tid req_id)) (set_jobs (<[tid := j]> (jobs s)) s)
      else None
  | SRegister tid token =>
      j ← jobs s !! tid;
      andthen (on_rt (RRegister tid token)) (drop_refused tid j) s
  | SRuntime ra => if plain ra then on_rt ra s else None
  | SPoll tid op =>
      if decide (jobs s !! tid = Some JStart \/ jobs s !! tid = Some JOther) then on_rt (RPoll tid op) s
      else None
  | SShutdown tid wa =>
      '(req_id, tok) ← running s tid;
      match jobs s !! tid with
      | Some (JShutdown worker) =>
          if negb (is_cancelled tok (rt s)) && by_call s tid wa then
            polling tid req_id (andthen (on_worker worker wa) (finish_unstarted worker tid)) s
          else None
      | _ => None
      end
  | SStop tid ea =>
      '(req_id, tok) ← running s tid;
      match jobs s !! tid with
      | Some (JStop server) =>
          if negb (is_cancelled tok (rt s)) && server_call tid ea then
            polling tid req_id (on_server server ea) s
          else None
      | _ => None
      end
  | SStart tid server op =>
      '(_, tok) ← running s tid;
      if decide (jobs s !! tid = Some JStart /\ is_cancelled tok (rt s) = false /\
                 servers s !! server = None) then
        on_rt (RPoll tid (Some op)) (set_servers (<[server := Ephemeral.started]> (servers s)) s)
      else None
  | SCancelled tid =>
      '(_, tok) ← running s tid;
      j ← jobs s !! tid;
      if is_cancelled tok (rt s) then andthen (drop_job tid j) (on_rt (RPoll tid None)) s else None
  | SWorkerNew a h =>
      if decide (workers s !! a = None) then
        Some (set_workers (<[a := {| node_handle := h; node_world := Worker.worker_new;
                                     outbox := ∅ |}]> (workers s)) s, [])
      else None
  | SWorker a wa =>
      n ← workers s !! a;
      if by_itself n wa then on_worker a wa s else None
  | SPost a id => post a id s
  | SServer a ea =>
      w ← servers s !! a;
      if server_itself s w ea then on_server a ea s else None
  | SWaited => if decide (all_reaped s) then on_rt RWaited s else None
  end.

(** What the callers promise: of the runtime's own actions what [Runtime] asks, and a worker's handle
    is a machine word. *)
Definition saction_ok (s : System) (a : saction) : Prop :=
  match a with
  | SReserve tid req_id _ => raction_ok (rt s) (RReserve tid req_id)
  | SRuntime ra => raction_ok (rt s) ra
  | SPoll tid op => raction_ok (rt s) (RPoll tid op)
  | SStart tid _ op => raction_ok (rt s) (RPoll tid (Some op))
  | SWorkerNew _ h => fits 64 h
  | _ => True
  end.

Definition system_step (s : System) (l : saction * list deed) (s' : System) : Prop :=
  saction_ok s l.1 /\ sstep s l.1 = Some (s', l.2).

(** No worker, no server, no task, and a new runtime. *)
Definition system_initial (s : System) : Prop :=
  runtime_initial (rt s) /\ workers s = ∅ /\ servers s = ∅ /\ jobs s = ∅.

(** ** Projections *)

Definition sdeeds (ls : list (saction * list deed)) : list deed := ls ≫= snd.
Definition runtime_trace (ds : list deed) : list (raction * list revent) :=
  omap (fun d => match d with OfRuntime l => Some l | _ => None end) ds.
Definition worker_trace (a : arc) (ds : list deed) : list (Worker.action * list Worker.event) :=
  omap (fun d => match d with OfWorker x l => if decide (x = a) then Some l else None | _ => None end) ds.
Definition server_trace (a : arc) (ds : list deed) : list (Ephemeral.action * list Ephemeral.event) :=
  omap (fun d => match d with OfServer x l => if decide (x = a) then Some l else None | _ => None end) ds.

(** What a worker and a server did and said. *)
Definition worker_events (a : arc) (ds : list deed) : list Worker.event := Worker.wevents (worker_trace a ds).
Definition server_events (a : arc) (ds : list deed) : list Ephemeral.event := Ephemeral.sevents (server_trace a ds).

(** The completions the runtime's queue has accepted so far, in order. *)
Definition delivered (ds : list deed) : list Pending :=
  accepted (events (queue_trace (revents (runtime_trace ds)))).

(** ** Invariant *)

(** The runtime still takes completions. *)
Definition taking (r : RuntimeEntry unit) : bool :=
  match freeing r with Open | Draining _ => true | _ => false end.

(** The call of [j] has returned [r] to [tid]. *)
Definition told (ds : list deed) (tid : positive) (j : job) (r : result string unit) : Prop :=
  match j with
  | JShutdown a => Worker.EvReturned tid r ∈ worker_events a ds
  | JStop a => Ephemeral.EvReturned tid r ∈ server_events a ds
  | _ => False
  end.
(** What a task may answer: a shutdown answers what its call returned, or that it was cancelled. *)
Definition truthful (ds : list deed) (tid : positive) (j : job) (req_id : Z) (p : Pending) : Prop :=
  match j with
  | JShutdown _ | JStop _ =>
      p = cancelled_result req_id \/ exists r, told ds tid j r /\ p = Ffi.failed_completion req_id r
  | _ => True
  end.

Record node_inv (r : RuntimeEntry unit) (ds : list deed) (a : arc) (n : Node) : Prop := {
  ni_run : run Worker.worker_step Worker.worker_new (worker_trace a ds) (node_world n);
  ni_handle : fits 64 (node_handle n);
  ni_from p : Worker.EvPushed p ∈ worker_events a ds -> p_aux0 p = node_handle n /\ p_req_id p = PUSHED;
  ni_outbox id ps : outbox n !! id = Some ps -> ps <> [] -> is_Some (Worker.pumps (node_world n) !! id);
  ni_pushed id ps p : outbox n !! id = Some ps -> p ∈ ps -> Worker.EvPushed p ∈ worker_events a ds;
  ni_posted p : taking r = true -> Worker.EvPushed p ∈ worker_events a ds ->
    p ∈ delivered ds \/ exists id ps, outbox n !! id = Some ps /\ p ∈ ps;
}.

Record system_inv (r0 : RuntimeEntry unit) (ds : list deed) (s : System) : Prop := {
  sy_rt : run runtime_step r0 (runtime_trace ds) (rt s);
  sy_worker a n : workers s !! a = Some n -> node_inv (rt s) ds a n;
  sy_no_worker a : workers s !! a = None -> worker_trace a ds = [];
  sy_server a w : servers s !! a = Some w -> run Ephemeral.server_step Ephemeral.started (server_trace a ds) w;
  sy_no_server a : servers s !! a = None -> server_trace a ds = [];
  sy_job tid task : tasks (rt s) !! tid = Some task -> is_Some (jobs s !! tid);
  sy_answer tid task tok p j : tasks (rt s) !! tid = Some task -> t_state task = Answering tok p ->
    jobs s !! tid = Some j -> truthful ds tid j (t_req task) p;
  sy_freed a w : freeing (rt s) = Freed -> servers s !! a = Some w -> Ephemeral.child w <> Ephemeral.Alive;
}.

(** ** Lemmas: the parts of a history *)

Lemma runtime_trace_app k l : runtime_trace (k ++ l) = runtime_trace k ++ runtime_trace l.
Proof. apply omap_app. Qed.
Lemma worker_trace_app a k l : worker_trace a (k ++ l) = worker_trace a k ++ worker_trace a l.
Proof. apply omap_app. Qed.
Lemma server_trace_app a k l : server_trace a (k ++ l) = server_trace a k ++ server_trace a l.
Proof. apply omap_app. Qed.
Lemma worker_events_app a k l : worker_events a (k ++ l) = worker_events a k ++ worker_events a l.
Proof. unfold worker_events. rewrite worker_trace_app. apply bind_app. Qed.
Lemma server_events_app a k l : server_events a (k ++ l) = server_events a k ++ server_events a l.
Proof. unfold server_events. rewrite server_trace_app. apply bind_app. Qed.
Lemma delivered_app k l : delivered (k ++ l) = delivered k ++ delivered l.
Proof.
  unfold delivered. by rewrite runtime_trace_app, revents_app, queue_trace_app, events_app, accepted_app.
Qed.
Lemma sdeeds_app k l : sdeeds (k ++ l) = sdeeds k ++ sdeeds l.
Proof. apply bind_app. Qed.
Lemma sdeeds_one l : sdeeds [l] = l.2.
Proof. apply app_nil_r. Qed.

(** One component's deed shows in no other's history. *)
Lemma worker_trace_one a b l :
  worker_trace a [OfWorker b l] = if decide (b = a) then [l] else [].
Proof. unfold worker_trace. simpl. by case_decide. Qed.
Lemma server_trace_one a b l :
  server_trace a [OfServer b l] = if decide (b = a) then [l] else [].
Proof. unfold server_trace. simpl. by case_decide. Qed.

Lemma told_app k l tid j r : told k tid j r -> told (k ++ l) tid j r.
Proof. destruct j; simpl; rewrite ?worker_events_app, ?server_events_app, ?elem_of_app; auto. Qed.
Lemma truthful_app k l tid j r p : truthful k tid j r p -> truthful (k ++ l) tid j r p.
Proof.
  destruct j; simpl; try done; intros [H|(x & Hx & Hp)]; [by left| |by left|]; right; exists x;
    (split; [by apply (told_app k l tid (JShutdown _)) || by apply (told_app k l tid (JStop _))|done]).
Qed.

(** ** Lemmas: what a step was *)

Lemma on_rt_some ra s s' ds :
  on_rt ra s = Some (s', ds) ->
  exists r evs, rstep (rt s) ra = Some (r, evs) /\ s' = set_rt r s /\ ds = [OfRuntime (ra, evs)].
Proof. unfold on_rt. destruct (rstep _ _) as [[r evs]|]; [|done]. intros [= <- <-]. by exists r, evs. Qed.

Lemma on_server_some a ea s s' ds :
  on_server a ea s = Some (s', ds) ->
  exists w w' evs, servers s !! a = Some w /\ Ephemeral.estep w ea = Some (w', evs) /\
    s' = set_servers (<[a := w']> (servers s)) s /\ ds = [OfServer a (ea, evs)].
Proof.
  unfold on_server. destruct (servers s !! a) as [w|]; [|done]. cbn [mbind option_bind].
  destruct (Ephemeral.estep w ea) as [[w' evs]|] eqn:E; [|done]. intros [= <- <-]. by exists w, w', evs.
Qed.

Lemma on_worker_some a wa s s' ds :
  on_worker a wa s = Some (s', ds) ->
  exists n w' evs, workers s !! a = Some n /\ unposted n wa = [] /\
    Worker.wstep (node_world n) wa = Some (w', evs) /\
    s' = set_workers (<[a := {| node_handle := node_handle n; node_world := w';
                                outbox := posting n wa evs |}]> (workers s)) s /\
    ds = [OfWorker a (wa, evs)].
Proof.
  unfold on_worker. destruct (workers s !! a) as [n|]; [|done]. cbn [mbind option_bind]. case_decide; [|done].
  destruct (Worker.wstep (node_world n) wa) as [[w' evs]|] eqn:E; [|done]. intros [= <- <-]. by exists n, w', evs.
Qed.

Lemma post_some a id s s' ds :
  post a id s = Some (s', ds) ->
  exists n p rest s1, workers s !! a = Some n /\ outbox n !! id = Some (p :: rest) /\
    on_rt (RPushed p) s = Some (s1, ds) /\
    s' = set_workers (<[a := {| node_handle := node_handle n; node_world := node_world n;
                                outbox := <[id := rest]> (outbox n) |}]> (workers s1)) s1.
Proof.
  unfold post. destruct (workers s !! a) as [n|]; [|done]. cbn [mbind option_bind].
  destruct (outbox n !! id) as [[|p rest]|] eqn:Ho; try done. destruct (on_rt _ _) as [[s1 ds1]|] eqn:E; [|done].
  intros [= <- <-]. by exists n, p, rest, s1.
Qed.

Lemma andthen_some f g s s' ds :
  andthen f g s = Some (s', ds) ->
  exists s1 ds1 ds2, f s = Some (s1, ds1) /\ g s1 = Some (s', ds2) /\ ds = ds1 ++ ds2.
Proof.
  unfold andthen. destruct (f s) as [[s1 ds1]|] eqn:E1; [|done]. cbn [mbind option_bind].
  destruct (g s1) as [[s2 ds2]|] eqn:E; [|done]. intros [= <- <-]. by exists s1, ds1, ds2.
Qed.

Lemma polling_some tid req_id f s s' ds :
  polling tid req_id f s = Some (s', ds) ->
  exists s1 ds1 ds2, f s = Some (s1, ds1) /\
    on_rt (RPoll tid ((fun r => Done (Ffi.failed_completion req_id r)) <$> returned tid ds1)) s1 = Some (s', ds2) /\
    ds = ds1 ++ ds2.
Proof.
  unfold polling. destruct (f s) as [[s1 ds1]|] eqn:E1; [|done]. cbn [mbind option_bind].
  destruct (on_rt _ s1) as [[s2 ds2]|] eqn:E; [|done]. intros [= <- <-]. by exists s1, ds1, ds2.
Qed.

(** ** Lemmas: steps of the runtime *)

(** A task moves on to no answer, stays, or is polled and has its answer. *)
Definition task_moved (r : RuntimeEntry unit) (ra : raction) (tid : positive) (task task' : Task) : Prop :=
  t_req task' = t_req task /\
  (task' = task \/ (forall tok p, t_state task' <> Answering tok p) \/
   exists op tok p, ra = RPoll tid op /\ t_state task = Running tok /\ t_state task' = Answering tok p /\
     select_poll (is_cancelled tok r) (t_req task) op = Some p).

Lemma rstep_task (r r' : RuntimeEntry unit) ra evs tid task' :
  rstep r ra = Some (r', evs) -> tasks r' !! tid = Some task' ->
  (exists req, ra = RReserve tid req /\ t_state task' = Reserved) \/
  exists task, tasks r !! tid = Some task /\ task_moved r ra tid task task'.
Proof.
  intros Hc%rstep_tasks Ht.
  assert (Hkept : tasks r !! tid = Some task' ->
    exists task, tasks r !! tid = Some task /\ task_moved r ra tid task task').
  { intros Hx. exists task'. split; [done|]. split; [done|]. by left. }
  inversion Hc as [a Ha He|i req Hi Ha He|i tk x Hi Hx Ha He|i x tk Hi Hx Ha He|i op x tk p Hi Hx Hp Ha He|a i x Hi Hx Ha He];
    rewrite <- He in Ht; clear He; subst.
  - right. by apply Hkept.
  - rewrite lookup_insert in Ht. case_decide; [|right; by apply Hkept]. subst i. injection Ht as <-. left. by eexists.
  - right. rewrite lookup_insert in Ht. case_decide; [|by apply Hkept]. subst i. injection Ht as <-.
    exists x. split; [done|]. split; [done|]. right; left. done.
  - right. rewrite lookup_insert in Ht. case_decide; [|by apply Hkept]. subst i. injection Ht as <-.
    exists x. split; [done|]. split; [done|]. right; left. done.
  - right. rewrite lookup_insert in Ht. case_decide; [|by apply Hkept]. subst i. injection Ht as <-.
    exists x. split; [done|]. split; [done|]. right; right. by exists op, tk, p.
  - right. apply Hkept. by apply lookup_delete_Some in Ht as [_ ?].
Qed.

(** Once the runtime has closed it takes nothing more, and only the wait ends it. *)
Lemma rstep_freeing (r r' : RuntimeEntry unit) ra evs :
  rstep r ra = Some (r', evs) ->
  (taking r' = true -> taking r = true) /\
  (freeing r' = Freed -> freeing r = Freed \/ ra = RWaited) /\
  (freeing r = Freed -> freeing r' = Freed).
Proof.
  intros Hs.
  assert (Hsame : freeing r' = freeing r -> (taking r' = true -> taking r = true) /\
    (freeing r' = Freed -> freeing r = Freed \/ ra = RWaited) /\ (freeing r = Freed -> freeing r' = Freed)).
  { unfold taking. intros ->. auto. }
  assert (Hqueue : forall r1 a, on_queue r1 a = Some (r', evs) -> freeing r' = freeing r1).
  { intros r1 a (w & es & _ & -> & _)%on_queue_some. done. }
  destruct ra; cbn [rstep] in Hs.
  - unfold reserve_task in Hs. case_decide; simplify_eq. by apply Hsame.
  - unfold admit_task, register in Hs. destruct (tasks r !! tid); [|done]. cbn [mbind option_bind] in Hs.
    repeat case_match; simplify_eq; by apply Hsame.
  - unfold spawn_task in Hs. destruct (tasks r !! tid) as [task|]; [|done]. cbn [mbind option_bind] in Hs.
    destruct (t_state task); simplify_eq. by apply Hsame.
  - unfold poll_task in Hs. destruct (tasks r !! tid) as [task|]; [|done]. cbn [mbind option_bind] in Hs.
    destruct (t_state task); try done. destruct (select_poll _ _ _); simplify_eq; by apply Hsame.
  - unfold answer_task in Hs. destruct (tasks r !! tid) as [task|]; [|done]. cbn [mbind option_bind] in Hs.
    destruct (t_state task); try done. destruct (locked r); [done|]. apply Hsame.
    destruct (retire r (t_req task)).2; [by apply Hqueue in Hs|]. destruct (pending_drop _ _); by simplify_eq.
  - destruct (locked r); [done|]. simplify_eq. apply Hsame. unfold cancel. by destruct (pending r !! req_id).
  - unfold drain_begin, taking in *. destruct (freeing r); try done. case_decide; simplify_eq. done.
  - unfold drain_one, taking in *. destruct (freeing r) as [|[|[] ]| |]; try done. apply Hqueue in Hs.
    rewrite Hs. done.
  - unfold drain_end, taking in *. destruct (freeing r) as [|[|]| |]; try done. apply Hqueue in Hs.
    rewrite Hs. done.
  - unfold waited, taking in *. case_decide; [|done]. destruct (freeing r); simplify_eq. split_and!; [done|by right|done].
  - apply Hsame. by apply Hqueue in Hs.
  - apply Hsame. by apply Hqueue in Hs.
Qed.

(** A runtime that is taking accepts what is pushed. *)
Lemma push_taken (r r' : RuntimeEntry unit) p evs :
  rt_inv r -> raction_ok r (RPushed p) -> rstep r (RPushed p) = Some (r', evs) -> taking r' = true ->
  p ∈ accepted (events (queue_trace evs)).
Proof.
  intros Hr [Hp _] Hs Ht. cbn [rstep] in Hs.
  destruct (on_queue_push r p (ri_queue r Hr) Hp) as (w & Hw & _). rewrite Hw in Hs. simplify_eq.
  pose proof (ri_stage r Hr) as Hst. unfold taking in Ht. cbn [freeing set_q] in Ht.
  assert (closed (shared (q r)) = false) as -> by (destruct (freeing r); naive_solver).
  rewrite events_one. by left.
Qed.

Lemma push_possible (r : RuntimeEntry unit) p :
  rt_inv r -> raction_ok r (RPushed p) -> exists r' evs, rstep r (RPushed p) = Some (r', evs).
Proof.
  intros Hr [Hp _]. destruct (on_queue_push r p (ri_queue r Hr) Hp) as (w & Hw & _). eauto.
Qed.

(** ** Lemmas: every step keeps the invariant *)

Lemma no_token_no_child (w : Ephemeral.World) :
  Ephemeral.server_inv w -> Ephemeral.tokens w = 0 -> Ephemeral.child w <> Ephemeral.Alive.
Proof.
  intros Hw Ht Ha. pose proof (Ephemeral.si_tokens w Hw) as Hk.
  apply (Ephemeral.si_child w Hw) in Ha as [Hs|Hs]; rewrite Hs, Ht in Hk; repeat case_match; lia.
Qed.

Section invariant.
Context (r0 : RuntimeEntry unit) (H0 : runtime_initial r0).

Lemma sy_rt_inv ds s : system_inv r0 ds s -> rt_inv (rt s).
Proof. intros Hv. eapply run_runtime_inv; [by apply runtime_initial_inv|]. apply (sy_rt _ _ _ Hv). Qed.

(** What a step of the runtime needs of the rest. *)
Definition rt_needs (ds : list deed) (s : System) (ra : raction) : Prop :=
  match ra with
  | RReserve tid _ => is_Some (jobs s !! tid)
  | RPoll tid op => forall task tok p j,
      tasks (rt s) !! tid = Some task -> t_state task = Running tok -> jobs s !! tid = Some j ->
      select_poll (is_cancelled tok (rt s)) (t_req task) op = Some p -> truthful ds tid j (t_req task) p
  | RWaited => all_reaped s
  | _ => True
  end.

Lemma on_rt_inv ds s ra s' ds' :
  system_inv r0 ds s -> on_rt ra s = Some (s', ds') -> raction_ok (rt s) ra -> rt_needs ds s ra ->
  system_inv r0 (ds ++ ds') s'.
Proof.
  intros Hv Hs Hok Hn. apply on_rt_some in Hs as (r & evs & Hr & -> & ->).
  destruct (rstep_freeing _ _ _ _ Hr) as (Ht & Hf & _). destruct Hv as [V1 V2 V3 V4 V5 V6 V7 V8].
  assert (Hw : forall a, worker_trace a (ds ++ [OfRuntime (ra, evs)]) = worker_trace a ds)
    by (intros a; rewrite worker_trace_app; apply app_nil_r).
  assert (Hsv : forall a, server_trace a (ds ++ [OfRuntime (ra, evs)]) = server_trace a ds)
    by (intros a; rewrite server_trace_app; apply app_nil_r).
  split; cbn [rt workers servers jobs set_rt].
  - rewrite runtime_trace_app. by apply (run_snoc _ _ _ (rt s)).
  - intros a n Hn'. destruct (V2 a n Hn') as [N1 N2 N3 N4 N5 N6]. split; unfold worker_events in *; rewrite ?Hw; try done.
    intros p Htk Hp. rewrite delivered_app, elem_of_app. destruct (N6 p (Ht Htk) Hp); auto.
  - intros a Ha. rewrite Hw. by apply V3.
  - intros a w Ha. rewrite Hsv. by apply V4.
  - intros a Ha. rewrite Hsv. by apply V5.
  - intros tid task' Hx. destruct (rstep_task _ _ _ _ _ _ Hr Hx) as [(req & -> & _)|(task & Hx' & _)]; [done|].
    by apply (V6 tid task).
  - intros tid task' tok p j Hx Hst Hj. apply truthful_app.
    destruct (rstep_task _ _ _ _ _ _ Hr Hx) as [(req & -> & Hst')|(task & Hx' & Hreq & [->|[Hno|Hp]])].
    + congruence.
    + by apply (V7 tid task tok).
    + by destruct (Hno tok p).
    + rewrite Hreq. destruct Hp as (op & tok' & p' & -> & Hst1 & Hst2 & Hsel). rewrite Hst in Hst2. injection Hst2 as -> ->.
      by apply (Hn task tok' p').
  - intros a w Hfr Ha. destruct (Hf Hfr) as [Hfr0| ->]; [by apply (V8 a w)|].
    apply no_token_no_child; [by eapply Ephemeral.run_server_inv, V4|by apply (Hn a w)].
Qed.

(** ** A server's step *)
Lemma server_stays_gone (w w' : Ephemeral.World) l :
  Ephemeral.server_inv w -> Ephemeral.server_step w l w' -> Ephemeral.child w <> Ephemeral.Alive ->
  Ephemeral.child w' <> Ephemeral.Alive.
Proof.
  intros Hw Hs Ha. destruct (Ephemeral.server_step_child w l w' Hw Hs) as [(_ & -> & _)|(r & _ & Hx & _)]; done.
Qed.

Lemma on_server_inv ds s a ea s' ds' :
  system_inv r0 ds s -> on_server a ea s = Some (s', ds') -> system_inv r0 (ds ++ ds') s'.
Proof.
  intros Hv Hs. apply on_server_some in Hs as (w & w' & evs & Ha & He & -> & ->). destruct Hv as [V1 V2 V3 V4 V5 V6 V7 V8].
  assert (Hw : forall b, worker_trace b (ds ++ [OfServer a (ea, evs)]) = worker_trace b ds)
    by (intros b; rewrite worker_trace_app; apply app_nil_r).
  assert (Hr : runtime_trace (ds ++ [OfServer a (ea, evs)]) = runtime_trace ds)
    by (rewrite runtime_trace_app; apply app_nil_r).
  split; cbn [rt workers servers jobs set_servers].
  - by rewrite Hr.
  - intros b n Hb. destruct (V2 b n Hb). split; unfold worker_events, delivered in *; rewrite ?Hw, ?Hr; done.
  - intros b Hb. rewrite Hw. by apply V3.
  - intros b x. rewrite server_trace_app, server_trace_one, lookup_insert. repeat case_decide; try done.
    + subst b. intros [= <-]. apply (run_snoc _ _ _ w); [by apply V4|done].
    + rewrite app_nil_r. apply V4.
  - intros b. rewrite server_trace_app, server_trace_one, lookup_insert. repeat case_decide; try done.
    rewrite app_nil_r. apply V5.
  - done.
  - intros tid task tok p j Hx Hst Hj. apply truthful_app. by apply (V7 tid task tok).
  - intros b x Hfr. rewrite lookup_insert. case_decide; [|by apply V8]. subst b. intros [= <-].
    apply (server_stays_gone w w' (ea, evs)); [|done|by apply (V8 a w)].
    eapply Ephemeral.run_server_inv. by apply V4.
Qed.

(** *** A worker's step *)

(** A pump is there until it leaves. *)
Lemma pumps_stay (w w' : Worker.World) wa evs id :
  Worker.worker_inv w -> Worker.wstep w wa = Some (w', evs) -> is_Some (Worker.pumps w !! id) ->
  wa <> Worker.WLeave id -> is_Some (Worker.pumps w' !! id).
Proof.
  intros Hw Hs Hp Hn. destruct (Streams.pump_action wa) eqn:Ha.
  - destruct wa; try done; cbn [Worker.wstep] in Hs.
    + unfold Worker.start in Hs. destruct (Worker.state w) as [[]| |] eqn:Hst; simplify_eq; try done.
      rewrite (Worker.wi_unstarted w Hw Hst) in Hp. by destruct Hp.
    + unfold Worker.free in Hs. simplify_eq. cbn. rewrite lookup_fmap. by apply fmap_is_Some.
    + unfold Worker.pump_step in Hs. destruct (Worker.pumps w !! id0) as [p|]; [|done].
      cbn [mbind option_bind] in Hs. destruct (Worker.pump_phase_of p); [|done].
      destruct (Worker.pump_poll _ _ _ _) as [es next]. simplify_eq. cbn. rewrite lookup_insert. by case_decide.
    + unfold Worker.pump_drop in Hs. destruct (Worker.pumps w !! id0) as [p|]; [|done].
      cbn [mbind option_bind] in Hs. destruct (Worker.pump_phase_of p), (Worker.aborted p); simplify_eq.
      cbn. rewrite lookup_insert. by case_decide.
    + unfold Worker.pump_leave in Hs. destruct (Worker.pumps w !! id0) as [p|]; [|done].
      cbn [mbind option_bind] in Hs. destruct (Worker.pump_phase_of p); simplify_eq.
      cbn. rewrite lookup_delete_ne; [done|]. congruence.
  - by destruct (Streams.other_step w wa w' evs Ha Hs) as (-> & _).
Qed.

Lemma elem_of_pushed evs p : p ∈ pushed evs <-> Worker.EvPushed p ∈ evs.
Proof.
  unfold pushed. rewrite list_elem_of_omap. split.
  - intros (e & He & Hp). destruct e; by simplify_eq.
  - intros He. by exists (Worker.EvPushed p).
Qed.

(** The handle a worker pushes under is its own. *)
Definition under_handle (n : Node) (wa : Worker.action) : Prop :=
  match wa with Worker.WPoll _ h _ => h = node_handle n | _ => True end.

Lemma node_step r ds a n wa w' evs :
  node_inv r ds a n -> under_handle n wa -> unposted n wa = [] ->
  Worker.wstep (node_world n) wa = Some (w', evs) ->
  node_inv r (ds ++ [OfWorker a (wa, evs)]) a
    {| node_handle := node_handle n; node_world := w'; outbox := posting n wa evs |}.
Proof.
  intros [N1 N2 N3 N4 N5 N6] Hh Hu Hs.
  assert (Worker.worker_inv (node_world n)) as Hw.
  { eapply Worker.run_worker_inv; [apply Worker.worker_new_inv|done]. }
  assert (Hev : worker_events a (ds ++ [OfWorker a (wa, evs)]) = worker_events a ds ++ evs).
  { rewrite worker_events_app. unfold worker_events at 2. rewrite worker_trace_one, decide_True by done.
    f_equal. apply app_nil_r. }
  assert (Hd : delivered (ds ++ [OfWorker a (wa, evs)]) = delivered ds)
    by (rewrite delivered_app; apply app_nil_r).
  assert (Hnew : forall p, Worker.EvPushed p ∈ evs -> p_aux0 p = node_handle n /\ p_req_id p = PUSHED /\
    exists id, pump_of wa = Some id /\ is_Some (Worker.pumps (node_world n) !! id) /\ wa <> Worker.WLeave id).
  { intros p Hp. destruct (Streams.push_origin _ _ _ _ _ Hs Hp) as (id & h & x & pm & rep & -> & Hpm & _ & H1 & H2 & _).
    cbn in Hh. subst h. split; [done|]. split; [done|]. exists id. split; [done|]. by split; [eexists|]. }
  split; cbn [node_handle node_world outbox]; rewrite ?Hev, ?Hd.
  - rewrite worker_trace_app, worker_trace_one, decide_True by done. by apply (run_snoc _ _ _ (node_world n)).
  - done.
  - intros p [Hp|Hp]%elem_of_app; [by apply N3|]. by destruct (Hnew p Hp) as (? & ? & _).
  - intros id ps Hb Hne.
    assert (Hold : outbox n !! id = Some ps -> wa <> Worker.WLeave id -> is_Some (Worker.pumps w' !! id)).
    { intros Hb' Hl. eapply pumps_stay; [done..| |done]. by apply (N4 id ps). }
    unfold posting in Hb. destruct (pump_of wa) as [id0|] eqn:Hpo; [|apply Hold; [done|by intros ->]].
    rewrite lookup_insert in Hb. case_decide as Hi; [|apply Hold; [done|by intros ->; naive_solver]].
    subst id0. injection Hb as <-.
    destruct (pushed evs) as [|p rest] eqn:Hpe; [done|].
    destruct (Hnew p) as (_ & _ & id' & Hpo' & Hpm & Hl); [by apply elem_of_pushed; rewrite Hpe; left|].
    simplify_eq. by eapply pumps_stay.
  - intros id ps p Hb Hp. apply elem_of_app.
    unfold posting in Hb. destruct (pump_of wa) as [id0|]; [|left; by eapply N5].
    rewrite lookup_insert in Hb. case_decide; [|left; by eapply N5].
    injection Hb as <-. right. by apply elem_of_pushed.
  - intros p Ht [Hp|Hp]%elem_of_app.
    + destruct (N6 p Ht Hp) as [|(id & ps & Hb & Hin)]; [by left|right]. exists id, ps. split; [|done].
      unfold posting, unposted in *. destruct (pump_of wa) as [id0|]; [|done].
      rewrite lookup_insert_ne; [done|]. intros ->. rewrite Hb in Hu. cbn in Hu. subst ps. by apply elem_of_nil in Hin.
    + right. destruct (Hnew p Hp) as (_ & _ & id & Hpo & _). exists id, (pushed evs). unfold posting.
      rewrite Hpo, lookup_insert_eq. split; [done|]. by apply elem_of_pushed.
Qed.

Lemma on_worker_inv ds s a wa s' ds' :
  system_inv r0 ds s -> on_worker a wa s = Some (s', ds') ->
  (forall n, workers s !! a = Some n -> under_handle n wa) -> system_inv r0 (ds ++ ds') s'.
Proof.
  intros Hv Hs Hh. apply on_worker_some in Hs as (n & w' & evs & Ha & Hu & He & -> & ->). destruct Hv as [V1 V2 V3 V4 V5 V6 V7 V8].
  assert (Hsv : forall b, server_trace b (ds ++ [OfWorker a (wa, evs)]) = server_trace b ds)
    by (intros b; rewrite server_trace_app; apply app_nil_r).
  assert (Hr : runtime_trace (ds ++ [OfWorker a (wa, evs)]) = runtime_trace ds)
    by (rewrite runtime_trace_app; apply app_nil_r).
  split; cbn [rt workers servers jobs set_workers].
  - by rewrite Hr.
  - intros b m. rewrite lookup_insert. case_decide as Hb.
    + subst b. intros [= <-]. by apply node_step; [apply V2|apply Hh|..].
    + intros Hm. destruct (V2 b m Hm). split; unfold worker_events, delivered in *; rewrite ?Hr;
        rewrite ?worker_trace_app, ?worker_trace_one, ?decide_False, ?app_nil_r by done; done.
  - intros b. rewrite worker_trace_app, worker_trace_one, lookup_insert. repeat case_decide; try done.
    rewrite app_nil_r. apply V3.
  - intros b x Hb. rewrite Hsv. by apply V4.
  - intros b Hb. rewrite Hsv. by apply V5.
  - done.
  - intros tid task tok p j Hx Hst Hj. apply truthful_app. by apply (V7 tid task tok).
  - done.
Qed.

(** What a pump still has to push it may push. *)
Lemma outbox_ok ds s a n id ps p :
  system_inv r0 ds s -> workers s !! a = Some n -> outbox n !! id = Some ps -> p ∈ ps ->
  raction_ok (rt s) (RPushed p).
Proof.
  intros Hv Ha Hb Hp. destruct (sy_worker _ _ _ Hv a n Ha) as [N1 N2 N3 N4 N5 N6].
  destruct (N3 p (N5 id ps p Hb Hp)) as [H1 H2]. split; [|done]. unfold pending_ok. by rewrite H1.
Qed.

Lemma post_inv ds s a id s' ds' :
  system_inv r0 ds s -> post a id s = Some (s', ds') -> system_inv r0 (ds ++ ds') s'.
Proof.
  intros Hv Hs. apply post_some in Hs as (n & p & rest & s1 & Ha & Hb & Hrt & ->).
  assert (raction_ok (rt s) (RPushed p)) as Hok by (eapply outbox_ok; [done..|by left]).
  pose proof (on_rt_inv ds s (RPushed p) s1 ds' Hv Hrt Hok I) as Hv1.
  assert (workers s1 = workers s /\ (taking (rt s1) = true -> p ∈ delivered ds')) as [Hws Hp].
  { apply on_rt_some in Hrt as (r & evs & Hr & -> & ->). split; [done|]. intros Ht.
    unfold delivered, runtime_trace. cbn. rewrite app_nil_r.
    by apply (push_taken (rt s) r p evs (sy_rt_inv _ _ Hv) Hok Hr). }
  rewrite <- Hws in Ha. clear Hrt Hv Hws Hok.
  destruct Hv1 as [V1 V2 V3 V4 V5 V6 V7 V8]. split; cbn [rt workers servers jobs set_workers]; try done.
  - intros b m. rewrite lookup_insert. case_decide as Hab; [|by apply V2]. subst b. intros [= <-].
    destruct (V2 a n Ha) as [N1 N2 N3 N4 N5 N6]. split; cbn [node_handle node_world outbox]; try done.
    + intros i ps. rewrite lookup_insert. case_decide as Hi; [|by apply N4]. subst i. intros _ _.
      by apply (N4 id (p :: rest)).
    + intros i ps q. rewrite lookup_insert. case_decide as Hi; [|by apply N5]. subst i. intros [= <-] Hq.
      apply (N5 id (p :: rest)); [done|by right].
    + intros q Ht Hq. destruct (N6 q Ht Hq) as [|(i & ps & Hi & Hin)]; [by left|].
      destruct (decide (i = id)) as [->|Hne].
      * simplify_eq. apply elem_of_cons in Hin as [->|Hin].
        -- left. rewrite delivered_app. apply elem_of_app. right. by apply Hp.
        -- right. exists id, rest. by rewrite lookup_insert_eq.
      * right. exists i, ps. by rewrite lookup_insert_ne.
  - intros b. rewrite lookup_insert. case_decide; [done|apply V3].
Qed.

(** A new worker, a new server, a new task. *)
Lemma new_worker_inv ds s a h :
  system_inv r0 ds s -> workers s !! a = None -> fits 64 h ->
  system_inv r0 ds (set_workers (<[a := {| node_handle := h; node_world := Worker.worker_new;
                                          outbox := ∅ |}]> (workers s)) s).
Proof.
  intros [V1 V2 V3 V4 V5 V6 V7 V8] Ha Hh. split; cbn [rt workers servers jobs set_workers]; try done.
  - intros b m. rewrite lookup_insert. case_decide as Hb; [|apply V2]. subst b. intros [= <-].
    pose proof (V3 a Ha) as Ht. assert (worker_events a ds = []) as He by (unfold worker_events; by rewrite Ht).
    split; cbn [node_handle node_world outbox]; rewrite ?He, ?Ht; try done; [constructor|..].
    all: intros *; rewrite ?elem_of_nil; done.
  - intros b. rewrite lookup_insert. case_decide; [done|apply V3].
Qed.

Lemma new_server_inv ds s a :
  system_inv r0 ds s -> servers s !! a = None -> freeing (rt s) <> Freed ->
  system_inv r0 ds (set_servers (<[a := Ephemeral.started]> (servers s)) s).
Proof.
  intros [V1 V2 V3 V4 V5 V6 V7 V8] Ha Hf. split; cbn [rt workers servers jobs set_servers]; try done.
  - intros b m. rewrite lookup_insert. case_decide as Hb; [|apply V4]. subst b. intros [= <-].
    rewrite (V5 a Ha). constructor.
  - intros b. rewrite lookup_insert. case_decide; [done|apply V5].
Qed.

Lemma new_job_inv ds s tid j :
  system_inv r0 ds s -> jobs s !! tid = None -> system_inv r0 ds (set_jobs (<[tid := j]> (jobs s)) s).
Proof.
  intros [V1 V2 V3 V4 V5 V6 V7 V8] Hj. split; cbn [rt workers servers jobs set_jobs]; try done.
  - intros i task Hi. rewrite lookup_insert. case_decide; [done|by apply (V6 i task)].
  - intros i task tok p x Hi Hst. rewrite lookup_insert. case_decide as Hx; [|by apply (V7 i task tok)].
    subst i. destruct (V6 tid task Hi). congruence.
Qed.

(** *** Steps in a task's poll *)

(** A step of components that leaves the runtime and the jobs alone. *)
Definition beside (s s' : System) : Prop := rt s' = rt s /\ jobs s' = jobs s.

Lemma on_worker_beside a wa s s' ds :
  on_worker a wa s = Some (s', ds) -> beside s s' /\ exists evs, ds = [OfWorker a (wa, evs)].
Proof.
  intros (n & w' & evs & _ & _ & _ & -> & ->)%on_worker_some. split; [done|by eexists].
Qed.
Lemma on_server_beside a ea s s' ds :
  on_server a ea s = Some (s', ds) -> beside s s' /\ exists evs, ds = [OfServer a (ea, evs)].
Proof.
  intros (w & w' & evs & _ & _ & -> & ->)%on_server_some. split; [done|by eexists].
Qed.

Lemma worker_returned a ds tid r :
  Forall (fun d => exists l, d = OfWorker a l) ds -> returned tid ds = Some r ->
  Worker.EvReturned tid r ∈ worker_events a ds.
Proof.
  intros Hf Hr. apply head_Some_elem_of in Hr. apply list_elem_of_bind in Hr as (d & Hr & Hd).
  rewrite Forall_forall in Hf. destruct (Hf d Hd) as [[wa evs] ->].
  apply list_elem_of_omap in Hr as (e & He & Hr). destruct e; try done. cbn in Hr. case_decide; [|done].
  simplify_eq. unfold worker_events. apply list_elem_of_bind. exists (wa, evs). split; [done|].
  apply list_elem_of_omap. exists (OfWorker a (wa, evs)). split; [done|]. by rewrite decide_True.
Qed.

Lemma server_returned a ea evs tid r :
  returned tid [OfServer a (ea, evs)] = Some r -> Ephemeral.EvReturned tid r ∈ server_events a [OfServer a (ea, evs)].
Proof.
  intros Hr. apply head_Some_elem_of in Hr. cbn in Hr. rewrite app_nil_r in Hr.
  apply list_elem_of_omap in Hr as (e & He & Hr). destruct e; try done. cbn in Hr. case_decide; [|done].
  simplify_eq. unfold server_events. rewrite server_trace_one, decide_True by done. cbn. by rewrite app_nil_r.
Qed.

(** What the operation of a task may do in one poll. *)
Definition polls_for (ds : list deed) (s : System) (tid : positive) (j : job) (f : step) : Prop :=
  forall s1 ds1, f s = Some (s1, ds1) ->
    system_inv r0 (ds ++ ds1) s1 /\ beside s s1 /\ forall r, returned tid ds1 = Some r -> told ds1 tid j r.

Lemma running_some s tid req tok :
  running s tid = Some (req, tok) ->
  exists task, tasks (rt s) !! tid = Some task /\ t_req task = req /\ t_state task = Running tok.
Proof.
  unfold running. destruct (tasks (rt s) !! tid) as [task|]; [|done]. cbn [mbind option_bind].
  destruct (t_state task) eqn:Hst; intros Hs; simplify_eq. by exists task.
Qed.

Lemma polling_inv ds s tid req tok j f s' ds' :
  running s tid = Some (req, tok) -> is_cancelled tok (rt s) = false -> jobs s !! tid = Some j ->
  polls_for ds s tid j f -> polling tid req f s = Some (s', ds') -> system_inv r0 (ds ++ ds') s'.
Proof.
  intros (task & Ht & Hreq & Hst)%running_some Hc Hj Hf (s1 & ds1 & ds2 & E & E2 & ->)%polling_some.
  destruct (Hf s1 ds1 E) as (Hv & [Hrt Hjobs] & Htold).
  rewrite app_assoc. apply (on_rt_inv _ s1 _ _ _ Hv E2).
  - destruct (returned tid ds1) as [r|]; [|done]. cbn [fmap option_fmap option_map raction_ok].
    split; [by destruct r|]. intros task' Ht'. rewrite Hrt in Ht'. simplify_eq. by destruct r.
  - intros task' tok' p x Ht' Hst' Hx. rewrite Hrt in Ht' |- *. rewrite Hjobs in Hx. simplify_eq. rewrite Hst in Hst'.
    simplify_eq. rewrite Hc. destruct (returned tid ds1) as [r|] eqn:Hr; [|done].
    intros [= <-]. destruct j; try done; right; exists r.
    + split; [|done]. specialize (Htold r eq_refl). cbn in *. rewrite worker_events_app. apply elem_of_app. by right.
    + split; [|done]. specialize (Htold r eq_refl). cbn in *. rewrite server_events_app. apply elem_of_app. by right.
Qed.

Lemma shutdown_polls ds s tid a wa :
  system_inv r0 ds s -> by_call s tid wa = true ->
  polls_for ds s tid (JShutdown a) (andthen (on_worker a wa) (finish_unstarted a tid)).
Proof.
  intros Hv Hb s2 ds' (s1 & ds1 & ds2 & E1 & E2 & ->)%andthen_some.
  destruct (on_worker_beside _ _ _ _ _ E1) as [[Hb1 Hb2] [evs1 ->]].
  assert (Hv1 : system_inv r0 (ds ++ [OfWorker a (wa, evs1)]) s1).
  { apply (on_worker_inv ds s a wa s1 _ Hv E1). intros n _. by destruct wa. }
  assert (exists ds3, ds2 = ds3 /\ Forall (fun d => exists l, d = OfWorker a l) ds3 /\
    system_inv r0 ((ds ++ [OfWorker a (wa, evs1)]) ++ ds3) s2 /\ beside s1 s2) as (ds3 & <- & Hf & Hv2 & [Hb3 Hb4]).
  { unfold finish_unstarted in E2. destruct (workers s1 !! a) as [n|]; [|done]. cbn [mbind option_bind] in E2.
    case_decide.
    - pose proof (on_worker_beside _ _ _ _ _ E2) as [Hb' [evs ->]]. eexists. split; [done|].
      split; [repeat constructor; by eexists|]. split; [|done]. by apply (on_worker_inv _ s1 a _ s2 _ Hv1 E2).
    - injection E2 as <- <-. exists []. split; [done|]. split; [constructor|]. by rewrite app_nil_r. }
  rewrite app_assoc. split; [done|]. split; [split; congruence|]. intros r Hr.
  apply (worker_returned a _ tid r); [|done]. constructor; [by eexists|done].
Qed.

Lemma stop_polls ds s tid a ea :
  system_inv r0 ds s -> polls_for ds s tid (JStop a) (on_server a ea).
Proof.
  intros Hv s1 ds1 E. destruct (on_server_beside _ _ _ _ _ E) as [Hb [evs ->]].
  split; [by apply (on_server_inv ds s a ea)|]. split; [done|]. intros r Hr. by apply server_returned.
Qed.

Lemma nothing_inv ds s s1 ds1 :
  system_inv r0 ds s -> nothing s = Some (s1, ds1) -> system_inv r0 (ds ++ ds1) s1 /\ beside s s1.
Proof. intros Hv [= <- <-]. by rewrite app_nil_r. Qed.

Lemma take_job_inv ds s tid j s1 ds1 :
  system_inv r0 ds s -> take_job tid j s = Some (s1, ds1) -> system_inv r0 (ds ++ ds1) s1 /\ beside s s1.
Proof.
  intros Hv Hs. destruct j as [a|a| |]; cbn [take_job] in Hs; try by apply nothing_inv.
  destruct (on_server_beside _ _ _ _ _ Hs) as [Hb _]. split; [|done]. by apply (on_server_inv ds s a _ s1 _ Hv Hs).
Qed.

Lemma drop_job_inv ds s tid j s1 ds1 :
  system_inv r0 ds s -> drop_job tid j s = Some (s1, ds1) -> system_inv r0 (ds ++ ds1) s1 /\ beside s s1.
Proof.
  intros Hv Hs. destruct j as [a|a| |]; cbn [drop_job] in Hs; [| |by apply nothing_inv..].
  - destruct (workers s !! a) as [n|]; [|done]. cbn [mbind option_bind] in Hs. case_decide; [by apply nothing_inv|].
    destruct (on_worker_beside _ _ _ _ _ Hs) as [Hb _]. split; [|done]. by apply (on_worker_inv ds s a _ s1 _ Hv Hs).
  - destruct (servers s !! a) as [n|]; [|done]. cbn [mbind option_bind] in Hs. case_decide; [by apply nothing_inv|].
    destruct (on_server_beside _ _ _ _ _ Hs) as [Hb _]. split; [|done]. by apply (on_server_inv ds s a _ s1 _ Hv Hs).
Qed.

Lemma drop_refused_inv ds s tid j s1 ds1 :
  system_inv r0 ds s -> drop_refused tid j s = Some (s1, ds1) -> system_inv r0 (ds ++ ds1) s1 /\ beside s s1.
Proof. unfold drop_refused. case_decide; [apply drop_job_inv|apply nothing_inv]. Qed.

(** A task that may still start something belongs to a runtime that is not over. *)
Lemma running_not_freed ds s tid req tok :
  system_inv r0 ds s -> running s tid = Some (req, tok) -> is_cancelled tok (rt s) = false ->
  freeing (rt s) <> Freed.
Proof.
  intros Hv (task & Ht & _ & Hst)%running_some Hc Hf.
  destruct (ri_token _ (sy_rt_inv ds s Hv) tid task tok Ht) as [_ Hx]; [unfold task_token; by rewrite Hst|].
  rewrite Hf in Hx. congruence.
Qed.

Lemma system_step_inv ds s l s' :
  system_inv r0 ds s -> system_step s l s' -> system_inv r0 (ds ++ l.2) s'.
Proof.
  destruct l as [a ds']. intros Hv [Hok Hs]. cbn [fst snd] in *.
  destruct a as [tid req_id j|tid token|ra|tid op|tid wa|tid ea|tid sv op|tid|w h|w wa|w id|sv ea|];
    cbn [sstep saction_ok] in *.
  - case_decide as Hu; [|done]. destruct Hu as [[Hu _] _].
    apply andthen_some in Hs as (s1 & ds1 & ds2 & Hd & Hp & ->). rewrite app_assoc.
    destruct (take_job_inv ds _ tid j s1 ds1 (new_job_inv ds s tid j Hv Hu) Hd) as [Hv1 [Hb1 Hb2]].
    apply (on_rt_inv _ s1 _ _ _ Hv1 Hp); [by rewrite Hb1|]. cbn. rewrite Hb2. cbn. by rewrite lookup_insert_eq.
  - destruct (jobs s !! tid) as [j|]; [|done]. cbn [mbind option_bind] in Hs.
    apply andthen_some in Hs as (s1 & ds1 & ds2 & Hd & Hp & ->). rewrite app_assoc.
    apply (drop_refused_inv _ s1 tid j s' ds2); [|done]. by apply (on_rt_inv ds s _ s1 ds1 Hv Hd).
  - destruct (plain ra) eqn:Hp; [|done]. apply (on_rt_inv ds s ra _ _ Hv Hs Hok). by destruct ra.
  - case_decide as Hj; [|done]. apply (on_rt_inv ds s _ _ _ Hv Hs Hok).
    intros task tok p x _ _ Hx _. destruct Hj as [Hj|Hj]; rewrite Hj in Hx; by injection Hx as <-.
  - destruct (running s tid) as [[req tok]|] eqn:Hr; [|done]. cbn [mbind option_bind] in Hs.
    destruct (jobs s !! tid) as [[w| | |]|] eqn:Hj; try done.
    destruct (is_cancelled tok (rt s)) eqn:Hc; [done|]. destruct (by_call s tid wa) eqn:Hb; [|done].
    by apply (polling_inv ds s tid req tok _ _ s' ds' Hr Hc Hj (shutdown_polls ds s tid w wa Hv Hb)).
  - destruct (running s tid) as [[req tok]|] eqn:Hr; [|done]. cbn [mbind option_bind] in Hs.
    destruct (jobs s !! tid) as [[|w| |]|] eqn:Hj; try done.
    destruct (is_cancelled tok (rt s)) eqn:Hc; [done|]. destruct (server_call tid ea); [|done].
    by apply (polling_inv ds s tid req tok _ _ s' ds' Hr Hc Hj (stop_polls ds s tid w ea Hv)).
  - destruct (running s tid) as [[req tok]|] eqn:Hr; [|done]. cbn [mbind option_bind] in Hs.
    case_decide as Hc; [|done]. destruct Hc as (Hj & Hc & Hn).
    apply (on_rt_inv ds _ _ _ _ (new_server_inv ds s sv Hv Hn (running_not_freed ds s tid req tok Hv Hr Hc)) Hs Hok).
    intros task tok' p x _ _ Hx _. cbn in Hx. rewrite Hj in Hx. by injection Hx as <-.
  - destruct (running s tid) as [[req tok]|] eqn:Hr; [|done]. cbn [mbind option_bind] in Hs.
    destruct (jobs s !! tid) as [j|] eqn:Hj; [|done]. cbn [mbind option_bind] in Hs.
    destruct (is_cancelled tok (rt s)) eqn:Hc; [|done]. apply andthen_some in Hs as (s1 & ds1 & ds2 & Hd & Hp & ->). rewrite app_assoc.
    destruct (drop_job_inv ds s tid j s1 ds1 Hv Hd) as [Hv1 [Hb1 Hb2]].
    apply (on_rt_inv _ s1 _ _ _ Hv1 Hp); [done|]. intros task tok' p x Ht Hst Hx. rewrite Hb1 in *.
    apply running_some in Hr as (task' & Ht' & _ & Hst'). simplify_eq. rewrite Hst in Hst'. simplify_eq.
    rewrite Hc. intros [= <-]. destruct x; try done; by left.
  - case_decide as Hn; [|done]. injection Hs as <- <-. rewrite app_nil_r. by apply new_worker_inv.
  - destruct (workers s !! w) as [n|] eqn:Hn; [|done]. cbn [mbind option_bind] in Hs.
    destruct (by_itself n wa) eqn:Hb; [|done]. apply (on_worker_inv ds s w wa s' ds' Hv Hs).
    intros n' Hn'. simplify_eq. destruct wa; try done. by apply bool_decide_eq_true in Hb.
  - by apply (post_inv ds s w id).
  - destruct (servers s !! sv) as [w|]; [|done]. cbn [mbind option_bind] in Hs.
    destruct (server_itself s w ea); [|done]. by apply (on_server_inv ds s sv ea).
  - case_decide as Hr; [|done]. by apply (on_rt_inv ds s _ _ _ Hv Hs).
Qed.
End invariant.

Lemma initial_system_inv s : system_initial s -> system_inv (rt s) [] s.
Proof.
  intros ((_ & _ & _ & Ht & Hf) & Hw & Hs & _). split; rewrite ?Hw, ?Hs, ?Ht, ?Hf; try done. constructor.
Qed.

Lemma run_system_inv s0 ls s :
  system_initial s0 -> run system_step s0 ls s -> system_inv (rt s0) (sdeeds ls) s.
Proof.
  intros H0. revert ls s. apply (run_invariant system_step (fun ls s => system_inv (rt s0) (sdeeds ls) s)).
  - by apply initial_system_inv.
  - intros ls s l s' _ Hv Hs. rewrite sdeeds_app, sdeeds_one. eapply system_step_inv; [|done|done]. by destruct H0.
Qed.

(** ** Lemmas: what an answer says *)

Lemma answer_taken (r r' : RuntimeEntry unit) tid evs p :
  rt_inv r -> rstep r (RAnswer tid) = Some (r', evs) -> p ∈ accepted (events (queue_trace evs)) ->
  taking r = true /\ exists task tok, tasks r !! tid = Some task /\ t_state task = Answering tok p.
Proof.
  intros Hr Hs Hp. cbn [rstep] in Hs. unfold answer_task in Hs.
  destruct (tasks r !! tid) as [task|] eqn:Ht; [|done]. cbn [mbind option_bind] in Hs.
  destruct (t_state task) as [| | |tok result] eqn:Hst; try done. destruct (locked r) eqn:Hl; [done|].
  destruct (ri_result r Hr tid task tok result Ht Hst) as [Hok _].
  set (r1 := set_tasks _ _) in Hs. assert (q r1 = q r) as Hq by done.
  destruct (retire r (t_req task)).2.
  - assert (rt_inv r1) as Hr1 by (by eapply retire_inv).
    destruct (on_queue_push r1 result (ri_queue _ Hr1) Hok) as (w & Hw & _). rewrite Hw, Hq in Hs. simplify_eq.
    rewrite events_one in Hp. pose proof (ri_stage r Hr) as Hst'. destruct (closed (shared (q r))) eqn:Hc.
    + cbn in Hp. by apply elem_of_nil in Hp.
    + cbn in Hp. apply list_elem_of_singleton in Hp as ->. split; [|by exists task, tok].
      unfold taking. destruct (freeing r); naive_solver.
  - destruct (pending_drop _ _); simplify_eq. cbn in Hp. by apply elem_of_nil in Hp.
Qed.

(** What a request that shuts something down answers, when its answer is accepted. *)
Lemma answer_truthful s0 ls s tid j ds s' p :
  system_initial s0 -> run system_step s0 ls s -> jobs s !! tid = Some j ->
  system_step s (SRuntime (RAnswer tid), ds) s' -> p ∈ delivered ds ->
  taking (rt s) = true /\ exists req, truthful (sdeeds ls) tid j req p.
Proof.
  intros H0 Hr Hj [_ Hs] Hp. pose proof (run_system_inv s0 ls s H0 Hr) as Hv.
  cbn [fst snd sstep plain] in Hs. apply on_rt_some in Hs as (r & evs & E & -> & ->).
  unfold delivered, runtime_trace in Hp. cbn in Hp. rewrite app_nil_r in Hp.
  destruct (answer_taken (rt s) r tid evs p) as (Ht & task & tok & Htid & Hst);
    [by eapply sy_rt_inv; [destruct H0|]|done|done|].
  split; [done|]. exists (t_req task). by apply (sy_answer _ _ _ Hv tid task tok).
Qed.

(** An [Ok] is the call's own. *)
Lemma truthful_ok ds tid j req p :
  truthful ds tid j req p -> p_status p = KT_OK -> match j with JShutdown _ | JStop _ => told ds tid j (Ok tt) | _ => True end.
Proof.
  destruct j; cbn; try done; (intros [->|([[]|e] & Ht & ->)]; [done|done|done]).
Qed.

Lemma runtime_functional (r : RuntimeEntry unit) l r1 r2 : runtime_step r l r1 -> runtime_step r l r2 -> r1 = r2.
Proof. intros [_ H1] [_ H2]. congruence. Qed.

Lemma freed_stays (r : RuntimeEntry unit) ls r' : run runtime_step r ls r' -> freeing r = Freed -> freeing r' = Freed.
Proof.
  intros Hr Hf. induction Hr as [|r ls r1 [ra evs] r2 _ IH [_ Hs]]; [done|].
  destruct (rstep_freeing _ _ _ _ Hs) as (_ & _ & H). auto.
Qed.

(** The runtime's part of a continuation is a run from where it stood. *)
Lemma runtime_part s0 ls s ls' s' :
  system_initial s0 -> run system_step s0 ls s -> run system_step s ls' s' ->
  run runtime_step (rt s) (runtime_trace (sdeeds ls')) (rt s').
Proof.
  intros H0 Hr Hr'. pose proof (run_system_inv s0 ls s H0 Hr) as Hv.
  pose proof (sy_rt _ _ _ (run_system_inv s0 _ s' H0 (run_app _ _ _ _ _ _ Hr Hr'))) as Hrun.
  rewrite sdeeds_app, runtime_trace_app in Hrun. apply run_split in Hrun as (r & R1 & R2).
  by rewrite (run_functional _ _ _ _ _ runtime_functional R1 (sy_rt _ _ _ Hv)) in R2.
Qed.

Lemma worker_functional w l w1 w2 : Worker.worker_step w l w1 -> Worker.worker_step w l w2 -> w1 = w2.
Proof. unfold Worker.worker_step. congruence. Qed.

(** ** A sample run: a server is started, a worker started and shut down by request, the server freed
    and the runtime ended *)

Arguments SReserve tid%_positive_scope req_id j.
Arguments SRegister tid%_positive_scope token%_positive_scope.
Arguments SStart tid%_positive_scope server%_positive_scope op.
Arguments SShutdown tid%_positive_scope wa.
Arguments SWorkerNew a%_positive_scope h.
Arguments SWorker a%_positive_scope wa.
Arguments SPost a%_positive_scope id.
Arguments SServer a%_positive_scope ea.
Arguments JShutdown worker%_positive_scope.

Definition sample_system : System :=
  {| rt := {| q := {| shared := queue_new; pollers := ∅; threads := ∅; handles := tt |};
              pending := ∅; rt_closed := false; tokens := ∅; tasks := ∅; freeing := Open |};
     workers := ∅; servers := ∅; jobs := ∅ |}.

Definition sample_pump (id : positive) : list saction :=
  [SWorker 1 (Worker.WPoll id 77 Worker.PolledShutDown); SPost 1 id; SWorker 1 (Worker.WLeave id)].
Definition sample_story : list saction :=
  [SReserve 1 5 JStart; SRegister 1 1; SRuntime (RSpawn 1); SStart 1 1 (Done (pending_ack 5));
   SRuntime (RAnswer 1); SWorkerNew 1 77; SWorker 1 Worker.WStart;
   SReserve 2 6 (JShutdown 1); SRegister 2 2; SRuntime (RSpawn 2);
   SShutdown 2 (Worker.WShutdown 2); SShutdown 2 (Worker.WLock 2)]
  ++ sample_pump 1 ++ sample_pump 2 ++ sample_pump 3 ++
  [SShutdown 2 (Worker.WAwait 2 9 false); SShutdown 2 (Worker.WTryFinalize 2 false);
   SShutdown 2 (Worker.WClosed 2); SRuntime (RAnswer 2);
   SServer 1 (Ephemeral.EFree 7); SServer 1 (Ephemeral.ELock 7); SServer 1 (Ephemeral.EReap 7 (Ok tt));
   SServer 1 Ephemeral.EDropEntry; SRuntime (RDrain []); SRuntime RDrainEnd; SWaited].
Definition sample_at (n : nat) : System :=
  default sample_system (fst <$> exec sstep sample_system (take n sample_story)).
Definition sample_ls (n : nat) : list (saction * list deed) :=
  default [] (snd <$> exec sstep sample_system (take n sample_story)).

Lemma sample_system_initial : system_initial sample_system.
Proof. repeat split; done. Qed.

Lemma sample_system_run n : run system_step sample_system (sample_ls n) (sample_at n).
Proof.
  unfold sample_ls, sample_at.
  pose proof (exec_run sstep saction_ok sample_system (take n sample_story)) as He.
  assert (exec_ok sstep saction_ok sample_system (take n sample_story)) as Hok.
  { apply exec_ok_take. vm_compute; intuition (congruence || naive_solver). }
  destruct (exec _ _ _) as [[w ls]|]; simpl; [by apply He|constructor].
Qed.

(** ** Properties *)

(** C4 The answer to a worker's shutdown is the last the JVM hears of the worker.  When the queue
    accepts an [Ok] for a request that shut a worker down, and nobody force-closed the worker: the
    worker is over; every completion its pumps ever pushed has already been accepted, before the
    answer, among them, if Core was finalized, the end of each of its three streams; and none follows
    in any continuation. *)
Theorem shutdown_answer_is_last s0 ls s tid a ds s' p :
  system_initial s0 -> run system_step s0 ls s -> jobs s !! tid = Some (JShutdown a) ->
  system_step s (SRuntime (RAnswer tid), ds) s' -> p ∈ delivered ds -> p_status p = KT_OK ->
  Worker.WFree ∉ (worker_trace a (sdeeds ls)).*1 ->
  Worker.ended (worker_trace a (sdeeds ls)) /\
  (forall x, Worker.EvPushed x ∈ worker_events a (sdeeds ls) -> x ∈ delivered (sdeeds ls)) /\
  (Worker.EvFinalize ∈ worker_events a (sdeeds ls) -> forall k, exists x,
     x ∈ delivered (sdeeds ls) /\ p_kind x = TaskStreamEnd /\ p_aux1 x = Worker.task_kind_code k /\
     exists n, workers s !! a = Some n /\ p_aux0 x = node_handle n) /\
  (forall ls' s'' x, run system_step s' ls' s'' -> Worker.EvPushed x ∉ worker_events a (sdeeds ls')).
Proof.
  intros H0 Hr Hj Hs Hp Hok Hfree. pose proof (run_system_inv s0 ls s H0 Hr) as Hv.
  destruct (answer_truthful s0 ls s tid _ ds s' p H0 Hr Hj Hs Hp) as (Htk & req & Ht).
  apply truthful_ok in Ht; [|done]. cbn [told] in Ht.
  destruct (workers s !! a) as [n|] eqn:Hn;
    [|unfold worker_events in Ht; rewrite (sy_no_worker _ _ _ Hv a Hn) in Ht; by apply elem_of_nil in Ht].
  destruct (sy_worker _ _ _ Hv a n Hn) as [N1 N2 N3 N4 N5 N6].
  destruct (Streams.ok_settles _ _ tid N1 Hfree Ht) as [Hset Hend]. split; [done|].
  assert (forall x, Worker.EvPushed x ∈ worker_events a (sdeeds ls) -> x ∈ delivered (sdeeds ls)) as Hdel.
  { intros x Hx. destruct (N6 x Htk Hx) as [|(id & ps & Hb & Hin)]; [done|exfalso].
    destruct (N4 id ps Hb) as [pm Hpm]; [intros ->; by apply elem_of_nil in Hin|]. destruct Hset as [He _].
    by rewrite He in Hpm. }
  split; [done|]. split.
  - intros Hf k. destruct (Streams.run_streams _ _ N1 Hfree) as [_ [_ _ Hone]]. specialize (Hone Hf k).
    destruct (Streams.ends_some k (worker_events a (sdeeds ls))) as (x & Hx & Hkind & Hcode); [unfold worker_events; lia|].
    exists x. split; [by apply Hdel|]. split; [done|]. split; [done|]. exists n. split; [done|]. by destruct (N3 x Hx).
  - intros ls' s'' x Hr'. assert (run system_step s0 ((ls ++ [(SRuntime (RAnswer tid), ds)]) ++ ls') s'') as Hall
      by (eapply run_app; [by econstructor|done]).
    pose proof (run_system_inv s0 _ _ H0 Hall) as Hv'. rewrite !sdeeds_app, sdeeds_one in Hv'. cbn [snd] in Hv'.
    assert (worker_trace a ds = []) as Hds.
    { destruct Hs as [_ Hs]. cbn [fst snd sstep plain] in Hs. by apply on_rt_some in Hs as (r & evs & _ & _ & ->). }
    intros Hx. destruct (workers s'' !! a) as [n'|] eqn:Hn'.
    + pose proof (ni_run _ _ _ _ (sy_worker _ _ _ Hv' a n' Hn')) as Hrun.
      rewrite !worker_trace_app, Hds, app_nil_r in Hrun. apply run_split in Hrun as (w1 & R1 & R2).
      rewrite (run_functional _ _ _ _ _ worker_functional R1 N1) in R2.
      destruct (Streams.settled_run _ _ _ R2 Hset) as [_ Hno]. by apply (Hno x).
    + pose proof (sy_no_worker _ _ _ Hv' a Hn') as Hno. rewrite !worker_trace_app in Hno.
      apply app_nil in Hno as [_ Hno]. unfold worker_events in Hx. rewrite Hno in Hx. by apply elem_of_nil in Hx.
Qed.

(** C5 Nothing outlives the runtime.  Once [free_runtime] has returned, and in every continuation: no
    server's child runs, whatever request was starting or stopping it at the time, the queue takes no
    completion from anyone, and the operations of requests that are still about are cancelled. *)
Theorem nothing_outlives_runtime s0 ls s ls' s' :
  system_initial s0 -> run system_step s0 ls s -> freeing (rt s) = Freed -> run system_step s ls' s' ->
  (forall a w, servers s' !! a = Some w -> Ephemeral.child w <> Ephemeral.Alive) /\
  delivered (sdeeds ls') = [] /\
  (forall tid req tok, running s' tid = Some (req, tok) -> is_cancelled tok (rt s') = true).
Proof.
  intros H0 Hr Hf Hr'. pose proof (run_system_inv s0 ls s H0 Hr) as Hv.
  pose proof (run_system_inv s0 _ s' H0 (run_app _ _ _ _ _ _ Hr Hr')) as Hv'.
  pose proof (sy_rt_inv (rt s0) (proj1 H0) _ _ Hv) as Hrt.
  pose proof (runtime_part s0 ls s ls' s' H0 Hr Hr') as R2.
  pose proof (freed_stays _ _ _ R2 Hf) as Hf'. split; [|split].
  - intros a w Ha. by apply (sy_freed _ _ _ Hv' a w).
  - pose proof (ri_stage _ Hrt) as Hst. rewrite Hf in Hst. destruct Hst as (_ & Hc & _).
    apply (closed_accepts_nothing _ _ _ Hrt R2 Hc).
  - intros tid req tok Hrg. destruct (is_cancelled tok (rt s')) eqn:Hc; [done|].
    by destruct (running_not_freed (rt s0) (proj1 H0) _ s' tid req tok Hv' Hrg Hc).
Qed.

(** ** Witnesses *)

Lemma shutdown_answer_is_last_witness :
  let ds := (default (SWaited, []) (sample_ls 25 !! 24%nat)).2 in
  Worker.ended (worker_trace 1%positive (sdeeds (sample_ls 24))) /\
  Worker.EvFinalize ∈ worker_events 1%positive (sdeeds (sample_ls 24)) /\
  (exists x, x ∈ delivered (sdeeds (sample_ls 24)) /\ p_kind x = TaskStreamEnd /\ p_aux1 x = 2) /\
  p_status (pending_ack 6) = KT_OK /\ pending_ack 6 ∈ delivered ds.
Proof.
  intros ds.
  assert (pending_ack 6 ∈ delivered ds) as Hp by (vm_compute; by left).
  assert (Worker.EvFinalize ∈ worker_events 1%positive (sdeeds (sample_ls 24))) as Hf.
  { apply (bool_decide_unpack (Worker.EvFinalize ∈ worker_events 1%positive (sdeeds (sample_ls 24)))).
    vm_compute. exact I. }
  destruct (shutdown_answer_is_last sample_system (sample_ls 24) (sample_at 24) 2%positive 1%positive ds (sample_at 25) (pending_ack 6)
    sample_system_initial (sample_system_run 24)) as (H1 & _ & H3 & _).
  - vm_compute. reflexivity.
  - split; [exact I|vm_compute; reflexivity].
  - exact Hp.
  - reflexivity.
  - intros Hin. vm_compute in Hin. set_solver.
  - split; [exact H1|]. split; [exact Hf|]. split; [|split; [reflexivity|exact Hp]].
    destruct (H3 Hf Worker.Nexus) as (x & Hx & Hk & Hc & _). exists x. split; [exact Hx|]. split; [exact Hk|exact Hc].
Defined.

Lemma nothing_outlives_runtime_witness :
  freeing (rt (sample_at 32)) = Freed /\
  forall a w, servers (sample_at 32) !! a = Some w -> Ephemeral.child w <> Ephemeral.Alive.
Proof.
  assert (freeing (rt (sample_at 32)) = Freed) as Hf by (vm_compute; reflexivity).
  split; [exact Hf|].
  apply (nothing_outlives_runtime sample_system (sample_ls 32) (sample_at 32) [] (sample_at 32)
    sample_system_initial (sample_system_run 32) Hf).
  constructor.
Defined.
