(* ===== verification/Teardown.v ===== *)
(** The end of a runtime, with all its workers and servers ([runtime.rs], [free_runtime]; [lib.rs],
    [kt_runtime_free], after the handles are gone).

    The calls that requests drive belong to their requests, in every reachable [System]: when a
    request is cancelled its call drops with it, so that no call is left behind to keep a server's
    child alive.  From there the end of the runtime can always be reached. *)

From S2P Require Import Prelude Abi KtError Panic Handle Queue Runtime.
From S2P Require Worker Streams Ephemeral Ffi.
From S2P Require Import System.

#[local] Existing Instances Worker.call_phase_eq_dec Worker.event_eq_dec.
#[local] Instance caller_eq_dec : EqDecision Ephemeral.caller.
Proof. solve_decision. Defined.

(** ** Whose call it is *)

(** A call that a request's task drives. *)
Definition foreground (ph : Worker.call_phase) : bool :=
  match ph with
  | Worker.Queued | Worker.Unstarted | Worker.Awaiting
  | Worker.Finalizing false | Worker.Closing false => true
  | _ => false
  end.

(** Tasks' calls are named after them, and are on the component their job is about.  A call is there
    only as long as its task runs; a stop's waits from when the request is made.  Between polls no call
    is done with an unstarted worker, but for [o]'s. *)
Record names_inv (o : option positive) (s : System) : Prop := {
  nm_made tid j : jobs s !! tid = Some j -> job_made s j;
  nm_worker a n tid ph : workers s !! a = Some n -> Worker.calls (node_world n) !! tid = Some ph ->
    (ph = Worker.Unstarted -> o = Some tid) /\
    if foreground ph then jobs s !! tid = Some (JShutdown a) /\ is_Some (running s tid) else jobs s !! tid = None;
  nm_server a w tid k ph : servers s !! a = Some w -> Ephemeral.calls w !! tid = Some (k, ph) ->
    if decide (k = Ephemeral.ByRequest) then
      jobs s !! tid = Some (JStop a) /\ unanswered tid (rt s) /\ (ph = Ephemeral.Reaping -> is_Some (running s tid))
    else jobs s !! tid = None;
}.

(** ** Lemmas: where a call comes from *)

Lemma worker_call_from w wa w' evs t ph' :
  Worker.wstep w wa = Some (w', evs) -> Worker.calls w' !! t = Some ph' ->
  (exists ph, Worker.calls w !! t = Some ph /\ foreground ph = foreground ph' /\
     (ph' = Worker.Unstarted -> ph = Worker.Unstarted \/ wa = Worker.WLock t /\ foreground ph = true)) \/
  (wa = Worker.WShutdown t /\ ph' = Worker.Queued) \/
  (exists t' e, wa = Worker.WAwait t' t e /\ ph' = Worker.BgAwaiting).
Proof.
  intros Hs Hc.
  set (from := exists ph, Worker.calls w !! t = Some ph /\ foreground ph = foreground ph' /\
    (ph' = Worker.Unstarted -> ph = Worker.Unstarted \/ wa = Worker.WLock t /\ foreground ph = true)).
  assert (Hkept : Worker.calls w !! t = Some ph' -> from) by (intros Hx; exists ph'; by auto).
  assert (Hsame : Worker.calls w' = Worker.calls w -> from) by (intros He; apply Hkept; by rewrite <- He).
  assert (Hdel : forall i, Worker.calls w' = delete i (Worker.calls w) -> from).
  { intros i He. rewrite He in Hc. apply lookup_delete_Some in Hc as [_ Hc]. by apply Hkept. }
  assert (Hset : forall i x y, Worker.calls w' = <[i := y]> (Worker.calls w) -> Worker.calls w !! i = Some x ->
    foreground x = foreground y -> (y = Worker.Unstarted -> wa = Worker.WLock i) -> from).
  { intros i x y He Hx Hf Hu. rewrite He, lookup_insert in Hc. case_decide; [|by apply Hkept].
    subst i. injection Hc as <-. exists x. split; [done|]. split; [done|]. intros ->. right. auto. }
  destruct (Worker.no_call wa) eqn:Hna; [left; apply Hsame; by eapply Worker.no_call_step|].
  destruct wa as [| |tid|tid|id h r|id|id|tid|tid|tid|tid bg e|tid e|tid|tid|tid]; try done; cbn [Worker.wstep] in Hs.
  - left. unfold Worker.free in Hs. simplify_eq; by apply Hsame.
  - case_decide; [|done]. simplify_eq. cbn in Hc. rewrite lookup_insert in Hc. case_decide; [|left; by apply Hkept].
    right; left. subst tid. injection Hc as <-. done.
  - left. unfold Worker.shutdown_locked in Hs. destruct (Worker.calls w !! tid) as [ph|] eqn:E; [|done].
    cbn [mbind option_bind] in Hs. case_decide; [|done]. cbn [Worker.state Worker.set_lock] in Hs.
    unfold Worker.core in Hs. cbn [Worker.state Worker.set_lock] in Hs.
    destruct ph; try done; destruct (Worker.state w) as [[]| |]; simplify_eq;
      first [by apply (Hdel tid)|by eapply (Hset tid)].
  - left. unfold Worker.finish_unstarted in Hs. case_decide; simplify_eq. by apply (Hdel tid).
  - unfold Worker.await_pumps in Hs. case_decide as Ha; [|done]. case_decide.
    + destruct e; [|simplify_eq; left; by apply Hsame]. case_decide; [|done]. simplify_eq.
      cbn in Hc. rewrite lookup_insert in Hc. case_decide; [|left; apply Hkept; by apply lookup_delete_Some in Hc as [_ ?]].
      injection Hc as <-. subst bg. right; right. by exists tid, true.
    + left. case_decide; simplify_eq; [by apply (Hdel tid)|by eapply (Hset tid)].
  - left. unfold Worker.try_finalize in Hs. destruct (Worker.calls w !! tid) as [[| | |bg|bg| |]|] eqn:E; try done.
    case_decide; [simplify_eq; by eapply (Hset tid)|]. destruct e; simplify_eq; [by apply (Hdel tid)|by apply Hsame].
  - left. unfold Worker.closed in Hs. destruct (Worker.calls w !! tid) as [[]|]; try done. simplify_eq. by apply (Hdel tid).
  - left. case_decide as Hb; [|done]. destruct Hb as [Hb _]. simplify_eq. by eapply (Hset tid).
  - left. unfold Worker.cancel_call in Hs. destruct (Worker.calls w !! tid) as [[| | |[]|[]| |]|]; try done;
      simplify_eq; by apply (Hdel tid).
Qed.

Lemma server_call_from w ea w' evs t k' ph' :
  Ephemeral.estep w ea = Some (w', evs) -> Ephemeral.calls w' !! t = Some (k', ph') ->
  (exists k ph, Ephemeral.calls w !! t = Some (k, ph) /\
     (k' = k \/ k = Ephemeral.ByRuntimeFree /\ k' = Ephemeral.ByTask) /\
     (ph' = Ephemeral.Reaping -> ph = Ephemeral.Reaping \/ ea = Ephemeral.ELock t)) \/
  (ea = Ephemeral.ECall t /\ k' = Ephemeral.ByRequest /\ ph' = Ephemeral.Waiting) \/
  (k' <> Ephemeral.ByRequest /\ (ea = Ephemeral.EFree t \/ ea = Ephemeral.ERuntimeFree t \/ ea = Ephemeral.EClose t)).
Proof.
  intros Hs Hc.
  set (from := exists k ph, Ephemeral.calls w !! t = Some (k, ph) /\
     (k' = k \/ k = Ephemeral.ByRuntimeFree /\ k' = Ephemeral.ByTask) /\
     (ph' = Ephemeral.Reaping -> ph = Ephemeral.Reaping \/ ea = Ephemeral.ELock t)).
  assert (Hkept : Ephemeral.calls w !! t = Some (k', ph') -> from) by (intros Hx; exists k', ph'; by auto).
  assert (Hnew : forall i x y, <[i := (x, y)]> (Ephemeral.calls w) !! t = Some (k', ph') ->
    from \/ (i = t /\ x = k' /\ y = ph')).
  { intros i x y. rewrite lookup_insert. case_decide; [|intros Hx; left; by apply Hkept]. intros [= -> ->]. by right. }
  assert (Hret : forall tid x ph r w1 es, Ephemeral.calls w1 = Ephemeral.calls w ->
    Ephemeral.calls w !! tid = Some (x, ph) -> Ephemeral.return_call tid x r w1 = (w', es) -> from).
  { intros tid x ph r w1 es Hw1 Hx He.
    destruct x; cbn [Ephemeral.return_call] in He; injection He as <- _; cbn in Hc; rewrite Hw1 in Hc.
    all: try (by apply lookup_delete_Some in Hc as [_ Hc]; apply Hkept).
    rewrite lookup_insert in Hc. case_decide; [|by apply Hkept]. subst tid. injection Hc as <- <-.
    exists Ephemeral.ByRuntimeFree, ph. split; [done|]. split; [by right|done]. }
  destruct ea; cbn [Ephemeral.estep] in Hs.
  - case_decide; [|done]. simplify_eq. destruct (Hnew _ _ _ Hc) as [|(-> & <- & <-)]; auto.
  - case_decide; [|done]. simplify_eq. destruct (Hnew _ _ _ Hc) as [|(-> & <- & <-)]; [by left|right; right; auto].
  - case_decide; [|done]. simplify_eq. destruct (Hnew _ _ _ Hc) as [|(-> & <- & <-)]; [by left|right; right; auto].
  - case_decide; [|done]. simplify_eq. destruct (Hnew _ _ _ Hc) as [|(-> & <- & <-)]; [by left|right; right; auto].
  - case_decide; [|done]. simplify_eq. left. by apply Hkept.
  - left. destruct (Ephemeral.calls w !! tid) as [[x ph]|] eqn:E; [|done]. cbn [mbind option_bind] in Hs.
    case_decide; [|done]. destruct (Ephemeral.server w); simplify_eq.
    + cbn in Hc. destruct (Hnew _ _ _ Hc) as [|(-> & <- & <-)]; [done|]. exists x, ph. auto.
    + by eapply (Hret tid x ph (Ok tt) w).
  - left. destruct (Ephemeral.calls w !! tid) as [[x ph]|] eqn:E; [|done]. cbn [mbind option_bind] in Hs.
    case_decide; [|done]. destruct (Ephemeral.return_call tid x r (Ephemeral.take_server r w)) as [w1 es] eqn:Er.
    simplify_eq. by eapply (Hret tid x _ r (Ephemeral.take_server r w)).
  - left. destruct (Ephemeral.calls w !! tid) as [[x ph]|] eqn:E; [|done]. cbn [mbind option_bind] in Hs.
    case_decide; [|done]. simplify_eq. cbn in Hc. apply lookup_delete_Some in Hc as [_ Hc]. by apply Hkept.
  - case_decide as Hd; [|done]. by simplify_eq.
  - destruct (Ephemeral.cleanup w); [|done]. simplify_eq. left. by apply Hkept.
Qed.

(** A call that has returned to a request is gone. *)
Lemma server_call_gone w ea w' evs t r ph :
  Ephemeral.estep w ea = Some (w', evs) -> Ephemeral.EvReturned t r ∈ evs ->
  Ephemeral.calls w' !! t <> Some (Ephemeral.ByRequest, ph).
Proof.
  intros Hs Hr.
  assert (Hret : forall tid x y w1 es, Ephemeral.return_call tid x y w1 = (w', es) -> Ephemeral.EvReturned t r ∈ es ->
    Ephemeral.calls w' !! t <> Some (Ephemeral.ByRequest, ph)).
  { intros tid x y w1 es He Hin. destruct x; cbn [Ephemeral.return_call] in He; injection He as <- <-;
      try (by apply elem_of_nil in Hin); apply list_elem_of_singleton in Hin as [= <- <-]; cbn;
      rewrite ?lookup_delete_eq, ?lookup_insert_eq; done. }
  destruct ea; cbn [Ephemeral.estep] in Hs; try (case_decide; [|done]; simplify_eq; by apply elem_of_nil in Hr).
  - destruct (Ephemeral.calls w !! tid) as [[x y]|]; [|done]. cbn [mbind option_bind] in Hs.
    case_decide; [|done]. destruct (Ephemeral.server w); simplify_eq; [by apply elem_of_nil in Hr|by eapply Hret].
  - destruct (Ephemeral.calls w !! tid) as [[x y]|]; [|done]. cbn [mbind option_bind] in Hs. case_decide; [|done].
    destruct (Ephemeral.return_call _ _ _ _) as [w1 es] eqn:E. simplify_eq.
    apply elem_of_cons in Hr as [?|Hr]; [done|by eapply Hret].
  - destruct (Ephemeral.calls w !! tid) as [[x y]|]; [|done]. cbn [mbind option_bind] in Hs. case_decide; [|done].
    simplify_eq. by apply elem_of_nil in Hr.
  - destruct (Ephemeral.cleanup w); [|done]. simplify_eq. by apply list_elem_of_singleton in Hr.
Qed.

Lemma worker_call_gone w wa w' evs t r :
  Worker.wstep w wa = Some (w', evs) -> Worker.EvReturned t r ∈ evs -> Worker.calls w' !! t = None.
Proof.
  intros Hs Hr.
  assert (Hone : forall x y es, evs = [Worker.EvReturned x y] ++ es -> Worker.EvReturned t r ∉ es ->
    Worker.calls w' = delete x (Worker.calls w) -> Worker.calls w' !! t = None).
  { intros x y es -> Hno Hc. apply elem_of_app in Hr as [Hr|Hr]; [|done].
    apply list_elem_of_singleton in Hr as [= <- _]. rewrite Hc. apply lookup_delete_eq. }
  destruct (Worker.no_call wa) eqn:Hna; [by destruct (Worker.no_call_step _ _ _ _ Hs Hna) as (_ & _ & Hno); destruct (Hno t r)|].
  destruct wa as [| |tid|tid|id h x|id|id|tid|tid|tid|tid bg e|tid e|tid|tid|tid]; try done; cbn [Worker.wstep] in Hs.
  - unfold Worker.free in Hs. destruct (Worker.state w); simplify_eq; set_solver.
  - case_decide; simplify_eq. set_solver.
  - unfold Worker.shutdown_locked in Hs. destruct (Worker.calls w !! tid) as [ph|]; [|done].
    cbn [mbind option_bind] in Hs. case_decide; [|done].
    repeat case_match; simplify_eq; try set_solver. by eapply (Hone tid _ []); [done|apply not_elem_of_nil|].
  - unfold Worker.finish_unstarted in Hs. case_decide; simplify_eq. by eapply (Hone tid _ []); [done|apply not_elem_of_nil|].
  - unfold Worker.await_pumps in Hs. case_decide as Ha; [|done]. repeat case_decide; repeat case_match; simplify_eq; try set_solver.
    + apply list_elem_of_singleton in Hr as [= -> _]. cbn. rewrite lookup_insert_ne by congruence. apply lookup_delete_eq.
    + by eapply (Hone tid _ []); [done|apply not_elem_of_nil|].
  - unfold Worker.try_finalize in Hs. destruct (Worker.calls w !! tid) as [[| | |b|b| |]|]; try done.
    repeat case_match; simplify_eq; try set_solver. destruct b; cbn in Hr; [by apply elem_of_nil in Hr|].
    by eapply (Hone tid _ []); [done|apply not_elem_of_nil|].
  - unfold Worker.closed in Hs. destruct (Worker.calls w !! tid) as [[| | |b|b| |]|]; try done. simplify_eq.
    apply elem_of_cons in Hr as [?|Hr]; [done|]. destruct b; cbn in Hr; [by apply elem_of_nil in Hr|].
    apply list_elem_of_singleton in Hr as [= -> _]. apply lookup_delete_eq.
  - case_decide; simplify_eq. set_solver.
  - unfold Worker.cancel_call in Hs. repeat case_match; simplify_eq; set_solver.
Qed.

(** ** Lemmas: every step keeps the names *)

Lemma running_rt s s' tid : rt s' = rt s -> running s' tid = running s tid.
Proof. unfold running. by intros ->. Qed.

Lemma job_made_mono s s' j :
  (forall a, is_Some (workers s !! a) -> is_Some (workers s' !! a)) ->
  (forall a, is_Some (servers s !! a) -> is_Some (servers s' !! a)) -> job_made s j -> job_made s' j.
Proof. destruct j; cbn; auto. Qed.

(** No request's call is named [tid]. *)
Definition no_call (s : System) (tid : positive) : Prop :=
  (forall a n ph, workers s !! a = Some n -> Worker.calls (node_world n) !! tid = Some ph -> foreground ph = false) /\
  (forall a w ph, servers s !! a = Some w -> Ephemeral.calls w !! tid <> Some (Ephemeral.ByRequest, ph)).

Lemma no_call_job o s tid j :
  names_inv o s -> jobs s !! tid = Some j ->
  (forall a n, j = JShutdown a -> workers s !! a = Some n -> Worker.calls (node_world n) !! tid = None) ->
  (forall a w ph, j = JStop a -> servers s !! a = Some w -> Ephemeral.calls w !! tid <> Some (Ephemeral.ByRequest, ph)) ->
  no_call s tid.
Proof.
  intros Hn Hj Hw Hsv. split.
  - intros a n ph Ha Hc. destruct (foreground ph) eqn:Hf; [|done]. destruct (nm_worker o s Hn a n tid ph Ha Hc) as [_ Hx].
    rewrite Hf in Hx. destruct Hx as [Hx _]. rewrite (Hw a n) in Hc; [done|congruence|done].
  - intros a w ph Ha Hc. pose proof (nm_server o s Hn a w tid _ ph Ha Hc) as Hx. rewrite decide_True in Hx by done.
    destruct Hx as [Hx _]. apply (Hsv a w ph); [congruence|done..].
Qed.

Lemma running_unanswered s tid : is_Some (running s tid) -> unanswered tid (rt s).
Proof.
  intros [[req tok] (task & Ht & _ & Hst)%running_some]. exists task. split; [done|]. intros tok' p. by rewrite Hst.
Qed.

Lemma on_rt_names o s ra s' ds :
  names_inv o s -> on_rt ra s = Some (s', ds) ->
  (forall tid op, ra = RPoll tid op -> no_call s tid \/ is_Some (running s' tid)) ->
  (forall tid token, ra = RRegister tid token -> tasks (rt s') !! tid = None -> no_call s tid) -> names_inv o s'.
Proof.
  intros [N1 N2 N3] Hs Hp Hg. apply on_rt_some in Hs as (r & evs & Hr & -> & ->).
  assert (Hstay : forall tid, ~ no_call s tid -> is_Some (running s tid) -> is_Some (running (set_rt r s) tid)).
  { intros tid Hno [[req tok] (task & Ht & _ & Hst)%running_some].
    assert ((forall op, ra <> RPoll tid op) -> is_Some (running (set_rt r s) tid)) as Hx.
    { intros Hne. unfold running. cbn [rt set_rt]. rewrite (running_stays _ _ _ _ _ _ _ Hr Ht Hst Hne). cbn. by rewrite Hst. }
    destruct ra as [| | |x op| | | | | | | |]; try by apply Hx. destruct (decide (x = tid)) as [->|]; [|apply Hx; congruence].
    by destruct (Hp tid op eq_refl). }
  assert (Hkept : forall tid, ~ no_call s tid -> unanswered tid (rt s) -> unanswered tid r).
  { intros tid Hno Hu. assert ((forall op, ra <> RPoll tid op) -> unanswered tid r) as Hx.
    { intros Hne. destruct (unanswered_stays _ _ _ _ _ Hr Hu Hne) as [|[[token ->] Hx]]; [done|].
      by destruct (Hno (Hg tid token eq_refl Hx)). }
    destruct ra as [| | |x op| | | | | | | |]; try by apply Hx. destruct (decide (x = tid)) as [->|]; [|apply Hx; congruence].
    destruct (Hp tid op eq_refl) as [|Hrg]; [done|]. by apply (running_unanswered (set_rt r s)). }
  split; cbn [workers servers jobs set_rt]; try done.
  - intros a n tid ph Ha Hc. destruct (N2 a n tid ph Ha Hc) as [Hu Hj]. split; [done|].
    destruct (foreground ph) eqn:Hf; [|done]. destruct Hj as [Hj Hrg]. split; [done|]. apply Hstay; [|done].
    intros [Hx _]. rewrite (Hx a n ph Ha Hc) in Hf. done.
  - intros a w tid k ph Ha Hc. pose proof (N3 a w tid k ph Ha Hc) as Hx. case_decide; [|done]. subst k.
    assert (~ no_call s tid) as Hno by (intros [_ Hy]; by apply (Hy a w ph Ha)).
    destruct Hx as (Hj & Hu & Hrg). split; [done|]. split; [by apply Hkept|]. intros He. by apply Hstay, Hrg.
Qed.

Lemma new_job_names s tid j :
  names_inv None s -> unused tid s -> job_made s j -> names_inv None (set_jobs (<[tid := j]> (jobs s)) s).
Proof.
  intros [N1 N2 N3] (Hu1 & Hu2 & Hu3) Hj. split; cbn [workers servers jobs set_jobs].
  - intros t x. rewrite lookup_insert. case_decide; [by intros [= <-]|apply N1].
  - intros a n t ph Ha Hc. assert (tid <> t) as Hne by (intros <-; specialize (Hu2 a n Ha); cbn in Hu2; congruence).
    rewrite lookup_insert_ne by done. by apply (N2 a n).
  - intros a w t k ph Ha Hc. rewrite lookup_insert_ne; [by apply (N3 a w t k ph)|].
    intros <-. specialize (Hu3 a w Ha). cbn in Hu3. congruence.
Qed.

Lemma on_worker_names o o' s a wa s' ds :
  names_inv o s -> on_worker a wa s = Some (s', ds) ->
  (forall t, wa = Worker.WShutdown t -> jobs s !! t = Some (JShutdown a) /\ is_Some (running s t)) ->
  (forall t bg e, wa = Worker.WAwait t bg e -> jobs s !! bg = None) ->
  (forall n t, workers s' !! a = Some n -> Worker.calls (node_world n) !! t = Some Worker.Unstarted -> o' = Some t) ->
  (forall t, o = Some t -> jobs s !! t = Some (JShutdown a)) -> names_inv o' s'.
Proof.
  intros [N1 N2 N3] Hs Hsh Hbg Hu Ho. 
  apply on_worker_some in Hs as (n & w' & evs & Ha & _ & He & -> & ->). split; cbn [workers servers jobs set_workers] in *.
  - intros t j Hj. eapply job_made_mono; [| |by apply (N1 t)]; cbn [workers servers set_workers]; [|done].
    intros b Hb. rewrite lookup_insert. by case_decide.
  - intros b m t ph Hb Hc. split.
    + intros ->. destruct (decide (a = b)) as [<-|Hab]; [by apply (Hu m)|].
      rewrite lookup_insert_ne in Hb by done. destruct (N2 b m t _ Hb Hc) as [Ht Hj].
      cbn in Hj. destruct Hj as [Hj _]. rewrite (Ho t (Ht eq_refl)) in Hj. congruence.
    + rewrite lookup_insert in Hb. case_decide as Hab; [|by apply (N2 b m t)]. subst b. injection Hb as <-.
      cbn [node_world] in Hc.
      destruct (worker_call_from _ _ _ _ _ _ He Hc) as [(ph0 & Hc0 & Hf & _)|[[-> ->]|(t' & e & -> & ->)]].
      * rewrite <- Hf. by apply (N2 a n t ph0).
      * by apply Hsh.
      * by apply (Hbg t' t e).
  - intros b w t k ph Hb Hc. rewrite (running_rt s) by done. by apply (N3 b w t k ph).
Qed.

Lemma on_server_names o s a ea s' ds :
  names_inv o s -> on_server a ea s = Some (s', ds) ->
  (forall t, ea = Ephemeral.ECall t -> jobs s !! t = Some (JStop a) /\ unanswered t (rt s)) ->
  (forall t w ph, ea = Ephemeral.ELock t -> servers s !! a = Some w ->
     Ephemeral.calls w !! t = Some (Ephemeral.ByRequest, ph) -> is_Some (running s t)) ->
  (forall t, ea = Ephemeral.EFree t \/ ea = Ephemeral.ERuntimeFree t \/ ea = Ephemeral.EClose t -> jobs s !! t = None) ->
  names_inv o s'.
Proof.
  intros [N1 N2 N3] Hs Hc1 Hl1 Hf1. apply on_server_some in Hs as (w & w' & evs & Ha & He & -> & ->). split; cbn [workers servers jobs set_servers] in *.
  - intros t j Hj. eapply job_made_mono; [| |by apply (N1 t)]; cbn [workers servers set_servers]; [done|].
    intros b Hb. rewrite lookup_insert. by case_decide.
  - done.
  - intros b x t k ph Hb Hc. rewrite (running_rt s) by done.
    rewrite lookup_insert in Hb. case_decide as Hab; [|by apply (N3 b x t k ph)]. subst b. injection Hb as <-.
    destruct (server_call_from _ _ _ _ _ _ _ He Hc) as [(k0 & ph0 & Hc0 & [->|[-> ->]] & Hph)|[(-> & -> & ->)|[Hk Hea]]].
    + pose proof (N3 a w t k0 ph0 Ha Hc0) as Hx. case_decide; [|done]. subst k0. destruct Hx as (Hj & Hu & Hrg).
      split; [done|]. split; [done|]. intros Hr. destruct (Hph Hr) as [->| ->]; [by apply Hrg|by eapply Hl1].
    + rewrite decide_False by done. pose proof (N3 a w t _ ph0 Ha Hc0) as Hx. by rewrite decide_False in Hx.
    + rewrite decide_True by done. destruct (Hc1 t eq_refl) as [Hj Hu]. by split.
    + rewrite decide_False by done. by apply Hf1.
Qed.

(** A call that is done with an unstarted worker has just taken the lock. *)
Lemma unstarted_from s a wa s' ds m t :
  names_inv None s -> on_worker a wa s = Some (s', ds) -> workers s' !! a = Some m ->
  Worker.calls (node_world m) !! t = Some Worker.Unstarted ->
  wa = Worker.WLock t /\ exists n ph, workers s !! a = Some n /\
    Worker.calls (node_world n) !! t = Some ph /\ foreground ph = true.
Proof.
  intros Hn (n & w' & evs & Ha & _ & He & -> & ->)%on_worker_some Hm Hc.
  cbn in Hm. rewrite lookup_insert_eq in Hm. injection Hm as <-. cbn [node_world] in Hc.
  destruct (worker_call_from _ _ _ _ _ _ He Hc) as [(ph & Hph & _ & Hu)|[[_ Hq]|(? & ? & _ & Hq)]]; [|done..].
  destruct (Hu eq_refl) as [->|[-> Hfg]]; [|split; [done|by exists n, ph]].
  destruct (nm_worker _ _ Hn a n t _ Ha Hph) as [Hx _]. by specialize (Hx eq_refl).
Qed.

(** The poll of a shutdown, with what it finds unstarted. *)
Lemma shutdown_gone s tid a wa s' ds n :
  andthen (on_worker a wa) (finish_unstarted a tid) s = Some (s', ds) -> is_Some (returned tid ds) ->
  workers s' !! a = Some n -> Worker.calls (node_world n) !! tid = None.
Proof.
  intros (s1 & ds1 & ds2 & E1 & E2 & ->)%andthen_some [r Hr] Ha.
  destruct (on_worker_beside _ _ _ _ _ E1) as [_ [evs ->]].
  apply on_worker_some in E1 as (n0 & w1 & evs' & Ha0 & _ & He & -> & [= <-]).
  unfold finish_unstarted in E2. cbn in E2. rewrite lookup_insert_eq in E2. cbn [mbind option_bind node_world] in E2.
  case_decide as Hc.
  - apply on_worker_some in E2 as (m & w2 & evs2 & Hm & _ & He2 & -> & _). cbn in Hm. rewrite lookup_insert_eq in Hm.
    injection Hm as <-. cbn in He2, Ha. rewrite lookup_insert_eq in Ha. injection Ha as <-.
    unfold Worker.finish_unstarted in He2. rewrite decide_True in He2 by done. injection He2 as <- _. apply lookup_delete_eq.
  - injection E2 as <- <-. cbn in Ha. rewrite lookup_insert_eq in Ha. injection Ha as <-.
    apply (worker_returned a) in Hr; [|repeat constructor; by eexists].
    unfold worker_events in Hr. cbn in Hr. rewrite decide_True in Hr by done. cbn in Hr. rewrite app_nil_r in Hr.
    by apply (worker_call_gone _ _ _ _ _ _ He Hr).
Qed.

Lemma shutdown_names s tid a wa s' ds :
  names_inv None s -> jobs s !! tid = Some (JShutdown a) -> is_Some (running s tid) -> by_call s tid wa = true ->
  andthen (on_worker a wa) (finish_unstarted a tid) s = Some (s', ds) -> names_inv None s' /\ beside s s'.
Proof.
  intros Hn Hj Hrg Hb (s1 & ds1 & ds2 & E1 & E2 & _)%andthen_some.
  destruct (on_worker_beside _ _ _ _ _ E1) as [[Hb1 Hb2] _].
  assert (names_inv (Some tid) s1) as Hn1.
  { apply (on_worker_names None (Some tid) s a wa s1 ds1 Hn E1).
    - intros t ->. cbn in Hb. apply bool_decide_eq_true in Hb. by subst t.
    - intros t bg e ->. cbn in Hb. apply bool_decide_eq_true in Hb as [_ [Hu _]]. done.
    - intros m t Hm Hc. destruct (unstarted_from s a wa s1 ds1 m t Hn E1 Hm Hc) as [-> _].
      cbn in Hb. apply bool_decide_eq_true in Hb. by subst t.
    - done. }
  assert (jobs s1 !! tid = Some (JShutdown a)) as Hj1 by congruence.
  unfold finish_unstarted in E2. destruct (workers s1 !! a) as [m|] eqn:Ha; [|done].
  cbn [mbind option_bind] in E2. case_decide as Hc.
  - destruct (on_worker_beside _ _ _ _ _ E2) as [[Hb3 Hb4] _]. split; [|split; congruence].
    apply (on_worker_names (Some tid) None s1 a _ s' ds2 Hn1 E2); try done.
    + intros n t Hw Hct. apply on_worker_some in E2 as (m' & w' & evs & Ha' & _ & He & -> & _).
      rewrite Ha in Ha'. injection Ha' as <-. cbn [Worker.wstep] in He. unfold Worker.finish_unstarted in He.
      rewrite decide_True in He by done. injection He as <- _.
      cbn in Hw. rewrite lookup_insert_eq in Hw. injection Hw as <-. cbn in Hct.
      apply lookup_delete_Some in Hct as [Hne Hct]. destruct (nm_worker _ _ Hn1 a m t _ Ha Hct) as [Hx _].
      specialize (Hx eq_refl). congruence.
    + intros t [= <-]. done.
  - injection E2 as -> _. split; [|by split]. destruct Hn1 as [M1 M2 M3]. split; try done.
    intros b n t ph Hw Hct. destruct (M2 b n t ph Hw Hct) as [Hu Hx]. split; [|done].
    intros ->. exfalso. specialize (Hu eq_refl). injection Hu as <-. cbn in Hx. destruct Hx as [Hx _]. rewrite Hj1 in Hx.
    injection Hx as <-. rewrite Ha in Hw. by injection Hw as <-.
Qed.

(** The operation of a cancelled task leaves no call. *)
Lemma drop_names s tid j s' ds :
  names_inv None s -> jobs s !! tid = Some j -> drop_job tid j s = Some (s', ds) ->
  names_inv None s' /\ beside s s' /\ no_call s' tid.
Proof.
  intros Hn Hj Hs.
  assert (Hdone : names_inv None s' -> beside s s' ->
    (forall a n, j = JShutdown a -> workers s' !! a = Some n -> Worker.calls (node_world n) !! tid = None) ->
    (forall a w ph, j = JStop a -> servers s' !! a = Some w -> Ephemeral.calls w !! tid <> Some (Ephemeral.ByRequest, ph)) ->
    names_inv None s' /\ beside s s' /\ no_call s' tid).
  { intros Hn' [Hb1 Hb2] Hw Hsv. split; [done|]. split; [done|]. apply (no_call_job None s' tid j Hn'); [congruence|done..]. }
  destruct j as [a|a| |]; cbn [drop_job] in Hs; [| |by injection Hs as <- <-; apply Hdone..].
  - destruct (workers s !! a) as [n|] eqn:Ha; [|done]. cbn [mbind option_bind] in Hs. case_decide.
    + injection Hs as <- <-. apply Hdone; [done..| |done]. by intros b m [= <-] Hb; simplify_eq.
    + destruct (on_worker_beside _ _ _ _ _ Hs) as [Hbs _]. apply Hdone; [|done| |done].
      * apply (on_worker_names None None s a _ s' ds Hn Hs); try done.
        intros m t Hm Ht. by destruct (unstarted_from s a _ s' ds m t Hn Hs Hm Ht).
      * intros b m [= <-]. apply on_worker_some in Hs as (n0 & w' & evs & _ & _ & He & -> & _). cbn.
        rewrite lookup_insert_eq. intros [= <-]. cbn [node_world]. cbn [Worker.wstep] in He. unfold Worker.cancel_call in He.
        repeat case_match; simplify_eq; apply lookup_delete_eq.
  - destruct (servers s !! a) as [w|] eqn:Ha; [|done]. cbn [mbind option_bind] in Hs. case_decide.
    + injection Hs as <- <-. apply Hdone; [done..|]. intros b m ph [= <-] Hb. simplify_eq. congruence.
    + destruct (on_server_beside _ _ _ _ _ Hs) as [Hbs _]. apply Hdone; [|done..|].
      * apply (on_server_names None s a _ s' ds Hn Hs); [done..|]. by intros t [|[|]].
      * intros b m ph [= <-]. apply on_server_some in Hs as (w0 & w' & evs & _ & He & -> & _). cbn.
        rewrite lookup_insert_eq. intros [= <-]. cbn [Ephemeral.estep] in He.
        destruct (Ephemeral.calls w0 !! tid) as [[k x]|]; [|done]. cbn [mbind option_bind] in He.
        case_decide; [|done]. injection He as <- <-. cbn. by rewrite lookup_delete_eq.
Qed.

Lemma on_rt_jobs ra s s' ds :
  on_rt ra s = Some (s', ds) -> workers s' = workers s /\ servers s' = servers s /\ jobs s' = jobs s.
Proof. by intros (r & evs & _ & -> & _)%on_rt_some. Qed.

(** Between polls a task still runs, or has its answer and no call. *)
Lemma polled_names s tid req tok f s' ds :
  running s tid = Some (req, tok) -> is_cancelled tok (rt s) = false -> polling tid req f s = Some (s', ds) ->
  (forall s1 ds1, f s = Some (s1, ds1) ->
     names_inv None s1 /\ beside s s1 /\ (is_Some (returned tid ds1) -> no_call s1 tid)) ->
  names_inv None s'.
Proof.
  intros Hrg Hc (s1 & ds1 & ds2 & E1 & E2 & _)%polling_some Hf. destruct (Hf s1 ds1 E1) as (Hn1 & [Hb1 Hb2] & Hno).
  apply (on_rt_names None s1 _ s' ds2 Hn1 E2); [|done]. intros t op [= <- <-].
  destruct (returned tid ds1) as [r|]; [left; by apply Hno; eexists|right].
  apply running_some in Hrg as (task & Ht & _ & Hst). cbn [fmap option_fmap option_map] in E2.
  apply on_rt_some in E2 as (r & evs2 & E2 & -> & _). cbn [rstep] in E2. unfold poll_task in E2. rewrite Hb1, Ht in E2. cbn [mbind option_bind] in E2.
  rewrite Hst, Hc in E2. cbn in E2. injection E2 as <- _. unfold running. cbn [rt set_rt]. rewrite Ht. cbn.
  rewrite Hst. by eexists.
Qed.

Lemma stop_names s tid a ea s' ds :
  names_inv None s -> jobs s !! tid = Some (JStop a) -> is_Some (running s tid) -> server_call tid ea = true ->
  on_server a ea s = Some (s', ds) -> names_inv None s' /\ beside s s' /\ (is_Some (returned tid ds) -> no_call s' tid).
Proof.
  intros Hn Hj Hrg Hsc E. destruct (on_server_beside _ _ _ _ _ E) as [[Hb1 Hb2] [evs ->]].
  assert (names_inv None s') as Hn'.
  { apply (on_server_names None s a ea s' _ Hn E).
    - by intros t ->.
    - intros t w ph -> _ _. cbn in Hsc. apply bool_decide_eq_true in Hsc. by subst t.
    - intros t [-> |[-> | ->]]; done. }
  split; [done|]. split; [done|]. intros [r Hr]. apply (no_call_job None s' tid (JStop a) Hn'); [congruence|done|].
  intros b w ph [= <-] Hb. apply on_server_some in E as (w0 & w' & evs' & Ha & He & -> & [= <-]).
  cbn in Hb. rewrite lookup_insert_eq in Hb. injection Hb as <-.
  apply server_returned in Hr. unfold server_events in Hr. rewrite server_trace_one, decide_True in Hr by done.
  cbn in Hr. rewrite app_nil_r in Hr. by apply (server_call_gone _ _ _ _ _ _ ph He Hr).
Qed.

(** A worker that is put in has no calls but those it had. *)
Lemma put_worker_names o s a n' :
  names_inv o s ->
  (forall t ph, Worker.calls (node_world n') !! t = Some ph ->
     exists n, workers s !! a = Some n /\ Worker.calls (node_world n) !! t = Some ph) ->
  names_inv o (set_workers (<[a := n']> (workers s)) s).
Proof.
  intros [N1 N2 N3] Hn. split; cbn [workers servers jobs set_workers]; [| |done].
  - intros t j Hj'. eapply job_made_mono; [| |by apply (N1 t)]; cbn; [|done].
    intros b Hb. rewrite lookup_insert. by case_decide.
  - intros b x t ph Hb Hx. rewrite lookup_insert in Hb. case_decide; [|by apply (N2 b x t ph)].
    subst b. injection Hb as <-. destruct (Hn t ph Hx) as (n & Ha & Hc). by apply (N2 a n t ph).
Qed.

Lemma new_server_names o s a :
  names_inv o s -> names_inv o (set_servers (<[a := Ephemeral.started]> (servers s)) s).
Proof.
  intros [N1 N2 N3]. split; cbn [workers servers jobs set_servers]; [|done|].
  - intros t j Hj'. eapply job_made_mono; [| |by apply (N1 t)]; cbn; [done|].
    intros b Hb. rewrite lookup_insert. by case_decide.
  - intros b x t k ph Hb Hx. rewrite lookup_insert in Hb. case_decide; [|by apply (N3 b x t k ph)].
    by injection Hb as <-.
Qed.

(** What a worker does without a task is no request's call. *)
Lemma itself_names s a n wa s' ds :
  names_inv None s -> workers s !! a = Some n -> by_itself n wa = true -> on_worker a wa s = Some (s', ds) ->
  names_inv None s'.
Proof.
  intros Hn Ha Hb Hs.
  apply (on_worker_names None None s a wa s' ds Hn Hs); [by intros t ->|by intros t bg e ->| |done].
  intros m t Hm Ht. exfalso.
  destruct (unstarted_from s a wa s' ds m t Hn Hs Hm Ht) as (-> & n' & ph & Ha' & Hph & Hfg).
  rewrite Ha in Ha'. injection Ha' as <-. cbn in Hb. unfold background in Hb. rewrite Hph in Hb.
  by destruct ph as [| | |[]|[]| |].
Qed.

(** A task whose job is about no component is polled. *)
Lemma poll_names s tid op s' ds j :
  names_inv None s -> jobs s !! tid = Some j -> (j = JStart \/ j = JOther) ->
  on_rt (RPoll tid op) s = Some (s', ds) -> names_inv None s'.
Proof.
  intros Hn Hj Hne Hr. apply (on_rt_names None s _ s' ds Hn Hr); [|done].
  intros t op' [= <- <-]. left. apply (no_call_job None s tid j Hn Hj); [intros a n ->|intros a w ph ->]; by destruct Hne.
Qed.

(** What the runtime does and what an operation takes or drops do not depend on each other. *)
Definition apart (f : step) : Prop :=
  forall r s s' ds, f s = Some (s', ds) -> rt s' = rt s /\ f (set_rt r s) = Some (set_rt r s', ds).

Lemma on_worker_apart a wa : apart (on_worker a wa).
Proof.
  intros r s s' ds (n & w' & evs & Ha & Hu & He & -> & ->)%on_worker_some. split; [done|]. unfold on_worker. cbn [workers set_rt].
  rewrite Ha. cbn [mbind option_bind]. rewrite decide_True by done. by rewrite He.
Qed.
Lemma on_server_apart a ea : apart (on_server a ea).
Proof.
  intros r s s' ds (w & w' & evs & Ha & He & -> & ->)%on_server_some. split; [done|]. unfold on_server. cbn [servers set_rt].
  rewrite Ha. cbn [mbind option_bind]. by rewrite He.
Qed.
Lemma nothing_apart : apart nothing.
Proof. by intros r s s' ds [= <- <-]. Qed.
Lemma take_apart tid j : apart (take_job tid j).
Proof. destruct j; [apply nothing_apart|apply on_server_apart|apply nothing_apart..]. Qed.
Lemma drop_apart tid j : apart (drop_job tid j).
Proof.
  intros r s s' ds Hs. destruct j as [a|a| |]; [| |by apply nothing_apart..]; cbn [drop_job workers servers set_rt] in *.
  - destruct (workers s !! a); [|done]. cbn [mbind option_bind] in *.
    case_decide; [by apply nothing_apart|by apply on_worker_apart].
  - destruct (servers s !! a); [|done]. cbn [mbind option_bind] in *.
    case_decide; [by apply nothing_apart|by apply on_server_apart].
Qed.

Lemma set_rt_same s : set_rt (rt s) s = s.
Proof. by destruct s. Qed.

(** A request is made. *)
Lemma reserve_names s tid req j s' ds :
  names_inv None s -> unused tid s -> job_made s j ->
  andthen (take_job tid j) (on_rt (RReserve tid req)) (set_jobs (<[tid := j]> (jobs s)) s) = Some (s', ds) ->
  names_inv None s'.
Proof.
  intros Hn Hu Hm (s1 & ds1 & ds2 & E1 & E2 & _)%andthen_some. pose proof (new_job_names s tid j Hn Hu Hm) as Hn0.
  set (t0 := set_jobs (<[tid := j]> (jobs s)) s) in *.
  apply on_rt_some in E2 as (r & evs & E2 & -> & _).
  destruct (take_apart tid j r _ _ _ E1) as [Hrt E3]. rewrite Hrt in E2. assert (on_rt (RReserve tid req) t0 = Some (set_rt r t0, [OfRuntime (RReserve tid req, evs)])) as E0
    by (unfold on_rt; by rewrite E2).
  pose proof (on_rt_names None t0 _ _ _ Hn0 E0 ltac:(done) ltac:(done)) as Hn2.
  destruct j as [a|a| |]; cbn [take_job] in E3.
  2:{ apply (on_server_names None _ a _ _ _ Hn2 E3); [|done|by intros t [|[|]]]. intros t [= <-]. split; [apply lookup_insert_eq|].
      cbn [rstep] in E2. unfold reserve_task in E2. case_decide; [|done]. injection E2 as <- _.
      eexists. split; [apply lookup_insert_eq|done]. }
  all: assert (set_rt r s1 = set_rt r t0) as -> by (unfold nothing in E3; congruence); done.
Qed.

(** A request is admitted, or refused and its operation dropped. *)
Lemma register_names s tid token j s' ds :
  names_inv None s -> jobs s !! tid = Some j ->
  andthen (on_rt (RRegister tid token)) (drop_refused tid j) s = Some (s', ds) -> names_inv None s'.
Proof.
  intros Hn Hj (s1 & ds1 & ds2 & E1 & E2 & _)%andthen_some.
  unfold drop_refused in E2. case_decide as Hg.
  - apply on_rt_some in E1 as (r & evs & E1 & -> & _). destruct (drop_apart tid j (rt s) _ _ _ E2) as [Hrt E3].
    change (set_rt (rt s) (set_rt r s)) with (set_rt (rt s) s) in E3. rewrite set_rt_same in E3.
    destruct (drop_names s tid j _ _ Hn Hj E3) as (Hn' & _ & Hno).
    assert (on_rt (RRegister tid token) (set_rt (rt s) s') = Some (s', [OfRuntime (RRegister tid token, evs)])) as E4.
    { unfold on_rt. cbn [rt set_rt]. rewrite E1. cbn [mbind option_bind]. do 2 f_equal.
      cbn in Hrt. rewrite <- Hrt. by destruct s'. }
    apply (on_rt_names None _ _ s' _ Hn' E4); [done|]. by intros t tok [= <- <-].
  - injection E2 as <- _. apply (on_rt_names None s _ s1 ds1 Hn E1); [done|]. by intros t tok [= <- <-].
Qed.

Lemma system_step_names s l s' : names_inv None s -> system_step s l s' -> names_inv None s'.
Proof.
  destruct l as [a ds']. intros Hn [_ Hs]. cbn [fst snd] in *.
  destruct a as [tid req_id j|tid token|ra|tid op|tid wa|tid ea|tid sv op|tid|w h|w wa|w id|sv ea|]; cbn [sstep] in Hs.
  - case_decide as Hu; [|done]. destruct Hu as [Hu Hj]. by apply (reserve_names s tid req_id j s' ds').
  - destruct (jobs s !! tid) as [j|] eqn:Hj; [|done]. by apply (register_names s tid token j s' ds').
  - destruct (plain ra) eqn:Hp; [|done]. apply (on_rt_names None s ra s' ds' Hn Hs); [by intros t op ->|by intros t tok ->].
  - case_decide as Hj; [|done]. destruct Hj as [Hj|Hj]; (apply (poll_names s tid op s' ds' _ Hn Hj); [auto|done]).
  - destruct (running s tid) as [[req tok]|] eqn:Hr; [|done]. cbn [mbind option_bind] in Hs.
    destruct (jobs s !! tid) as [[w| | |]|] eqn:Hj; try done.
    destruct (is_cancelled tok (rt s)) eqn:Hc; [done|]. destruct (by_call s tid wa) eqn:Hb; [|done].
    apply (polled_names s tid req tok _ s' ds' Hr Hc Hs). intros s1 ds1 E1.
    destruct (shutdown_names s tid w wa s1 ds1 Hn Hj ltac:(by eexists) Hb E1) as [Hn1 [Hb1 Hb2]].
    split; [done|]. split; [done|]. intros Hret. apply (no_call_job None s1 tid (JShutdown w) Hn1); [congruence| |done].
    intros a n [= <-] Ha. by apply (shutdown_gone s tid w wa s1 ds1 n).
  - destruct (running s tid) as [[req tok]|] eqn:Hr; [|done]. cbn [mbind option_bind] in Hs.
    destruct (jobs s !! tid) as [[|w| |]|] eqn:Hj; try done.
    destruct (is_cancelled tok (rt s)) eqn:Hc; [done|]. destruct (server_call tid ea) eqn:Hsc; [|done].
    apply (polled_names s tid req tok _ s' ds' Hr Hc Hs). intros s1 ds1 E1.
    by apply (stop_names s tid w ea s1 ds1 Hn Hj ltac:(by eexists) Hsc).
  - destruct (running s tid) as [[req tok]|] eqn:Hr; [|done]. cbn [mbind option_bind] in Hs.
    case_decide as Hc; [|done]. destruct Hc as (Hj & Hc & Hno).
    apply (poll_names _ tid (Some op) s' ds' JStart) in Hs; [done|by apply new_server_names|done|by left].
  - destruct (running s tid) as [[req tok]|] eqn:Hr; [|done]. cbn [mbind option_bind] in Hs.
    destruct (jobs s !! tid) as [j|] eqn:Hj; [|done]. cbn [mbind option_bind] in Hs.
    destruct (is_cancelled tok (rt s)) eqn:Hc; [|done]. apply andthen_some in Hs as (s1 & ds1 & ds2 & Hd & Hp & ->).
    destruct (drop_names s tid j s1 ds1 Hn Hj Hd) as (Hn1 & _ & Hno).
    apply (on_rt_names None s1 _ s' ds2 Hn1 Hp); [|done]. intros t op [= <- <-]. by left.
  - case_decide as Hno; [|done]. injection Hs as <- <-. by apply put_worker_names.
  - destruct (workers s !! w) as [n|] eqn:Ha; [|done]. cbn [mbind option_bind] in Hs.
    destruct (by_itself n wa) eqn:Hb; [|done]. by apply (itself_names s w n wa s' ds').
  - apply post_some in Hs as (n & p & rest & s1 & Ha & _ & E & ->).
    destruct (on_rt_jobs _ _ _ _ E) as (Hw1 & _). apply put_worker_names; [by apply (on_rt_names None s _ s1 ds' Hn E)|].
    intros t ph Hc. exists n. by rewrite Hw1.
  - destruct (servers s !! sv) as [w|] eqn:Ha; [|done]. cbn [mbind option_bind] in Hs.
    destruct (server_itself s w ea) eqn:Hi; [|done]. apply (on_server_names None s sv ea s' ds' Hn Hs).
    + by intros t ->.
    + intros t x ph -> Hx Hcx. rewrite Ha in Hx. injection Hx as <-. cbn in Hi. by rewrite Hcx in Hi.
    + intros t [-> |[-> | ->]]; cbn in Hi; by apply bool_decide_eq_true in Hi as [? _].
  - case_decide as Hr; [|done]. by apply (on_rt_names None s _ s' ds' Hn Hs).
Qed.

Lemma run_names s0 ls s : system_initial s0 -> run system_step s0 ls s -> names_inv None s.
Proof.
  intros (_ & Hw & Hsv & Hj). revert ls s. apply (run_invariant system_step (fun _ s => names_inv None s)).
  - split; rewrite ?Hw, ?Hsv, ?Hj; done.
  - intros ls s l s' _ Hn Hs. by eapply system_step_names.
Qed.

(** ** Lemmas: the way to the end *)

Section teardown.
Context (s0 : System) (H0 : system_initial s0).

(** The steps that end a runtime once its drain has begun. *)
Definition late (a : saction) : bool :=
  match a with
  | SRuntime (RDrainOne | RDrainEnd | RSpawn _ | RAnswer _) | SRegister _ _ | SCancelled _ | SWaited => true
  | SServer _ (Ephemeral.ELock _ | Ephemeral.EReap _ _ | Ephemeral.EDropEntry | Ephemeral.ECleanup _) => true
  | _ => false
  end.
Definition all_late (ls : list (saction * list deed)) : Prop := Forall (fun l => late l.1 = true) ls.

Lemma all_late_app ls ks : all_late ls -> all_late ks -> all_late (ls ++ ks).
Proof. apply Forall_app_2. Qed.

Definition reachable (s : System) : Prop := exists ls, run system_step s0 ls s.

Lemma reachable_run s ls s' : reachable s -> run system_step s ls s' -> reachable s'.
Proof. intros [ks Hk] Hr. exists (ks ++ ls). by eapply run_app. Qed.

Lemma reachable_names s : reachable s -> names_inv None s.
Proof. intros [ls Hr]. by eapply run_names. Qed.

Lemma reachable_rt s : reachable s -> rt_inv (rt s).
Proof. intros [ls Hr]. eapply sy_rt_inv; [apply (proj1 H0)|by eapply run_system_inv]. Qed.

Lemma reachable_job s tid task : reachable s -> tasks (rt s) !! tid = Some task -> is_Some (jobs s !! tid).
Proof. intros [ls Hr]. apply (sy_job _ _ _ (run_system_inv s0 ls s H0 Hr)). Qed.

Lemma reachable_server s a w : reachable s -> servers s !! a = Some w -> Ephemeral.server_inv w.
Proof.
  intros [ls Hr] Ha. eapply Ephemeral.run_server_inv, (sy_server _ _ _ (run_system_inv s0 ls s H0 Hr)), Ha.
Qed.

(** *** The drain *)

Lemma plain_step s ra evs r :
  runtime_step (rt s) (ra, evs) r -> plain ra = true ->
  system_step s (SRuntime ra, [OfRuntime (ra, evs)]) (set_rt r s).
Proof.
  intros [Hok Hs] Hp. cbn [fst snd] in *. split; [done|]. cbn [fst snd sstep]. rewrite Hp. unfold on_rt. by rewrite Hs.
Qed.

Lemma plain_run s ls r :
  run runtime_step (rt s) ls r -> Forall (fun l => plain l.1 = true) ls ->
  run system_step s ((fun l => (SRuntime l.1, [OfRuntime l])) <$> ls) (set_rt r s).
Proof.
  intros Hr. remember (rt s) as r0 eqn:He. revert He.
  induction Hr as [r|r ls r1 [ra evs] r2 Hr IH Hs]; intros He Hf.
  - subst r. destruct s. constructor.
  - apply Forall_app in Hf as [Hf Hl]. apply Forall_cons in Hl as [Hl _]. rewrite fmap_app.
    apply (run_snoc _ _ _ (set_rt r1 s)); [by apply IH|].
    change (set_rt r2 s) with (set_rt r2 (set_rt r1 s)). by apply plain_step.
Qed.

Lemma plain_trace ls : runtime_trace (sdeeds ((fun l => (SRuntime l.1, [OfRuntime l])) <$> ls)) = ls.
Proof. induction ls as [|l ls IH]; [done|]. cbn. by f_equal. Qed.

Lemma drain_steps s :
  reachable s -> freeing (rt s) = Open ->
  exists order ds ls r, run system_step s ((SRuntime (RDrain order), ds) :: ls) (set_rt r s) /\ all_late ls /\
    freeing r = Waiting /\ tasks r = tasks (rt s) /\
    delivered (sdeeds ((SRuntime (RDrain order), ds) :: ls)) = shutdown_result <$> (map_to_list (pending (rt s))).*1.
Proof.
  intros Hs Hf. pose proof (reachable_rt s Hs) as Hrt. set (order := map_to_list (pending (rt s))).
  destruct (rstep (rt s) (RDrain order)) as [[r1 evs]|] eqn:Hd.
  2:{ cbn [rstep] in Hd. unfold drain_begin in Hd. rewrite Hf in Hd. by rewrite decide_True in Hd by done. }
  assert (runtime_step (rt s) (RDrain order, evs) r1) as Hstep by done.
  destruct (runtime_step_ok _ _ _ Hrt Hstep) as [Hrt1 _]. cbn [rstep] in Hd. unfold drain_begin in Hd.
  rewrite Hf, decide_True in Hd by done. injection Hd as <- <-.
  destruct (drain_all order _ Hrt1 eq_refl) as (ls1 & r2 & Hr2 & _ & Hf2 & Ht2 & Hacc & Hpl).
  exists order, [OfRuntime (RDrain order, [])], ((fun l => (SRuntime l.1, [OfRuntime l])) <$> ls1), r2.
  change ((SRuntime (RDrain order), [OfRuntime (RDrain order, [])]) :: ((fun l => (SRuntime l.1, [OfRuntime l])) <$> ls1))
    with ((fun l => (SRuntime l.1, [OfRuntime l])) <$> ((RDrain order, []) :: ls1)). split; [|split; [|split; [done|]]].
  - apply plain_run.
    + apply (run_app runtime_step (rt s) [(RDrain order, [])] _ ls1 _ (run_one _ _ _ _ Hstep) Hr2).
    + constructor; [done|]. eapply Forall_impl; [exact Hpl|]. intros l [Hl|Hl]; cbv beta; by rewrite Hl.
  - apply Forall_fmap. eapply Forall_impl; [exact Hpl|]. intros l [Hl|Hl]; cbn; by rewrite Hl.
  - split; [done|]. unfold delivered. rewrite plain_trace. exact Hacc.
Qed.

(** *** The tasks *)

(** Servers change, if at all, by a request's call that drops. *)
Definition same_handles (s s' : System) : Prop :=
  forall a w', servers s' !! a = Some w' -> exists w, servers s !! a = Some w /\ Ephemeral.handle w' = Ephemeral.handle w.

Lemma drop_possible s tid j :
  reachable s -> jobs s !! tid = Some j ->
  exists s' ds, drop_job tid j s = Some (s', ds) /\ same_handles s s'.
Proof.
  intros Hs Hj. pose proof (reachable_names s Hs) as Hn. pose proof (nm_made _ _ Hn tid j Hj) as Hm.
  assert (exists s' ds, nothing s = Some (s', ds) /\ same_handles s s') as Hno.
  { exists s, []. split; [done|]. intros a w Ha. by exists w. }
  destruct j as [a|a| |]; cbn [drop_job]; [| |exact Hno..].
  - destruct Hm as [n Ha]. rewrite Ha. cbn [mbind option_bind]. case_decide as Hc; [exact Hno|].
    destruct (Worker.calls (node_world n) !! tid) as [ph|] eqn:Hph; [|done].
    destruct (nm_worker _ _ Hn a n tid ph Ha Hph) as [Hu Hfg].
    assert (exists w' evs, Worker.wstep (node_world n) (Worker.WCancel tid) = Some (w', evs)) as (w' & evs & He).
    { cbn [Worker.wstep]. unfold Worker.cancel_call. rewrite Hph.
      destruct ph as [| | |[]|[]| |]; eauto; cbn in Hfg; try congruence. by specialize (Hu eq_refl). }
    unfold on_worker. rewrite Ha. cbn [mbind option_bind]. rewrite decide_True by done. rewrite He.
    eexists _, _. split; [done|]. intros b w Hb. by exists w.
  - destruct Hm as [w Ha]. rewrite Ha. cbn [mbind option_bind]. case_decide as Hc; [exact Hno|].
    destruct (Ephemeral.calls w !! tid) as [[k ph]|] eqn:Hph; [|done].
    pose proof (nm_server _ _ Hn a w tid k ph Ha Hph) as Hk. case_decide; [subst k|congruence].
    unfold on_server. rewrite Ha. cbn [mbind option_bind Ephemeral.estep]. rewrite Hph. cbn [mbind option_bind].
    rewrite decide_True by done. eexists _, _. split; [done|]. intros b x. cbn. rewrite lookup_insert. case_decide.
    + subst b. intros [= <-]. by exists w.
    + intros Hb. by exists x.
Qed.

Lemma same_handles_trans s1 s2 s3 : same_handles s1 s2 -> same_handles s2 s3 -> same_handles s1 s3.
Proof.
  intros H1 H2 a w Ha. destruct (H2 a w Ha) as (x & Hx & ->). destruct (H1 a x Hx) as (y & Hy & ->). eauto.
Qed.

(** From [s], to a state that still waits, with the tasks [m] and the servers' handles as they were. *)
Definition leads (s : System) (m : gmap positive Task) : Prop :=
  exists ls s', run system_step s ls s' /\ all_late ls /\ freeing (rt s') = Waiting /\ tasks (rt s') = m /\
    same_handles s s'.

Lemma leads_step s l s1 m : system_step s l s1 -> late l.1 = true -> same_handles s s1 -> leads s1 m -> leads s m.
Proof.
  intros Hs Hl Hh (ls & s' & Hr & Hla & Hf & Ht & Hh'). exists ([l] ++ ls), s'.
  split; [eapply run_app; [by apply run_one|done]|]. split; [by constructor|]. split; [done|]. split; [done|]. by eapply same_handles_trans.
Qed.

Lemma leads_now s m : freeing (rt s) = Waiting -> tasks (rt s) = m -> leads s m.
Proof. intros Hf Ht. exists [], s. split; [constructor|]. split; [constructor|]. split; [done|]. split; [done|]. intros a w Ha. by exists w. Qed.

Lemma set_rt_handles r s : same_handles s (set_rt r s).
Proof. intros a w Ha. by exists w. Qed.

Lemma end_answering s tid r tok p :
  reachable s -> freeing (rt s) = Waiting ->
  tasks (rt s) !! tid = Some {| t_req := r; t_state := Answering tok p |} -> leads s (delete tid (tasks (rt s))).
Proof.
  intros Hs Hf Ht. destruct (waiting_answer _ tid r tok p (reachable_rt s Hs) Hf Ht) as (r' & Hst & Hf' & Ht').
  eapply leads_step; [by apply (plain_step s)|done|apply set_rt_handles|].
  by apply (leads_now (set_rt r' s)).
Qed.

Lemma end_running s tid r tok :
  reachable s -> freeing (rt s) = Waiting ->
  tasks (rt s) !! tid = Some {| t_req := r; t_state := Running tok |} -> leads s (delete tid (tasks (rt s))).
Proof.
  intros Hs Hf Ht. destruct (waiting_poll _ tid r tok (reachable_rt s Hs) Hf Ht) as [Hc [_ Hp]].
  destruct (reachable_job s tid _ Hs Ht) as [j Hj].
  destruct (drop_possible s tid j Hs Hj) as (s1 & ds1 & Hd & Hh).
  destruct (drop_names s tid j s1 ds1 (reachable_names s Hs) Hj Hd) as (_ & [Hb _] & _).
  set (task := {| t_req := r; t_state := Answering tok (cancelled_result r) |}) in *.
  set (r2 := set_tasks (<[tid := task]> (tasks (rt s))) (rt s)) in *.
  assert (system_step s (SCancelled tid, ds1 ++ [OfRuntime (RPoll tid None, [])]) (set_rt r2 s1)) as Hstep.
  { split; [done|]. cbn [fst snd sstep]. unfold running. rewrite Ht. cbn [mbind option_bind t_state t_req].
    rewrite Hj. cbn [mbind option_bind]. rewrite Hc. unfold andthen. rewrite Hd. cbn [mbind option_bind].
    unfold on_rt. rewrite Hb. cbn [fst snd] in Hp. by rewrite Hp. }
  eapply leads_step; [exact Hstep|done|exact Hh|].
  rewrite <- (delete_insert_eq (tasks (rt s)) tid task).
  apply (end_answering (set_rt r2 s1) tid r tok (cancelled_result r)).
  - eapply reachable_run; [exact Hs|by apply run_one].
  - done.
  - apply lookup_insert_eq.
Qed.

(** A request that comes too late is refused, and its operation dropped. *)
Lemma end_reserved s tid r :
  reachable s -> freeing (rt s) = Waiting ->
  tasks (rt s) !! tid = Some {| t_req := r; t_state := Reserved |} -> leads s (delete tid (tasks (rt s))).
Proof.
  intros Hs Hf Ht. destruct (waiting_refuse _ tid r (reachable_rt s Hs) Hf Ht) as [token [_ Hst]]. cbn [fst snd] in Hst.
  destruct (reachable_job s tid _ Hs Ht) as [j Hj].
  destruct (drop_possible s tid j Hs Hj) as (s1 & ds1 & Hd & Hh).
  set (r1 := set_tasks (delete tid (tasks (rt s))) (rt s)) in *.
  destruct (drop_apart tid j r1 _ _ _ Hd) as [Hrt Hd1].
  assert (system_step s (SRegister tid token, [OfRuntime (RRegister tid token, [EvRefused r Shutdown])] ++ ds1) (set_rt r1 s1)) as Hstep.
  { split; [done|]. cbn [fst snd sstep]. rewrite Hj. cbn [mbind option_bind]. unfold andthen, on_rt. rewrite Hst.
    cbn [mbind option_bind]. unfold drop_refused. rewrite decide_True; [by rewrite Hd1|apply lookup_delete_eq]. }
  eapply leads_step; [exact Hstep|done|exact Hh|]. by apply (leads_now (set_rt r1 s1)).
Qed.

Lemma end_task s tid task :
  reachable s -> freeing (rt s) = Waiting -> tasks (rt s) !! tid = Some task -> leads s (delete tid (tasks (rt s))).
Proof.
  intros Hs Hf Ht. destruct task as [r [|tok|tok|tok p]].
  - by apply (end_reserved s tid r).
  - set (task := {| t_req := r; t_state := Running tok |}).
    pose proof (plain_step s _ _ _ (waiting_spawn _ tid r tok Ht) eq_refl) as Hst.
    set (s1 := set_rt _ s) in Hst.
    eapply leads_step; [exact Hst|done|apply set_rt_handles|].
    rewrite <- (delete_insert_eq (tasks (rt s)) tid task).
    change (<[tid := task]> (tasks (rt s))) with (tasks (rt s1)). apply (end_running s1 tid r tok).
    + eapply reachable_run; [exact Hs|by apply run_one].
    + done.
    + apply lookup_insert_eq.
  - by apply (end_running s tid r tok).
  - by apply (end_answering s tid r tok p).
Qed.

Lemma end_tasks n s : size (tasks (rt s)) = n -> reachable s -> freeing (rt s) = Waiting -> leads s ∅.
Proof.
  revert s. induction n as [|n IH]; intros s Hn Hs Hf.
  - apply map_size_empty_inv in Hn. by apply leads_now.
  - destruct (map_choose (tasks (rt s))) as (tid & task & Ht); [intros He; by rewrite He, map_size_empty in Hn|].
    destruct (end_task s tid task Hs Hf Ht) as (ls & s1 & Hr & Hl1 & Hf1 & Ht1 & Hh1).
    destruct (IH s1) as (ls2 & s2 & Hr2 & Hl2 & Hf2 & Ht2 & Hh2); [|by eapply reachable_run|done|].
    + rewrite Ht1, map_size_delete, Ht. lia.
    + exists (ls ++ ls2), s2. split; [by eapply run_app|]. split; [by apply all_late_app|].
      split; [done|]. split; [done|]. by eapply same_handles_trans.
Qed.

(** *** The servers *)

(** Without tasks no call of a server is a request's. *)
Lemma no_requests s a w tid k ph :
  reachable s -> tasks (rt s) = ∅ -> servers s !! a = Some w -> Ephemeral.calls w !! tid = Some (k, ph) ->
  k <> Ephemeral.ByRequest.
Proof.
  intros Hs Ht Ha Hc ->. pose proof (nm_server _ _ (reachable_names s Hs) a w tid _ ph Ha Hc) as Hx.
  rewrite decide_True in Hx by done. destruct Hx as (_ & (x & Hx & _) & _). by rewrite Ht in Hx.
Qed.

Lemma server_acts s a w acts w' sls :
  reachable s -> tasks (rt s) = ∅ -> servers s !! a = Some w ->
  exec Ephemeral.estep w acts = Some (w', sls) -> Forall Ephemeral.internal acts ->
  exists ls s', run system_step s ls s' /\ all_late ls /\ rt s' = rt s /\ servers s' = <[a := w']> (servers s).
Proof.
  revert s w sls. induction acts as [|ea acts IH]; intros s w sls Hs Ht Ha He Hi.
  - injection He as <- _. exists [], s. split; [constructor|]. split; [constructor|]. split; [done|]. by rewrite insert_id.
  - apply Forall_cons in Hi as [Hea Hi]. cbn [exec] in He.
    destruct (Ephemeral.estep w ea) as [[w1 evs]|] eqn:E1; [|done]. cbn [mbind option_bind] in He.
    destruct (exec Ephemeral.estep w1 acts) as [[w2 ls2]|] eqn:E2; [|done]. cbn [mbind option_bind] in He.
    injection He as <- _.
    set (s1 := set_servers (<[a := w1]> (servers s)) s).
    assert (system_step s (SServer a ea, [OfServer a (ea, evs)]) s1) as Hst.
    { split; [done|]. cbn [fst snd sstep]. rewrite Ha. cbn [mbind option_bind].
      assert (server_itself s w ea = true) as ->.
      { destruct ea; try done; cbn.
        all: destruct (Ephemeral.calls w !! tid) as [[[] ph]|] eqn:Hc; try done.
        all: by destruct (no_requests s a w tid _ ph Hs Ht Ha Hc). }
      unfold on_server. rewrite Ha. cbn [mbind option_bind]. by rewrite E1. }
    destruct (IH s1 w1 ls2) as (ls & s2 & Hr & Hla & Hrt & Hsv); [|done|apply lookup_insert_eq|done|done|].
    + eapply reachable_run; [exact Hs|by apply run_one].
    + exists ([(SServer a ea, [OfServer a (ea, evs)])] ++ ls), s2. split; [eapply run_app; [by apply run_one|done]|].
      split; [constructor; [by destruct ea|done]|].
      split; [done|]. rewrite Hsv. cbn [servers set_servers s1]. by rewrite insert_insert_eq.
Qed.

Lemma server_ends w :
  Ephemeral.server_inv w -> Ephemeral.handle w = false ->
  exists acts w' ls, exec Ephemeral.estep w acts = Some (w', ls) /\ Forall Ephemeral.internal acts /\
    Ephemeral.tokens w' = 0.
Proof.
  intros Hw Hh. destruct (Ephemeral.dropped w) eqn:Hd.
  - destruct (Ephemeral.si_dropped w Hw Hd) as (_ & Hc & Hs). pose proof (Ephemeral.si_tokens w Hw) as Ht.
    rewrite Hc, Hs, mcount_empty in Ht. destruct (Ephemeral.cleanup w) eqn:Hcl.
    + exists [Ephemeral.ECleanup (Ok tt)]. cbn [exec Ephemeral.estep]. rewrite Hcl. cbn [mbind option_bind].
      eexists _, _. split; [done|]. split; [by repeat constructor|]. cbn. lia.
    + exists [], w, []. split; [done|]. split; [constructor|]. lia.
  - destruct (Ephemeral.closing_from w Hw Hh Hd) as (acts & w' & ls & Hx & Hi & _ & _ & _ & _ & Ht). by exists acts, w', ls.
Qed.

Lemma reap_servers (l : list arc) s :
  reachable s -> tasks (rt s) = ∅ ->
  (forall a w, servers s !! a = Some w -> Ephemeral.tokens w = 0 \/ a ∈ l /\ Ephemeral.handle w = false) ->
  exists ls s', run system_step s ls s' /\ all_late ls /\ rt s' = rt s /\ all_reaped s'.
Proof.
  revert s. induction l as [|a l IH]; intros s Hs Ht Hl.
  - exists [], s. split; [constructor|]. split; [constructor|]. split; [done|]. intros a w Ha.
    destruct (Hl a w Ha) as [|[Hin _]]; [done|by apply elem_of_nil in Hin].
  - destruct (servers s !! a) as [w|] eqn:Ha.
    + destruct (decide (Ephemeral.tokens w = 0)) as [Hz|Hz].
      { apply IH; [done|done|]. intros b x Hb. destruct (Hl b x Hb) as [|[[->|Hin]%elem_of_cons Hh]]; [by left| |by right].
        left. congruence. }
      destruct (Hl a w Ha) as [|[_ Hh]]; [done|].
      destruct (server_ends w (reachable_server s a w Hs Ha) Hh) as (acts & w' & sls & Hx & Hi & Hz').
      destruct (server_acts s a w acts w' sls Hs Ht Ha Hx Hi) as (ls1 & s1 & Hr1 & Hl1 & Hrt1 & Hsv1).
      destruct (IH s1) as (ls2 & s2 & Hr2 & Hl2 & Hrt2 & Hall); [by eapply reachable_run|by rewrite Hrt1| |].
      * intros b x. rewrite Hsv1, lookup_insert. case_decide; [intros [= <-]; by left|]. intros Hb.
        destruct (Hl b x Hb) as [|[[->|Hin]%elem_of_cons Hh']]; [by left|done|by right].
      * exists (ls1 ++ ls2), s2. split; [by eapply run_app|]. split; [by apply all_late_app|]. split; [congruence|done].
    + apply IH; [done|done|]. intros b x Hb. destruct (Hl b x Hb) as [|[[->|Hin]%elem_of_cons Hh]]; [by left| |by right].
      congruence.
Qed.

(** Once the queue has closed nothing is delivered on the way. *)
Lemma closed_silent s ls s' :
  reachable s -> run system_step s ls s' -> freeing (rt s) = Waiting -> delivered (sdeeds ls) = [].
Proof.
  intros Hs Hr Hf. pose proof (reachable_rt s Hs) as Hrt. destruct Hs as [ks Hk].
  pose proof (ri_stage _ Hrt) as Hst. rewrite Hf in Hst. destruct Hst as (_ & Hc & _).
  apply (closed_accepts_nothing _ _ _ Hrt (runtime_part s0 ks s ls s' H0 Hk Hr) Hc).
Qed.

Lemma last_step s :
  reachable s -> freeing (rt s) = Waiting -> tasks (rt s) = ∅ -> all_reaped s ->
  system_step s (SWaited, [OfRuntime (RWaited, [EvFreed])]) (set_rt (set_freeing Freed (rt s)) s).
Proof.
  intros Hs Hf Ht Hall. split; [done|]. cbn [fst snd sstep]. rewrite decide_True by done.
  unfold on_rt. cbn [rstep]. unfold waited. by rewrite decide_True, Hf by done.
Qed.

(** The way to the end, from an open runtime whose servers' handles are gone. *)
Lemma teardown_steps s :
  reachable s -> freeing (rt s) = Open ->
  (forall a w, servers s !! a = Some w -> Ephemeral.handle w = false) ->
  exists order ds ls s', run system_step s ((SRuntime (RDrain order), ds) :: ls) s' /\ all_late ls /\
    freeing (rt s') = Freed /\ tasks (rt s') = ∅ /\
    delivered (sdeeds ((SRuntime (RDrain order), ds) :: ls)) = shutdown_result <$> (map_to_list (pending (rt s))).*1 /\
    forall a w, servers s' !! a = Some w -> Ephemeral.child w <> Ephemeral.Alive.
Proof.
  intros Hs Hf Hh.
  destruct (drain_steps s Hs Hf) as (order & ds & ls1 & r1 & R1 & L1 & Hf1 & _ & Hd1).
  set (s1 := set_rt r1 s) in R1. assert (reachable s1) as Hs1 by (by eapply reachable_run).
  destruct (end_tasks _ s1 eq_refl Hs1 Hf1) as (ls2 & s2 & R2 & L2 & Hf2 & Ht2 & Hh2).
  assert (reachable s2) as Hs2 by (by eapply reachable_run).
  destruct (reap_servers (map_to_list (servers s2)).*1 s2 Hs2 Ht2) as (ls3 & s3 & R3 & L3 & Hrt3 & Hall).
  { intros a w Ha. right. split; [apply list_elem_of_fmap; exists (a, w); by rewrite elem_of_map_to_list|].
    destruct (Hh2 a w Ha) as (x & Hx & ->). by apply (Hh a). }
  assert (reachable s3) as Hs3 by (by eapply reachable_run).
  pose proof (last_step s3 Hs3 ltac:(by rewrite Hrt3) ltac:(by rewrite Hrt3) Hall) as R4.
  assert (run system_step s1 (ls2 ++ ls3 ++ [(SWaited, [OfRuntime (RWaited, [EvFreed])])])
    (set_rt (set_freeing Freed (rt s3)) s3)) as R.
  { eapply run_app; [exact R2|]. eapply run_app; [exact R3|by apply run_one]. }
  exists order, ds, (ls1 ++ ls2 ++ ls3 ++ [(SWaited, [OfRuntime (RWaited, [EvFreed])])]), (set_rt (set_freeing Freed (rt s3)) s3).
  split; [exact (run_app _ _ _ _ _ _ R1 R)|].
  split; [by repeat (apply all_late_app; [done|]); repeat constructor|].
  split; [done|]. split; [cbn; by rewrite Hrt3|]. split.
  - rewrite app_comm_cons, sdeeds_app, delivered_app, Hd1, (closed_silent s1 _ _ Hs1 R Hf1). apply app_nil_r.
  - intros a w Ha. apply no_token_no_child; [by apply (reachable_server s3 a w)|by apply (Hall a w)].
Qed.
End teardown.

(** ** Properties *)

(** The runtime can always be brought to its end.  From every reachable state of an open runtime
    whose servers' handles are gone, whatever requests are in flight and wherever their calls stand,
    there are steps to the state in which [free_runtime] has returned: every request still pending, and
    no other, is answered with the shutdown completion, no task is left, and no server's child runs. *)
Theorem runtime_can_end s0 ls s :
  system_initial s0 -> run system_step s0 ls s -> freeing (rt s) = Open ->
  (forall a w, servers s !! a = Some w -> Ephemeral.handle w = false) ->
  exists ls' s', run system_step s ls' s' /\ freeing (rt s') = Freed /\ tasks (rt s') = ∅ /\
    delivered (sdeeds ls') = shutdown_result <$> (map_to_list (pending (rt s))).*1 /\
    forall a w, servers s' !! a = Some w -> Ephemeral.child w <> Ephemeral.Alive.
Proof.
  intros H0 Hr Hf Hh. assert (reachable s0 s) as Hs by (by exists ls).
  destruct (teardown_steps s0 H0 s Hs Hf Hh) as (order & ds & ls' & s' & R & _ & Hx). by exists ((SRuntime (RDrain order), ds) :: ls'), s'.
Qed.

(** ** Witness: a worker is being shut down, and a server stopped by request and freed, all at once *)

Definition busy : list saction :=
  take 12 sample_story ++
  [SReserve 3 8 (JStop 1%positive); SRegister 3 3; SRuntime (RSpawn 3);
   SStop 3%positive (Ephemeral.ELock 3); SServer 1 (Ephemeral.EFree 7)].
Definition busy_state : System := default sample_system (fst <$> exec sstep sample_system busy).
Definition busy_ls : list (saction * list deed) := default [] (snd <$> exec sstep sample_system busy).

Lemma busy_run : run system_step sample_system busy_ls busy_state.
Proof.
  unfold busy_ls, busy_state. pose proof (exec_run sstep saction_ok sample_system busy) as He.
  assert (exec_ok sstep saction_ok sample_system busy) as Hok.
  { vm_compute; intuition (congruence || naive_solver). }
  destruct (exec _ _ _) as [[w ls]|]; simpl; [by apply He|constructor].
Qed.

Lemma runtime_can_end_witness :
  size (tasks (rt busy_state)) = 2%nat /\
  exists ls s, run system_step busy_state ls s /\ freeing (rt s) = Freed /\
    (delivered (sdeeds ls) = [shutdown_result 6; shutdown_result 8] \/
     delivered (sdeeds ls) = [shutdown_result 8; shutdown_result 6]).
Proof.
  split; [vm_compute; reflexivity|].
  destruct (runtime_can_end sample_system busy_ls busy_state sample_system_initial busy_run)
    as (ls & s & Hr & Hf & _ & Hd & _).
  - vm_compute. reflexivity.
  - intros a w Ha. assert (map_Forall (fun _ w => Ephemeral.handle w = false) (servers busy_state)) as Hall.
    { apply (bool_decide_unpack (map_Forall (fun _ w => Ephemeral.handle w = false) (servers busy_state))).
      vm_compute. exact I. }
    by apply (Hall a w).
  - exists ls, s. split; [exact Hr|]. split; [exact Hf|]. rewrite Hd. vm_compute. auto.
Defined.
