(* ===== verification/Progress.v ===== *)
(** No request hangs ([runtime.rs], [spawn_request]; [worker.rs], [shutdown] and [finalize];
    [ephemeral.rs], [shutdown]).

    In every reachable [System], whatever a request's operation waits for can come: a worker's pumps
    can post what they hold and end, a call that holds a worker's or a server's mutex can finish, or
    drops with its own request, and then the request's own call goes through to its answer.  No other
    request is answered for it, and the runtime stays open. *)

From S2P Require Import Prelude Abi KtError Panic Handle Queue Runtime.
From S2P Require Worker Streams Ephemeral Ffi.
From S2P Require Import System Teardown.

#[local] Existing Instances Worker.call_phase_eq_dec Worker.event_eq_dec Worker.WorkerState_eq_dec Teardown.caller_eq_dec.

(** ** Names *)

Definition call_names {A} (calls : A -> gset positive) (m : gmap arc A) : gset positive :=
  ⋃ ((fun p => calls p.2) <$> map_to_list m).

Lemma call_names_in {A} (calls : A -> gset positive) (m : gmap arc A) a x t :
  m !! a = Some x -> t ∈ calls x -> t ∈ call_names calls m.
Proof.
  intros Ha Ht. apply elem_of_union_list. exists (calls x). split; [|done].
  apply list_elem_of_fmap. exists (a, x). split; [done|]. by apply elem_of_map_to_list.
Qed.

(** A name for a call or a task that no one has used. *)
Lemma unused_exists s : exists tid, unused tid s.
Proof.
  set (W := call_names (fun n => dom (Worker.calls (node_world n))) (workers s)).
  set (E := call_names (fun w => dom (Ephemeral.calls w)) (servers s)).
  pose proof (is_fresh (dom (jobs s) ∪ W ∪ E)) as Hf. exists (fresh (dom (jobs s) ∪ W ∪ E)).
  set (tid := fresh _) in *. apply not_elem_of_union in Hf as [[Hj Hw]%not_elem_of_union He].
  split; [by apply not_elem_of_dom|]. split.
  - intros a n Ha. apply not_elem_of_dom. intros Hin. by apply Hw, (call_names_in _ _ a n).
  - intros a w Ha. apply not_elem_of_dom. intros Hin. by apply He, (call_names_in _ _ a w).
Qed.

(** ** Steps that answer nobody *)

(** The steps of what is under way already: tasks go on, pumps post what they have and end when Core
    says that their stream is over, users of Core's worker are done with it, the background finalizer
    and a server's call get what they wait for.  Nobody asks for anything: no request is made or
    cancelled, no handle freed, nothing force-closed or shut down. *)
Definition unforced (a : saction) : bool :=
  match a with
  | SRuntime (RSpawn _) | SRuntime (RAnswer _) | SPoll _ _ | SShutdown _ _ | SStop _ _ | SCancelled _ | SPost _ _ => true
  | SWorker _ (Worker.WPoll _ _ Worker.PolledShutDown) | SWorker _ (Worker.WLeave _) | SWorker _ (Worker.WRelease _)
  | SWorker _ (Worker.WTryFinalize _ false) | SWorker _ (Worker.WClosed _) => true
  | SServer _ (Ephemeral.EReap _ _) => true
  | _ => false
  end.

(** From [s], unforced steps to [s'] in which no request is answered and no task but those of [who] moves. *)
Record calm (who : gset positive) (s s' : System) : Prop := {
  cm_run : exists ls, run system_step s ls s' /\ Forall (fun l => unforced l.1 = true) ls;
  cm_jobs : jobs s' = jobs s;
  cm_freeing : freeing (rt s') = freeing (rt s);
  cm_pending : pending (rt s') = pending (rt s);
  cm_tokens : tokens (rt s') = tokens (rt s);
  cm_tasks t : t ∉ who -> tasks (rt s') !! t = tasks (rt s) !! t;
}.

Lemma calm_refl who s : calm who s s.
Proof. split; try done. exists []. split; constructor. Qed.

Lemma calm_trans A B s1 s2 s3 : calm A s1 s2 -> calm B s2 s3 -> calm (A ∪ B) s1 s3.
Proof.
  intros [(l1 & R1 & U1) J1 F1 P1 K1 T1] [(l2 & R2 & U2) J2 F2 P2 K2 T2]. split; try congruence.
  - exists (l1 ++ l2). split; [by eapply run_app|by apply Forall_app].
  - intros t Ht. rewrite T2, T1; [done|set_solver..].
Qed.

Lemma calm_weaken A B s s' : calm A s s' -> A ⊆ B -> calm B s s'.
Proof. intros [R J F P K T] Hs. split; try done. intros t Ht. apply T. set_solver. Qed.

Lemma calm_app A s1 s2 s3 : calm A s1 s2 -> calm A s2 s3 -> calm A s1 s3.
Proof. intros H1 H2. eapply calm_weaken; [by eapply calm_trans|set_solver]. Qed.

(** The usual cases of one step: beside the runtime, or the poll of a task. *)
Lemma run_unforced s l s' :
  system_step s l s' -> unforced l.1 = true ->
  exists ls, run system_step s ls s' /\ Forall (fun l => unforced l.1 = true) ls.
Proof. intros Hs Hu. exists [l]. split; [by apply run_one|by constructor]. Qed.

Lemma calm_beside s l s' : system_step s l s' -> unforced l.1 = true -> beside s s' -> calm ∅ s s'.
Proof. intros Hs Hu [Hr Hj]. split; rewrite ?Hr; try done. by eapply run_unforced. Qed.

Lemma calm_tasks s l s' t m :
  system_step s l s' -> unforced l.1 = true -> jobs s' = jobs s -> rt s' = set_tasks m (rt s) ->
  (forall x, x <> t -> m !! x = tasks (rt s) !! x) -> calm {[t]} s s'.
Proof.
  intros Hs Hu Hj Hr Hm. split; rewrite ?Hr; try done; [by eapply run_unforced|].
  intros x Hx. apply Hm. set_solver.
Qed.

(** The poll of a running task changes that task only. *)
Lemma poll_runs s tid req tok op :
  running s tid = Some (req, tok) ->
  exists m, on_rt (RPoll tid op) s = Some (set_rt (set_tasks m (rt s)) s, [OfRuntime (RPoll tid op, [])]) /\
    (forall x, x <> tid -> m !! x = tasks (rt s) !! x) /\
    m !! tid = Some {| t_req := req;
                       t_state := match select_poll (is_cancelled tok (rt s)) req op with
                                  | Some p => Answering tok p
                                  | None => Running tok
                                  end |}.
Proof.
  intros (task & Ht & <- & Hst)%running_some. unfold on_rt. cbn [rstep]. unfold poll_task. rewrite Ht.
  cbn [mbind option_bind]. rewrite Hst. destruct (select_poll _ _ op) as [p|].
  - eexists. split; [done|]. split; [intros x Hx; by rewrite lookup_insert_ne|apply lookup_insert_eq].
  - exists (tasks (rt s)). split; [by destruct s as [[] ? ? ?]|]. split; [done|]. rewrite Ht. destruct task. by cbn in *; subst.
Qed.

(** ** A request to stop a server has its call until it has its answer *)

Definition has_call (s : System) (tid : positive) (a : arc) : Prop :=
  exists w ph, servers s !! a = Some w /\ Ephemeral.calls w !! tid = Some (Ephemeral.ByRequest, ph).
Definition stops_call (s : System) : Prop :=
  forall tid a, jobs s !! tid = Some (JStop a) -> unanswered tid (rt s) -> has_call s tid a.

Lemma server_call_stays w ea w' evs t ph :
  Ephemeral.estep w ea = Some (w', evs) -> Ephemeral.calls w !! t = Some (Ephemeral.ByRequest, ph) ->
  (exists ph', Ephemeral.calls w' !! t = Some (Ephemeral.ByRequest, ph')) \/ ea = Ephemeral.ECancel t \/
  (ea = Ephemeral.ELock t \/ exists r, ea = Ephemeral.EReap t r) /\ is_Some (head (omap (server_return t) evs)).
Proof.
  intros Hs Hc.
  assert (Hnew : forall i k x, Ephemeral.calls w !! i = None -> exists ph', <[i := (k, x)]> (Ephemeral.calls w) !! t =
    Some (Ephemeral.ByRequest, ph')) by (intros i k x Hi; exists ph; rewrite lookup_insert_ne; [done|by intros ->; rewrite Hc in Hi]).
  assert (Hret : forall i k x r w1 es, Ephemeral.calls w1 = Ephemeral.calls w -> Ephemeral.calls w !! i = Some (k, x) ->
    Ephemeral.return_call i k r w1 = (w', es) ->
    (exists ph', Ephemeral.calls w' !! t = Some (Ephemeral.ByRequest, ph')) \/ i = t /\ es = [Ephemeral.EvReturned t r]).
  { intros i k x r w1 es Hw1 Hi He. destruct (decide (i = t)) as [->|Hne].
    - rewrite Hc in Hi. injection Hi as <- <-. right. by injection He as _ <-.
    - left. exists ph. destruct k; injection He as <- _; cbn; by rewrite Hw1, ?lookup_insert_ne, ?lookup_delete_ne. }
  destruct ea as [i|i|i|i| |i|i r|i| |r]; cbn [Ephemeral.estep] in Hs.
  - case_decide as Hd; [|done]. destruct Hd as [_ Hd]. simplify_eq. left. by apply Hnew.
  - case_decide as Hd; [|done]. destruct Hd as [_ Hd]. simplify_eq. left. by apply Hnew.
  - case_decide as Hd; [|done]. destruct Hd as [_ Hd]. simplify_eq. left. by apply Hnew.
  - case_decide as Hd; [|done]. destruct Hd as [_ Hd]. simplify_eq. left. by apply Hnew.
  - case_decide; [|done]. simplify_eq. left. by exists ph.
  - destruct (Ephemeral.calls w !! i) as [[k x]|] eqn:Hi; [|done]. cbn [mbind option_bind] in Hs. case_decide; [|done].
    destruct (Ephemeral.server w).
    + injection Hs as <- _. left. cbn. rewrite lookup_insert. case_decide; [|by exists ph]. subst i.
      rewrite Hc in Hi. injection Hi as <- <-. by eexists.
    + injection Hs as Hs. destruct (Hret i k x (Ok tt) w evs eq_refl Hi Hs) as [|[-> ->]]; [by left|right; right].
      split; [by left|]. cbn. rewrite decide_True by done. by eexists.
  - destruct (Ephemeral.calls w !! i) as [[k x]|] eqn:Hi; [|done]. cbn [mbind option_bind] in Hs. case_decide; [|done].
    destruct (Ephemeral.return_call _ _ _ _) as [w1 es] eqn:E. injection Hs as -> <-.
    destruct (Hret i k x r (Ephemeral.take_server r w) es eq_refl Hi E) as [|[-> ->]]; [by left|right; right].
    split; [right; by eexists|]. cbn. rewrite decide_True by done. by eexists.
  - destruct (decide (i = t)) as [->|Hne]; [right; by left|left].
    destruct (Ephemeral.calls w !! i) as [[k x]|]; [|done]. cbn [mbind option_bind] in Hs. case_decide; [|done].
    simplify_eq. exists ph. cbn. by rewrite lookup_delete_ne.
  - case_decide as Hd; [|done]. destruct Hd as (_ & Hd & _). by rewrite Hd in Hc.
  - destruct (Ephemeral.cleanup w); [|done]. simplify_eq. left. by exists ph.
Qed.

Lemma unanswered_before (r r' : RuntimeEntry unit) ra evs tid :
  rstep r ra = Some (r', evs) -> unanswered tid r' -> unanswered tid r \/ exists req, ra = RReserve tid req.
Proof.
  intros Hc%rstep_tasks (task & Ht & Hst). unfold unanswered.
  destruct Hc as [a|i req Hi|i tk x Hi Hx|i x tk Hi Hx|i op x tk p Hi Hx _|a i x Hi Hx].
  - left. by exists task.
  - rewrite lookup_insert in Ht. case_decide; [subst i; right; by eexists|left; by exists task].
  - left. rewrite lookup_insert in Ht. case_decide; [|by exists task]. subst i. exists x. split; [done|]. by rewrite Hx.
  - left. rewrite lookup_insert in Ht. case_decide; [|by exists task]. subst i. exists x. split; [done|]. by rewrite Hx.
  - left. rewrite lookup_insert in Ht. case_decide; [|by exists task]. subst i. exists x. split; [done|]. by rewrite Hx.
  - left. apply lookup_delete_Some in Ht as [_ Ht]. by exists task.
Qed.

(** A step of the runtime. *)
Lemma on_rt_stops ra s s' ds :
  stops_call s -> on_rt ra s = Some (s', ds) -> (forall tid req, ra <> RReserve tid req) -> stops_call s'.
Proof.
  intros Hst (r & evs & Hr & -> & _)%on_rt_some Hno tid a Hj Hu.
  destruct (unanswered_before _ _ _ _ _ Hr Hu) as [|[req ->]]; [by apply Hst|by destruct (Hno tid req)].
Qed.

(** A step of a server: every request's call stays but, at most, [except]'s. *)
Definition stops_but (except : positive) (s : System) : Prop :=
  forall tid a, tid <> except -> jobs s !! tid = Some (JStop a) -> unanswered tid (rt s) -> has_call s tid a.

Lemma on_server_stops_but t a ea s s' ds :
  stops_call s -> on_server a ea s = Some (s', ds) ->
  (forall x, x <> t -> ea <> Ephemeral.ECancel x) ->
  (forall x w ph, x <> t -> servers s !! a = Some w -> Ephemeral.calls w !! x = Some (Ephemeral.ByRequest, ph) ->
     ea <> Ephemeral.ELock x /\ forall r, ea <> Ephemeral.EReap x r) -> stops_but t s'.
Proof.
  intros Hst (w & w' & evs & Ha & He & -> & _)%on_server_some Hcan Hret tid b Hne Hj Hu.
  destruct (Hst tid b Hj Hu) as (x & ph & Hb & Hc). unfold has_call. cbn [servers set_servers].
  destruct (decide (b = a)) as [->|Hba]; [|exists x, ph; by rewrite lookup_insert_ne].
  rewrite Ha in Hb. injection Hb as <-. destruct (Hret tid w ph Hne Ha Hc) as [H1 H2].
  destruct (server_call_stays _ _ _ _ tid ph He Hc) as [[ph' Hx]|[-> |[[-> |[r ->]] _]]].
  - exists w', ph'. by rewrite lookup_insert_eq.
  - by destruct (Hcan tid Hne).
  - done.
  - by destruct (H2 r).
Qed.

Lemma stops_call_but s t : stops_but t s -> ~ unanswered t (rt s) -> stops_call s.
Proof. intros Hs Hno tid a Hj Hu. apply Hs; [|done..]. by intros ->. Qed.
Lemma stops_but_call s t : stops_call s -> stops_but t s.
Proof. intros Hs tid a _. apply Hs. Qed.

(** A task that has been polled to its answer waits for no call. *)
Lemma answered_poll s tid req tok op s' ds p :
  running s tid = Some (req, tok) -> on_rt (RPoll tid op) s = Some (s', ds) ->
  select_poll (is_cancelled tok (rt s)) req op = Some p -> ~ unanswered tid (rt s').
Proof.
  intros Hr Hs Hp (task & Ht & Hst). destruct (poll_runs s tid req tok op Hr) as (m & Hs' & _ & Hm).
  rewrite Hs in Hs'. injection Hs' as -> _. cbn in Ht. rewrite Hm, Hp in Ht. injection Ht as <-. by destruct (Hst tok p).
Qed.

Lemma drop_job_stops_but s tid j s' ds :
  stops_call s -> drop_job tid j s = Some (s', ds) -> stops_but tid s'.
Proof.
  intros Hst Hs. destruct j as [a|a| |]; cbn [drop_job] in Hs; [| |by injection Hs as <- _; apply stops_but_call..].
  - destruct (workers s !! a); [|done]. cbn [mbind option_bind] in Hs.
    case_decide; [injection Hs as <- _; by apply stops_but_call|].
    apply on_worker_some in Hs as (m & w' & evs & _ & _ & _ & -> & _). by apply (stops_but_call (set_workers _ s) tid).
  - destruct (servers s !! a); [|done]. cbn [mbind option_bind] in Hs.
    case_decide; [injection Hs as <- _; by apply stops_but_call|].
    eapply on_server_stops_but; [done|exact Hs| |done]. congruence.
Qed.

Lemma on_rt_stops_but t ra s s' ds :
  stops_but t s -> on_rt ra s = Some (s', ds) -> (forall tid req, ra <> RReserve tid req) -> stops_but t s'.
Proof.
  intros Hst (r & evs & Hr & -> & _)%on_rt_some Hno tid a Hne Hj Hu.
  destruct (unanswered_before _ _ _ _ _ Hr Hu) as [|[req ->]]; [by apply Hst|by destruct (Hno tid req)].
Qed.

(** A request is made: its call begins. *)
Lemma reserve_stops s tid req j s' ds :
  stops_call s -> unused tid s -> andthen (take_job tid j) (on_rt (RReserve tid req)) (set_jobs (<[tid := j]> (jobs s)) s) = Some (s', ds) ->
  stops_call s'.
Proof.
  intros Hst (_ & _ & Hu) (s1 & ds1 & ds2 & E1 & E2 & _)%andthen_some i b Hj Hun.
  apply on_rt_some in E2 as (r & evs & Hr & -> & _).
  destruct (take_apart tid j r _ _ _ E1) as [Hrt _]. rewrite Hrt in Hr. cbn [jobs set_rt] in Hj. unfold has_call. cbn [servers set_rt].
  assert (Hold : i <> tid -> jobs s !! i = Some (JStop b) -> has_call s i b).
  { intros Hne Hjs. apply Hst; [done|]. by destruct (unanswered_before _ _ _ _ _ Hr Hun) as [|[x [= ->]]]. }
  destruct j as [a|a| |]; cbn [take_job] in E1.
  2:{ apply on_server_some in E1 as (w & w' & evs' & Ha & He & -> & _). cbn in Ha, Hj |- *.
      cbn [Ephemeral.estep] in He. case_decide as Hd; [|done]. injection He as <- _. cbn.
      rewrite lookup_insert in Hj. case_decide as Hi.
      - subst i. injection Hj as <-. eexists _, _. rewrite lookup_insert_eq. split; [done|]. apply lookup_insert_eq.
      - destruct (Hold ltac:(congruence) Hj) as (x & ph & Hb & Hc). destruct (decide (b = a)) as [->|Hba].
        + rewrite Ha in Hb. injection Hb as <-. eexists _, ph. rewrite lookup_insert_eq. split; [done|].
          cbn. by rewrite lookup_insert_ne.
        + exists x, ph. by rewrite lookup_insert_ne. }
  all: injection E1 as <- _; cbn in Hj |- *; rewrite lookup_insert in Hj; case_decide; [done|]; by apply Hold; [congruence|].
Qed.

Lemma stop_poll_stops s tid a req tok ea s' ds :
  stops_call s -> running s tid = Some (req, tok) -> jobs s !! tid = Some (JStop a) ->
  is_cancelled tok (rt s) = false -> server_call tid ea = true -> polling tid req (on_server a ea) s = Some (s', ds) ->
  stops_call s'.
Proof.
  intros Hst Hr Hj Hk Hsc (s1 & ds1 & ds2 & E1 & E2 & _)%polling_some.
  assert (stops_but tid s') as Hb.
  { eapply on_rt_stops_but; [|exact E2|done]. eapply on_server_stops_but; [done|exact E1|by intros x _ ->|].
    intros x w ph Hne _ _. split; [intros ->|intros r ->]; cbn in Hsc; apply bool_decide_eq_true in Hsc; congruence. }
  destruct (on_server_beside _ _ _ _ _ E1) as [[Hrt Hjobs] [evs ->]].
  apply on_server_some in E1 as (w & w' & evs' & Ha & He & -> & [= <-]).
  assert (returned tid [OfServer a (ea, evs)] = head (omap (server_return tid) evs)) as Hret
    by (unfold returned; cbn; by rewrite app_nil_r).
  rewrite Hret in E2. destruct (head (omap (server_return tid) evs)) as [r|] eqn:Hh.
  - apply (stops_call_but s' tid Hb). eapply (answered_poll (set_servers _ s) tid req tok); [exact Hr|exact E2|]. cbn. by rewrite Hk.
  - eapply on_rt_stops; [|exact E2|done]. intros i b Hji Hu. destruct (decide (i = tid)) as [->|Hne].
    + cbn in Hji. rewrite Hj in Hji. injection Hji as <-. destruct (Hst tid a Hj Hu) as (x & ph & Hx & Hc).
      rewrite Ha in Hx. injection Hx as <-.
      destruct (server_call_stays _ _ _ _ tid ph He Hc) as [[ph' Hy]|[-> |[_ Hy]]].
      * exists w', ph'. cbn. by rewrite lookup_insert_eq.
      * done.
      * rewrite Hh in Hy. by destruct Hy.
    + assert (on_server a ea s = Some (set_servers (<[a := w']> (servers s)) s, [OfServer a (ea, evs)])) as E1
        by (unfold on_server; rewrite Ha; cbn [mbind option_bind]; by rewrite He).
      eapply (on_server_stops_but tid a ea s _ _ Hst E1); [by intros x _ ->| |done..].
      intros x v ph Hx _ _. split; [intros ->|intros r ->]; cbn in Hsc; apply bool_decide_eq_true in Hsc; congruence.
Qed.

Lemma itself_stops s a w ea s' ds :
  stops_call s -> servers s !! a = Some w -> server_itself s w ea = true -> on_server a ea s = Some (s', ds) ->
  stops_call s'.
Proof.
  intros Hst Ha Hi Hs.
  assert (forall t, stops_but t s') as Hb.
  { intros t. eapply on_server_stops_but; [done|exact Hs|by intros x _ ->|].
    intros x v ph _ Hv Hc. rewrite Ha in Hv. injection Hv as <-.
    split; [intros ->|intros r ->]; cbn in Hi; by rewrite Hc in Hi. }
  intros tid b. apply (Hb (Pos.succ tid) tid b). lia.
Qed.

Lemma system_step_stops s l s' : names_inv None s -> stops_call s -> system_step s l s' -> stops_call s'.
Proof.
  destruct l as [a ds']. intros Hn Hst [_ Hs]. cbn [fst snd] in *.
  destruct a as [tid req_id j|tid token|ra|tid op|tid wa|tid ea|tid sv op|tid|w h|w wa|w id|sv ea|]; cbn [sstep] in Hs.
  - case_decide as Hu; [|done]. destruct Hu as [Hu _]. by apply (reserve_stops s tid req_id j s' ds').
  - destruct (jobs s !! tid) as [j|] eqn:Hj; [|done]. cbn [mbind option_bind] in Hs.
    apply andthen_some in Hs as (s1 & ds1 & ds2 & E1 & E2 & _). pose proof (on_rt_stops _ _ _ _ Hst E1 ltac:(done)) as Hst1.
    unfold drop_refused in E2. case_decide as Hg; [|by injection E2 as <- _].
    apply (stops_call_but s' tid); [by eapply drop_job_stops_but|]. intros (task & Ht & _).
    destruct (drop_apart tid j (rt s1) _ _ _ E2) as [Hrt _]. rewrite Hrt, Hg in Ht. done.
  - destruct (plain ra) eqn:Hp; [|done]. apply (on_rt_stops ra s s' ds' Hst Hs). by intros t req ->.
  - case_decide; [|done]. by eapply (on_rt_stops _ s s' ds' Hst Hs).
  - destruct (running s tid) as [[req tok]|]; [|done]. cbn [mbind option_bind] in Hs.
    destruct (jobs s !! tid) as [[w| | |]|]; try done. destruct (_ && _); [|done].
    apply polling_some in Hs as (s1 & ds1 & ds2 & E1 & E2 & _). eapply on_rt_stops; [|exact E2|done].
    apply andthen_some in E1 as (s2 & ds3 & ds4 & E1 & E3 & _).
    apply on_worker_some in E1 as (n & w' & evs & _ & _ & _ & -> & _).
    unfold finish_unstarted in E3. cbn in E3. rewrite lookup_insert_eq in E3. cbn [mbind option_bind] in E3.
    case_decide; [|by injection E3 as <- _]. by apply on_worker_some in E3 as (n2 & w2 & evs2 & _ & _ & _ & -> & _).
  - destruct (running s tid) as [[req tok]|] eqn:Hr; [|done]. cbn [mbind option_bind] in Hs.
    destruct (jobs s !! tid) as [[|w| |]|] eqn:Hj; try done.
    destruct (is_cancelled tok (rt s)) eqn:Hk; [done|]. destruct (server_call tid ea) eqn:Hsc; [|done].
    by eapply (stop_poll_stops s tid w req tok ea).
  - destruct (running s tid) as [[req tok]|]; [|done]. cbn [mbind option_bind] in Hs. case_decide as Hc; [|done].
    destruct Hc as (_ & _ & Hno). apply (on_rt_stops _ _ s' ds') in Hs; [done| |done].
    intros i b Hj Hu. destruct (Hst i b Hj Hu) as (x & ph & Hb & Hc). exists x, ph. cbn.
    rewrite lookup_insert_ne; [done|congruence].
  - destruct (running s tid) as [[req tok]|] eqn:Hr; [|done]. cbn [mbind option_bind] in Hs.
    destruct (jobs s !! tid) as [j|] eqn:Hj; [|done]. cbn [mbind option_bind] in Hs.
    destruct (is_cancelled tok (rt s)) eqn:Hk; [|done]. apply andthen_some in Hs as (s1 & ds1 & ds2 & Hd & Hp & _).
    apply (stops_call_but s' tid); [by eapply on_rt_stops_but; [eapply drop_job_stops_but| |]|].
    destruct (drop_apart tid j (rt s) _ _ _ Hd) as [Hrt _].
    eapply (answered_poll s1 tid req tok None); [by rewrite (running_rt s)|done|by rewrite Hrt, Hk].
  - case_decide; [|done]. by injection Hs as <- _.
  - destruct (workers s !! w); [|done]. cbn [mbind option_bind] in Hs. destruct (by_itself _ _); [|done].
    by apply on_worker_some in Hs as (n2 & w2 & evs2 & _ & _ & _ & -> & _).
  - apply post_some in Hs as (n & p & rest & s1 & _ & _ & E & ->). by eapply (on_rt_stops _ s s1 ds' Hst E).
  - destruct (servers s !! sv) as [w|] eqn:Ha; [|done]. cbn [mbind option_bind] in Hs.
    destruct (server_itself s w ea) eqn:Hi; [|done]. by eapply (itself_stops s sv w ea).
  - case_decide; [|done]. by eapply (on_rt_stops _ s s' ds' Hst Hs).
Qed.

Section progress.
Context (s0 : System) (H0 : system_initial s0).
#[local] Notation reachable := (reachable s0).

Lemma calm_reachable who s s' : reachable s -> calm who s s' -> reachable s'.
Proof. intros Hs [(ls & Hr & _) _ _ _ _ _]. by eapply reachable_run. Qed.

Lemma reachable_worker s a n : reachable s -> workers s !! a = Some n -> Worker.worker_inv (node_world n).
Proof.
  intros [ls Hr] Ha. pose proof (sy_worker _ _ _ (run_system_inv s0 ls s H0 Hr) a n Ha) as Hn.
  eapply Worker.run_worker_inv; [apply Worker.worker_new_inv|apply (ni_run _ _ _ _ Hn)].
Qed.

(** ** A worker's pumps end *)

Definition node_with (n : Node) (w : Worker.World) (ob : gmap positive (list Pending)) : Node :=
  {| node_handle := node_handle n; node_world := w; outbox := ob |}.

Lemma posts ps s a n id :
  reachable s -> workers s !! a = Some n -> outbox n !! id = Some ps ->
  exists s', calm ∅ s s' /\ workers s' !! a = Some (node_with n (node_world n) (<[id := []]> (outbox n))).
Proof.
  revert s n. induction ps as [|p ps IH]; intros s n Hs Ha Hb.
  - exists s. split; [apply calm_refl|]. rewrite Ha, insert_id by done. by destruct n.
  - destruct Hs as [ls Hr]. pose proof (run_system_inv s0 ls s H0 Hr) as Hv.
    pose proof (sy_rt_inv (rt s0) (proj1 H0) _ _ Hv) as Hrt.
    pose proof (outbox_ok (rt s0) _ s a n id _ p Hv Ha Hb ltac:(by left)) as Hok.
    destruct (push_possible (rt s) p Hrt Hok) as (r & evs & Hp).
    set (n1 := node_with n (node_world n) (<[id := ps]> (outbox n))).
    set (s1 := set_workers (<[a := n1]> (workers s)) (set_rt r s)).
    assert (system_step s (SPost a id, [OfRuntime (RPushed p, evs)]) s1) as Hst.
    { split; [done|]. cbn [fst snd sstep]. unfold post. rewrite Ha. cbn [mbind option_bind]. rewrite Hb.
      unfold on_rt. by rewrite Hp. }
    assert (calm ∅ s s1) as Hc.
    { cbn [rstep] in Hp. apply on_queue_some in Hp as (w & qevs & _ & -> & _).
      split; try done. by eapply run_unforced. }
    destruct (IH s1 n1) as (s' & Hc' & Ha').
    + apply (calm_reachable ∅ s); [by exists ls|done].
    + apply lookup_insert_eq.
    + apply lookup_insert_eq.
    + exists s'. split; [by apply (calm_app ∅ _ s1)|]. rewrite Ha'. cbn. by rewrite insert_insert_eq.
Qed.

(** A pump's outbox empties. *)
Lemma posted s a n id :
  reachable s -> workers s !! a = Some n ->
  exists s' ob, calm ∅ s s' /\ workers s' !! a = Some (node_with n (node_world n) ob) /\ default [] (ob !! id) = [].
Proof.
  intros Hs Ha. destruct (outbox n !! id) as [ps|] eqn:Hb.
  - destruct (posts ps s a n id Hs Ha Hb) as (s' & Hc & Ha'). eexists s', _. split; [done|]. split; [exact Ha'|].
    by rewrite lookup_insert_eq.
  - exists s, (outbox n). split; [apply calm_refl|]. rewrite Ha, Hb. split; [by destruct n|done].
Qed.

(** A step that a worker takes by itself. *)
Lemma itself_step s a n wa w' evs :
  workers s !! a = Some n -> by_itself n wa = true -> unforced (SWorker a wa) = true -> unposted n wa = [] ->
  Worker.wstep (node_world n) wa = Some (w', evs) ->
  exists s', calm ∅ s s' /\ workers s' !! a = Some (node_with n w' (posting n wa evs)).
Proof.
  intros Ha Hb Hf Hu He. exists (set_workers (<[a := node_with n w' (posting n wa evs)]> (workers s)) s).
  split; [|apply lookup_insert_eq]. apply (calm_beside s (SWorker a wa, [OfWorker a (wa, evs)])); [|done|done].
  split; [done|]. cbn [fst snd sstep]. rewrite Ha. cbn [mbind option_bind]. rewrite Hb. unfold on_worker. rewrite Ha.
  cbn [mbind option_bind]. rewrite decide_True by done. by rewrite He.
Qed.

(** Its calls, and what they left. *)
Definition same_calls (w w' : Worker.World) : Prop :=
  Worker.state w' = Worker.state w /\ Worker.calls w' = Worker.calls w /\
  Worker.shutdown_lock w' = Worker.shutdown_lock w.

Lemma same_calls_trans w1 w2 w3 : same_calls w1 w2 -> same_calls w2 w3 -> same_calls w1 w3.
Proof. intros (A1 & A2 & A3) (B1 & B2 & B3). split_and!; congruence. Qed.

Lemma pump_leaves s a n id p :
  reachable s -> workers s !! a = Some n -> Worker.pumps (node_world n) !! id = Some p ->
  Worker.pump_phase_of p = Worker.Leaving ->
  exists s' n', calm ∅ s s' /\ workers s' !! a = Some n' /\ same_calls (node_world n) (node_world n') /\
    Worker.pumps (node_world n') = delete id (Worker.pumps (node_world n)).
Proof.
  intros Hs Ha Hp Hph. destruct (posted s a n id Hs Ha) as (s1 & ob & Hc & Ha1 & Hb).
  destruct (Worker.wstep (node_world n) (Worker.WLeave id)) as [[w' evs]|] eqn:He;
    [|cbn [Worker.wstep] in He; unfold Worker.pump_leave in He; rewrite Hp in He; cbn [mbind option_bind] in He; by rewrite Hph in He].
  destruct (itself_step s1 a _ (Worker.WLeave id) w' evs Ha1 eq_refl eq_refl Hb He) as (s2 & Hc2 & Ha2).
  eexists s2, _. split; [by apply (calm_app ∅ _ s1)|]. split; [exact Ha2|].
  cbn [Worker.wstep] in He. unfold Worker.pump_leave in He. rewrite Hp in He. cbn [mbind option_bind] in He.
  rewrite Hph in He. by injection He as <- <-.
Qed.

Lemma pump_is_over s a n id p :
  reachable s -> workers s !! a = Some n -> Worker.pumps (node_world n) !! id = Some p ->
  exists s' n', calm ∅ s s' /\ workers s' !! a = Some n' /\ same_calls (node_world n) (node_world n') /\
    Worker.pumps (node_world n') = delete id (Worker.pumps (node_world n)).
Proof.
  intros Hs Ha Hp. destruct (Worker.pump_phase_of p) as [r|] eqn:Hph; [|by eapply pump_leaves].
  destruct (posted s a n id Hs Ha) as (s1 & ob & Hc & Ha1 & Hb).
  set (wa := Worker.WPoll id (node_handle n) Worker.PolledShutDown).
  set (w' := Worker.set_pumps (<[id := Worker.retire p]> (Worker.pumps (node_world n))) (node_world n)).
  assert (exists evs, Worker.wstep (node_world n) wa = Some (w', evs)) as [evs He].
  { cbn [Worker.wstep wa]. unfold Worker.pump_step. rewrite Hp. cbn [mbind option_bind]. rewrite Hph. by eexists. }
  destruct (itself_step s1 a (node_with n (node_world n) ob) wa w' evs Ha1) as (s2 & Hc2 & Ha2); [|done|exact Hb|exact He|].
  { by apply bool_decide_eq_true_2. }
  assert (calm ∅ s s2) as Hc' by (by apply (calm_app ∅ _ s1)).
  destruct (pump_leaves s2 a _ id (Worker.retire p) (calm_reachable _ _ _ Hs Hc') Ha2) as (s3 & n3 & Hc3 & Ha3 & Hsame & Hps).
  - apply lookup_insert_eq.
  - done.
  - exists s3, n3. split; [by apply (calm_app ∅ _ s2)|]. split; [done|]. split; [done|].
    rewrite Hps. cbn. by rewrite delete_insert_eq.
Qed.

Lemma pumps_end k s a n :
  size (Worker.pumps (node_world n)) = k -> reachable s -> workers s !! a = Some n ->
  exists s' n', calm ∅ s s' /\ workers s' !! a = Some n' /\ same_calls (node_world n) (node_world n') /\
    Worker.pumps (node_world n') = ∅.
Proof.
  revert s n. induction k as [|k IH]; intros s n Hk Hs Ha.
  - apply map_size_empty_inv in Hk. exists s, n. split; [apply calm_refl|]. by split_and!.
  - destruct (map_choose (Worker.pumps (node_world n))) as (id & p & Hp); [intros He; by rewrite He, map_size_empty in Hk|].
    destruct (pump_is_over s a n id p Hs Ha Hp) as (s1 & n1 & Hc & Ha1 & Hsame & Hps).
    destruct (IH s1 n1) as (s2 & n2 & Hc2 & Ha2 & Hsame2 & Hps2); [|by eapply calm_reachable|done|].
    + rewrite Hps, map_size_delete, Hp. lia.
    + exists s2, n2. split; [by apply (calm_app ∅ _ s1)|]. split; [done|]. split; [by eapply same_calls_trans|done].
Qed.

Lemma users_end k s a n :
  size (Worker.users (node_world n)) = k -> workers s !! a = Some n -> Worker.pumps (node_world n) = ∅ ->
  exists s' n', calm ∅ s s' /\ workers s' !! a = Some n' /\ same_calls (node_world n) (node_world n') /\
    Worker.pumps (node_world n') = ∅ /\ Worker.users (node_world n') = ∅.
Proof.
  revert s n. induction k as [|k IH]; intros s n Hk Ha Hp.
  - apply size_empty_inv in Hk. exists s, n. split; [apply calm_refl|]. split_and!; try done. by apply leibniz_equiv.
  - destruct (set_choose_L (Worker.users (node_world n))) as [x Hx]; [intros He; by rewrite He, size_empty in Hk|].
    set (w' := Worker.set_users (Worker.users (node_world n) ∖ {[x]}) (node_world n)).
    assert (Worker.wstep (node_world n) (Worker.WRelease x) = Some (w', [])) as He
      by (cbn [Worker.wstep]; by rewrite decide_True).
    destruct (itself_step s a n (Worker.WRelease x) w' [] Ha eq_refl eq_refl eq_refl He) as (s1 & Hc & Ha1).
    destruct (IH s1 (node_with n w' (posting n (Worker.WRelease x) []))) as (s2 & n2 & Hc2 & Ha2 & Hsame & Hps & Hus);
      [|done|done|].
    + cbn. rewrite size_difference by set_solver. rewrite size_singleton. lia.
    + exists s2, n2. split; [by apply (calm_app ∅ _ s1)|]. by split_and!.
Qed.

(** Nobody uses Core, and the streams are over. *)
Definition idle (n : Node) : Prop := Worker.pumps (node_world n) = ∅ /\ Worker.users (node_world n) = ∅.

Lemma worker_idles s a n :
  reachable s -> workers s !! a = Some n ->
  exists s' n', calm ∅ s s' /\ workers s' !! a = Some n' /\ same_calls (node_world n) (node_world n') /\ idle n'.
Proof.
  intros Hs Ha. destruct (pumps_end _ s a n eq_refl Hs Ha) as (s1 & n1 & Hc & Ha1 & Hsame & Hps).
  destruct (users_end _ s1 a n1 eq_refl Ha1 Hps) as (s2 & n2 & Hc2 & Ha2 & Hsame2 & Hp2 & Hu2).
  exists s2, n2. split; [by apply (calm_app ∅ _ s1)|]. split; [done|]. split; [by eapply same_calls_trans|done].
Qed.

(** ** A call of [shutdown] ends *)

(** The task [t], which runs, is in a call of [shutdown] of an idle worker. *)
Record ready (s : System) (a : arc) (n : Node) (t : positive) (req : Z) (tok : arc) : Prop := {
  rd_reachable : reachable s;
  rd_worker : workers s !! a = Some n;
  rd_idle : idle n;
  rd_job : jobs s !! t = Some (JShutdown a);
  rd_running : running s t = Some (req, tok);
  rd_token : is_cancelled tok (rt s) = false;
}.

(** The answer of a call that succeeded. *)
Definition acknowledged (req : Z) : Pending := Ffi.failed_completion req (Ok tt).

(** Its call is over, and the task has its answer. *)
Definition call_over (s : System) (a : arc) (n : Node) (t : positive) (req : Z) (tok : arc) : Prop :=
  exists s' n', calm {[t]} s s' /\ workers s' !! a = Some n' /\ idle n' /\
    Worker.shutdown_lock (node_world n') = None /\
    Worker.calls (node_world n') = delete t (Worker.calls (node_world n)) /\
    tasks (rt s') !! t = Some {| t_req := req; t_state := Answering tok (acknowledged req) |}.

Definition returns (t : positive) (evs : list Worker.event) : option (result string unit) :=
  head (omap (worker_return t) evs).

Lemma shutdown_poll s a n t req tok wa w' evs :
  ready s a n t req tok -> by_call s t wa = true -> Worker.wstep (node_world n) wa = Some (w', evs) ->
  Worker.calls w' !! t <> Some Worker.Unstarted ->
  exists s', calm {[t]} s s' /\ workers s' !! a = Some (node_with n w' (outbox n)) /\
    tasks (rt s') !! t = Some {| t_req := req;
                                 t_state := match returns t evs with
                                            | Some r => Answering tok (Ffi.failed_completion req r)
                                            | None => Running tok
                                            end |}.
Proof.
  intros [Hs Ha _ Hj Hr Hc] Hb He Hu.
  set (s1 := set_workers (<[a := node_with n w' (outbox n)]> (workers s)) s).
  set (op := (fun r => Done (Ffi.failed_completion req r)) <$> returns t evs).
  destruct (poll_runs s1 t req tok op Hr) as (m & Hp & Hoff & Hm).
  exists (set_rt (set_tasks m (rt s1)) s1). split; [|split; [apply lookup_insert_eq|]].
  - apply (calm_tasks s (SShutdown t wa, [OfWorker a (wa, evs)] ++ [OfRuntime (RPoll t op, [])]) _ t m); try done.
    split; [done|]. cbn [fst snd sstep]. rewrite Hr. cbn [mbind option_bind]. rewrite Hj, Hc, Hb. cbn [negb andb].
    unfold polling, andthen.
    assert (posting n wa evs = outbox n /\ unposted n wa = []) as [Hpo Hun] by (by destruct wa).
    unfold on_worker at 1. rewrite Ha. cbn [mbind option_bind]. rewrite decide_True by done. rewrite He.
    cbn [mbind option_bind]. rewrite Hpo. fold (node_with n w' (outbox n)). fold s1.
    assert (finish_unstarted a t s1 = Some (s1, [])) as ->
      by (unfold finish_unstarted; cbn; rewrite lookup_insert_eq; cbn; by rewrite decide_False).
    cbn [mbind option_bind]. rewrite app_nil_r.
    assert (returned t [OfWorker a (wa, evs)] = returns t evs) as ->
      by (unfold returned, returns; cbn; by rewrite app_nil_r).
    fold op. by rewrite Hp.
  - cbn [rt set_rt]. cbn [tasks set_tasks]. rewrite Hm. cbn [rt set_workers s1]. rewrite Hc. unfold op.
    by destruct (returns t evs).
Qed.

(** A poll in which the call goes on, and one in which it returns. *)
Lemma call_goes_on s a n t req tok wa w' evs :
  ready s a n t req tok -> by_call s t wa = true -> Worker.wstep (node_world n) wa = Some (w', evs) ->
  Worker.calls w' !! t <> Some Worker.Unstarted -> returns t evs = None ->
  Worker.pumps w' = Worker.pumps (node_world n) -> Worker.users w' = Worker.users (node_world n) ->
  exists s', calm {[t]} s s' /\ ready s' a (node_with n w' (outbox n)) t req tok.
Proof.
  intros Hrd Hb He Hu Hret Hps Hus.
  destruct (shutdown_poll _ _ _ _ _ _ _ _ _ Hrd Hb He Hu) as (s' & Hc & Ha' & Ht). rewrite Hret in Ht.
  exists s'. split; [done|]. destruct Hrd as [Hs Ha [Hi1 Hi2] Hj Hr Hk]. split.
  - by eapply calm_reachable.
  - done.
  - split; cbn; [by rewrite Hps|by rewrite Hus].
  - by rewrite (cm_jobs _ _ _ Hc).
  - unfold running. by rewrite Ht.
  - unfold is_cancelled in *. by rewrite (cm_tokens _ _ _ Hc).
Qed.

Lemma call_returns s a n t req tok wa w' evs :
  ready s a n t req tok -> by_call s t wa = true -> Worker.wstep (node_world n) wa = Some (w', evs) ->
  returns t evs = Some (Ok tt) -> Worker.pumps w' = Worker.pumps (node_world n) ->
  Worker.users w' = Worker.users (node_world n) -> Worker.shutdown_lock w' = None ->
  Worker.calls w' = delete t (Worker.calls (node_world n)) -> call_over s a n t req tok.
Proof.
  intros Hrd Hb He Hret Hps Hus Hl Hcs.
  assert (Worker.calls w' !! t <> Some Worker.Unstarted) as Hu by (by rewrite Hcs, lookup_delete_eq).
  destruct (shutdown_poll _ _ _ _ _ _ _ _ _ Hrd Hb He Hu) as (s' & Hc & Ha' & Ht). rewrite Hret in Ht.
  destruct (rd_idle _ _ _ _ _ _ Hrd) as [Hi1 Hi2]. eexists s', _. split; [done|]. split; [exact Ha'|].
  split; [split; cbn; [by rewrite Hps|by rewrite Hus]|]. split; [done|]. split; [done|exact Ht].
Qed.

Lemma call_over_later s s1 a n n1 t req tok :
  calm {[t]} s s1 -> delete t (Worker.calls (node_world n1)) = delete t (Worker.calls (node_world n)) ->
  call_over s1 a n1 t req tok -> call_over s a n t req tok.
Proof.
  intros Hc Hd (s' & n' & Hc' & Ha & Hi & Hl & Hcs & Ht). exists s', n'. split; [by eapply calm_app|].
  split; [done|]. split; [done|]. split; [done|]. split; [congruence|done].
Qed.

Lemma closing_ends s a n t req tok :
  ready s a n t req tok -> Worker.calls (node_world n) !! t = Some (Worker.Closing false) -> call_over s a n t req tok.
Proof.
  intros Hrd Hc.
  apply (call_returns s a n t req tok (Worker.WClosed t) (Worker.return_call t (node_world n))
    [Worker.EvFinalized; Worker.EvReturned t (Ok tt)] Hrd); try done.
  - cbn. by apply bool_decide_eq_true_2.
  - cbn [Worker.wstep]. unfold Worker.closed. by rewrite Hc.
  - unfold returns. cbn. by rewrite decide_True.
Qed.

Lemma finalizing_ends s a n t req tok :
  ready s a n t req tok -> Worker.calls (node_world n) !! t = Some (Worker.Finalizing false) -> call_over s a n t req tok.
Proof.
  intros Hrd Hc. pose proof (reachable_worker s a n (rd_reachable _ _ _ _ _ _ Hrd) (rd_worker _ _ _ _ _ _ Hrd)) as Hw.
  destruct (rd_idle _ _ _ _ _ _ Hrd) as [_ Hus].
  destruct (call_goes_on s a n t req tok (Worker.WTryFinalize t false)
    (Worker.set_call t (Worker.Closing false) (node_world n)) [Worker.EvFinalize] Hrd) as (s1 & Hc1 & Hrd1).
  - cbn. by apply bool_decide_eq_true_2.
  - cbn [Worker.wstep]. unfold Worker.try_finalize. rewrite Hc. by rewrite decide_True by (by eapply Worker.sole_owner).
  - cbn. by rewrite lookup_insert_eq.
  - done.
  - done.
  - done.
  - eapply call_over_later; [exact Hc1| |apply (closing_ends s1 a _ t req tok Hrd1), lookup_insert_eq].
    cbn. by rewrite delete_insert_eq.
Qed.

Lemma awaiting_ends s a n t req tok :
  ready s a n t req tok -> Worker.calls (node_world n) !! t = Some Worker.Awaiting -> call_over s a n t req tok.
Proof.
  intros Hrd Hc. pose proof (reachable_worker s a n (rd_reachable _ _ _ _ _ _ Hrd) (rd_worker _ _ _ _ _ _ Hrd)) as Hw.
  destruct (rd_idle _ _ _ _ _ _ Hrd) as [Hps Hus]. destruct (unused_exists s) as [bg Hbg].
  assert (~ 0 < Worker.live_pumps (node_world n)) as Hl by (rewrite (Worker.wi_live _ Hw), Hps, map_size_empty; lia).
  assert (by_call s t (Worker.WAwait t bg false) = true) as Hb by (cbn; by apply bool_decide_eq_true_2).
  destruct (decide (Worker.state (node_world n) = Worker.WFinalized)) as [Hst|Hst].
  - apply (call_returns s a n t req tok (Worker.WAwait t bg false) (Worker.return_call t (node_world n))
      [Worker.EvReturned t (Ok tt)] Hrd Hb); try done.
    + cbn [Worker.wstep]. unfold Worker.await_pumps. by rewrite decide_True, decide_False, decide_True by done.
    + unfold returns. cbn. by rewrite decide_True.
  - destruct (call_goes_on s a n t req tok (Worker.WAwait t bg false)
      (Worker.set_call t (Worker.Finalizing false) (Worker.set_state Worker.WFinalized (node_world n))) [] Hrd Hb)
      as (s1 & Hc1 & Hrd1).
    + cbn [Worker.wstep]. unfold Worker.await_pumps. by rewrite decide_True, decide_False, decide_False by done.
    + cbn. by rewrite lookup_insert_eq.
    + done.
    + done.
    + done.
    + eapply call_over_later; [exact Hc1| |apply (finalizing_ends s1 a _ t req tok Hrd1), lookup_insert_eq].
      cbn. by rewrite delete_insert_eq.
Qed.

(** With a worker that was never started it ends in the poll in which it gets the lock. *)
Lemma unstarted_ends s a n t req tok :
  ready s a n t req tok -> Worker.calls (node_world n) !! t = Some Worker.Queued ->
  Worker.shutdown_lock (node_world n) = None -> Worker.state (node_world n) = Worker.WRunning false ->
  call_over s a n t req tok.
Proof.
  intros [Hs Ha [Hi1 Hi2] Hj Hr Hk] Hc Hl Hst.
  set (w1 := Worker.set_call t Worker.Unstarted (Worker.set_state Worker.WDraining (Worker.set_lock (Some t) (node_world n)))).
  set (w2 := Worker.return_call t (Worker.set_state Worker.WFinalized w1)).
  assert (Worker.wstep (node_world n) (Worker.WLock t) = Some (w1, [Worker.EvInitiate])) as He1.
  { cbn [Worker.wstep]. unfold Worker.shutdown_locked. rewrite Hc. cbn [mbind option_bind]. rewrite decide_True by done.
    cbn [Worker.state Worker.set_lock]. by rewrite Hst. }
  assert (Worker.wstep w1 (Worker.WFinishUnstarted t) = Some (w2, [Worker.EvReturned t (Ok tt)])) as He2.
  { cbn [Worker.wstep]. unfold Worker.finish_unstarted. rewrite decide_True; [done|]. apply lookup_insert_eq. }
  set (s1 := set_workers (<[a := node_with n w1 (outbox n)]> (workers s)) s).
  set (s2 := set_workers (<[a := node_with n w2 (outbox n)]> (workers s1)) s1).
  set (op := Some (Done (Ffi.failed_completion req (Ok tt)))).
  destruct (poll_runs s2 t req tok op Hr) as (m & Hp & Hoff & Hm).
  exists (set_rt (set_tasks m (rt s2)) s2), (node_with n w2 (outbox n)).
  split; [|split; [apply lookup_insert_eq|split; [done|split; [done|split]]]].
  - set (ds := [OfWorker a (Worker.WLock t, [Worker.EvInitiate]);
                OfWorker a (Worker.WFinishUnstarted t, [Worker.EvReturned t (Ok tt)])]).
    apply (calm_tasks s (SShutdown t (Worker.WLock t), ds ++ [OfRuntime (RPoll t op, [])]) _ t m); try done.
    split; [done|]. cbn [fst snd sstep]. rewrite Hr. cbn [mbind option_bind]. rewrite Hj, Hk. cbn [negb andb by_call].
    rewrite bool_decide_eq_true_2 by done. unfold polling, andthen, on_worker at 1. rewrite Ha. cbn [mbind option_bind].
    rewrite decide_True, He1 by done. cbn [mbind option_bind]. change (posting n (Worker.WLock t) [Worker.EvInitiate]) with (outbox n).
    fold (node_with n w1 (outbox n)). fold s1.
    assert (finish_unstarted a t s1 = Some (s2, [OfWorker a (Worker.WFinishUnstarted t, [Worker.EvReturned t (Ok tt)])])) as ->.
    { unfold finish_unstarted, on_worker. cbn [workers set_workers s1]. rewrite lookup_insert_eq.
      cbn [mbind option_bind node_world node_with]. rewrite decide_True by apply lookup_insert_eq.
      rewrite decide_True, He2 by done. done. }
    cbn [mbind option_bind]. change ([OfWorker a (Worker.WLock t, [Worker.EvInitiate])] ++ _) with ds.
    assert (returned t ds = Some (Ok tt)) as -> by (unfold returned; cbn; by rewrite decide_True).
    cbn [fmap option_fmap option_map]. fold op. by rewrite Hp.
  - cbn. by rewrite delete_insert_eq.
  - cbn [rt set_rt]. cbn [tasks set_tasks]. rewrite Hm. cbn [rt set_workers s2 s1]. by rewrite Hk.
Qed.

Lemma queued_ends s a n t req tok :
  ready s a n t req tok -> Worker.calls (node_world n) !! t = Some Worker.Queued ->
  Worker.shutdown_lock (node_world n) = None -> call_over s a n t req tok.
Proof.
  intros Hrd Hc Hl. assert (by_call s t (Worker.WLock t) = true) as Hb by (cbn; by apply bool_decide_eq_true_2).
  assert (Hawait : forall w', Worker.wstep (node_world n) (Worker.WLock t) = Some (w', [Worker.EvInitiate]) ->
    Worker.calls w' = <[t := Worker.Awaiting]> (Worker.calls (node_world n)) ->
    Worker.pumps w' = Worker.pumps (node_world n) -> Worker.users w' = Worker.users (node_world n) ->
    call_over s a n t req tok).
  { intros w' He Hcs Hps Hus.
    destruct (call_goes_on s a n t req tok (Worker.WLock t) w' _ Hrd Hb He) as (s1 & Hc1 & Hrd1); try done.
    - by rewrite Hcs, lookup_insert_eq.
    - eapply call_over_later; [exact Hc1| |apply (awaiting_ends s1 a _ t req tok Hrd1)]; cbn; rewrite Hcs;
        [by rewrite delete_insert_eq|apply lookup_insert_eq]. }
  assert (Worker.wstep (node_world n) (Worker.WLock t) = Worker.shutdown_locked (node_world n) t) as Hstep by done.
  unfold Worker.shutdown_locked in Hstep. rewrite Hc in Hstep. cbn [mbind option_bind] in Hstep. rewrite decide_True in Hstep by done.
  cbn [Worker.state Worker.set_lock] in Hstep.
  destruct (Worker.state (node_world n)) as [[]| |] eqn:Hst; [by eapply Hawait|by apply unstarted_ends|by eapply Hawait|].
  apply (call_returns s a n t req tok (Worker.WLock t) _ [Worker.EvReturned t (Ok tt)] Hrd Hb Hstep); try done.
  unfold returns. cbn. by rewrite decide_True.
Qed.

(** A call that has the lock ends. *)
Lemma holder_ends s a n t req tok ph :
  ready s a n t req tok -> Worker.calls (node_world n) !! t = Some ph -> foreground ph = true ->
  Worker.holds_lock ph = true -> call_over s a n t req tok.
Proof.
  intros Hrd Hc Hf Hh. destruct ph as [| | |[]|[]| |]; try done.
  - destruct Hrd as [Hs Ha _ _ _ _]. destruct (nm_worker _ _ (reachable_names s0 H0 s Hs) a n t _ Ha Hc) as [Hu _].
    by specialize (Hu eq_refl).
  - by apply awaiting_ends.
  - by apply finalizing_ends.
  - by apply closing_ends.
Qed.

(** ** The lock of a worker *)

(** Whoever has it, and whatever becomes of that call, it is given back. *)
Definition unlocked (s : System) (a : arc) (n : Node) (t : positive) : Prop :=
  exists s' n', calm {[t]} s s' /\ workers s' !! a = Some n' /\ idle n' /\
    Worker.shutdown_lock (node_world n') = None /\
    forall x, x <> t -> Worker.calls (node_world n') !! x = Worker.calls (node_world n) !! x.

Lemma call_over_unlocks s a n t req tok : call_over s a n t req tok -> unlocked s a n t.
Proof.
  intros (s' & n' & Hc & Ha & Hi & Hl & Hcs & _). exists s', n'. split_and!; try done.
  intros x Hx. by rewrite Hcs, lookup_delete_ne.
Qed.

(** The background finalizer has it. *)
Lemma background_unlocks s a n t ph :
  reachable s -> workers s !! a = Some n -> idle n -> Worker.calls (node_world n) !! t = Some ph ->
  foreground ph = false -> Worker.holds_lock ph = true -> unlocked s a n t.
Proof.
  intros Hs Ha [Hps Hus] Hc Hf Hh. pose proof (reachable_worker s a n Hs Ha) as Hw.
  assert (Hclose : forall s1 n1, calm ∅ s s1 -> workers s1 !! a = Some n1 -> idle n1 ->
    Worker.calls (node_world n1) = <[t := Worker.Closing true]> (Worker.calls (node_world n)) -> unlocked s a n t).
  { intros s1 n1 Hc1 Ha1 Hi1 Hcs.
    destruct (itself_step s1 a n1 (Worker.WClosed t) (Worker.return_call t (node_world n1)) [Worker.EvFinalized] Ha1)
      as (s2 & Hc2 & Ha2); [|done|done| |].
    - cbn. unfold background. by rewrite Hcs, lookup_insert_eq.
    - cbn [Worker.wstep]. unfold Worker.closed. by rewrite Hcs, lookup_insert_eq.
    - eexists s2, _. split; [eapply calm_weaken; [by apply (calm_app ∅ _ s1)|set_solver]|]. split; [exact Ha2|].
      split; [done|]. split; [done|]. intros x Hx. cbn. by rewrite Hcs, delete_insert_eq, lookup_delete_ne. }
  destruct ph as [| | |[]|[]| |]; try done.
  - destruct (itself_step s a n (Worker.WTryFinalize t false) (Worker.set_call t (Worker.Closing true) (node_world n))
      [Worker.EvFinalize] Ha) as (s1 & Hc1 & Ha1); [|done|done| |by apply (Hclose s1 _ Hc1 Ha1)].
    + cbn. unfold background. by rewrite Hc.
    + cbn [Worker.wstep]. unfold Worker.try_finalize. rewrite Hc. by rewrite decide_True by (by eapply Worker.sole_owner).
  - apply (Hclose s n (calm_refl ∅ s) Ha ltac:(done)). by rewrite insert_id.
Qed.

(** A cancelled request has it. *)
Lemma cancelled_unlocks s a n t req tok ph :
  reachable s -> workers s !! a = Some n -> idle n -> Worker.calls (node_world n) !! t = Some ph ->
  foreground ph = true -> Worker.holds_lock ph = true -> running s t = Some (req, tok) ->
  is_cancelled tok (rt s) = true -> unlocked s a n t.
Proof.
  intros Hs Ha Hi Hc Hf Hh Hr Hk.
  destruct (nm_worker _ _ (reachable_names s0 H0 s Hs) a n t _ Ha Hc) as [Hu Hx]. rewrite Hf in Hx. destruct Hx as [Hj _].
  assert (exists evs, Worker.wstep (node_world n) (Worker.WCancel t) = Some (Worker.return_call t (node_world n), evs)) as [evs He].
  { cbn [Worker.wstep]. unfold Worker.cancel_call. rewrite Hc. destruct ph as [| | |[]|[]| |]; try done; [|by eexists..].
    by specialize (Hu eq_refl). }
  set (n1 := node_with n (Worker.return_call t (node_world n)) (outbox n)).
  set (s1 := set_workers (<[a := n1]> (workers s)) s). destruct (poll_runs s1 t req tok None Hr) as (m & Hp & Hoff & _).
  exists (set_rt (set_tasks m (rt s1)) s1), n1. split; [|split; [apply lookup_insert_eq|split; [done|split; [done|]]]].
  - apply (calm_tasks s (SCancelled t, [OfWorker a (Worker.WCancel t, evs)] ++ [OfRuntime (RPoll t None, [])]) _ t m); try done.
    split; [done|]. cbn [fst snd sstep]. rewrite Hr. cbn [mbind option_bind]. rewrite Hj. cbn [mbind option_bind].
    rewrite Hk. unfold andthen. cbn [drop_job]. rewrite Ha. cbn [mbind option_bind]. rewrite Hc, decide_False by done.
    unfold on_worker. rewrite Ha. cbn [mbind option_bind]. rewrite decide_True, He by done. cbn [mbind option_bind].
    change (posting n (Worker.WCancel t) evs) with (outbox n). fold (node_with n (Worker.return_call t (node_world n)) (outbox n)).
    fold n1 s1. by rewrite Hp.
  - intros x Hx. cbn. by rewrite lookup_delete_ne.
Qed.

Lemma worker_unlocks s a n t :
  reachable s -> workers s !! a = Some n -> idle n -> Worker.shutdown_lock (node_world n) = Some t -> unlocked s a n t.
Proof.
  intros Hs Ha Hi Hl. pose proof (reachable_worker s a n Hs Ha) as Hw.
  destruct (proj1 (Worker.wi_lock _ Hw t) Hl) as (ph & Hc & Hh).
  destruct (nm_worker _ _ (reachable_names s0 H0 s Hs) a n t _ Ha Hc) as [_ Hx].
  destruct (foreground ph) eqn:Hf; [|by eapply background_unlocks].
  destruct Hx as [Hj [[req tok] Hr]]. destruct (is_cancelled tok (rt s)) eqn:Hk; [by eapply cancelled_unlocks|].
  by eapply call_over_unlocks, holder_ends.
Qed.

(** ** A worker's shutdown request *)

(** The task [tid] can come to its answer [p], with every request pending as it was. *)
Definition comes_to_answer (s : System) (tid : positive) (req : Z) (tok : arc) (p : Pending) : Prop :=
  exists who s', calm who s s' /\ tasks (rt s') !! tid = Some {| t_req := req; t_state := Answering tok p |}.

Lemma comes_later who s s1 tid req tok p :
  calm who s s1 -> comes_to_answer s1 tid req tok p -> comes_to_answer s tid req tok p.
Proof.
  intros Hc (who' & s' & Hc' & Ht). exists (who ∪ who'), s'. split; [by eapply calm_trans|done].
Qed.

Lemma calm_running who s s' tid req tok :
  calm who s s' -> tid ∉ who -> running s tid = Some (req, tok) -> is_cancelled tok (rt s) = false ->
  running s' tid = Some (req, tok) /\ is_cancelled tok (rt s') = false.
Proof.
  intros Hc Hw Hr Hk. unfold running, is_cancelled in *. by rewrite (cm_tasks _ _ _ Hc), (cm_tokens _ _ _ Hc).
Qed.

Lemma calm_ready who s s' a n n' tid req tok :
  ready s a n tid req tok -> calm who s s' -> tid ∉ who -> workers s' !! a = Some n' -> idle n' ->
  ready s' a n' tid req tok.
Proof.
  intros [Hs Ha Hi Hj Hr Hk] Hc Hw Ha' Hi'. destruct (calm_running _ _ _ _ _ _ Hc Hw Hr Hk) as [Hr' Hk'].
  split; try done; [by eapply calm_reachable|by rewrite (cm_jobs _ _ _ Hc)].
Qed.

Lemma call_over_answers s a n tid req tok : call_over s a n tid req tok -> comes_to_answer s tid req tok (acknowledged req).
Proof. intros (s' & n' & Hc & _ & _ & _ & _ & Ht). by exists {[tid]}, s'. Qed.

Lemma queued_answers s a n tid req tok :
  ready s a n tid req tok -> Worker.calls (node_world n) !! tid = Some Worker.Queued -> comes_to_answer s tid req tok (acknowledged req).
Proof.
  intros Hrd Hc. destruct (Worker.shutdown_lock (node_world n)) as [t|] eqn:Hl; [|by eapply call_over_answers, queued_ends].
  pose proof (reachable_worker s a n (rd_reachable _ _ _ _ _ _ Hrd) (rd_worker _ _ _ _ _ _ Hrd)) as Hw.
  destruct (proj1 (Worker.wi_lock _ Hw t) Hl) as (ph & Hct & Hh). assert (t <> tid) as Hne by (intros ->; simplify_eq; done).
  destruct (worker_unlocks s a n t) as (s1 & n1 & Hc1 & Ha1 & Hi1 & Hl1 & Ho1); [by destruct Hrd..|done|].
  assert (ready s1 a n1 tid req tok) as Hrd1 by (by eapply calm_ready; [|done|set_solver|..]).
  eapply comes_later, call_over_answers, queued_ends; [done..| |done]. by rewrite Ho1.
Qed.

Lemma shutdown_answers s tid a req tok :
  reachable s -> jobs s !! tid = Some (JShutdown a) -> running s tid = Some (req, tok) ->
  is_cancelled tok (rt s) = false -> comes_to_answer s tid req tok (acknowledged req).
Proof.
  intros Hs Hj Hr Hk. destruct (nm_made _ _ (reachable_names s0 H0 s Hs) tid _ Hj) as [n Ha].
  destruct (worker_idles s a n Hs Ha) as (s1 & n1 & Hc1 & Ha1 & _ & Hi1). apply (comes_later ∅ s s1 tid req tok _ Hc1).
  destruct (calm_running _ _ _ tid _ _ Hc1 ltac:(set_solver) Hr Hk) as [Hr1 Hk1].
  pose proof (calm_reachable _ _ _ Hs Hc1) as Hs1. rewrite <- (cm_jobs _ _ _ Hc1) in Hj.
  assert (ready s1 a n1 tid req tok) as Hrd by done. clear Hs Hr Hk Ha Hc1.
  destruct (Worker.calls (node_world n1) !! tid) as [ph|] eqn:Hc.
  - destruct (nm_worker _ _ (reachable_names s0 H0 s1 Hs1) a n1 tid ph Ha1 Hc) as [_ Hx].
    destruct (foreground ph) eqn:Hf; [|congruence].
    destruct (Worker.holds_lock ph) eqn:Hh; [by eapply call_over_answers, holder_ends|].
    destruct ph as [| | |[]|[]| |]; try done. by eapply queued_answers.
  - destruct (call_goes_on s1 a n1 tid req tok (Worker.WShutdown tid) (Worker.set_call tid Worker.Queued (node_world n1)) [] Hrd)
      as (s2 & Hc2 & Hrd2); try done.
    + cbn. by apply bool_decide_eq_true_2.
    + cbn [Worker.wstep]. by rewrite decide_True.
    + cbn. by rewrite lookup_insert_eq.
    + eapply comes_later; [exact Hc2|]. eapply queued_answers; [exact Hrd2|]. apply lookup_insert_eq.
Qed.

(** ** The lock of a server *)

(** What the end of Core's shutdown does to a server, whoever waited for it. *)
Lemma reap_possible w t k :
  Ephemeral.calls w !! t = Some (k, Ephemeral.Reaping) ->
  exists w' evs, Ephemeral.estep w (Ephemeral.EReap t (Ok tt)) = Some (w', evs) /\ Ephemeral.lock w' = None /\
    (forall x, x <> t -> Ephemeral.calls w' !! x = Ephemeral.calls w !! x) /\
    (forall ph, Ephemeral.calls w' !! t <> Some (Ephemeral.ByRuntimeFree, ph)) /\
    (k = Ephemeral.ByRequest -> evs = [Ephemeral.EvShutdown (Ok tt); Ephemeral.EvReturned t (Ok tt)]).
Proof.
  intros Hc. cbn [Ephemeral.estep]. rewrite Hc. cbn [mbind option_bind]. rewrite decide_True by done.
  destruct k; cbn [Ephemeral.return_call]; eexists _, _; (split; [done|]); (split; [done|]); cbn.
  all: (split; [intros x Hx|split; [intros ph|done]]).
  all: by rewrite ?lookup_insert_eq, ?lookup_insert_ne, ?lookup_delete_eq, ?lookup_delete_ne.
Qed.

(** The poll of a task that stops a server. *)
Lemma stop_poll s a w t req tok ea w' evs :
  servers s !! a = Some w -> jobs s !! t = Some (JStop a) -> running s t = Some (req, tok) ->
  is_cancelled tok (rt s) = false -> server_call t ea = true -> Ephemeral.estep w ea = Some (w', evs) ->
  exists ds s', system_step s (SStop t ea, ds) s' /\ revents (runtime_trace ds) = [] /\ calm {[t]} s s' /\
    servers s' !! a = Some w' /\
    tasks (rt s') !! t = Some {| t_req := req;
                                 t_state := match head (omap (server_return t) evs) with
                                            | Some r => Answering tok (Ffi.failed_completion req r)
                                            | None => Running tok
                                            end |}.
Proof.
  intros Ha Hj Hr Hk Hsc He. set (s1 := set_servers (<[a := w']> (servers s)) s).
  set (op := (fun r => Done (Ffi.failed_completion req r)) <$> head (omap (server_return t) evs)).
  destruct (poll_runs s1 t req tok op Hr) as (m & Hp & Hoff & Hm).
  exists ([OfServer a (ea, evs)] ++ [OfRuntime (RPoll t op, [])]), (set_rt (set_tasks m (rt s1)) s1).
  assert (system_step s (SStop t ea, [OfServer a (ea, evs)] ++ [OfRuntime (RPoll t op, [])]) (set_rt (set_tasks m (rt s1)) s1)) as Hst.
  { split; [done|]. cbn [fst snd sstep]. rewrite Hr. cbn [mbind option_bind]. rewrite Hj, Hk, Hsc. cbn [negb andb].
    unfold polling, on_server. rewrite Ha. cbn [mbind option_bind]. rewrite He. cbn [mbind option_bind]. fold s1.
    assert (returned t [OfServer a (ea, evs)] = head (omap (server_return t) evs)) as ->
      by (unfold returned; cbn; by rewrite app_nil_r).
    fold op. by rewrite Hp. }
  split; [exact Hst|]. split; [done|]. split; [by apply (calm_tasks s _ _ t m Hst)|]. split; [apply lookup_insert_eq|].
  cbn [rt set_rt]. cbn [tasks set_tasks]. rewrite Hm. cbn [rt set_servers s1]. rewrite Hk. unfold op.
  by destruct (head _).
Qed.

(** One step gives a server's mutex back: the call that has it is a request's, which ends by its task or
    drops with it, or the bridge's own. *)
Lemma server_unlocks s a w t :
  reachable s -> servers s !! a = Some w -> Ephemeral.lock w = Some t ->
  exists act ds s' w', system_step s (act, ds) s' /\
    (act = SCancelled t \/ act = SStop t (Ephemeral.EReap t (Ok tt)) \/ act = SServer a (Ephemeral.EReap t (Ok tt))) /\
    revents (runtime_trace ds) = [] /\ calm {[t]} s s' /\ servers s' !! a = Some w' /\ Ephemeral.lock w' = None /\
    forall x, x <> t -> Ephemeral.calls w' !! x = Ephemeral.calls w !! x.
Proof.
  intros Hs Ha Hl. pose proof (reachable_server s0 H0 s a w Hs Ha) as Hw.
  destruct (proj1 (Ephemeral.si_lock w Hw t) Hl) as [k Hc].
  destruct (reap_possible w t k Hc) as (w' & evs & He & Hl' & Ho & _).
  pose proof (nm_server _ _ (reachable_names s0 H0 s Hs) a w t _ _ Ha Hc) as Hn.
  case_decide as Hk.
  - subst k. destruct Hn as (Hj & _ & Hr). destruct (Hr eq_refl) as [[req tok] Hrg]. clear Hr.
    destruct (is_cancelled tok (rt s)) eqn:Hcan.
    + set (w1 := Ephemeral.set_calls (delete t (Ephemeral.calls w)) None (Ephemeral.tokens w) w).
      set (s1 := set_servers (<[a := w1]> (servers s)) s). destruct (poll_runs s1 t req tok None Hrg) as (m & Hp & Hoff & _).
      set (ds := [OfServer a (Ephemeral.ECancel t, [])] ++ [OfRuntime (RPoll t None, [])]).
      assert (system_step s (SCancelled t, ds) (set_rt (set_tasks m (rt s1)) s1)) as Hst.
      { split; [done|]. cbn [fst snd sstep]. rewrite Hrg. cbn [mbind option_bind]. rewrite Hj. cbn [mbind option_bind].
        rewrite Hcan. unfold andthen. cbn [drop_job]. rewrite Ha. cbn [mbind option_bind]. rewrite Hc, decide_False by done.
        unfold on_server. rewrite Ha. cbn [mbind option_bind Ephemeral.estep]. rewrite Hc. cbn [mbind option_bind].
        rewrite !decide_True by done. cbn [mbind option_bind]. fold w1 s1. by rewrite Hp. }
      exists (SCancelled t), ds, (set_rt (set_tasks m (rt s1)) s1), w1. split; [exact Hst|]. split; [by left|].
      split; [done|]. split; [by apply (calm_tasks s _ _ t m Hst)|]. split; [apply lookup_insert_eq|].
      split; [done|]. intros x Hx. cbn. by rewrite lookup_delete_ne.
    + destruct (stop_poll s a w t req tok (Ephemeral.EReap t (Ok tt)) w' evs Ha Hj Hrg Hcan) as (ds & s' & Hst & Htr & Hcm & Ha' & _);
        [by apply bool_decide_eq_true_2|done|].
      exists (SStop t (Ephemeral.EReap t (Ok tt))), ds, s', w'. split; [done|]. split; [right; by left|done].
  - set (s1 := set_servers (<[a := w']> (servers s)) s).
    assert (system_step s (SServer a (Ephemeral.EReap t (Ok tt)), [OfServer a (Ephemeral.EReap t (Ok tt), evs)]) s1) as Hst.
    { split; [done|]. cbn [fst snd sstep]. rewrite Ha. cbn [mbind option_bind server_itself]. rewrite Hc.
      unfold on_server. rewrite Ha. cbn [mbind option_bind]. rewrite He. by destruct k. }
    eexists _, _, s1, w'. split; [exact Hst|]. split; [right; by right|]. split; [done|].
    split; [eapply calm_weaken; [by apply (calm_beside s _ _ Hst)|set_solver]|]. split; [apply lookup_insert_eq|done].
Qed.

(** ** A server's stop *)

Lemma reachable_stops s : reachable s -> stops_call s.
Proof.
  intros [ls Hr]. induction Hr as [s|s ls s1 l s2 Hr IH Hs].
  - destruct H0 as (_ & _ & _ & Hj). intros tid a Hx. by rewrite Hj in Hx.
  - apply (system_step_stops s1 l s2); [by eapply run_names|by apply IH|done].
Qed.

Lemma stop_reaps s a w t req tok :
  servers s !! a = Some w -> jobs s !! t = Some (JStop a) -> running s t = Some (req, tok) ->
  is_cancelled tok (rt s) = false -> Ephemeral.calls w !! t = Some (Ephemeral.ByRequest, Ephemeral.Reaping) ->
  comes_to_answer s t req tok (acknowledged req).
Proof.
  intros Ha Hj Hr Hk Hc. destruct (reap_possible w t _ Hc) as (w' & evs & He & _ & _ & _ & Hev).
  destruct (stop_poll s a w t req tok (Ephemeral.EReap t (Ok tt)) w' evs Ha Hj Hr Hk) as (ds & s' & _ & _ & Hcm & _ & Ht);
    [by apply bool_decide_eq_true_2|done|].
  rewrite (Hev eq_refl) in Ht. cbn in Ht. rewrite decide_True in Ht by done. 
  exists {[t]}, s'. split; [exact Hcm|exact Ht].
Qed.

Lemma stop_locks s a w t req tok :
  servers s !! a = Some w -> jobs s !! t = Some (JStop a) -> running s t = Some (req, tok) ->
  is_cancelled tok (rt s) = false -> Ephemeral.calls w !! t = Some (Ephemeral.ByRequest, Ephemeral.Waiting) ->
  Ephemeral.lock w = None -> comes_to_answer s t req tok (acknowledged req).
Proof.
  intros Ha Hj Hr Hk Hc Hl. assert (server_call t (Ephemeral.ELock t) = true) as Hsc by (by apply bool_decide_eq_true_2).
  destruct (Ephemeral.estep w (Ephemeral.ELock t)) as [[w' evs]|] eqn:He;
    [|cbn [Ephemeral.estep] in He; rewrite Hc in He; cbn [mbind option_bind] in He; rewrite decide_True in He by done;
      by destruct (Ephemeral.server w)].
  destruct (stop_poll s a w t req tok _ w' evs Ha Hj Hr Hk Hsc He) as (ds & s' & _ & _ & Hcm & Ha' & Ht).
  cbn [Ephemeral.estep] in He. rewrite Hc in He. cbn [mbind option_bind] in He. rewrite decide_True in He by done.
  destruct (Ephemeral.server w); injection He as <- <-.
  - apply (comes_later {[t]} s s' t req tok _ Hcm). eapply stop_reaps; [exact Ha'|by rewrite (cm_jobs _ _ _ Hcm)| | |].
    + unfold running. by rewrite Ht.
    + unfold is_cancelled in *. by rewrite (cm_tokens _ _ _ Hcm).
    + apply lookup_insert_eq.
  - cbn in Ht. rewrite decide_True in Ht by done. 
  exists {[t]}, s'. split; [exact Hcm|exact Ht].
Qed.

Lemma stop_answers s tid a req tok :
  reachable s -> jobs s !! tid = Some (JStop a) -> running s tid = Some (req, tok) ->
  is_cancelled tok (rt s) = false -> comes_to_answer s tid req tok (acknowledged req).
Proof.
  intros Hs Hj Hr Hk.
  destruct (reachable_stops s Hs tid a Hj) as (w & [] & Ha & Hc); [by apply running_unanswered; eexists| |by eapply stop_reaps].
  destruct (Ephemeral.lock w) as [t|] eqn:Hl; [|by eapply stop_locks].
  assert (tid <> t) as Hne.
  { intros <-. destruct (proj1 (Ephemeral.si_lock w (reachable_server s0 H0 s a w Hs Ha) tid) Hl) as [k Hx]. congruence. }
  destruct (server_unlocks s a w t Hs Ha Hl) as (act & ds & s1 & w1 & _ & _ & _ & Hcm & Ha1 & Hl1 & Ho1).
  destruct (calm_running _ _ _ tid _ _ Hcm ltac:(set_solver) Hr Hk) as [Hr1 Hk1].
  apply (comes_later {[t]} s s1 tid req tok _ Hcm). eapply stop_locks; try done; [by rewrite (cm_jobs _ _ _ Hcm)|by rewrite Ho1].
Qed.

(** ** Any request *)

(** An operation of another kind is ready when its time comes. *)
Lemma other_answers s tid req tok j :
  jobs s !! tid = Some j -> j = JStart \/ j = JOther -> running s tid = Some (req, tok) ->
  is_cancelled tok (rt s) = false -> comes_to_answer s tid req tok (pending_ack req).
Proof.
  intros Hj Hjo Hr Hk. set (op := Some (Done (pending_ack req))).
  destruct (poll_runs s tid req tok op Hr) as (m & Hp & Hoff & Hm). rewrite Hk in Hm.
  exists {[tid]}, (set_rt (set_tasks m (rt s)) s). split; [|exact Hm].
  apply (calm_tasks s (SPoll tid op, [OfRuntime (RPoll tid op, [])]) _ tid m); try done. split.
  - split; [done|]. intros task Ht. apply running_some in Hr as (task' & Ht' & <- & _). by simplify_eq.
  - cbn [fst snd sstep]. rewrite Hj, decide_True; [done|]. by destruct Hjo as [-> | ->]; auto.
Qed.

(** A cancelled operation drops. *)
Lemma cancelled_answers s tid req tok :
  reachable s -> running s tid = Some (req, tok) -> is_cancelled tok (rt s) = true ->
  exists p, comes_to_answer s tid req tok p.
Proof.
  intros Hs Hr Hk. pose proof Hr as (task & Ht & _ & _)%running_some. destruct (reachable_job s0 H0 s tid task Hs Ht) as [j Hj].
  destruct (drop_possible s0 H0 s tid j Hs Hj) as (s1 & ds1 & Hd & _).
  destruct (drop_names s tid j s1 ds1 (reachable_names s0 H0 s Hs) Hj Hd) as (_ & [Hb Hjb] & _).
  assert (running s1 tid = Some (req, tok)) as Hr1 by (by rewrite (running_rt s)).
  destruct (poll_runs s1 tid req tok None Hr1) as (m & Hp & Hoff & Hm). rewrite Hb, Hk in Hm.
  eexists. exists {[tid]}, (set_rt (set_tasks m (rt s1)) s1). split; [|exact Hm].
  apply (calm_tasks s (SCancelled tid, ds1 ++ [OfRuntime (RPoll tid None, [])]) _ tid m); [|done|done|cbn; by rewrite Hb|by rewrite <- Hb].
  split; [done|]. cbn [fst snd sstep]. rewrite Hr. cbn [mbind option_bind]. rewrite Hj. cbn [mbind option_bind]. rewrite Hk.
  unfold andthen. rewrite Hd. cbn [mbind option_bind]. by rewrite Hp.
Qed.

(** Unless it is cancelled already, a request to shut a worker or a server down is acknowledged. *)
Definition stops (j : job) : bool := match j with JShutdown _ | JStop _ => true | _ => false end.

Lemma running_answers s tid req tok :
  reachable s -> running s tid = Some (req, tok) ->
  exists p, comes_to_answer s tid req tok p /\
    (is_cancelled tok (rt s) = false -> forall j, jobs s !! tid = Some j -> stops j = true -> p = acknowledged req).
Proof.
  intros Hs Hr. destruct (is_cancelled tok (rt s)) eqn:Hk.
  { destruct (cancelled_answers s tid req tok Hs Hr Hk) as [p Hp]. by exists p. }
  pose proof Hr as (task & Ht & _ & _)%running_some. destruct (reachable_job s0 H0 s tid task Hs Ht) as [j Hj].
  assert (Hother : stops j = false -> j = JStart \/ j = JOther) by (destruct j; [done|done|by left|by right]).
  destruct (stops j) eqn:Hst.
  - exists (acknowledged req). split; [|done]. destruct j as [a|a| |]; try done; [by eapply shutdown_answers|by eapply stop_answers].
  - exists (pending_ack req). split; [by eapply other_answers; [|by apply Hother|..]|]. intros _ j' Hj' Hst'. by simplify_eq.
Qed.

(** A request that is registered comes to its answer. *)
Lemma registered_answers s tid task tok :
  reachable s -> tasks (rt s) !! tid = Some task -> task_token task = Some tok ->
  exists p, comes_to_answer s tid (t_req task) tok p /\
    (is_cancelled tok (rt s) = false -> unanswered tid (rt s) ->
     forall j, jobs s !! tid = Some j -> stops j = true -> p = acknowledged (t_req task)).
Proof.
  intros Hs Ht Htok. destruct task as [req [|tk|tk|tk p]]; cbn in Htok; try done; injection Htok as ->; cbn [t_req].
  - set (m := <[tid := {| t_req := req; t_state := Running tok |}]> (tasks (rt s))).
    assert (calm {[tid]} s (set_rt (set_tasks m (rt s)) s)) as Hc.
    { apply (calm_tasks s (SRuntime (RSpawn tid), [OfRuntime (RSpawn tid, [])]) _ tid m); try done.
      - split; [done|]. cbn [fst snd sstep plain]. unfold on_rt. cbn [rstep]. unfold spawn_task. by rewrite Ht.
      - intros x Hx. by apply lookup_insert_ne. }
    destruct (running_answers (set_rt (set_tasks m (rt s)) s) tid req tok) as (p & Hp & Hack).
    + by eapply calm_reachable.
    + unfold running. cbn. unfold m. by rewrite lookup_insert_eq.
    + exists p. split; [by apply (comes_later {[tid]} s _ tid req tok p Hc)|]. intros Hk _. by apply Hack.
  - destruct (running_answers s tid req tok) as (p & Hp & Hack); [done|unfold running; by rewrite Ht|].
    exists p. split; [done|]. intros Hk _. by apply Hack.
  - exists p. split; [exists ∅, s; split; [apply calm_refl|done]|].
    intros _ (x & Hx & Hst). rewrite Ht in Hx. injection Hx as <-. by destruct (Hst tok p).
Qed.

(** The answer is pushed, and the queue takes it. *)
Lemma answer_delivered s tid req tok p :
  reachable s -> freeing (rt s) = Open -> tasks (rt s) !! tid = Some {| t_req := req; t_state := Answering tok p |} ->
  exists ds s', system_step s (SRuntime (RAnswer tid), ds) s' /\ delivered ds = [p] /\ p_req_id p = req /\
    freeing (rt s') = Open /\ pending (rt s') = delete req (pending (rt s)) /\ tokens (rt s') = tokens (rt s).
Proof.
  intros Hs Hf Ht. pose proof (reachable_rt s0 H0 s Hs) as Hrt.
  destruct (ri_result _ Hrt tid _ tok p Ht eq_refl) as [Hok Hreq].
  destruct (ri_token _ Hrt tid _ tok Ht eq_refl) as [_ Hp]. rewrite Hf in Hp. cbn [t_req] in Hp, Hreq.
  pose proof (ri_stage _ Hrt) as Hst. rewrite Hf in Hst. destruct Hst as [_ Hcl].
  set (r1 := set_tasks (delete tid (tasks (rt s))) (set_pending (delete req (pending (rt s))) (rt s))).
  destruct (on_queue_push r1 p (ri_queue _ Hrt) Hok) as (w & Hw & _ & _). cbn [q r1 set_tasks set_pending] in Hw. rewrite Hcl in Hw.
  exists [OfRuntime (RAnswer tid, [EvQueue (APush p, [Accepted p])])], (set_rt (set_q w r1) s). split; [|done]. split; [done|].
  cbn [fst snd sstep plain]. unfold on_rt. cbn [rstep]. unfold answer_task. rewrite Ht. cbn [mbind option_bind t_state t_req].
  unfold locked. rewrite Hf. unfold retire. rewrite Hp. cbn [fst snd]. rewrite bool_decide_eq_true_2 by (by eexists).
  fold r1. by rewrite Hw.
Qed.

(** [tid] is the task of the pending request [req], which has no answer yet, and runs [j]. *)
Definition works_on (s : System) (tid : positive) (tok : arc) (j : job) : Prop :=
  jobs s !! tid = Some j /\ unanswered tid (rt s) /\
  exists task, tasks (rt s) !! tid = Some task /\ task_token task = Some tok.

Lemma pending_answered s req tok :
  reachable s -> freeing (rt s) = Open -> pending (rt s) !! req = Some tok ->
  exists ls s' p, run system_step s ls s' /\ Forall (fun l => unforced l.1 = true) ls /\
    p ∈ delivered (sdeeds ls) /\ p_req_id p = req /\ freeing (rt s') = Open /\
    pending (rt s') = delete req (pending (rt s)) /\ tokens (rt s') = tokens (rt s) /\
    (is_cancelled tok (rt s) = false ->
     forall tid j, works_on s tid tok j -> stops j = true -> p = acknowledged req).
Proof.
  intros Hs Hf Hp. pose proof (reachable_rt s0 H0 s Hs) as Hrt.
  destruct (ri_pending _ Hrt req tok Hp) as (tid & task & Ht & <- & Htok).
  destruct (registered_answers s tid task tok Hs Ht Htok) as (p & (who & s1 & Hc & Ht1) & Hack).
  pose proof (cm_freeing _ _ _ Hc) as Hf1. rewrite Hf in Hf1.
  destruct (answer_delivered s1 tid _ tok p (calm_reachable _ _ _ Hs Hc) Hf1 Ht1) as (ds & s2 & Hst & Hd & Hreq & Hf2 & Hp2 & Hk2).
  destruct (cm_run _ _ _ Hc) as (ls & R & U). exists (ls ++ [(SRuntime (RAnswer tid), ds)]), s2, p.
  split; [by eapply run_snoc|]. split; [apply Forall_app; split; [done|by constructor]|].
  split; [|split; [done|split; [done|split; [by rewrite Hp2, (cm_pending _ _ _ Hc)|split; [by rewrite Hk2, (cm_tokens _ _ _ Hc)|]]]]].
  { rewrite sdeeds_app, sdeeds_one, delivered_app. cbn [snd]. rewrite Hd. apply elem_of_app. right. by apply list_elem_of_singleton. }
  intros Hk tid' j (Hj & Hu & task' & Ht' & Htok'). assert (tid' = tid) as -> by eauto using ri_unique.
  by apply (Hack Hk Hu j).
Qed.
End progress.

(** ** Properties *)

(** C7 No request hangs.  From every reachable state of an open runtime, whatever the other requests,
    pumps, frees and background finalizers are at, every pending request can be answered by letting
    what is under way go on ([unforced]): nothing is cancelled (every token is as it was), freed,
    force-closed or asked for anew.  Those steps deliver a completion under its id and leave every other
    request pending and the runtime open.  Unless it had been cancelled before, a request to shut a
    worker or a server down is thereby told that it succeeded: so no such call waits for a mutex that
    cannot come free, for pumps that cannot end, for references to Core's worker that are never given
    back, or for a finalization that cannot be. *)
Theorem no_request_hangs s0 ls s req tok :
  system_initial s0 -> run system_step s0 ls s -> freeing (rt s) = Open -> pending (rt s) !! req = Some tok ->
  exists ls' s' p, run system_step s ls' s' /\ Forall (fun l => unforced l.1 = true) ls' /\
    p ∈ delivered (sdeeds ls') /\ p_req_id p = req /\ freeing (rt s') = Open /\
    pending (rt s') = delete req (pending (rt s)) /\ tokens (rt s') = tokens (rt s) /\
    (is_cancelled tok (rt s) = false ->
     forall tid j, works_on s tid tok j -> stops j = true -> p = acknowledged req).
Proof. intros H0 Hr Hf Hp. apply (pending_answered s0 H0 s req); [by exists ls|done..]. Qed.

(** C12 Calls live and die with their requests.  In every reachable state: a request's call of a
    worker's [shutdown] is there only while the request's task runs it, and one of a server's only while
    the request has no answer; conversely a request to stop a server has its call, and so the server's
    entry, from the moment it is made until it has its answer, is refused or is dropped.  Hence a mutex
    is never left locked by a request that was answered, cancelled or refused: whoever holds a worker's
    is a request whose task runs or the background finalizer, and whoever holds a server's is a request
    whose task runs or a call of the bridge's own, which is shutting the child down. *)
Theorem calls_end_with_requests s0 ls s :
  system_initial s0 -> run system_step s0 ls s ->
  (forall a n tid ph, workers s !! a = Some n -> Worker.calls (node_world n) !! tid = Some ph ->
     foreground ph = true -> jobs s !! tid = Some (JShutdown a) /\ is_Some (running s tid)) /\
  (forall a w tid ph, servers s !! a = Some w -> Ephemeral.calls w !! tid = Some (Ephemeral.ByRequest, ph) ->
     jobs s !! tid = Some (JStop a) /\ unanswered tid (rt s)) /\
  (forall tid a, jobs s !! tid = Some (JStop a) -> unanswered tid (rt s) ->
     exists w ph, servers s !! a = Some w /\ Ephemeral.calls w !! tid = Some (Ephemeral.ByRequest, ph)) /\
  (forall a n t, workers s !! a = Some n -> Worker.shutdown_lock (node_world n) = Some t ->
     (jobs s !! t = Some (JShutdown a) /\ is_Some (running s t)) \/ background (node_world n) t = true) /\
  (forall a w t, servers s !! a = Some w -> Ephemeral.lock w = Some t ->
     (jobs s !! t = Some (JStop a) /\ is_Some (running s t)) \/
     exists k, k <> Ephemeral.ByRequest /\ Ephemeral.calls w !! t = Some (k, Ephemeral.Reaping)).
Proof.
  intros H0 Hr. assert (reachable s0 s) as Hs by (by exists ls). pose proof (reachable_names s0 H0 s Hs) as Hn.
  assert (Hfore : forall a n tid ph, workers s !! a = Some n -> Worker.calls (node_world n) !! tid = Some ph ->
     foreground ph = true -> jobs s !! tid = Some (JShutdown a) /\ is_Some (running s tid)).
  { intros a n tid ph Ha Hc Hf. destruct (nm_worker _ _ Hn a n tid ph Ha Hc) as [_ Hx]. by rewrite Hf in Hx. }
  split; [exact Hfore|]. split; [|split; [|split]].
  - intros a w tid ph Ha Hc. pose proof (nm_server _ _ Hn a w tid _ ph Ha Hc) as Hx.
    rewrite decide_True in Hx by done. by destruct Hx as (? & ? & _).
  - intros tid a Hj Hu. by apply (reachable_stops s0 H0 s Hs tid a).
  - intros a n t Ha Hl.
    destruct (proj1 (Worker.wi_lock _ (reachable_worker s0 H0 s a n Hs Ha) t) Hl) as (ph & Hc & Hh).
    destruct (foreground ph) eqn:Hf; [left; by eapply Hfore|right]. unfold background. rewrite Hc.
    by destruct ph as [| | |[]|[]| |].
  - intros a w t Ha Hl.
    destruct (proj1 (Ephemeral.si_lock w (reachable_server s0 H0 s a w Hs Ha) t) Hl) as [k Hc].
    pose proof (nm_server _ _ Hn a w t _ _ Ha Hc) as Hx. case_decide as Hk; [left|right; by exists k].
    destruct Hx as (Hj & _ & Hrg). split; [done|by apply Hrg].
Qed.

(** ** Witness: a worker's shutdown waits for the pumps, and two stops for one server, which is freed *)

Definition crowded : list saction :=
  busy ++ [SReserve 4%positive 9 (JShutdown 1%positive); SRegister 4%positive 4%positive; SRuntime (RSpawn 4%positive);
           SShutdown 4%positive (Worker.WShutdown 4%positive)].
Definition crowded_state : System := default sample_system (fst <$> exec sstep sample_system crowded).
Definition crowded_ls : list (saction * list deed) := default [] (snd <$> exec sstep sample_system crowded).

Lemma crowded_run : run system_step sample_system crowded_ls crowded_state.
Proof.
  unfold crowded_ls, crowded_state. pose proof (exec_run sstep saction_ok sample_system crowded) as He.
  assert (exec_ok sstep saction_ok sample_system crowded) as Hok.
  { vm_compute; intuition (congruence || naive_solver). }
  destruct (exec _ _ _) as [[w ls]|]; simpl; [by apply He|constructor].
Qed.

Lemma no_request_hangs_witness :
  is_Some (pending (rt crowded_state) !! 6) /\
  exists ls s, run system_step crowded_state ls s /\ Forall (fun l => unforced l.1 = true) ls /\
    pending_ack 9 ∈ delivered (sdeeds ls) /\ freeing (rt s) = Open /\ is_Some (pending (rt s) !! 6).
Proof.
  assert (is_Some (pending (rt crowded_state) !! 6)) as H6 by (exists 2%positive; vm_compute; reflexivity).
  split; [exact H6|].
  destruct (no_request_hangs sample_system crowded_ls crowded_state 9 4%positive sample_system_initial crowded_run)
    as (ls & s & p & R & U & Hd & Hp & Hf & Hpend & _ & Hack).
  - vm_compute. reflexivity.
  - vm_compute. reflexivity.
  - assert (p = pending_ack 9) as ->.
    { apply (Hack ltac:(vm_compute; reflexivity) 4%positive (JShutdown 1%positive)); [|reflexivity].
      split; [vm_compute; reflexivity|]. split; eexists; (split; [vm_compute; reflexivity|]); [discriminate|reflexivity]. }
    exists ls, s. split; [exact R|]. split; [exact U|]. split; [exact Hd|]. split; [exact Hf|].
    rewrite Hpend, lookup_delete_ne by discriminate. exact H6.
Defined.

Lemma calls_end_with_requests_witness :
  let w := default Ephemeral.started (servers crowded_state !! 1%positive) in
  Ephemeral.lock w = Some 3%positive /\
  ((jobs crowded_state !! 3%positive = Some (JStop 1%positive) /\ is_Some (running crowded_state 3)) \/
   exists k, k <> Ephemeral.ByRequest /\ Ephemeral.calls w !! 3%positive = Some (k, Ephemeral.Reaping)).
Proof.
  intros w. assert (Ephemeral.lock w = Some 3%positive) as Hl by (vm_compute; reflexivity). split; [exact Hl|].
  destruct (calls_end_with_requests sample_system crowded_ls crowded_state sample_system_initial crowded_run)
    as (_ & _ & _ & _ & H). apply (H 1%positive w 3%positive); [|exact Hl].
  unfold w. assert (is_Some (servers crowded_state !! 1%positive)) as [x Hx] by (vm_compute; eauto).
  by rewrite Hx.
Defined.
