(* ===== verification/UnitTests.v ===== *)
(** The crate's own unit tests of the parts that are functions of one state, run on the model
    ([handle.rs], [panic.rs], [error.rs], [lib.rs], [client.rs], [ephemeral.rs], their [mod tests]).

    A test is the code of the Rust test on the model's definitions: an [outcome], which a failed
    assertion or an [unwrap] of an error turns into a panic, as there.  A test passes when it is
    [Done tt]; each is run by computation.  What a test takes from a library (a status that tonic
    makes, prost's encoder) is a value with the documented fields. *)

From S2P Require Import Prelude Abi KtError Panic Handle Queue.
From S2P Require Services Options Ephemeral.

(** ** Assertions *)

Definition assert_failed : panic_payload := PayloadString "assertion failed".

(** [assert!] and [assert_eq!]. *)
Definition assert (b : bool) : outcome unit := if b then Done tt else Panicked assert_failed.
Definition assert_eq `{EqDecision A} (x y : A) : outcome unit := assert (bool_decide (x = y)).

(** [Result::unwrap]. *)
Definition unwrap {E A} (r : result E A) : outcome A :=
  match r with Ok a => Done a | Err _ => Panicked (PayloadString "called `Result::unwrap()` on an `Err` value") end.

(** [matches!(r, Err(KtError::InvalidArgument(_)))], and for a variant without a field. *)
Definition is_invalid_argument {A} (r : KtResult A) : bool :=
  match r with Err (InvalidArgument _) => true | _ => false end.
Definition fails_with {A} (e : KtError) (r : KtResult A) : bool :=
  match r with Err e' => bool_decide (e' = e) | Ok _ => false end.

(** [for _ in 0..n]. *)
Fixpoint times {S} (n : nat) (body : S -> outcome S) (s : S) : outcome S :=
  match n with O => mret s | Datatypes.S m => s' ← body s; times m body s' end.

Lemma assert_eq_refl `{EqDecision A} (x : A) : assert_eq x x = Done tt.
Proof. unfold assert_eq. by rewrite bool_decide_true. Qed.

Definition passes (test : outcome unit) : Prop := test = Done tt.

(** ** [handle.rs] *)

Module handle_tests.

(** The entry of an [Arc] of its own. *)
Definition poller_entry (a : arc) : Entry := Poller a.
Arguments poller_entry a%_positive_scope.

Definition runtime_removal_invalidates_owned_slots_and_rejects_late_insertions : outcome unit :=
  let table := table_new in
  '(table, owner) ← ht_insert table (Runtime 1);
  '(table, child, _) ← insert_owned table owner (poller_entry 2);
  child ← unwrap child;
  '(table, pump) ← ht_insert table (poller_entry 3);
  r ← require_owner table child owner; _ ← assert (is_ok r);
  r ← require_owner table pump owner; _ ← assert (is_invalid_argument r);
  '(table, removed) ← remove_runtime table owner;
  '(runtime, children) ← unwrap removed;
  _ ← assert_eq (length children) 1%nat;
  r ← get_poller table child; _ ← assert (fails_with StaleHandle r);
  r ← get_poller table pump; _ ← assert (is_ok r);
  '(table, late, _) ← insert_owned table owner (poller_entry 4);
  _ ← assert (fails_with Shutdown late);
  '(table, reused) ← ht_insert table (poller_entry 5);
  _ ← assert (bool_decide (reused <> child));
  r ← get_poller table child; assert (is_err r).

Definition a_forged_kind_tag_does_not_remove_an_entry_of_another_kind : outcome unit :=
  '(table, poller) ← ht_insert table_new (poller_entry 1);
  let forged := Z.lor (Z.ldiff poller (Z.shiftl 0xFF KIND_SHIFT)) (Z.shiftl KIND_RUNTIME KIND_SHIFT) in
  '(table, r) ← remove_of_kind table forged KIND_RUNTIME;
  _ ← assert (fails_with WrongHandleKind r);
  r ← get_poller table poller; assert (is_ok r).

Definition resolves_a_live_handle : outcome unit :=
  '(table, handle) ← ht_insert table_new (poller_entry 1);
  r ← get_poller table handle; assert (is_ok r).

Definition handle_zero_is_never_valid : outcome unit :=
  '(table, _) ← ht_insert table_new (poller_entry 1);
  r ← get_poller table 0; assert (fails_with StaleHandle r).

Definition a_freed_handle_is_stale_rather_than_undefined : outcome unit :=
  '(table, handle) ← ht_insert table_new (poller_entry 1);
  '(table, r) ← remove_of_kind table handle KIND_POLLER; _ ← unwrap r;
  r ← get_poller table handle; assert (fails_with StaleHandle r).

Definition double_free_is_an_error_not_a_second_removal : outcome unit :=
  '(table, handle) ← ht_insert table_new (poller_entry 1);
  '(table, r) ← remove_of_kind table handle KIND_POLLER; _ ← unwrap r;
  '(table, r) ← remove_of_kind table handle KIND_POLLER; assert (fails_with StaleHandle r).

Definition a_reused_slot_does_not_answer_to_the_old_handle : outcome unit :=
  '(table, first) ← ht_insert table_new (poller_entry 1);
  '(table, r) ← remove_of_kind table first KIND_POLLER; _ ← unwrap r;
  '(table, second) ← ht_insert table (poller_entry 2);
  _ ← assert (bool_decide (first <> second));
  r ← get_poller table first; _ ← assert (fails_with StaleHandle r);
  r ← get_poller table second; assert (is_ok r).

Definition freeing_with_the_wrong_kind_is_rejected_and_leaves_the_entry_alive : outcome unit :=
  '(table, handle) ← ht_insert table_new (poller_entry 1);
  '(table, r) ← remove_of_kind table handle KIND_RUNTIME; _ ← assert (fails_with WrongHandleKind r);
  r ← get_poller table handle; assert (is_ok r).

Definition a_slot_stays_usable_across_the_generation_wrap : outcome unit :=
  let table := {| slots := slots table_new ++ [{| generation := 0x00FFFFFF; owner := 0; entry := None |}];
                  free := 0 :: free table_new |} in
  _ ← times 4 (fun table =>
        '(table, handle) ← ht_insert table (poller_entry 1);
        r ← get_poller table handle; _ ← assert (is_ok r);
        '(table, r) ← remove_of_kind table handle KIND_POLLER; _ ← unwrap r;
        mret table) table;
  mret tt.

Definition the_wrong_handle_kind_is_rejected : outcome unit :=
  '(table, poller) ← ht_insert table_new (poller_entry 1);
  r ← get_worker table poller; assert (fails_with WrongHandleKind r).

Lemma handle_tests_pass :
  Forall passes
    [runtime_removal_invalidates_owned_slots_and_rejects_late_insertions;
     a_forged_kind_tag_does_not_remove_an_entry_of_another_kind; resolves_a_live_handle;
     handle_zero_is_never_valid; a_freed_handle_is_stale_rather_than_undefined;
     double_free_is_an_error_not_a_second_removal; a_reused_slot_does_not_answer_to_the_old_handle;
     freeing_with_the_wrong_kind_is_rejected_and_leaves_the_entry_alive;
     a_slot_stays_usable_across_the_generation_wrap; the_wrong_handle_kind_is_rejected].
Proof. repeat constructor. Qed.
End handle_tests.

(** ** [panic.rs], on a thread whose last error is the whole state *)

Module panic_tests.

Definition success_is_ok : outcome unit :=
  assert_eq (guard (fun w => (Done (Ok tt), w)) EmptyString).1 KT_OK.

(** [str::contains]. *)
Fixpoint contains (pattern text : string) : bool :=
  String.prefix pattern text ||
  match text with String.EmptyString => false | String.String _ rest => contains pattern rest end.

Definition an_error_becomes_its_code_and_is_retrievable : outcome unit :=
  let '(status, w) := guard (fun w => (Done (Err StaleHandle), w)) EmptyString in
  _ ← assert_eq status KT_ERR_STALE_HANDLE;
  assert (with_last_error (contains "stale handle") w).

Definition a_panic_is_contained_rather_than_aborting_the_process : outcome unit :=
  let '(status, w) := guard (fun w => (Panicked (PayloadStr "boom"), w)) EmptyString in
  _ ← assert_eq status KT_ERR_PANIC;
  assert (with_last_error (contains "boom") w).

Definition a_non_string_panic_payload_is_still_contained : outcome unit :=
  assert_eq (guard (fun w => (Panicked PayloadOther, w)) EmptyString).1 KT_ERR_PANIC.

Lemma panic_tests_pass :
  Forall passes
    [success_is_ok; an_error_becomes_its_code_and_is_retrievable;
     a_panic_is_contained_rather_than_aborting_the_process;
     a_non_string_panic_payload_is_still_contained].
Proof. repeat constructor. Qed.
End panic_tests.

(** ** [lib.rs] *)

Module lib_tests.

Definition a_null_pointer_with_a_nonzero_length_is_rejected : outcome unit :=
  let result := slice None 4096 in
  assert (is_invalid_argument result).

Definition a_zero_length_is_empty_regardless_of_pointer : outcome unit :=
  bytes ← unwrap (slice None 0); assert_eq bytes (as_bytes "").

Definition the_abi_probe_reports_the_layout_the_jvm_expects : outcome unit :=
  let out := replicate 16 0 in
  let '(n, out) := kt_abi_probe (Some out) (Z.of_nat (length out)) in
  _ ← assert_eq n 12;
  out ← expect out "the buffer is there";
  x ← index out 0; _ ← assert_eq x KT_ABI_MAGIC;
  x ← index out 2; _ ← assert_eq x 48;
  x ← index out 10; assert_eq x 64.

Definition the_abi_probe_reports_its_length_even_with_no_buffer : outcome unit :=
  assert_eq (kt_abi_probe None 0).1 12.

Lemma lib_tests_pass :
  Forall passes
    [a_null_pointer_with_a_nonzero_length_is_rejected; a_zero_length_is_empty_regardless_of_pointer;
     the_abi_probe_reports_the_layout_the_jvm_expects;
     the_abi_probe_reports_its_length_even_with_no_buffer].
Proof. repeat constructor. Qed.
End lib_tests.

(** ** [error.rs] and [client.rs], for whatever codes tonic has *)

Module status_tests.
Import Rpc Options.
Section tests.
Context {C : Type} `{GrpcCode C} (unauthenticated : C) (unauthenticated_code : code_i32 unauthenticated = 16).

(** [Status::from_error(Box::new(TimeoutExpired(())))]: a cancelled status with that source. *)
Definition timeout_status (text : string) : Status C :=
  {| status_code_of := grpc_cancelled; status_text := text; status_details := [];
     status_source := Some (MkStdError text true None) |}.

(** [Status::cancelled]. *)
Definition cancelled_status (message : string) : Status C :=
  {| status_code_of := grpc_cancelled; status_text := message; status_details := [];
     status_source := None |}.

Lemma timeout_code text : grpc_status_code (timeout_status text) = code_i32 (grpc_deadline_exceeded (C := C)).
Proof. unfold grpc_status_code, timeout_status. cbn. by rewrite decide_True. Qed.
Lemma cancelled_code text : grpc_status_code (cancelled_status text) = code_i32 (grpc_cancelled (C := C)).
Proof. unfold grpc_status_code, cancelled_status. cbn. by rewrite decide_True. Qed.

Definition only_local_transport_timeouts_are_deadline_exceeded : outcome unit :=
  let local := timeout_status "Timeout expired" in
  _ ← assert_eq (status_code_of local) grpc_cancelled;
  _ ← assert_eq (grpc_status_code local) (code_i32 (grpc_deadline_exceeded (C := C)));
  let server := cancelled_status (status_text local) in
  assert_eq (grpc_status_code server) (code_i32 (grpc_cancelled (C := C))).

(** prost. *)
Context (encode_failure : RpcFailure -> list byte) (decode_failure : list byte -> result string RpcFailure).
Context (decode_encode : forall f, decode_failure (encode_failure f) = Ok f).

Definition connecting_preserves_server_status_and_details : outcome unit :=
  let status := {| status_code_of := unauthenticated; status_text := "expired token";
                   status_details := as_bytes "details"; status_source := None |} in
  let result := connect_failure encode_failure 42 (SystemInfoCallError status) in
  _ ← assert_eq (p_status result) 16;
  failure ← unwrap (decode_failure (p_payload result));
  _ ← assert_eq (f_message failure) "expired token";
  assert_eq (f_details failure) (as_bytes "details").

Definition connecting_reports_local_system_info_timeout_as_deadline_exceeded : outcome unit :=
  let status := timeout_status "Timeout expired" in
  let result := connect_failure encode_failure 42 (SystemInfoCallError status) in
  assert_eq (p_status result) (code_i32 (grpc_deadline_exceeded (C := C))).

Lemma status_tests_pass :
  Forall passes
    [only_local_transport_timeouts_are_deadline_exceeded; connecting_preserves_server_status_and_details;
     connecting_reports_local_system_info_timeout_as_deadline_exceeded].
Proof using unauthenticated_code decode_encode.
  constructor; [|constructor; [|constructor; [|constructor]]]; unfold passes.
  - unfold only_local_transport_timeouts_are_deadline_exceeded.
    rewrite timeout_code, cancelled_code. cbn. by rewrite !assert_eq_refl.
  - unfold connecting_preserves_server_status_and_details.
    cbn [connect_failure with_payload with_kind pending_error p_status p_payload f_message f_details].
    rewrite decode_encode. unfold grpc_status_code. cbn [status_code_of status_source]. case_decide as Hc.
    all: rewrite unauthenticated_code, assert_eq_refl; cbn; by rewrite !assert_eq_refl.
  - unfold connecting_reports_local_system_info_timeout_as_deadline_exceeded.
    cbn [connect_failure with_payload with_kind pending_error p_status].
    by rewrite timeout_code, assert_eq_refl.
Qed.
End tests.
End status_tests.

(** ** [client.rs]: TLS, for whatever parses the two URLs *)

Module tls_tests.
Import Options.
Section tests.
Context {Url : Type} (parse_url : string -> result string Url) (hostname : string) (pid : Z) (version : string).
Context (cloud local : Url) (parse_cloud : parse_url "https://cloud.example:7233" = Ok cloud)
        (parse_local : parse_url "http://localhost:7233" = Ok local).

(** [base], with the fields the tests change as arguments. *)
Definition base (url : string) (use_tls : bool) (root : list byte) (domain : string)
    (cert key : list byte) : ClientOptions :=
  {| target_url := url; client_namespace := "ns"; client_identity := EmptyString;
     client_name := EmptyString; client_version := EmptyString; api_key := EmptyString;
     connect_timeout_millis := 0; no_compression := false; tls := use_tls;
     server_root_ca_cert := root; tls_domain := domain; client_cert := cert;
     client_private_key := key |}.

Definition plain_http_has_no_tls : outcome unit :=
  let cfg := base "http://localhost:7233" false [] EmptyString [] [] in
  options ← unwrap (connection_options parse_url hostname pid version cfg);
  assert (bool_decide (co_tls options = None)).

Definition the_bare_flag_turns_tls_on_with_system_roots : outcome unit :=
  let cfg := base "https://cloud.example:7233" true [] EmptyString [] [] in
  options ← unwrap (connection_options parse_url hostname pid version cfg);
  tls ← expect (co_tls options) "tls on";
  _ ← assert (bool_decide (tls_root tls = None));
  assert (bool_decide (tls_client tls = None)).

Definition material_is_carried_through : outcome unit :=
  let cfg := base "https://cloud.example:7233" false [x01; x02; x03] "cloud.example" [x04] [x05; x06] in
  options ← unwrap (connection_options parse_url hostname pid version cfg);
  tls ← expect (co_tls options) "tls on";
  _ ← assert_eq (tls_root tls) (Some [x01; x02; x03]);
  _ ← assert_eq (tls_server_domain tls) (Some "cloud.example");
  '(client_cert, client_private_key) ← expect (tls_client tls) "mTLS";
  _ ← assert_eq client_cert [x04];
  assert_eq client_private_key [x05; x06].

Lemma tls_tests_pass :
  Forall passes
    [plain_http_has_no_tls; the_bare_flag_turns_tls_on_with_system_roots; material_is_carried_through].
Proof using parse_cloud parse_local.
  unfold plain_http_has_no_tls, the_bare_flag_turns_tls_on_with_system_roots, material_is_carried_through,
    connection_options.
  cbn [target_url base]. rewrite parse_cloud, parse_local. repeat constructor.
Qed.
End tests.
End tls_tests.

(** ** [ephemeral.rs]: the options *)

Module ephemeral_options_tests.
Import Ephemeral.

(** [EphemeralServerOptions::default()] with a time to live and a port. *)
Definition default_options (seconds : option Z) (p : Z) : EphemeralServerOptions :=
  {| existing_path := EmptyString; download_version := EmptyString; download_dest_dir := EmptyString;
     sdk_name := EmptyString; sdk_version := EmptyString; server_namespace := EmptyString;
     ip := EmptyString; server_port := p; ui := false; Ephemeral.extra_args := []; test_server := false;
     log_file := EmptyString; download_ttl_seconds := seconds |}.

Definition download_ttl_preserves_default_zero_and_explicit_lifetimes : outcome unit :=
  _ ← mapM (fun '(seconds, expected) =>
        match exe (default_options seconds 0) with
        | CachedDownload _ _ ttl => assert_eq ttl expected
        | _ => Panicked (PayloadStr "expected a cached download")
        end) [(None, Some 86400); (Some 0, None); (Some 123, Some 123)];
  mret tt.

(** prost decodes what it encoded. *)
Definition a_port_outside_the_tcp_range_is_rejected_instead_of_selecting_a_random_port
    {Bytes : Type} (encode : EphemeralServerOptions -> Bytes)
    (decode : Bytes -> result string EphemeralServerOptions) : outcome unit :=
  let options := default_options None 65536 in
  assert (is_invalid_argument (decode_options (decode (encode options)))).

Lemma ephemeral_options_tests_pass {Bytes : Type} (encode : EphemeralServerOptions -> Bytes)
    (decode : Bytes -> result string EphemeralServerOptions) :
  (forall o, decode (encode o) = Ok o) ->
  Forall passes
    [download_ttl_preserves_default_zero_and_explicit_lifetimes;
     a_port_outside_the_tcp_range_is_rejected_instead_of_selecting_a_random_port encode decode].
Proof.
  intros Hd. unfold a_port_outside_the_tcp_range_is_rejected_instead_of_selecting_a_random_port.
  rewrite Hd. repeat constructor.
Qed.
End ephemeral_options_tests.
