(* ===== verification/ScheduleTests.v ===== *)
(** The crate's own unit tests of the parts that threads, tasks and clocks drive, run on the model
    ([queue.rs], [runtime.rs], [jvm_slots.rs], [telemetry.rs], [ephemeral.rs], their [mod tests]).

    A test is the code of the Rust test, as in [UnitTests], with the steps of the other threads in the
    places where its sleeps and joins put them.  Where the test hammers a race instead, [explore]
    takes every interleaving there is. *)

From stdpp Require Import sorting.
From S2P Require Import Prelude Abi KtError Panic Handle Queue Runtime UnitTests.
From S2P Require Slots Telemetry.

#[export] Instance MetricDefinition_eq_dec : EqDecision Telemetry.MetricDefinition.
Proof. solve_decision. Defined.
#[export] Instance MetricValue_eq_dec : EqDecision Telemetry.MetricValue.
Proof. solve_decision. Defined.
#[export] Instance AttributeValue_eq_dec : EqDecision Telemetry.AttributeValue.
Proof. solve_decision. Defined.

(** A step that the test knows to be possible. *)
Definition possible {A} (o : option A) : outcome A := expect o "the step is enabled".

(** ** [queue.rs] *)

(** *** One thread in [poll] *)

Definition zero_record : KtCompletion :=
  {| kc_req_id := 0; kc_kind := 0; kc_status := 0; kc_payload := 0; kc_payload_len := 0;
     kc_aux0 := 0; kc_aux1 := 0 |}.

(** Where the allocator puts a slab. *)
Definition heap : Z := 4096.

(** What the thread [tid] does next if nobody wakes it. *)
Definition next_action (tid : positive) (th : Thread) : option action :=
  match th_phase th with
  | Entered | Signalled | TimedOut => Some (AAcquire tid)
  | Parked => if decide (0 < th_timeout th) then Some (ATimeout tid) else None
  | Drained _ _ => Some (AFinish tid heap)
  end.

(** The return of a call of [poll], if it is among the events. *)
Definition returns (evs : list event) : option (KtResult Z * list KtCompletion) :=
  head (omap (fun e => match e with Returned _ r out _ => Some (r, out) | _ => None end) evs).

(** [Queue::new()] with the poller 1. *)
Definition queue_and_poller (t : Table) : World Table :=
  {| shared := queue_new; pollers := {[1%positive := poller_new]}; threads := ∅; handles := t |}.

Definition act (w : World Table) (a : action) : outcome (World Table * list event) := possible (qstep w a).

(** The thread runs until its call returns; from any phase that takes at most four steps. *)
Fixpoint finish_poll (fuel : nat) (w : World Table) (tid : positive) (evs : list event) :
    outcome (World Table * KtResult Z * list KtCompletion) :=
  match returns evs, fuel with
  | Some (r, out), _ => mret (w, r, out)
  | None, O => Panicked (PayloadStr "the poll is still running")
  | None, S n =>
      th ← possible (threads w !! tid);
      a ← possible (next_action tid th);
      '(w, evs) ← act w a; finish_poll n w tid evs
  end.

(** [poller.poll(out.as_mut_ptr(), cap, timeout)] by the thread [tid], with nobody else about. *)
Definition poll (w : World Table) (tid : positive) (cap timeout : Z) :
    outcome (World Table * KtResult Z * list KtCompletion) :=
  '(w, evs) ← act w (ACall tid 1 (Some (replicate (Z.to_nat cap) zero_record)) cap timeout);
  finish_poll 4 w tid evs.

Definition push_all (w : World Table) (ps : list Pending) : outcome (World Table) :=
  foldl (fun w p => w ← w; '(w, _) ← act w (APush p); mret w) (mret w) ps.

Module queue_tests.

Definition drain_queue (w : World Table) (cap : Z) : outcome (World Table * list KtCompletion) :=
  '(w, r, out) ← poll w 1 cap 0; n ← unwrap r; mret (w, take (Z.to_nat n) out).

(** [slice::from_raw_parts] of a record's payload, which lies in the poller's slab. *)
Definition payload_of (w : World Table) (r : KtCompletion) : outcome (list byte) :=
  pe ← possible (pollers w !! 1%positive);
  mret (slab_read (buf pe) (kc_payload r) (kc_payload_len r)).

Definition a_pushed_completion_round_trips_with_its_payload : outcome unit :=
  w ← push_all (queue_and_poller table_new) [with_payload (as_bytes "hello") (pending_ack 7)];
  '(w, got) ← drain_queue w 8;
  _ ← assert_eq (length got) 1%nat;
  record ← index got 0;
  _ ← assert_eq (kc_req_id record) 7;
  bytes ← payload_of w record; assert_eq bytes (as_bytes "hello").

(** [i as u8]. *)
Definition as_u8 (i : nat) : byte := default x00 (Byte.of_nat i).

Definition a_batch_preserves_every_payload : outcome unit :=
  w ← push_all (queue_and_poller table_new)
        ((fun i => with_payload (replicate 1024 (as_u8 i)) (pending_ack (Z.of_nat i))) <$> seq 0 64);
  '(w, got) ← drain_queue w 64;
  _ ← assert_eq (length got) 64%nat;
  _ ← mapM (fun '(i, record) =>
        bytes ← payload_of w record;
        _ ← assert_eq (length bytes) 1024%nat;
        assert (forallb (Byte.eqb (as_u8 i)) bytes)) (imap pair got);
  mret tt.

Definition cap_bounds_the_batch_and_the_rest_stays_queued : outcome unit :=
  w ← push_all (queue_and_poller table_new) ((fun i => pending_ack (Z.of_nat i)) <$> seq 0 10);
  '(w, got) ← drain_queue w 4; _ ← assert_eq (length got) 4%nat;
  '(w, got) ← drain_queue w 4; _ ← assert_eq (length got) 4%nat;
  '(w, got) ← drain_queue w 4; assert_eq (length got) 2%nat.

Definition an_empty_queue_returns_nothing_without_blocking : outcome unit :=
  '(_, got) ← drain_queue (queue_and_poller table_new) 4; assert_eq (length got) 0%nat.

(** Every interleaving of a call of [poll] by thread 1, not made yet or under way, with the actions
    [others] of another thread and at most [spurious] spurious wakeups: what the call returns, [None]
    for one that parks for good. *)
Fixpoint explore (fuel spurious : nat) (w : World Table) (call : option action) (others : list action) :
    list (option (KtResult Z)) :=
  match fuel with
  | O => [None]
  | S n =>
      let after (o : option (World Table * list event)) k :=
        match o with
        | Some (w', evs) => match returns evs with Some (r, _) => [Some r] | None => k w' end
        | None => [None]
        end in
      let own := match call with Some a => Some a | None => th ← threads w !! 1%positive; next_action 1 th end in
      let runs :=
        match own with Some a => after (qstep w a) (fun w' => explore n spurious w' None others) | None => [] end ++
        match others with [] => [] | a :: rest => after (qstep w a) (fun w' => explore n spurious w' call rest) end in
      let wakes :=
        match spurious, qstep w (ASpurious 1) with
        | S k, Some (w', _) => explore n k w' call others
        | _, _ => []
        end in
      if decide (runs = []) then None :: wakes else runs ++ wakes
  end.

(** The Rust test runs the race 500 times. *)
Definition a_wake_racing_the_park_is_not_lost : outcome unit :=
  let call := ACall 1 1 (Some [zero_record]) 1 (-1) in
  let results := explore 12 3 (queue_and_poller table_new) (Some call) [AWake] in
  assert (forallb (fun r => bool_decide (r = Some (Ok 0))) results).

Definition a_poll_after_close_returns_immediately_rather_than_parking : outcome unit :=
  '(w, _) ← act (queue_and_poller table_new) AClose;
  _ ← times 3 (fun w => '(w, r, _) ← poll w 1 1 (-1); _ ← assert (fails_with Shutdown r); mret w) w;
  mret tt.

Definition a_second_thread_polling_one_poller_is_rejected_not_allowed_to_corrupt : outcome unit :=
  '(w, _) ← act (queue_and_poller table_new) (ACall 1 1 (Some [zero_record]) 1 400);
  '(w, evs) ← act w (AAcquire 1);
  '(w, r, _) ← poll w 2 1 0;
  _ ← assert (is_err r);
  '(_, held, _) ← finish_poll 4 w 1 evs; _ ← unwrap held;
  mret tt.

Definition wake_releases_a_blocked_poll : outcome unit :=
  '(w, _) ← act (queue_and_poller table_new) (ACall 1 1 (Some [zero_record]) 1 (-1));
  '(w, evs) ← act w (AAcquire 1);
  '(w, _) ← act w AWake;
  '(_, r, _) ← finish_poll 4 w 1 evs; n ← unwrap r; assert_eq n 0.

Definition a_blocked_poll_receives_a_later_push : outcome unit :=
  '(w, _) ← act (queue_and_poller table_new) (ACall 1 1 (Some [zero_record]) 1 (-1));
  '(w, evs) ← act w (AAcquire 1);
  '(w, _) ← act w (APush (pending_ack 99));
  '(_, r, out) ← finish_poll 4 w 1 evs; n ← unwrap r; record ← index out 0;
  assert_eq (n, kc_req_id record) (1, 99).

Lemma queue_tests_pass :
  Forall passes
    [a_pushed_completion_round_trips_with_its_payload; a_batch_preserves_every_payload;
     cap_bounds_the_batch_and_the_rest_stays_queued; an_empty_queue_returns_nothing_without_blocking;
     a_wake_racing_the_park_is_not_lost; a_poll_after_close_returns_immediately_rather_than_parking;
     a_second_thread_polling_one_poller_is_rejected_not_allowed_to_corrupt;
     wake_releases_a_blocked_poll; a_blocked_poll_receives_a_later_push].
Proof. repeat (constructor; [vm_compute; reflexivity|]). constructor. Qed.

(** The race has more than one outcome to get right. *)
Lemma race_explored : 
  length (explore 12 3 (queue_and_poller table_new) (Some (ACall 1 1 (Some [zero_record]) 1 (-1))) [AWake]) = 9%nat.
Proof. vm_compute. reflexivity. Qed.
End queue_tests.

(** ** [runtime.rs] *)

Module runtime_tests.

(** [new_runtime(RuntimeOptions::default())], with the poller 1 on its queue. *)
Definition fresh_runtime : RuntimeEntry Table :=
  {| q := queue_and_poller table_new; pending := ∅; rt_closed := false; tokens := ∅; tasks := ∅;
     freeing := Open |}.

Definition rt_act (rt : RuntimeEntry Table) (a : raction) : outcome (RuntimeEntry Table * list revent) :=
  possible (rstep rt a).
Definition rt_acts (rt : RuntimeEntry Table) (l : list raction) : outcome (RuntimeEntry Table) :=
  foldl (fun rt a => rt ← rt; '(rt, _) ← rt_act rt a; mret rt) (mret rt) l.

(** The test's [drain]: a poll of at most 16 records that waits for half a second. *)
Definition drain_runtime (entry : RuntimeEntry Table) : outcome (RuntimeEntry Table * list (Z * Z)) :=
  '(w, r, out) ← poll (q entry) 1 16 500;
  n ← unwrap r;
  mret (set_q w entry, (fun r => (kc_req_id r, kc_status r)) <$> take (Z.to_nat n) out).

(** [spawn_request]; task and token are named after the request. *)
Definition name_of (req_id : Z) : positive := Z.to_pos req_id.
Definition spawn_request (entry : RuntimeEntry Table) (req_id : Z) :
    outcome (RuntimeEntry Table * KtResult unit) :=
  '(entry, _) ← rt_act entry (RReserve (name_of req_id) req_id);
  '(entry, evs) ← rt_act entry (RRegister (name_of req_id) (name_of req_id));
  match evs with
  | [EvRefused _ err] => mret (entry, Err err)
  | _ => '(entry, _) ← rt_act entry (RSpawn (name_of req_id)); mret (entry, Ok tt)
  end.
Definition spawned (entry : RuntimeEntry Table) (req_id : Z) : outcome (RuntimeEntry Table) :=
  '(entry, r) ← spawn_request entry req_id; _ ← unwrap r; mret entry.

(** The reactor polls the task, whose operation is ready or not, and runs it to its end if it is. *)
Definition completes (entry : RuntimeEntry Table) (req_id : Z) (op : option (outcome Pending)) :
    outcome (RuntimeEntry Table) :=
  rt_acts entry [RPoll (name_of req_id) op; RAnswer (name_of req_id)].

(** [free_runtime], the reactor running every task that is left. *)
Definition free_runtime (entry : RuntimeEntry Table) : outcome (RuntimeEntry Table) :=
  let order := map_to_list (pending entry) in
  entry ← rt_acts entry ([RDrain order] ++ replicate (length order) RDrainOne ++ [RDrainEnd]);
  entry ← foldl (fun entry '(_, task) => entry ← entry; completes entry (t_req task) None) (mret entry)
            (map_to_list (tasks entry));
  rt_acts entry [RWaited].

Definition a_successful_request_yields_exactly_one_completion : outcome unit :=
  entry ← spawned fresh_runtime 1; entry ← completes entry 1 (Some (Done (pending_ack 1)));
  '(entry, got) ← drain_runtime entry; _ ← assert_eq got [(1, KT_OK)];
  '(entry, got) ← drain_runtime entry; _ ← assert_eq got [];
  assert (negb (retire entry 1).2).

Definition a_panicking_request_answers_rather_than_hanging : outcome unit :=
  entry ← spawned fresh_runtime 2; entry ← completes entry 2 (Some (Panicked (PayloadStr "boom")));
  '(_, got) ← drain_runtime entry; assert_eq got [(2, KT_ERR_PANIC)].

Definition cancelling_answers_once_and_the_late_result_is_dropped : outcome unit :=
  entry ← spawned fresh_runtime 3; entry ← rt_acts entry [RPoll 3 None];
  entry ← rt_acts entry [RCancel 3]; entry ← completes entry 3 (Some (Done (pending_ack 3)));
  '(entry, got) ← drain_runtime entry; _ ← assert_eq got [(3, KT_ERR_CANCELLED)];
  '(_, got) ← drain_runtime entry; assert_eq got [].

Definition shutdown_answers_everything_still_outstanding : outcome unit :=
  entry ← foldl (fun entry req_id =>
              entry ← entry; entry ← spawned entry req_id; rt_acts entry [RPoll (name_of req_id) None])
            (mret fresh_runtime) [10; 11; 12; 13];
  entry ← free_runtime entry;
  '(w, r, out) ← poll (q entry) 1 16 500; n ← unwrap r;
  let answered := merge_sort Z.le (kc_req_id <$> take (Z.to_nat n) out) in
  assert_eq answered [10; 11; 12; 13].

Definition duplicate_ids_preserve_the_original_cancellation_and_shutdown_rejects_new_requests :
    outcome unit :=
  let '(entry, token) := register fresh_runtime 1 1%positive in
  token ← unwrap token;
  let '(entry, again) := register entry 1 2%positive in
  _ ← assert (is_invalid_argument again);
  let entry := cancel entry 1 in
  _ ← assert (is_cancelled token entry);
  entry ← free_runtime entry;
  '(_, r) ← spawn_request entry 2; assert (fails_with Shutdown r).

(** Nobody but a task holds the entry by then. *)
Definition shutdown_does_not_wait_on_or_drop_the_runtime_from_a_request_task : outcome unit :=
  entry ← spawned fresh_runtime 1;
  entry ← free_runtime entry;
  assert (bool_decide (tasks entry = ∅)).

Definition cancelling_an_unknown_request_is_harmless : outcome unit :=
  _ ← rt_acts fresh_runtime [RCancel 9999]; mret tt.

Lemma runtime_tests_pass :
  Forall passes
    [a_successful_request_yields_exactly_one_completion;
     a_panicking_request_answers_rather_than_hanging;
     cancelling_answers_once_and_the_late_result_is_dropped;
     shutdown_answers_everything_still_outstanding;
     duplicate_ids_preserve_the_original_cancellation_and_shutdown_rejects_new_requests;
     shutdown_does_not_wait_on_or_drop_the_runtime_from_a_request_task;
     cancelling_an_unknown_request_is_harmless].
Proof. repeat (constructor; [vm_compute; reflexivity|]). constructor. Qed.
End runtime_tests.

(** ** [jvm_slots.rs]: one supplier, and a clock in milliseconds *)

Module slots_tests.
Import Slots.

Definition slot_act (w : World) (a : action) : outcome (World * list event) := possible (sstep w a).
Definition slot_acts (w : World) (l : list action) : outcome World :=
  foldl (fun w a => w ← w; '(w, _) ← slot_act w a; mret w) (mret w) l.

(** [supplier(gate, &limits(min, max, ramp), kind, sticky)] on a gate of its own. *)
Definition supplier_and_gate (min max : nat) (ramp_millis : Z) (kind : nat) (sticky : bool) : World :=
  {| gate := gate_new; suppliers := {[1%positive := supplier min max ramp_millis kind sticky 0]};
     permits := ∅; waiters := ∅; gate_calls := ∅; now := 0 |}.

(** [gate.update(mask)] and [drop(permit)], by the test's one thread. *)
Definition update_gate (mask : Z) : list action := [AUpdate 1 mask; AGate 1; AGate 1].
Definition drop_slot (pid : positive) : list action := [ARelease 1 pid; AGate 1; AGate 1].

(** [slots.try_reserve_slot(&Context(sticky))]: whether the permit [pid] is out. *)
Definition try_reserve (w : World) (ctx : bool) (pid : positive) : outcome (World * bool) :=
  '(w, evs) ← slot_act w (ATryOnce 1 ctx pid);
  mret (w, match evs with [Issued _ _] => true | _ => false end).
Arguments try_reserve w ctx pid%_positive_scope.

Definition available (w : World) : outcome nat :=
  s ← possible (suppliers w !! 1%positive); available_slots s.

(** [slots.reserve_slot(&ctx)]: the future, not polled yet. *)
Definition reserve (w : World) (wid : positive) : outcome World := slot_acts w [AReserve wid 1 false].
Arguments reserve w wid%_positive_scope.

(** [timeout(_, waiting)]: the reactor polls the future whenever it is woken, until it has its permit
    ([true]) or the clock reads [deadline]. *)
Fixpoint until (fuel : nat) (deadline : Z) (w : World) (wid pid : positive) : outcome (World * bool) :=
  match fuel, waiters w !! wid with
  | O, _ => Panicked (PayloadStr "the future is still being polled")
  | S n, None => mret (w, true)
  | S n, Some wt =>
      match w_phase wt with
      | WGranted => '(w, _) ← slot_act w (AReturn wid); until n deadline w wid pid
      | WStart => '(w, _) ← slot_act w (AEnable wid); until n deadline w wid pid
      | WEnabled _ => '(w, _) ← slot_act w (ATry wid pid); until n deadline w wid pid
      | WRefused _ => '(w, _) ← slot_act w (APark wid); until n deadline w wid pid
      | WWaiting flag timer =>
          if flag || timer_due timer (now w) then
            '(w, _) ← slot_act w (AWake wid); until n deadline w wid pid
          else
            let next := match timer with Some d => Z.min d deadline | None => deadline end in
            '(w', _) ← slot_act w (ATick (next - now w));
            if decide (next = deadline) then mret (w', false) else until n deadline w' wid pid
      end
  end.
Definition timeout (millis : Z) (w : World) (wid pid : positive) : outcome (World * bool) :=
  until 16 (now w + millis) w wid pid.
Arguments timeout millis w wid%_positive_scope pid%_positive_scope.

(** [&gate.stats()[2..4]]. *)
Definition activity_stats (w : World) : outcome (list Z) :=
  w ← slot_acts w (AStats 1 :: replicate 7 (AGate 1));
  '(_, evs) ← slot_act w (AGate 1);
  match evs with
  | [Returned _ values] => mret (take 2 (list.drop 2 values))
  | _ => Panicked (PayloadStr "stats did not return")
  end.

Definition jvm_pressure_bounds_ramp_and_cancelled_reservations : outcome unit :=
  let slots := supplier_and_gate 1 2 20 1 false in
  let started := now slots in
  '(slots, first) ← try_reserve slots false 1; _ ← assert first;
  '(slots, r) ← try_reserve slots false 2; _ ← assert (negb r);
  slots ← slot_acts slots (update_gate 1);
  '(slots, r) ← try_reserve slots false 2; _ ← assert (negb r);
  slots ← slot_acts slots (update_gate 2);
  slots ← reserve slots 1; '(slots, second) ← timeout 1000 slots 1 2; _ ← assert second;
  _ ← assert (bool_decide (20 <= now slots - started));
  '(slots, r) ← try_reserve slots false 3; _ ← assert (negb r);
  slots ← reserve slots 2; '(slots, r) ← timeout 5 slots 2 3; _ ← assert (negb r);
  slots ← slot_acts slots [ACancel 2];
  n ← available slots; _ ← assert_eq n 0%nat;
  stats ← activity_stats slots; _ ← assert_eq stats [2; 0];
  slots ← slot_acts slots (drop_slot 2 ++ drop_slot 1);
  n ← available slots; _ ← assert_eq n 2%nat;
  slots ← slot_acts slots (update_gate 0);
  '(slots, minimum) ← try_reserve slots false 4; _ ← assert minimum;
  slots ← reserve slots 3; '(slots, r) ← timeout 5 slots 3 5; _ ← assert (negb r);
  stats ← activity_stats slots; _ ← assert_eq stats [1; 1];
  slots ← slot_acts slots (update_gate 2);
  '(slots, granted) ← timeout 1000 slots 3 5; _ ← assert granted;
  _ ← slot_acts slots (drop_slot 5 ++ drop_slot 4);
  mret tt.

Definition cached_workflows_keep_a_slot_for_both_queues_under_pressure : outcome unit :=
  let slots := supplier_and_gate 0 2 100 0 true in
  '(slots, nonsticky) ← try_reserve slots false 1; _ ← assert nonsticky;
  '(slots, r) ← try_reserve slots false 2; _ ← assert (negb r);
  '(slots, sticky) ← try_reserve slots true 2; _ ← assert sticky;
  n ← available slots; _ ← assert_eq n 0%nat;
  slots ← slot_acts slots (drop_slot 1);
  '(slots, r) ← try_reserve slots true 3; _ ← assert (negb r);
  '(slots, next_nonsticky) ← try_reserve slots false 3; _ ← assert next_nonsticky;
  slots ← slot_acts slots (drop_slot 2 ++ drop_slot 3);
  n ← available slots; assert_eq n 2%nat.

Lemma slots_tests_pass :
  Forall passes
    [jvm_pressure_bounds_ramp_and_cancelled_reservations;
     cached_workflows_keep_a_slot_for_both_queues_under_pressure].
Proof. repeat (constructor; [vm_compute; reflexivity|]). constructor. Qed.
End slots_tests.

(** ** [telemetry.rs] *)

Module telemetry_tests.
Import Telemetry.

(** [MetricParameters::from(name)]. *)
Definition named (name : string) : MetricParameters :=
  {| mp_name := name; mp_description := EmptyString; mp_unit := EmptyString |}.

(** [counter.add(v, &attrs)] and the like: one update, under the attributes. *)
Definition observe (k : InstrumentKind) (i : Instrument) (r : reading) (attrs : MetricAttributes) (meter : State) :
    outcome State :=
  value ← possible (encode_reading k r);
  mret (record (with_attributes i attrs) value meter).

Definition overflow_keeps_definitions_and_subsequent_updates_usable : outcome unit :=
  let '(meter, counter) := create Counter (named "requests") state_default in
  let attrs := new_attributes [] in
  meter ← times (Z.to_nat (MAX_UPDATES + 3)) (observe Counter counter (ReadU64 1) attrs) meter;
  '(meter, batch) ← drain meter;
  _ ← assert_eq (Z.of_nat (length (mb_updates batch))) MAX_UPDATES;
  _ ← assert_eq (length (mb_definitions batch)) 1%nat;
  definition ← index (mb_definitions batch) 0;
  _ ← assert (forallb (fun sample => bool_decide (mu_instrument sample = md_id definition)) (mb_updates batch));
  log ← index (mb_logs batch) 0;
  _ ← assert (panic_tests.contains "Dropped 3" (lr_message log));
  let '(meter, counter) := create Counter (named "requests") meter in
  meter ← observe Counter counter (ReadU64 2) attrs meter;
  '(_, next) ← drain meter;
  _ ← assert_eq (mb_definitions next) (mb_definitions batch);
  update ← index (mb_updates next) 0;
  assert_eq (mu_value update) (Some (IntValue 2)).

(** 0.5, 2.5 and 3.5 as [f64]s. *)
Definition f64_half : f64 := S754_finite false (2 ^ 52) (-53).
Definition f64_two_and_a_half : f64 := S754_finite false (5 * 2 ^ 50) (-51).
Definition f64_three_and_a_half : f64 := S754_finite false (7 * 2 ^ 50) (-51).

(** Without the heartbeat's in-memory gauge, which is Core's. *)
Definition attributes_keep_types_override_values_and_support_heartbeat_labels : outcome unit :=
  let base := new_attributes [{| kv_key := "poller_type"; kv_value := LString "old" |}] in
  let attrs := extend_attributes base
    [{| kv_key := "poller_type"; kv_value := LString "workflow_task" |};
     {| kv_key := "attempt"; kv_value := LI64 4 |};
     {| kv_key := "ratio"; kv_value := LF64 f64_half |};
     {| kv_key := "sticky"; kv_value := LBool true |}] in
  let '(meter, gauge) := create Gauge (named "slots") state_default in
  meter ← observe Gauge gauge (ReadU64 7) attrs meter;
  a ← index (attributes_to_proto base) 0; _ ← assert_eq (ma_value a) (Some (StringValue "old"));
  '(_, batch) ← drain meter;
  update ← index (mb_updates batch) 0;
  _ ← assert_eq (length (mu_attributes update)) 4%nat;
  a ← index (mu_attributes update) 1; _ ← assert_eq (ma_value a) (Some (AIntValue 4));
  a ← index (mu_attributes update) 2; _ ← assert_eq (ma_value a) (Some (ADoubleValue f64_half));
  a ← index (mu_attributes update) 3; assert_eq (ma_value a) (Some (BoolValue true)).

Definition instruments_preserve_kinds_signed_values_and_millisecond_durations : outcome unit :=
  let attrs := new_attributes [] in
  let used k name r meter := let '(meter, i) := create k (named name) meter in observe k i r attrs meter in
  meter ← used Counter "counter" (ReadU64 1) state_default;
  meter ← used Gauge "gauge" (ReadU64 2) meter;
  meter ← used GaugeF64 "gauge-f64" (ReadF64 f64_two_and_a_half) meter;
  meter ← used Histogram "histogram" (ReadU64 3) meter;
  meter ← used HistogramF64 "histogram-f64" (ReadF64 f64_three_and_a_half) meter;
  meter ← used HistogramDuration "duration" (ReadDuration (1234567 * 1000)) meter;
  meter ← used UpDownCounter "up-down" (ReadI64 (-2)) meter;
  '(_, batch) ← drain meter;
  _ ← assert_eq (md_kind <$> mb_definitions batch) [0; 1; 2; 3; 4; 5; 6];
  definition ← index (mb_definitions batch) 5; _ ← assert_eq (md_unit definition) "ms";
  update ← index (mb_updates batch) 5; _ ← assert_eq (mu_value update) (Some (IntValue 1234));
  update ← index (mb_updates batch) 6; assert_eq (mu_value update) (Some (IntValue (-2))).

(** The overflow is too much to compute with, so its updates are counted by a lemma. *)
Lemma observe_many n k i r attrs value meter :
  encode_reading k r = Some value ->
  times n (observe k i r attrs) meter = Done (Nat.iter n (record (with_attributes i attrs) value) meter).
Proof.
  intros Hv. revert meter. induction n as [|n IH]; intros meter; [done|].
  assert (observe k i r attrs meter = Done (record (with_attributes i attrs) value meter)) as Ho
    by (unfold observe; by rewrite Hv).
  cbn [times]. rewrite Ho. etrans; [apply IH|]. by rewrite Nat.iter_succ_r.
Qed.

Lemma record_many n i value (st : State) :
  let s := {| s_instrument := i_id i; s_attributes := i_attributes i; s_value := value |} in
  updates st = [] -> dropped st = 0 -> Z.of_nat n < 2 ^ 64 ->
  Nat.iter n (record i value) st =
    {| instruments := instruments st; definitions := definitions st;
       updates := replicate (n `min` Z.to_nat MAX_UPDATES) s;
       dropped := Z.max 0 (Z.of_nat n - MAX_UPDATES) |}.
Proof.
  intros s Hu Hd. induction n as [|n IH]; intros Hn.
  - destruct st. cbn in *. by subst.
  - cbn [Nat.iter nat_rect]. change (nat_rect _ _ _ n) with (Nat.iter n (record i value) st).
    rewrite IH by lia. unfold record. cbn [updates dropped instruments definitions].
    rewrite length_replicate. fold s. f_equal.
    + case_bool_decide as Hm.
      * rewrite !Nat.min_r by (unfold MAX_UPDATES in *; lia).
        destruct (Z.to_nat MAX_UPDATES) as [|m] eqn:E; [done|]. cbn [replicate tail]. by rewrite <- replicate_cons_app.
      * rewrite !Nat.min_l by (unfold MAX_UPDATES in *; lia). by rewrite <- replicate_cons_app.
    + case_bool_decide as Hm; unfold MAX_UPDATES in *; [rewrite wrap_small by (unfold fits; lia)|]; lia.
Qed.

Lemma used_ids_replicate n s : used_ids (replicate (S n) s) = [s_instrument s].
Proof.
  assert (remove_dups (s_instrument <$> replicate (S n) s) = [s_instrument s]) as Hd.
  { induction n as [|n IH]; [done|]. rewrite replicate_S, fmap_cons. cbn [remove_dups].
    destruct (decide_rel _ _ _) as [|Hin]; [done|]. destruct Hin. left. }
  unfold used_ids. by rewrite Hd.
Qed.

Lemma forallb_replicate {A} (f : A -> bool) n x : f x = true -> forallb f (replicate n x) = true.
Proof. intros Hf. induction n as [|n IH]; [done|]. cbn [replicate forallb]. by rewrite Hf. Qed.

(** The drain of a meter with one definition and more updates than it keeps. *)
Lemma drain_overflow (st : State) d s n :
  definitions st = [d] -> updates st = replicate (S n) s -> s_instrument s = 1 -> dropped st <> 0 ->
  drain st = Done ({| instruments := instruments st; definitions := [d]; updates := []; dropped := 0 |},
    {| mb_definitions := [d]; mb_updates := replicate (S n) (update_of s); mb_logs := [overflow_log (dropped st)] |}).
Proof.
  intros Hd Hu Hs Hn. unfold drain. rewrite Hu, used_ids_replicate, Hs. cbn [mapM].
  unfold definition_at. rewrite decide_False, Hd by done. cbn -[replicate]. rewrite decide_False by done.
  by rewrite fmap_replicate.
Qed.

Lemma overflow_passes : passes overflow_keeps_definitions_and_subsequent_updates_usable.
Proof.
  unfold passes, overflow_keeps_definitions_and_subsequent_updates_usable.
  assert (exists n, n = Z.to_nat (MAX_UPDATES + 3)) as [n Hn] by eauto. rewrite <- Hn.
  set (d := {| md_id := 1; md_name := "requests"; md_description := EmptyString; md_unit := EmptyString; md_kind := 0 |}).
  set (meter := {| instruments := <[("requests", 0) := 1]> ∅; definitions := [d]; updates := []; dropped := 0 |}).
  set (counter := {| i_id := 1; i_attributes := attributes_empty |}).
  change (create Counter (named "requests") state_default) with (meter, counter).
  cbv beta iota zeta. rewrite (observe_many n Counter counter (ReadU64 1) _ (IntValue 1) meter) by done.
  assert (Z.of_nat n = 65539) as Hz by (subst n; by rewrite Z2Nat.id). clear Hn.
  rewrite record_many by (done || lia). rewrite Hz. cbn [mbind outcome_bind].
  assert (n `min` Z.to_nat MAX_UPDATES = S (Z.to_nat (MAX_UPDATES - 1)))%nat as -> by (unfold MAX_UPDATES; lia).
  assert (exists m, m = Z.to_nat (MAX_UPDATES - 1)) as [m Hm] by eauto. rewrite <- Hm.
  erewrite (drain_overflow _ d _ m); [|reflexivity|reflexivity|reflexivity|discriminate]. cbn [mbind outcome_bind mb_updates].
  rewrite length_replicate. replace (Z.of_nat (S m)) with MAX_UPDATES by (subst m; unfold MAX_UPDATES; lia). clear Hm.
  rewrite assert_eq_refl. cbn [mbind outcome_bind mb_definitions mb_logs].
  change (index [d] 0) with (Done d). cbn [mbind outcome_bind].
  rewrite forallb_replicate by done. vm_compute. reflexivity.
Qed.

Lemma telemetry_tests_pass :
  Forall passes
    [overflow_keeps_definitions_and_subsequent_updates_usable;
     attributes_keep_types_override_values_and_support_heartbeat_labels;
     instruments_preserve_kinds_signed_values_and_millisecond_durations].
Proof. constructor; [apply overflow_passes|]. repeat (constructor; [vm_compute; reflexivity|]). constructor. Qed.
End telemetry_tests.

(** ** [ephemeral.rs]: who owns the handle in a completion *)

Module ephemeral_tests.

(** [HANDLES.insert(Entry::Ephemeral(_))], on the table that the queue's completions refer to. *)
Definition new_handle (w : World Table) : outcome (World Table * Z) :=
  '(t, handle) ← ht_insert (handles w) (Ephemeral 1); mret (set_handles t w, handle).

Definition started_completion (handle : Z) : Pending := with_aux0 handle (with_kind EphemeralStarted (pending_ack 1)).

Definition an_unclaimed_server_completion_releases_its_handle_but_poll_transfers_ownership : outcome unit :=
  '(w, handle) ← new_handle (queue_and_poller table_new);
  t ← pending_drop (started_completion handle) (handles w);
  r ← get_ephemeral t handle; _ ← assert (is_err r);

  let w := queue_and_poller t in
  '(w, handle) ← new_handle w;
  '(w, _) ← act w (APush (started_completion handle));
  '(w, r, _) ← poll w 1 1 0; n ← unwrap r; _ ← assert_eq n 1;
  r ← get_ephemeral (handles w) handle; _ ← assert (is_ok r);
  '(t, r) ← remove_of_kind (handles w) handle KIND_EPHEMERAL; _ ← unwrap r;

  '(w, _) ← act (set_handles t w) AClose;
  '(w, handle) ← new_handle w;
  '(w, _) ← act w (APush (started_completion handle));
  r ← get_ephemeral (handles w) handle; _ ← assert (is_err r);

  let queued := queue_and_poller (handles w) in
  '(queued, handle) ← new_handle queued;
  '(queued, _) ← act queued (APush (started_completion handle));
  t ← drop_all (queue (shared queued)) (handles queued);
  r ← get_ephemeral t handle; assert (is_err r).

Lemma ephemeral_tests_pass :
  Forall passes [an_unclaimed_server_completion_releases_its_handle_but_poll_transfers_ownership].
Proof. constructor; [vm_compute; reflexivity|constructor]. Qed.
End ephemeral_tests.
