(* ===== verification/Ownership.v ===== *)
(** A runtime's system with its handles ([handle.rs], [queue.rs], [Drop for Pending]; [lib.rs],
    [kt_runtime_free] and the other exports that make, use or free a handle).

    An [Owned] is a [System] with the handle table and the place where [kt_runtime_free] stands.  A
    server that has started is put into the table under the runtime's handle, or closed if the table
    refuses; its handle is in the completion, and a completion that is dropped unseen drops the handle,
    and with it the table's reference to the server.  The JVM frees handles, in any order and with any
    word it likes; freeing the runtime takes the children out of the table and closes them one by one,
    waiting for each server, before the drain begins.

    What is left of a system step when its completions own handles is [drop_pendings].  An owned system
    takes only steps of its [System], so that everything proved there holds of it; the theorems here
    are about who owns the servers. *)

From S2P Require Import Prelude Abi KtError Panic Handle Queue Runtime.
From S2P Require Worker Streams Ephemeral Options Rpc Ffi.
From S2P Require Import System Teardown.

#[local] Existing Instances Worker.call_phase_eq_dec Worker.event_eq_dec Teardown.caller_eq_dec.

(** Where [kt_runtime_free] stands: not called; closing what it took out of the table, and waiting for
    the last server it shut down; in [free_runtime]. *)
Inductive free_stage :=
| NotFreed
| Closing (children : list Entry) (current : option (arc * positive))
| Freeing.

Record Owned := { sys : System; table : Table; stage : free_stage }.

Definition set_sys (s : System) (o : Owned) : Owned := {| sys := s; table := table o; stage := stage o |}.
Definition set_table (t : Table) (o : Owned) : Owned := {| sys := sys o; table := t; stage := stage o |}.
Definition set_stage (st : free_stage) (o : Owned) : Owned := {| sys := sys o; table := table o; stage := st |}.

Lemma owned_table_id o : set_table (table o) o = o.
Proof. by destruct o. Qed.

(** A step, with what the components did. *)
Definition ostep_fn : Type := Owned -> option (Owned * list deed).

Definition quiet : ostep_fn := fun o => Some (o, []).

(** ** Dropped completions *)

(** The completions that the runtime and its queue dropped in a step. *)
Definition dropped_in (e : revent) : list Pending :=
  match e with
  | EvDiscarded p => [p]
  | EvQueue (_, evs) => rejected evs
  | _ => []
  end.
Definition discards (ds : list deed) : list Pending := revents (runtime_trace ds) ≫= dropped_in.

Definition on_sys (a : saction) : ostep_fn := fun o =>
  '(s, ds) ← sstep (sys o) a; Some (set_sys s o, ds).

(** [Drop for Pending]: the table drops its reference to an object nobody received. *)
Definition drop_pending (p : Pending) : ostep_fn := fun o =>
  if decide (p_status p <> KT_OK \/ p_aux0 p = 0) then quiet o
  else match owned_kind (p_kind p) with
       | None => quiet o
       | Some kind =>
           match remove_of_kind (table o) (p_aux0 p) kind with
           | Done (t, Ok (Ephemeral a)) => on_sys (SServer a Ephemeral.EDiscard) (set_table t o)
           | Done (t, _) => quiet (set_table t o)
           | Panicked _ => None
           end
       end.

Fixpoint drop_pendings (ps : list Pending) : ostep_fn := fun o =>
  match ps with
  | [] => quiet o
  | p :: rest => '(o1, ds1) ← drop_pending p o; '(o2, ds2) ← drop_pendings rest o1; Some (o2, ds1 ++ ds2)
  end.

(** A step of the system, and the completions it drops. *)
Definition system_takes (a : saction) : ostep_fn := fun o =>
  '(o1, ds1) ← on_sys a o; '(o2, ds2) ← drop_pendings (discards ds1) o1; Some (o2, ds1 ++ ds2).

(** ** The steps *)

Inductive oaction :=
| OSystem (a : saction)
| OStarted (tid : positive) (server : arc) (closer : positive) (info : Ffi.ServerInfo)
| OConnected (tid : positive) (client : arc)
| OWorkerNew (worker : arc)
| OWorkerFree (h : Z)
| OServerFree (tid : positive) (h : Z)
| OInsert (poller : arc)
| ORemove (h kind : Z)
| ORuntimeFree
| OCloseChild (tid : positive)
| ODrain (order : list (Z * arc)).

(** What the exports do that make or free handles, and [kt_runtime_free], have steps of their own;
    the operations of the remaining requests answer without a handle. *)
Definition without_handle (a : saction) : bool :=
  match a with
  | SRuntime (RDrain _) | SStart _ _ _ | SWorkerNew _ _ | SWorker _ Worker.WFree => false
  | SServer _ (Ephemeral.EFree _ | Ephemeral.ERuntimeFree _ | Ephemeral.EClose _ | Ephemeral.EDiscard) => false
  | SPoll _ (Some (Done p)) => bool_decide (owned_handle p = None)
  | _ => true
  end.

(** [block_on(server.shutdown())] has returned. *)
Definition waited_for (current : option (arc * positive)) (s : System) : bool :=
  match current with
  | None => true
  | Some (a, tid) =>
      match servers s !! a with
      | Some w => match Ephemeral.calls w !! tid with Some (Ephemeral.ByRuntimeFree, _) => false | _ => true end
      | None => true
      end
  end.

Section ownership.
Context {Url Core Tuner F : Type} {C : Type} `{GrpcCode C} `{!Ffi.Externals Url Core Tuner F}.
Context (encode_failure : Rpc.RpcFailure -> list byte).

(** The runtime's handle. *)
Context (runtime : Z).

(** The task of [kt_ephemeral_start], from where Core has started the server: into the table, or
    closed, and the completion. *)
Definition started (tid : positive) (server : arc) (closer : positive) (info : Ffi.ServerInfo) : ostep_fn := fun o =>
  '(req_id, _) ← running (sys o) tid;
  match Ffi.server_completion (table o) runtime req_id (Ok (server, info)) with
  | Done (t, p, refused) =>
      '(o1, ds1) ← on_sys (SStart tid server (Done p)) (set_table t o);
      '(o2, ds2) ← (if decide (refused = []) then quiet o1 else on_sys (SServer server (Ephemeral.EClose closer)) o1);
      Some (o2, ds1 ++ ds2)
  | Panicked _ => None
  end.

(** The task of [kt_client_connect], from where Core has connected. *)
Definition connected (tid : positive) (client : arc) : ostep_fn := fun o =>
  '(req_id, _) ← running (sys o) tid;
  match Ffi.connect_completion (C := C) encode_failure (table o) runtime req_id (Ok client) with
  | Done (t, p, _) => on_sys (SPoll tid (Some (Done p))) (set_table t o)
  | Panicked _ => None
  end.

(** [kt_worker_new], from where the worker is built; what the table refuses is freed at once. *)
Definition worker_new (worker : arc) : ostep_fn := fun o =>
  match insert_owned (table o) runtime (Worker worker) with
  | Done (t, Ok h, _) => on_sys (SWorkerNew worker h) (set_table t o)
  | Done (t, Err _, _) => quiet (set_table t o)
  | Panicked _ => None
  end.

(** [kt_worker_free], [kt_ephemeral_free], [kt_client_free] and [kt_poller_free]. *)
Definition free_handle (h kind : Z) (close : Entry -> ostep_fn) : ostep_fn := fun o =>
  match remove_of_kind (table o) h kind with
  | Done (t, Ok e) => close e (set_table t o)
  | Done (_, Err _) => quiet o
  | Panicked _ => None
  end.
Definition worker_free (h : Z) : ostep_fn := free_handle h KIND_WORKER (fun e =>
  match e with Worker a => on_sys (SWorker a Worker.WFree) | _ => quiet end).
Definition server_free (tid : positive) (h : Z) : ostep_fn := free_handle h KIND_EPHEMERAL (fun e =>
  match e with Ephemeral a => on_sys (SServer a (Ephemeral.EFree tid)) | _ => quiet end).

(** [kt_poller_new], from where it has found the runtime, which may be gone by now. *)
Definition insert_poller (poller : arc) : ostep_fn := fun o =>
  match ht_insert (table o) (Poller poller) with
  | Done (t, _) => quiet (set_table t o)
  | Panicked _ => None
  end.

(** [kt_runtime_free]: the children leave the table with the runtime; *)
Definition runtime_free : ostep_fn := fun o =>
  match remove_runtime (table o) runtime with
  | Done (t, Ok (_, children)) =>
      match stage o with
      | NotFreed => quiet (set_stage (Closing children None) (set_table t o))
      | _ => None
      end
  | Done (_, Err _) => quiet o
  | Panicked _ => None
  end.

(** its loop, a child at a time, waiting for a server's [shutdown] before the next; *)
Definition close_child (tid : positive) : ostep_fn := fun o =>
  match stage o with
  | Closing (child :: rest) current =>
      if waited_for current (sys o) then
        match child with
        | Ephemeral a => on_sys (SServer a (Ephemeral.ERuntimeFree tid)) (set_stage (Closing rest (Some (a, tid))) o)
        | Worker a => on_sys (SWorker a Worker.WFree) (set_stage (Closing rest None) o)
        | _ => quiet (set_stage (Closing rest None) o)
        end
      else None
  | _ => None
  end.

(** and [free_runtime]. *)
Definition drain (order : list (Z * arc)) : ostep_fn := fun o =>
  match stage o with
  | Closing [] current =>
      if waited_for current (sys o) then on_sys (SRuntime (RDrain order)) (set_stage Freeing o) else None
  | _ => None
  end.

Definition ostep (o : Owned) (a : oaction) : option (Owned * list deed) :=
  match a with
  | OSystem a => if without_handle a then system_takes a o else None
  | OStarted tid server closer info => started tid server closer info o
  | OConnected tid client => connected tid client o
  | OWorkerNew worker => worker_new worker o
  | OWorkerFree h => worker_free h o
  | OServerFree tid h => server_free tid h o
  | OInsert poller => insert_poller poller o
  | ORemove h kind => free_handle h kind (fun _ => quiet) o
  | ORuntimeFree => runtime_free o
  | OCloseChild tid => close_child tid o
  | ODrain order => drain order o
  end.

(** What the callers promise: of a system's step what [System] asks, that handles are machine words,
    that the exports free handles of their own kind, and that the table has room. *)
Definition oaction_ok (o : Owned) (a : oaction) : Prop :=
  match a with
  | OSystem a => saction_ok (sys o) a
  | OStarted _ _ _ _ | OConnected _ _ | OWorkerNew _ | OInsert _ => has_room (table o)
  | OWorkerFree h | OServerFree _ h => fits 64 h
  | ORemove h kind => fits 64 h /\ (kind = KIND_CLIENT \/ kind = KIND_POLLER)
  | _ => True
  end.

Definition owned_step (o : Owned) (l : oaction * list deed) (o' : Owned) : Prop :=
  oaction_ok o l.1 /\ ostep o l.1 = Some (o', l.2).

(** A new system, its runtime in the table, and nothing there that the system made. *)
Definition owned_initial (o : Owned) : Prop :=
  system_initial (sys o) /\ table_inv (table o) /\ fits 64 runtime /\ stage o = NotFreed /\
  (exists a, live (table o) !! runtime = Some (Runtime a, 0)) /\
  forall h e x, live (table o) !! h = Some (e, x) ->
    match e with Ephemeral _ | Worker _ => False | _ => True end.

(** ** Accounts

    Every server that has not been given up is named by one handle in the table or is one child still
    to be closed, never both; the count of either is 1 as long as its entry has the [handle]. *)

Definition has_handle (s : System) (a : arc) : bool :=
  match servers s !! a with Some w => Ephemeral.handle w | None => false end.
Definition made (s : System) (a : arc) : Prop := is_Some (workers s !! a).

Record accounts (m : gmap Z (Entry * Z)) (cs : list Entry) (has : arc -> bool) (mk : arc -> Prop) : Prop := {
  ac_server a : (mcount (fun x => x.1 = Ephemeral a) m + count (fun e => e = Ephemeral a) cs)%nat =
                if has a then 1%nat else 0%nat;
  ac_owner h e x : m !! h = Some (e, x) -> match e with Ephemeral _ | Worker _ => x = runtime | _ => True end;
  ac_worker h a x : m !! h = Some (Worker a, x) -> mk a;
  ac_closing a : Worker a ∈ cs -> mk a;
}.

Definition unclosed (o : Owned) : list Entry :=
  match stage o with Closing cs _ => cs | _ => [] end.

(** The runtime's handle, and how far the runtime has got, at every stage. *)
Definition stage_ok (o : Owned) : Prop :=
  match stage o with
  | NotFreed => freeing (rt (sys o)) = Open /\ exists a, live (table o) !! runtime = Some (Runtime a, 0)
  | Closing _ _ => freeing (rt (sys o)) = Open /\ forall a x, live (table o) !! runtime <> Some (Runtime a, x)
  | Freeing => freeing (rt (sys o)) <> Open /\ forall a x, live (table o) !! runtime <> Some (Runtime a, x)
  end.

Record owned_inv (s0 : System) (o : Owned) : Prop := {
  oi_sys : reachable s0 (sys o);
  oi_table : table_inv (table o);
  oi_accounts : accounts (live (table o)) (unclosed o) (has_handle (sys o)) (made (sys o));
  oi_stage : stage_ok o;
}.

(** ** Lemmas: accounts *)

Lemma accounts_mono m cs has has' (mk mk' : arc -> Prop) :
  accounts m cs has mk -> (forall a, has' a = has a) -> (forall a, mk a -> mk' a) -> accounts m cs has' mk'.
Proof. intros [A1 A2 A3 A4] Hh Hm. split; [|done|eauto..]. intros a. rewrite Hh. apply A1. Qed.

(** A handle is freed. *)
Lemma accounts_delete m cs has has' mk h e x :
  accounts m cs has mk -> m !! h = Some (e, x) ->
  (forall a, has' a = if decide (e = Ephemeral a) then false else has a) ->
  accounts (delete h m) cs has' mk.
Proof.
  intros [A1 A2 A3 A4] Hm Hh. split; [|intros h' e' x'|intros h' a' x'|done].
  - intros a. specialize (A1 a). rewrite (mcount_delete _ m h (e, x) Hm) in A1. rewrite Hh. cbn [fst] in A1.
    case_decide; [|done]. destruct (has a); lia.
  - rewrite lookup_delete_Some. intros [_ ?]. by apply (A2 h').
  - rewrite lookup_delete_Some. intros [_ ?]. by apply (A3 h' a' x').
Qed.

(** A handle is made. *)
Lemma accounts_insert m cs has has' mk (mk' : arc -> Prop) h e x :
  accounts m cs has mk -> m !! h = None ->
  match e with
  | Ephemeral a => x = runtime /\ has a = false
  | Worker a => x = runtime /\ mk' a
  | _ => True
  end ->
  (forall a, has' a = if decide (e = Ephemeral a) then true else has a) -> (forall a, mk a -> mk' a) ->
  accounts (<[h := (e, x)]> m) cs has' mk'.
Proof.
  intros [A1 A2 A3 A4] Hm He Hh Hmk. split; [|intros h' e' x'|intros h' a' x'|eauto].
  - intros a. specialize (A1 a). rewrite mcount_insert, Hh by done. cbn [fst].
    case_decide as Hd; [|done]. subst e. destruct He as [_ Hf]. rewrite Hf in A1. lia.
  - rewrite lookup_insert. case_decide; [|by apply A2]. intros [= -> ->]. destruct e'; naive_solver.
  - rewrite lookup_insert. case_decide; [|intros Hx; by eapply Hmk, A3]. intros [= -> ->]. by destruct He.
Qed.

(** A child is closed. *)
Lemma accounts_close m child cs has has' mk :
  accounts m (child :: cs) has mk ->
  (forall a, has' a = if decide (child = Ephemeral a) then false else has a) -> accounts m cs has' mk.
Proof.
  intros [A1 A2 A3 A4] Hh. split; [|done|done|set_solver].
  intros a. specialize (A1 a). rewrite count_cons in A1. rewrite Hh. case_decide; [|done]. destruct (has a); lia.
Qed.

(** The children leave the table with the runtime. *)
Lemma accounts_without m cs has mk a :
  accounts m [] has mk -> runtime <> 0 -> m !! runtime = Some (Runtime a, 0) -> cs ≡ₚ children_of runtime m ->
  accounts (without_runtime runtime m) cs has mk.
Proof.
  intros [A1 A2 A3 _] Hz Hm Hcs. split.
  - intros b. rewrite <- (A1 b), count_nil, (naming_split runtime a m (Ephemeral b) Hz Hm) by done.
    rewrite (count_perm (fun e => e = Ephemeral b) cs (children_of runtime m)) by done. lia.
  - intros h e x [Hx _]%map_lookup_filter_Some. by apply (A2 h).
  - intros h b x [Hx _]%map_lookup_filter_Some. by apply (A3 h b x).
  - intros b. rewrite Hcs. unfold children_of. intros ([h [e x]] & Hb & Hx)%list_elem_of_fmap. cbn in Hb. subst e.
    apply list_elem_of_filter in Hx as [_ Hx%elem_of_map_to_list]. by apply (A3 h b x).
Qed.

(** A server's handle is the only one. *)
Lemma accounts_named m cs has mk h a x :
  accounts m cs has mk -> m !! h = Some (Ephemeral a, x) -> has a = true /\ Ephemeral a ∉ cs.
Proof.
  intros Ha Hm. pose proof (ac_server _ _ _ _ Ha a) as Hs.
  pose proof (mcount_pos (fun x => x.1 = Ephemeral a) m h (Ephemeral a, x) Hm eq_refl) as Hp.
  destruct (has a); [|lia]. split; [done|]. intros Hin. apply elem_of_Permutation in Hin as [k Hk].
  rewrite (count_perm _ _ _ Hk), count_cons, decide_True in Hs by done. lia.
Qed.

(** ** Lemmas: what a step of the system does to handles *)

(** The actions that give a server up. *)
Definition gives_up (ea : Ephemeral.action) : bool :=
  match ea with
  | Ephemeral.EFree _ | Ephemeral.ERuntimeFree _ | Ephemeral.EClose _ | Ephemeral.EDiscard => true
  | _ => false
  end.

Lemma estep_handle w ea w' evs :
  Ephemeral.estep w ea = Some (w', evs) ->
  Ephemeral.handle w' = (if gives_up ea then false else Ephemeral.handle w) /\
  (gives_up ea = true -> Ephemeral.handle w = true).
Proof.
  assert (Hret : forall tid k r w1 w2 es, Ephemeral.return_call tid k r w1 = (w2, es) ->
    Ephemeral.handle w2 = Ephemeral.handle w1) by (intros tid [] r w1 w2 es [= <- _]; done).
  destruct ea; cbn [Ephemeral.estep gives_up]; intros Hs; try (case_decide; [|done]; simplify_eq; naive_solver).
  - destruct (Ephemeral.calls w !! tid) as [[k ph]|]; [|done]. cbn [mbind option_bind] in Hs. case_decide; [|done].
    destruct (Ephemeral.server w); injection Hs as Hs; [by subst w'|]. split; [by eapply Hret|done].
  - destruct (Ephemeral.calls w !! tid) as [[k ph]|]; [|done]. cbn [mbind option_bind] in Hs. case_decide; [|done].
    destruct (Ephemeral.return_call _ _ _ _) as [w1 es] eqn:E. simplify_eq. split; [by eapply (Hret _ _ _ _ _ _ E)|done].
  - destruct (Ephemeral.calls w !! tid) as [[k ph]|]; [|done]. cbn [mbind option_bind] in Hs. case_decide; [|done].
    by simplify_eq.
  - destruct (Ephemeral.cleanup w); [|done]. by simplify_eq.
Qed.

Lemma on_server_handles x ea s s' ds :
  on_server x ea s = Some (s', ds) ->
  workers s' = workers s /\ rt s' = rt s /\
  (forall a, has_handle s' a = if decide (x = a /\ gives_up ea = true) then false else has_handle s a) /\
  (gives_up ea = true -> has_handle s x = true).
Proof.
  intros (w & w' & evs & Hx & He & -> & _)%on_server_some. destruct (estep_handle _ _ _ _ He) as [Hh Hg].
  split; [done|]. split; [done|]. unfold has_handle. cbn [servers set_servers]. rewrite Hx. split; [|done].
  intros a. rewrite lookup_insert. destruct (decide (x = a)) as [->|Hne].
  - rewrite Hh, Hx. destruct (gives_up ea); [by rewrite decide_True by done|by rewrite decide_False by naive_solver].
  - by rewrite decide_False by naive_solver.
Qed.

(** What else stays: no worker is lost, and only the drain opens the end of the runtime. *)
Definition keeps (s s' : System) : Prop :=
  (forall a, has_handle s' a = has_handle s a) /\ (forall a, made s a -> made s' a) /\
  (freeing (rt s') = Open <-> freeing (rt s) = Open).

Lemma keeps_refl s : keeps s s.
Proof. by split_and!. Qed.
Lemma keeps_trans s1 s2 s3 : keeps s1 s2 -> keeps s2 s3 -> keeps s1 s3.
Proof.
  intros (A1 & A2 & A3) (B1 & B2 & B3). split; [|split; [auto|by rewrite B3]]. intros a. by rewrite B1.
Qed.

Lemma rstep_open (r r' : RuntimeEntry unit) ra evs :
  rstep r ra = Some (r', evs) -> (forall order, ra <> RDrain order) -> freeing r' = Open <-> freeing r = Open.
Proof.
  intros Hs Hd.
  assert (Hsame : freeing r' = freeing r -> freeing r' = Open <-> freeing r = Open) by (by intros ->).
  assert (Hqueue : forall r1 a, on_queue r1 a = Some (r', evs) -> freeing r' = freeing r1).
  { intros r1 a (w & es & _ & -> & _)%on_queue_some. done. }
  destruct ra; cbn [rstep] in Hs.
  - unfold reserve_task in Hs. case_decide; simplify_eq. by apply Hsame.
  - unfold admit_task, register in Hs. destruct (tasks r !! tid); [|done]. cbn [mbind option_bind] in Hs.
    repeat case_match; simplify_eq; by apply Hsame.
  - unfold spawn_task in Hs. destruct (tasks r !! tid) as [task|]; [|done]. cbn [mbind option_bind] in Hs.
    destruct (t_state task); simplify_eq. by apply Hsame.
  - unfold poll_task in Hs. destruct (tasks r !! tid) as [task|]; [|done]. cbn [mbind option_bind] in Hs.
    destruct (t_state task); try done. destruct (select_poll _ _ _); simplify_eq; by apply Hsame.
  - unfold answer_task in Hs. destruct (tasks r !! tid) as [task|]; [|done]. cbn [mbind option_bind] in Hs.
    destruct (t_state task); try done. destruct (locked r); [done|]. apply Hsame.
    destruct (retire r (t_req task)).2; [by apply Hqueue in Hs|]. destruct (pending_drop _ _); by simplify_eq.
  - destruct (locked r); [done|]. simplify_eq. apply Hsame. unfold cancel. by destruct (pending r !! req_id).
  - by destruct (Hd order).
  - unfold drain_one in Hs. destruct (freeing r) as [|[|[] ]| |]; try done. apply Hqueue in Hs. by rewrite Hs.
  - unfold drain_end in Hs. destruct (freeing r) as [|[|]| |]; try done. apply Hqueue in Hs. by rewrite Hs.
  - unfold waited in Hs. case_decide; [|done]. destruct (freeing r); by simplify_eq.
  - apply Hsame. by apply Hqueue in Hs.
  - apply Hsame. by apply Hqueue in Hs.
Qed.

Lemma on_rt_keeps ra s s' ds :
  on_rt ra s = Some (s', ds) -> (forall order, ra <> RDrain order) -> keeps s s'.
Proof.
  intros (r & evs & Hr & -> & _)%on_rt_some Hd. split; [done|]. split; [done|]. by apply (rstep_open _ _ _ evs Hr).
Qed.

Lemma on_worker_keeps a wa s s' ds : on_worker a wa s = Some (s', ds) -> keeps s s'.
Proof.
  intros (n & w' & evs & _ & _ & _ & -> & _)%on_worker_some. split; [done|]. split; [|done].
  intros b. unfold made. cbn. rewrite lookup_insert. by case_decide.
Qed.

Lemma on_server_keeps a ea s s' ds : on_server a ea s = Some (s', ds) -> gives_up ea = false -> keeps s s'.
Proof.
  intros Hs Hg. destruct (on_server_handles _ _ _ _ _ Hs) as (Hw & Hr & Hh & _).
  split; [|split; [unfold made; by rewrite Hw|by rewrite Hr]]. intros b. rewrite Hh, decide_False; [done|].
  intros [_ ?]. congruence.
Qed.

Lemma nothing_keeps s s' ds : nothing s = Some (s', ds) -> keeps s s'.
Proof. intros [= <- _]. apply keeps_refl. Qed.

Lemma take_job_keeps tid j s s' ds : take_job tid j s = Some (s', ds) -> keeps s s'.
Proof. destruct j; [apply nothing_keeps|intros Hs; by eapply on_server_keeps|apply nothing_keeps..]. Qed.

Lemma drop_job_keeps tid j s s' ds : drop_job tid j s = Some (s', ds) -> keeps s s'.
Proof.
  intros Hs. destruct j as [w|w| |]; cbn [drop_job] in Hs; [| |by eapply nothing_keeps..].
  - destruct (workers s !! w); [|done]. cbn [mbind option_bind] in Hs.
    case_decide; [by eapply nothing_keeps|by eapply on_worker_keeps].
  - destruct (servers s !! w); [|done]. cbn [mbind option_bind] in Hs.
    case_decide; [by eapply nothing_keeps|by eapply on_server_keeps].
Qed.

Lemma sstep_keeps s a s' ds : sstep s a = Some (s', ds) -> without_handle a = true -> keeps s s'.
Proof.
  intros Hs Ha. destruct a as [tid req_id j|tid token|ra|tid op|tid wa|tid ea|tid sv op|tid|w h|w wa|w id|sv ea|];
    cbn [sstep without_handle] in *; try done.
  - case_decide; [|done]. apply andthen_some in Hs as (s1 & ds1 & ds2 & E1 & E2 & _).
    apply on_rt_keeps in E2; [|done]. apply take_job_keeps in E1.
    apply (keeps_trans _ (set_jobs (<[tid := j]> (jobs s)) s)); [by split_and!|by eapply keeps_trans].
  - destruct (jobs s !! tid) as [j|]; [|done]. cbn [mbind option_bind] in Hs.
    apply andthen_some in Hs as (s1 & ds1 & ds2 & E1 & E2 & _). apply on_rt_keeps in E1; [|done].
    apply (keeps_trans _ s1); [done|]. unfold drop_refused in E2.
    case_decide; [by eapply drop_job_keeps|by eapply nothing_keeps].
  - destruct (plain ra); [|done]. eapply on_rt_keeps; [done|]. by intros order ->.
  - case_decide; [|done]. by eapply on_rt_keeps.
  - destruct (running s tid) as [[req tok]|]; [|done]. cbn [mbind option_bind] in Hs.
    destruct (jobs s !! tid) as [[w| | |]|]; try done. destruct (_ && _); [|done].
    apply polling_some in Hs as (s1 & ds1 & ds2 & E1 & E2 & _). apply on_rt_keeps in E2; [|done].
    apply andthen_some in E1 as (s2 & ds3 & ds4 & E1 & E3 & _). apply on_worker_keeps in E1.
    assert (keeps s2 s1) as Hk.
    { unfold finish_unstarted in E3. destruct (workers s2 !! w); [|done]. cbn [mbind option_bind] in E3.
      case_decide; [by apply on_worker_keeps in E3|]. injection E3 as <- _. apply keeps_refl. }
    by eapply keeps_trans, keeps_trans.
  - destruct (running s tid) as [[req tok]|]; [|done]. cbn [mbind option_bind] in Hs.
    destruct (jobs s !! tid) as [[|w| |]|]; try done. destruct (server_call tid ea) eqn:Hc;
      [|by rewrite andb_false_r in Hs]. destruct (_ && _); [|done].
    apply polling_some in Hs as (s1 & ds1 & ds2 & E1 & E2 & _). apply on_rt_keeps in E2; [|done].
    apply on_server_keeps in E1; [by eapply keeps_trans|by destruct ea].
  - destruct (running s tid) as [[req tok]|]; [|done]. cbn [mbind option_bind] in Hs.
    destruct (jobs s !! tid) as [j|]; [|done]. cbn [mbind option_bind] in Hs. destruct (is_cancelled _ _); [|done].
    apply andthen_some in Hs as (s1 & ds1 & ds2 & E1 & E2 & _). apply on_rt_keeps in E2; [|done].
    apply drop_job_keeps in E1. by eapply keeps_trans.
  - destruct (workers s !! w); [|done]. cbn [mbind option_bind] in Hs. destruct (by_itself _ _); [|done].
    by eapply on_worker_keeps.
  - apply post_some in Hs as (n & p & rest & s1 & _ & _ & E & ->). apply on_rt_keeps in E; [|done].
    eapply keeps_trans; [exact E|]. split; [done|]. split; [|done]. intros b. unfold made. cbn.
    rewrite lookup_insert. by case_decide.
  - destruct (servers s !! sv) as [x|]; [|done]. cbn [mbind option_bind] in Hs. destruct (server_itself _ _ _); [|done].
    eapply on_server_keeps; [done|]. by destruct ea.
  - case_decide; [|done]. by eapply on_rt_keeps.
Qed.

(** ** Lemmas: dropped completions own machine words *)

Lemma rejected_push w a w' evs p :
  qstep (T := unit) w a = Some (w', evs) -> p ∈ rejected evs -> a = APush p.
Proof.
  intros Hs Hp. unfold rejected in Hp. apply list_elem_of_omap in Hp as (ev & He & Hp). destruct ev; try done.
  injection Hp as ->. destruct a; cbn [qstep] in Hs.
  - unfold push in Hs. destruct (closed (shared w)).
    + destruct (pending_drop _ _); [|done]. simplify_eq. apply list_elem_of_singleton in He. congruence.
    + simplify_eq. by apply list_elem_of_singleton in He.
  - simplify_eq. by apply elem_of_nil in He.
  - simplify_eq. by apply elem_of_nil in He.
  - case_decide; [|done]. simplify_eq. by apply elem_of_nil in He.
  - case_decide; [|done]. unfold poll_call in Hs. destruct (pollers w !! id); [|done]. cbn [mbind option_bind] in Hs.
    repeat case_match; simplify_eq; set_solver.
  - unfold acquire in Hs. destruct (threads w !! tid) as [th|]; [|done]. cbn [mbind option_bind] in Hs.
    unfold leave_loop, poll_drain in Hs. repeat case_match; simplify_eq; set_solver.
  - unfold spurious in Hs. destruct (threads w !! tid); [|done]. cbn [mbind option_bind] in Hs.
    case_decide; [|done]. simplify_eq. by apply elem_of_nil in He.
  - unfold time_out in Hs. destruct (threads w !! tid); [|done]. cbn [mbind option_bind] in Hs.
    case_decide; [|done]. simplify_eq. by apply elem_of_nil in He.
  - unfold finish in Hs. destruct (threads w !! tid) as [th|]; [|done]. cbn [mbind option_bind] in Hs.
    destruct (pollers w !! th_poller th); [|done]. cbn [mbind option_bind] in Hs.
    repeat case_match; simplify_eq; set_solver.
Qed.

Lemma rstep_drops (r r' : RuntimeEntry unit) ra evs :
  rt_inv r -> runtime_step r (ra, evs) r' -> Forall pending_ok (evs ≫= dropped_in).
Proof.
  intros Hr [Hok Hs]. cbn [fst snd] in *.
  assert (Hqueue : forall r1 a, on_queue r1 a = Some (r', evs) -> (forall p, a = APush p -> pending_ok p) ->
    Forall pending_ok (evs ≫= dropped_in)).
  { intros r1 a (w & qe & Hq & _ & ->)%on_queue_some Ha. cbn. rewrite app_nil_r. apply Forall_forall.
    intros p Hp. eapply Ha, rejected_push; done. }
  destruct ra; cbn [rstep] in Hs.
  - unfold reserve_task in Hs. case_decide; simplify_eq. constructor.
  - unfold admit_task, register in Hs. destruct (tasks r !! tid); [|done]. cbn [mbind option_bind] in Hs.
    repeat case_match; simplify_eq; constructor.
  - unfold spawn_task in Hs. destruct (tasks r !! tid) as [task|]; [|done]. cbn [mbind option_bind] in Hs.
    destruct (t_state task); simplify_eq. constructor.
  - unfold poll_task in Hs. destruct (tasks r !! tid) as [task|]; [|done]. cbn [mbind option_bind] in Hs.
    destruct (t_state task); try done. destruct (select_poll _ _ _); simplify_eq; constructor.
  - unfold answer_task in Hs. destruct (tasks r !! tid) as [task|] eqn:Ht; [|done]. cbn [mbind option_bind] in Hs.
    destruct (t_state task) eqn:Hst; try done. destruct (locked r); [done|].
    destruct (ri_result r Hr tid task _ _ Ht Hst) as [Hp _].
    destruct (retire r (t_req task)).2; [eapply Hqueue; [done|]; by intros p [= <-]|].
    destruct (pending_drop _ _); simplify_eq. cbn. by constructor.
  - destruct (locked r); [done|]. simplify_eq. constructor.
  - unfold drain_begin in Hs. destruct (freeing r); try done. case_decide; simplify_eq. constructor.
  - unfold drain_one in Hs. destruct (freeing r) as [|[|[] ]| |]; try done. eapply Hqueue; [done|]. by intros p [= <-].
  - unfold drain_end in Hs. destruct (freeing r) as [|[|]| |]; try done. by eapply Hqueue.
  - unfold waited in Hs. case_decide; [|done]. destruct (freeing r); simplify_eq. constructor.
  - eapply Hqueue; [done|]. intros p' [= <-]. by destruct Hok.
  - eapply Hqueue; [done|]. intros p ->. done.
Qed.

Lemma run_drops (r : RuntimeEntry unit) ls r' :
  rt_inv r -> run runtime_step r ls r' -> Forall pending_ok (revents ls ≫= dropped_in).
Proof.
  intros Hr Hrun. induction Hrun as [r|r ls r1 [ra evs] r2 Hrun IH Hs]; [constructor|].
  rewrite revents_app, bind_app, revents_one. apply Forall_app. split; [by apply IH|].
  eapply rstep_drops; [|done]. by eapply run_runtime_inv.
Qed.

(** ** Lemmas: every step keeps the accounts *)

(** The steps of the system that [ds] are the deeds of. *)
Definition follows (o : Owned) (ds : list deed) (o' : Owned) : Prop :=
  exists ls, run system_step (sys o) ls (sys o') /\ sdeeds ls = ds.

Lemma follows_refl o o' : sys o' = sys o -> follows o [] o'.
Proof. intros Hs. exists []. rewrite Hs. split; [constructor|done]. Qed.

Lemma follows_trans o ds1 o1 ds2 o2 : follows o ds1 o1 -> follows o1 ds2 o2 -> follows o (ds1 ++ ds2) o2.
Proof.
  intros (l1 & R1 & <-) (l2 & R2 & <-). exists (l1 ++ l2). split; [by eapply run_app|]. apply sdeeds_app.
Qed.

Lemma on_sys_some a o o' ds :
  on_sys a o = Some (o', ds) -> exists s', sstep (sys o) a = Some (s', ds) /\ o' = set_sys s' o.
Proof. unfold on_sys. destruct (sstep _ _) as [[s' ds']|]; [|done]. intros [= <- <-]. by exists s'. Qed.

Lemma on_sys_follows a o o' ds : on_sys a o = Some (o', ds) -> saction_ok (sys o) a -> follows o ds o'.
Proof.
  intros (s' & Hs & ->)%on_sys_some Hok. exists [(a, ds)]. split; [by apply run_one|]. apply sdeeds_one.
Qed.

Section invariant.
Context (s0 : System) (Hinit : system_initial s0) (Hfit : fits 64 runtime).

Lemma follows_reachable o ds o' : reachable s0 (sys o) -> follows o ds o' -> reachable s0 (sys o').
Proof. intros Hr (ls & R & _). by eapply reachable_run. Qed.

(** The runtime's own entry. *)
Definition same_runtime (o o' : Owned) : Prop :=
  forall a x, live (table o') !! runtime = Some (Runtime a, x) <-> live (table o) !! runtime = Some (Runtime a, x).

Lemma stage_change o o' :
  stage_ok o -> stage o' = stage o -> (freeing (rt (sys o')) = Open <-> freeing (rt (sys o)) = Open) ->
  same_runtime o o' -> stage_ok o'.
Proof.
  intros Hs He Hf Hr. unfold stage_ok in *. rewrite He. destruct (stage o).
  - destruct Hs as [Ho [a Ha]]. split; [by apply Hf|]. exists a. by apply Hr.
  - destruct Hs as [Ho Ha]. split; [by apply Hf|]. intros a x Hx. by apply (Ha a x), Hr.
  - destruct Hs as [Ho Ha]. split; [by rewrite Hf|]. intros a x Hx. by apply (Ha a x), Hr.
Qed.

(** A handle of a kind other than the runtimes' is freed. *)
Lemma removed_handle o h k t e :
  owned_inv s0 o -> fits 64 h -> k <> KIND_RUNTIME -> remove_of_kind (table o) h k = Done (t, Ok e) ->
  table_inv t /\ entry_kind e = k /\ same_runtime o (set_table t o) /\
  exists x, live (table o) !! h = Some (e, x) /\ live t = delete h (live (table o)).
Proof.
  intros Hv Hh Hk Hr. pose proof (oi_table _ _ Hv) as Ht.
  destruct (table_step_inv (table o) (OpRemove h k) t Ht (step_remove _ h k t _ Hh Hk Hr)) as [Ht' _].
  destruct (remove_of_kind_spec (table o) h k (proj1 Ht) Hh)
    as [(e' & x & t' & Hl & He & Hr' & _ & Hl' & _)|(_ & err & Hr')]; [|congruence].
  rewrite Hr in Hr'. injection Hr' as <- <-. split; [done|]. split; [done|]. split; [|by exists x].
  intros a y. cbn. rewrite Hl', lookup_delete_Some. split; [by intros [_ ?]|]. intros Hx. split; [|done].
  intros ->. rewrite Hx in Hl. injection Hl as <- <-. by rewrite <- He in Hk.
Qed.

(** A step of the system that gives no server up, with the table as it is. *)
Lemma keeps_inv o s' ds :
  owned_inv s0 o -> keeps (sys o) s' -> follows o ds (set_sys s' o) -> owned_inv s0 (set_sys s' o).
Proof.
  intros [V1 V2 V3 V4] (Hh & Hm & Hf) Hr. split; [by eapply follows_reachable|done| |].
  - by apply (accounts_mono _ _ (has_handle (sys o)) _ (made (sys o))).
  - by apply (stage_change o).
Qed.

(** A freed handle was a server's, and its entry is told. *)
Lemma server_gone o t h x a ea o' ds :
  owned_inv s0 o -> live (table o) !! h = Some (Ephemeral a, x) -> live t = delete h (live (table o)) -> table_inv t ->
  same_runtime o (set_table t o) -> gives_up ea = true ->
  on_sys (SServer a ea) (set_table t o) = Some (o', ds) -> follows (set_table t o) ds o' /\ owned_inv s0 o'.
Proof.
  intros [V1 V2 V3 V4] Hl Hd Ht Hr Hg Hs. pose proof (on_sys_follows _ _ _ _ Hs I) as Hfo. split; [done|].
  apply on_sys_some in Hs as (s' & Hs & ->). cbn [sys set_table sstep] in Hs.
  destruct (servers (sys o) !! a) as [w|]; [|done]. cbn [mbind option_bind] in Hs. destruct (server_itself _ _ _); [|done].
  destruct (on_server_handles _ _ _ _ _ Hs) as (Hw & Hrt & Hh & _). split.
  - by apply (follows_reachable (set_table t o) ds).
  - done.
  - cbn [sys table set_sys set_table]. rewrite Hd.
    assert (unclosed (set_sys s' (set_table t o)) = unclosed o) as -> by done.
    apply (accounts_mono _ _ (has_handle s') _ (made (sys o))); [|done|unfold made; by rewrite Hw].
    apply (accounts_delete _ _ (has_handle (sys o)) _ _ h (Ephemeral a) x V3 Hl). intros b. rewrite Hh. apply decide_ext. naive_solver.
  - apply (stage_change o); [done|done|cbn; by rewrite Hrt|done].
Qed.

(** Any other freed handle leaves the servers alone. *)
Lemma other_gone o t h x e :
  owned_inv s0 o -> live (table o) !! h = Some (e, x) -> live t = delete h (live (table o)) -> table_inv t ->
  same_runtime o (set_table t o) -> (forall a, e <> Ephemeral a) -> owned_inv s0 (set_table t o).
Proof.
  intros [V1 V2 V3 V4] Hl Hd Ht Hr He. split; [done|done| |by apply (stage_change o)].
  cbn [table set_table sys]. rewrite Hd.
  apply (accounts_delete _ _ (has_handle (sys o)) _ _ h e x V3 Hl). intros b. by rewrite decide_False.
Qed.

(** *** Dropped completions *)

Lemma discard_possible o t h x a :
  owned_inv s0 o -> live (table o) !! h = Some (Ephemeral a, x) ->
  exists o' evs, on_sys (SServer a Ephemeral.EDiscard) (set_table t o) = Some (o', [OfServer a (Ephemeral.EDiscard, evs)]).
Proof.
  intros Hv Hl. destruct (accounts_named _ _ _ _ _ _ _ (oi_accounts _ _ Hv) Hl) as [Hh _].
  unfold has_handle in Hh. destruct (servers (sys o) !! a) as [w|] eqn:Ha; [|done].
  unfold on_sys. cbn [sys set_table sstep]. rewrite Ha. cbn [mbind option_bind server_itself].
  unfold on_server. rewrite Ha. cbn [mbind option_bind Ephemeral.estep]. rewrite decide_True by done. by eexists _, _.
Qed.

(** No server is in the table. *)
Definition no_servers (o : Owned) : Prop := forall h a x, live (table o) !! h <> Some (Ephemeral a, x).

(** Completions are dropped: servers may be given up, and nothing else happens. *)
Record drops (o : Owned) (ds : list deed) (o' : Owned) : Prop := {
  dr_inv : owned_inv s0 o';
  dr_follows : follows o ds o';
  dr_rt : rt (sys o') = rt (sys o);
  dr_stage : stage o' = stage o;
  dr_trace : runtime_trace ds = [];
  dr_live : live (table o') ⊆ live (table o);
  dr_same : no_servers o -> sys o' = sys o;
}.

Lemma drops_nothing o : owned_inv s0 o -> drops o [] o.
Proof. intros Hv. split; try done. by apply follows_refl. Qed.

Lemma drops_trans o ds1 o1 ds2 o2 : drops o ds1 o1 -> drops o1 ds2 o2 -> drops o (ds1 ++ ds2) o2.
Proof.
  intros [A1 A2 A3 A4 A5 A6 A7] [B1 B2 B3 B4 B5 B6 B7]. split; [done| |congruence|congruence| |by etrans|].
  - by eapply follows_trans.
  - by rewrite runtime_trace_app, A5, B5.
  - intros Hn. rewrite B7; [by apply A7|]. intros h a x Hx. apply (Hn h a x). by eapply lookup_weaken.
Qed.

(** Dropping a completion is always possible. *)
Lemma drop_pending_inv p o :
  owned_inv s0 o -> pending_ok p -> exists o' ds, drop_pending p o = Some (o', ds) /\ drops o ds o'.
Proof.
  intros Hv Hp. unfold drop_pending, quiet.
  assert (Hno : exists o' ds, Some (o, []) = Some (o', ds) /\ drops o ds o')
    by (exists o, []; split; [done|by apply drops_nothing]).
  case_decide; [exact Hno|]. destruct (owned_kind (p_kind p)) as [kind|] eqn:Hkind; [|exact Hno].
  assert (kind <> KIND_RUNTIME) as Hk by (destruct (p_kind p); try done; by injection Hkind as <-).
  destruct (remove_of_kind_spec (table o) (p_aux0 p) kind (proj1 (oi_table _ _ Hv)) Hp)
    as [(e & x & t & _ & _ & Hr & _)|(_ & err & Hr)]; rewrite Hr; [|by rewrite owned_table_id].
  destruct (removed_handle o _ kind t e Hv Hp Hk Hr) as (Ht & He & Hsame & y & Hl & Hd).
  assert (live t ⊆ live (table o)) as Hsub by (rewrite Hd; apply delete_subseteq).
  destruct e as [a|a|a|a|a].
  4:{ destruct (discard_possible o t _ y a Hv Hl) as (o' & evs & Hs). exists o', [OfServer a (Ephemeral.EDiscard, evs)].
      destruct (server_gone o t _ y a Ephemeral.EDiscard o' _ Hv Hl Hd Ht Hsame eq_refl Hs) as [Hfo Hv'].
      split; [done|].
      apply on_sys_some in Hs as (s' & Hs & ->). cbn [sstep set_table sys] in Hs.
      destruct (servers (sys o) !! a) as [w|]; [|done]. cbn [mbind option_bind] in Hs.
      destruct (server_itself _ _ _); [|done]. destruct (on_server_beside _ _ _ _ _ Hs) as [[Hrt Hj] _].
      split; try done. intros Hx. by destruct (Hx (p_aux0 p) a y). }
  all: exists (set_table t o), []; split; [done|]; split; try done; try by apply follows_refl.
  all: by eapply other_gone.
Qed.

Lemma drop_pendings_inv ps o :
  owned_inv s0 o -> Forall pending_ok ps -> exists o' ds, drop_pendings ps o = Some (o', ds) /\ drops o ds o'.
Proof.
  intros Hv Hps. revert o Hv. induction Hps as [|p ps Hp _ IH]; intros o Hv.
  - exists o, []. split; [done|by apply drops_nothing].
  - destruct (drop_pending_inv p o Hv Hp) as (o1 & ds1 & E1 & D1). destruct (IH o1 (dr_inv _ _ _ D1)) as (o2 & ds2 & E2 & D2).
    exists o2, (ds1 ++ ds2). cbn [drop_pendings]. rewrite E1. cbn [mbind option_bind]. rewrite E2. split; [done|].
    by eapply drops_trans.
Qed.

(** What a step of the system drops is words of a machine. *)
Lemma discards_ok o a ds s' :
  owned_inv s0 o -> system_step (sys o) (a, ds) s' -> Forall pending_ok (discards ds).
Proof.
  intros Hv Hs. pose proof (oi_sys _ _ Hv) as [ks Hk].
  pose proof (runtime_part s0 ks (sys o) [(a, ds)] s' Hinit Hk (run_one _ _ _ _ Hs)) as Hr.
  rewrite sdeeds_one in Hr. unfold discards. eapply run_drops; [|done]. by eapply reachable_rt, oi_sys.
Qed.

(** A step of the system that makes and frees no handle, with what it drops. *)
Lemma system_takes_inv o a s' ds :
  owned_inv s0 o -> system_step (sys o) (a, ds) s' -> keeps (sys o) s' ->
  exists o' ds', system_takes a o = Some (o', ds ++ ds') /\ drops (set_sys s' o) ds' o'.
Proof.
  intros Hv Hs Hk. assert (follows o ds (set_sys s' o)) as Hfo by (exists [(a, ds)]; split; [by apply run_one|apply sdeeds_one]).
  pose proof (keeps_inv o s' ds Hv Hk Hfo) as Hv1.
  destruct (drop_pendings_inv (discards ds) _ Hv1 (discards_ok o a ds s' Hv Hs)) as (o' & ds' & E & D).
  exists o', ds'. split; [|done]. unfold system_takes, on_sys. destruct Hs as [_ Hs]. cbn [fst snd] in Hs.
  rewrite Hs. cbn [mbind option_bind]. by rewrite E.
Qed.

(** *** The exports' own steps *)

Lemma insert_same o t h e x :
  live (table o) !! h = None -> live t = <[h := (e, x)]> (live (table o)) -> entry_kind e <> KIND_RUNTIME ->
  same_runtime o (set_table t o).
Proof.
  intros Hn Hl Hk a y. cbn. rewrite Hl, lookup_insert. case_decide; [|done]. subst h. rewrite Hn.
  split; [|done]. by intros [= -> _].
Qed.

Lemma insert_owned_cases o e :
  owned_inv s0 o -> has_room (table o) -> entry_kind e <> KIND_RUNTIME ->
  (exists t h, insert_owned (table o) runtime e = Done (t, Ok h, []) /\ table_inv t /\ fits 64 h /\
     live (table o) !! h = None /\ live t = <[h := (e, runtime)]> (live (table o)) /\ same_runtime o (set_table t o)) \/
  insert_owned (table o) runtime e = Done (table o, Err Shutdown, [e]).
Proof.
  intros Hv Hroom Hk. pose proof (oi_table _ _ Hv) as Ht.
  pose proof (insert_owned_spec (table o) runtime e (proj1 Ht) Hroom Hfit) as Hs.
  destruct (live (table o) !! runtime) as [[[a|a|a|a|a] y]|] eqn:Hl; auto. left.
  destruct Hs as (t & h & Hs & Hi). exists t, h. split; [done|].
  destruct (insert_into_spec (table o) e runtime (proj1 Ht) Hroom) as (t' & h' & Hi' & _ & Hn & Hlv & Hh & _).
  rewrite Hi in Hi'. injection Hi' as <- <-. split; [|split_and!; try done; by eapply insert_same].
  eapply (table_step_inv (table o) (OpInsertOwned runtime e)); [done|]. by eapply step_insert_owned.
Qed.

(** A server starts. *)
Lemma start_some o tid server p o' ds :
  on_sys (SStart tid server (Done p)) o = Some (o', ds) ->
  exists s', o' = set_sys s' o /\ servers (sys o) !! server = None /\ (forall a, made (sys o) a -> made s' a) /\
    (freeing (rt s') = Open <-> freeing (rt (sys o)) = Open) /\
    forall a, has_handle s' a = if decide (server = a) then true else has_handle (sys o) a.
Proof.
  intros (s' & Hs & ->)%on_sys_some. exists s'. split; [done|]. cbn [sstep] in Hs.
  destruct (running _ tid) as [[req tok]|]; [|done]. cbn [mbind option_bind] in Hs.
  case_decide as Hc; [|done]. destruct Hc as (_ & _ & Hno). split; [done|].
  apply on_rt_keeps in Hs as (Hh & Hm & Hf); [|done]. split; [done|]. split; [done|].
  intros a. rewrite Hh. unfold has_handle. cbn. rewrite lookup_insert. by case_decide.
Qed.

Lemma start_ok o tid server req tok p :
  running (sys o) tid = Some (req, tok) -> p_req_id p = req -> pending_ok p ->
  saction_ok (sys o) (SStart tid server (Done p)).
Proof.
  intros (task & Ht & Hreq & _)%running_some Hp Hok. split; [done|]. intros task' Ht'. congruence.
Qed.

Lemma server_starts_inv o tid server closer info o' ds :
  owned_inv s0 o -> has_room (table o) -> started tid server closer info o = Some (o', ds) ->
  owned_inv s0 o' /\ follows o ds o'.
Proof.
  intros Hv Hroom Hs. unfold started in Hs.
  destruct (running (sys o) tid) as [[req tok]|] eqn:Hr; [|done]. cbn [mbind option_bind] in Hs.
  unfold Ffi.server_completion in Hs.
  destruct (insert_owned_cases o (Ephemeral server) Hv Hroom ltac:(done)) as [(t & h & Hi & Ht & Hh & Hn & Hl & Hsame)|Hi];
    rewrite Hi in Hs; cbn [mbind outcome_bind mret outcome_ret] in Hs.
  - destruct (on_sys _ (set_table t o)) as [[o1 ds1]|] eqn:E; [|done]. cbn [mbind option_bind] in Hs.
    rewrite decide_True in Hs by done. injection Hs as <- <-. rewrite app_nil_r.
    assert (follows (set_table t o) ds1 o1) as Hfo.
    { apply (on_sys_follows _ _ _ _ E). apply (start_ok (set_table t o) tid server req tok); [exact Hr|reflexivity|exact Hh]. }
    destruct (start_some _ _ _ _ _ _ E) as (s' & -> & Hno & Hm & Hf & Hhas). cbn [sys set_table] in *.
    destruct Hv as [V1 V2 V3 V4]. split; [|done]. split; [by apply (follows_reachable (set_table t o) ds1)|done| |].
    + cbn [table set_sys set_table]. rewrite Hl.
      apply (accounts_insert _ _ (has_handle (sys o)) _ (made (sys o))); try done.
      * split; [done|]. unfold has_handle. by rewrite Hno.
      * intros a. rewrite Hhas. apply decide_ext. naive_solver.
    + by apply (stage_change o).
  - destruct (on_sys _ (set_table (table o) o)) as [[o1 ds1]|] eqn:E; [|done]. cbn [mbind option_bind] in Hs.
    rewrite decide_False in Hs by done. rewrite owned_table_id in E.
    destruct (on_sys _ o1) as [[o2 ds2]|] eqn:E2; [|done]. cbn [mbind option_bind] in Hs. injection Hs as <- <-.
    assert (follows o ds1 o1) as Hfo.
    { apply (on_sys_follows _ _ _ _ E). by apply (start_ok o tid server req tok _ Hr). }
    pose proof (on_sys_follows _ _ _ _ E2 I) as Hfo2.
    destruct (start_some _ _ _ _ _ _ E) as (s1 & -> & Hno & Hm & Hf & Hhas).
    apply on_sys_some in E2 as (s2 & E2 & ->). cbn [sys set_sys sstep] in E2.
    destruct (servers s1 !! server) as [w|]; [|done]. cbn [mbind option_bind] in E2.
    destruct (server_itself _ _ _); [|done]. destruct (on_server_handles _ _ _ _ _ E2) as (Hw & Hrt & Hh2 & _).
    pose proof (follows_trans _ _ _ _ _ Hfo Hfo2) as Hfo3. split; [|done].
    apply (keeps_inv o s2 (ds1 ++ ds2) Hv); [|done]. split; [|split].
    + intros a. rewrite Hh2, Hhas. destruct (decide (server = a)) as [<-|Hne].
      * rewrite decide_True by done. unfold has_handle. by rewrite Hno.
      * rewrite decide_False; [done|]. by intros [? _].
    + unfold made. rewrite Hw. apply Hm.
    + by rewrite Hrt.
Qed.

Lemma connected_inv o tid client o' ds :
  owned_inv s0 o -> has_room (table o) -> connected tid client o = Some (o', ds) ->
  owned_inv s0 o' /\ follows o ds o'.
Proof.
  intros Hv Hroom Hs. unfold connected in Hs.
  destruct (running (sys o) tid) as [[req tok]|] eqn:Hr; [|done]. cbn [mbind option_bind] in Hs.
  assert (Hpoll : forall t p, pending_ok p -> p_req_id p = req ->
    owned_inv s0 (set_table t o) -> on_sys (SPoll tid (Some (Done p))) (set_table t o) = Some (o', ds) ->
    owned_inv s0 o' /\ follows o ds o').
  { intros t p Hp Hreq Hvt E.
    assert (follows (set_table t o) ds o') as Hfo.
    { apply (on_sys_follows _ _ _ _ E). by apply (start_ok (set_table t o) tid 1%positive req tok p Hr). }
    split; [|done]. apply on_sys_some in E as (s' & E & ->). apply (keeps_inv _ s' ds Hvt); [|done].
    cbn [sstep sys set_table] in E. case_decide; [|done]. by eapply on_rt_keeps. }
  unfold Ffi.connect_completion in Hs.
  destruct (insert_owned_cases o (Client client) Hv Hroom ltac:(done)) as [(t & h & Hi & Ht & Hh & Hn & Hl & Hsame)|Hi];
    rewrite Hi in Hs; cbn [mbind outcome_bind mret outcome_ret] in Hs.
  - apply (Hpoll t (with_aux0 h (with_kind ClientConnected (pending_ack req))) Hh eq_refl); [|done]. destruct Hv as [V1 V2 V3 V4]. split; try done; [|by apply (stage_change o)].
    cbn [table set_table]. rewrite Hl. by apply (accounts_insert _ _ (has_handle (sys o)) _ (made (sys o))).
  - by apply (Hpoll (table o) (pending_error req (code Shutdown) (error_to_string Shutdown)) ltac:(done) eq_refl);
      [rewrite owned_table_id|].
Qed.

Lemma worker_made_inv o worker o' ds :
  owned_inv s0 o -> has_room (table o) -> worker_new worker o = Some (o', ds) -> owned_inv s0 o' /\ follows o ds o'.
Proof.
  intros Hv Hroom Hs. unfold worker_new in Hs.
  destruct (insert_owned_cases o (Worker worker) Hv Hroom ltac:(done)) as [(t & h & Hi & Ht & Hh & Hn & Hl & Hsame)|Hi];
    rewrite Hi in Hs; [|injection Hs as <- <-; rewrite owned_table_id; split; [done|by apply follows_refl]].
  assert (follows (set_table t o) ds o') as Hfo by (by apply (on_sys_follows _ _ _ _ Hs)). split; [|done].
  apply on_sys_some in Hs as (s' & Hs & ->). cbn [sstep sys set_table] in Hs. case_decide; [|done]. injection Hs as <- <-.
  destruct Hv as [V1 V2 V3 V4]. split; [by apply (follows_reachable (set_table t o) [])|done| |by apply (stage_change o)].
  cbn [table set_sys set_table]. rewrite Hl.
  assert (Hm : forall a, made (sys o) a -> is_Some (<[worker := {| node_handle := h; node_world := Worker.worker_new; outbox := ∅ |}]>
    (workers (sys o)) !! a)) by (intros a Ha; rewrite lookup_insert; by case_decide).
  apply (accounts_insert _ _ (has_handle (sys o)) _ (made (sys o))); try done.
  split; [done|]. unfold made. cbn. by rewrite lookup_insert_eq.
Qed.

(** A handle is freed through its export; [close] is what that does to the entry. *)
Lemma free_handle_inv o h k close o' ds :
  owned_inv s0 o -> fits 64 h -> k <> KIND_RUNTIME -> free_handle h k close o = Some (o', ds) ->
  (forall t e x, live (table o) !! h = Some (e, x) -> live t = delete h (live (table o)) -> table_inv t ->
     entry_kind e = k -> same_runtime o (set_table t o) -> close e (set_table t o) = Some (o', ds) ->
     owned_inv s0 o' /\ follows (set_table t o) ds o') ->
  owned_inv s0 o' /\ follows o ds o'.
Proof.
  intros Hv Hh Hk Hs Hc. unfold free_handle in Hs.
  destruct (remove_of_kind (table o) h k) as [[t [e|err]]|] eqn:Hr; [| |done].
  - destruct (removed_handle o h k t e Hv Hh Hk Hr) as (Ht & He & Hsame & x & Hl & Hd). by apply (Hc t e x).
  - injection Hs as <- <-. split; [done|by apply follows_refl].
Qed.

Lemma worker_free_inv o h o' ds :
  owned_inv s0 o -> fits 64 h -> worker_free h o = Some (o', ds) -> owned_inv s0 o' /\ follows o ds o'.
Proof.
  intros Hv Hh Hs. apply (free_handle_inv _ _ _ _ _ _ Hv Hh) in Hs; [done|done|].
  intros t e x Hl Hd Ht He Hsame Hc. destruct e as [a|a|a|a|a]; try done.
  pose proof (other_gone o t h x _ Hv Hl Hd Ht Hsame ltac:(done)) as Hv1.
  pose proof (on_sys_follows _ _ _ _ Hc I) as Hfo. split; [|done].
  apply on_sys_some in Hc as (s' & Hc & ->). apply (keeps_inv _ s' ds Hv1); [|done].
  cbn [sstep sys set_table] in Hc. destruct (workers (sys o) !! a); [|done]. cbn [mbind option_bind] in Hc.
  destruct (by_itself _ _); [|done]. by eapply on_worker_keeps.
Qed.

Lemma server_free_inv o tid h o' ds :
  owned_inv s0 o -> fits 64 h -> server_free tid h o = Some (o', ds) -> owned_inv s0 o' /\ follows o ds o'.
Proof.
  intros Hv Hh Hs. apply (free_handle_inv _ _ _ _ _ _ Hv Hh) in Hs; [done|done|].
  intros t e x Hl Hd Ht He Hsame Hc. destruct e as [a|a|a|a|a]; try done.
  by destruct (server_gone o t h x a (Ephemeral.EFree tid) o' ds Hv Hl Hd Ht Hsame eq_refl Hc).
Qed.

Lemma remove_inv o h k o' ds :
  owned_inv s0 o -> fits 64 h -> k = KIND_CLIENT \/ k = KIND_POLLER -> free_handle h k (fun _ => quiet) o = Some (o', ds) ->
  owned_inv s0 o' /\ follows o ds o'.
Proof.
  intros Hv Hh Hk Hs. apply (free_handle_inv _ _ _ _ _ _ Hv Hh) in Hs; [done|by destruct Hk as [-> | ->]|].
  intros t e x Hl Hd Ht He Hsame [= <- <-]. split; [|by apply follows_refl].
  eapply other_gone; try done. intros a ->. destruct Hk as [-> | ->]; done.
Qed.

Lemma insert_poller_inv o poller o' ds :
  owned_inv s0 o -> has_room (table o) -> insert_poller poller o = Some (o', ds) ->
  owned_inv s0 o' /\ follows o ds o'.
Proof.
  intros Hv Hroom Hs. unfold insert_poller in Hs. pose proof (oi_table _ _ Hv) as Ht.
  destruct (insert_into_spec (table o) (Poller poller) 0 (proj1 Ht) Hroom) as (t & h & Hi & _ & Hn & Hl & _).
  unfold ht_insert in Hs. rewrite Hi in Hs. injection Hs as <- <-. split; [|by apply follows_refl].
  assert (same_runtime o (set_table t o)) as Hsame by (by eapply insert_same).
  destruct Hv as [V1 V2 V3 V4]. split; [done| | |by apply (stage_change o)].
  - cbn. eapply (table_step_inv (table o) (OpInsert (Poller poller))); [done|]. by eapply step_insert.
  - cbn [table set_table]. rewrite Hl. by apply (accounts_insert _ _ (has_handle (sys o)) _ (made (sys o))).
Qed.

(** *** [kt_runtime_free] *)

Lemma runtime_free_inv o o' ds :
  owned_inv s0 o -> runtime_free o = Some (o', ds) -> owned_inv s0 o' /\ follows o ds o'.
Proof.
  intros Hv Hs. unfold runtime_free in Hs. pose proof (oi_table _ _ Hv) as Ht.
  destruct (remove_runtime_cases (table o) runtime Ht Hfit) as [[a Hl]|[_ [err He]]];
    [|rewrite He in Hs; injection Hs as <- <-; split; [done|by apply follows_refl]].
  destruct (remove_runtime_spec (table o) runtime a (proj1 Ht) Hl) as (t & cs & Hr & _ & Hd & Hcs & _).
  destruct (live_fits _ (proj1 Ht) _ _ _ Hl) as [_ Hz].
  destruct (table_step_inv (table o) (OpRemoveRuntime runtime) t Ht (step_remove_runtime _ runtime t _ Hfit Hr)) as [Ht' _].
  rewrite Hr in Hs. destruct Hv as [V1 V2 V3 V4]. unfold stage_ok, unclosed in *.
  destruct (stage o) eqn:Hst; [|done..]. injection Hs as <- <-. split; [|by apply follows_refl].
  split; [done|done| |].
  - cbn [table set_stage set_table unclosed stage]. rewrite Hd. by apply (accounts_without _ _ _ _ a).
  - unfold stage_ok. cbn. split; [by destruct V4|]. intros b x. rewrite Hd. unfold without_runtime.
    by intros [_ [? _]]%map_lookup_filter_Some.
Qed.

Lemma close_child_inv o tid o' ds :
  owned_inv s0 o -> close_child tid o = Some (o', ds) -> owned_inv s0 o' /\ follows o ds o'.
Proof.
  intros [V1 V2 V3 V4] Hs. unfold close_child in Hs. unfold stage_ok, unclosed in *.
  destruct (stage o) as [|[|child rest] current|] eqn:Hst; try done.
  destruct (waited_for current (sys o)); [|done].
  assert (Hquiet : forall cur s' ds', follows o ds' (set_stage (Closing rest cur) (set_sys s' o)) -> rt s' = rt (sys o) ->
    (forall a, made (sys o) a -> made s' a) ->
    (forall a, has_handle s' a = if decide (child = Ephemeral a) then false else has_handle (sys o) a) ->
    owned_inv s0 (set_stage (Closing rest cur) (set_sys s' o))).
  { intros cur s' ds' Hfo Hrt Hm Hh. split; [by eapply follows_reachable|done| |].
    - apply (accounts_mono _ _ (has_handle s') _ (made (sys o))); [|done|done].
      by apply (accounts_close _ child rest (has_handle (sys o))).
    - unfold stage_ok. cbn. by rewrite Hrt. }
  destruct child as [a|a|a|a|a].
  3:{ pose proof (on_sys_follows _ _ _ _ Hs I) as Hfo. apply on_sys_some in Hs as (s' & Hs & ->).
      cbn [sstep sys set_stage] in Hs. destruct (workers (sys o) !! a); [|done]. cbn [mbind option_bind] in Hs.
      destruct (by_itself _ _); [|done]. split; [|done]. apply (Hquiet None s' ds Hfo).
      - by destruct (on_worker_beside _ _ _ _ _ Hs) as [[? _] _].
      - by destruct (on_worker_keeps _ _ _ _ _ Hs) as (_ & ? & _).
      - by destruct (on_worker_keeps _ _ _ _ _ Hs) as (? & _ & _). }
  3:{ pose proof (on_sys_follows _ _ _ _ Hs I) as Hfo. apply on_sys_some in Hs as (s' & Hs & ->).
      cbn [sstep sys set_stage] in Hs. destruct (servers (sys o) !! a); [|done]. cbn [mbind option_bind] in Hs.
      destruct (server_itself _ _ _); [|done]. destruct (on_server_handles _ _ _ _ _ Hs) as (Hw & Hrt & Hh & _).
      split; [|done]. apply (Hquiet (Some (a, tid)) s' ds Hfo); [done|unfold made; by rewrite Hw|].
      intros b. rewrite Hh. apply decide_ext. naive_solver. }
  all: injection Hs as <- <-; split; [|by apply follows_refl].
  all: apply (Hquiet None (sys o) []); try done; by apply follows_refl.
Qed.

Lemma drain_inv o order o' ds :
  owned_inv s0 o -> drain order o = Some (o', ds) -> owned_inv s0 o' /\ follows o ds o'.
Proof.
  intros [V1 V2 V3 V4] Hs. unfold drain in Hs. unfold stage_ok, unclosed in *.
  destruct (stage o) as [|[|] current|] eqn:Hst; try done. destruct (waited_for current (sys o)); [|done].
  pose proof (on_sys_follows _ _ _ _ Hs I) as Hfo. split; [|done]. apply on_sys_some in Hs as (s' & Hs & ->).
  cbn [sstep sys set_stage plain] in Hs. apply on_rt_some in Hs as (r & evs & Hr & -> & _).
  split; [by eapply follows_reachable|done|done|]. unfold stage_ok. cbn. split; [|by destruct V4].
  cbn [rstep] in Hr. unfold drain_begin in Hr. destruct (freeing (rt (sys o))); try done. case_decide; [|done].
  by injection Hr as <- _.
Qed.

Lemma owned_step_inv o l o' : owned_inv s0 o -> owned_step o l o' -> owned_inv s0 o' /\ follows o l.2 o'.
Proof.
  destruct l as [a ds]. intros Hv [Hok Hs]. cbn [fst snd] in *. destruct a; cbn [ostep oaction_ok] in *.
  - destruct (without_handle a) eqn:Ha; [|done]. destruct (on_sys a o) as [[o1 ds1]|] eqn:E;
      [|unfold system_takes in Hs; by rewrite E in Hs]. apply on_sys_some in E as (s' & E & ->).
    assert (system_step (sys o) (a, ds1) s') as Hst by done.
    destruct (system_takes_inv o a s' ds1 Hv Hst (sstep_keeps _ _ _ _ E Ha)) as (o2 & ds2 & E2 & [D1 D2 _ _ _ _ _]).
    rewrite Hs in E2. injection E2 as <- ->. split; [done|].
    apply (follows_trans o ds1 (set_sys s' o)); [|done]. exists [(a, ds1)]. split; [by apply run_one|apply sdeeds_one].
  - by apply (server_starts_inv o tid server closer info).
  - by apply (connected_inv o tid client).
  - by apply (worker_made_inv o worker).
  - by apply (worker_free_inv o h).
  - by apply (server_free_inv o tid h).
  - by apply (insert_poller_inv o poller).
  - destruct Hok as [Hh Hk]. by apply (remove_inv o h kind).
  - by apply runtime_free_inv.
  - by apply (close_child_inv o tid).
  - by apply (drain_inv o order).
Qed.

Lemma run_owned_inv o ls o' :
  owned_inv s0 o -> run owned_step o ls o' -> owned_inv s0 o' /\ follows o (ls ≫= snd) o'.
Proof.
  intros Hv Hr. induction Hr as [o|o ls o1 l o2 _ IH Hs]; [split; [done|by apply follows_refl]|].
  destruct (IH Hv) as [Hv1 Hf1]. destruct (owned_step_inv o1 l o2 Hv1 Hs) as [Hv2 Hf2]. split; [done|].
  rewrite bind_app. cbn. rewrite app_nil_r. by eapply follows_trans.
Qed.
End invariant.

Definition odeeds (ls : list (oaction * list deed)) : list deed := ls ≫= snd.

Lemma initial_owned_inv o : owned_initial o -> owned_inv (sys o) o.
Proof.
  intros (Hs & Ht & Hf & Hst & [a Ha] & Hno). pose proof Hs as ((_ & _ & _ & _ & Hfr) & Hw & Hsv & _).
  split; [exists []; constructor|done| |unfold stage_ok; rewrite Hst; split; [done|by exists a]].
  assert (forall b, has_handle (sys o) b = false) as Hh by (intros b; unfold has_handle; by rewrite Hsv).
  split.
  - intros b. rewrite Hh. unfold unclosed. rewrite Hst, mcount_zero; [done|].
    intros h [e x] Hl Hx. cbn in Hx. subst e. by apply Hno in Hl.
  - intros h e x Hl. apply Hno in Hl. by destruct e.
  - intros h b x Hl. by apply Hno in Hl.
  - unfold unclosed. rewrite Hst. by intros b ?%elem_of_nil.
Qed.

(** A run of an owned system is a run of its system. *)
Lemma run_owned o0 ls o :
  owned_initial o0 -> run owned_step o0 ls o ->
  owned_inv (sys o0) o /\ exists sls, run system_step (sys o0) sls (sys o) /\ sdeeds sls = odeeds ls.
Proof.
  intros H1 Hr. pose proof H1 as (Hs & _ & Hf & _). apply (run_owned_inv (sys o0) Hs Hf o0); [by apply initial_owned_inv|done].
Qed.

(** ** Lemmas: reading the accounts *)

Lemma get_ephemeral_live t h a :
  table_ok t -> fits 64 h -> get_ephemeral t h = Done (Ok a) <-> exists x, live t !! h = Some (Ephemeral a, x).
Proof.
  intros Ht Hh. destruct (getter_spec t h (fun e => match e with Ephemeral a => Ok a | _ => Err WrongHandleKind end)
    Ephemeral Ht Hh) as (r & Hr & Hok & _); [intros [] b; naive_solver|intros []; naive_solver|].
  unfold get_ephemeral. rewrite Hr. rewrite <- Hok. split; congruence.
Qed.

Lemma has_handle_true s a : has_handle s a = true <-> exists w, servers s !! a = Some w /\ Ephemeral.handle w = true.
Proof. unfold has_handle. destruct (servers s !! a); naive_solver. Qed.

Lemma mcount_some {K A} `{Countable K} (P : A -> Prop) `{forall x, Decision (P x)} (m : gmap K A) :
  (0 < mcount P m)%nat -> exists k x, m !! k = Some x /\ P x.
Proof.
  intros Hp. destruct (decide (map_Exists (fun _ x => P x) m)) as [(k & x & Hk & Hx)|Hno]; [by exists k, x|].
  rewrite mcount_zero in Hp; [lia|]. intros k x Hk Hx. apply Hno. by exists k, x.
Qed.

Lemma mcount_two {K A} `{Countable K} (P : A -> Prop) `{forall x, Decision (P x)} (m : gmap K A) k k' x x' :
  m !! k = Some x -> m !! k' = Some x' -> P x -> P x' -> k <> k' -> (2 <= mcount P m)%nat.
Proof.
  intros Hk Hk' Hx Hx' Hne. rewrite (mcount_delete P m k x Hk), decide_True by done.
  pose proof (mcount_pos P (delete k m) k' x') as Hp. rewrite lookup_delete_ne in Hp by done. specialize (Hp Hk' Hx'). lia.
Qed.

(** Without the runtime in the table, nothing there is the system's. *)
Lemma closed_table s0 o h e x :
  runtime <> 0 -> owned_inv s0 o -> stage o <> NotFreed -> live (table o) !! h = Some (e, x) ->
  x <> runtime /\ match e with Ephemeral _ | Worker _ => False | _ => True end.
Proof.
  intros Hz [V1 [V2 V2'] V3 V4] Hst Hl.
  assert (forall a y, live (table o) !! runtime <> Some (Runtime a, y)) as Hno
    by (unfold stage_ok in V4; destruct (stage o); [done|by destruct V4..]).
  assert (x <> runtime) as Hx.
  { intros ->. pose proof (V2' h e runtime Hl) as Hc. rewrite decide_False in Hc by done.
    destruct Hc as [_ [a Ha]]. by apply (Hno a 0). }
  split; [done|]. pose proof (ac_owner _ _ _ _ V3 h e x Hl) as Ho. by destruct e.
Qed.

Lemma initial_handle o : owned_initial o -> runtime <> 0.
Proof. intros (_ & [Ht _] & _ & _ & [a Ha] & _). by destruct (live_fits _ Ht _ _ _ Ha). Qed.

(** ** Properties *)

(** C9 A server's handle and the server go together.  In every reachable state a handle of a server
    resolves to a server that has not been let go of, to which no other handle resolves and which is
    none of the children that [kt_runtime_free] still has to close; and every server that has not
    been let go of is reached in one of the two ways. *)
Theorem handles_name_servers o0 ls o :
  owned_initial o0 -> run owned_step o0 ls o ->
  (forall h a, fits 64 h -> get_ephemeral (table o) h = Done (Ok a) ->
     has_handle (sys o) a = true /\ (Ephemeral a ∉ unclosed o) /\
     forall h', fits 64 h' -> get_ephemeral (table o) h' = Done (Ok a) -> h' = h) /\
  (forall a, has_handle (sys o) a = true ->
     (exists h, fits 64 h /\ get_ephemeral (table o) h = Done (Ok a)) \/ Ephemeral a ∈ unclosed o).
Proof.
  intros H1 Hr. destruct (run_owned o0 ls o H1 Hr) as [[V1 [V2 V2'] V3 V4] _]. split.
  - intros h a Hh [x Hl]%get_ephemeral_live; [|done..]. destruct (accounts_named _ _ _ _ _ _ _ V3 Hl) as [Ha Hcs].
    split; [done|]. split; [done|]. intros h' Hh' [x' Hl']%get_ephemeral_live; [|done..].
    destruct (decide (h' = h)) as [|Hne]; [done|]. pose proof (ac_server _ _ _ _ V3 a) as Hs.
    pose proof (mcount_two (fun x => x.1 = Ephemeral a) _ _ _ _ _ Hl' Hl eq_refl eq_refl Hne) as Ht.
    rewrite Ha in Hs. lia.
  - intros a Ha. pose proof (ac_server _ _ _ _ V3 a) as Hs. rewrite Ha in Hs.
    destruct (decide (Ephemeral a ∈ unclosed o)) as [|Hno]; [by right|left].
    rewrite (count_zero _ (unclosed o)) in Hs by (intros e He ->; done).
    destruct (mcount_some (fun x => x.1 = Ephemeral a) (live (table o))) as (h & [e x] & Hl & He); [lia|].
    cbn in He. subst e. destruct (live_fits _ V2 _ _ _ Hl) as [Hh _]. exists h. split; [done|].
    apply get_ephemeral_live; [done|done|by exists x].
Qed.

(** C8 Nothing is left of a freed runtime.  Once [free_runtime] has returned, and in every
    continuation, whatever the JVM then asks and frees: every server the runtime ever started has been
    let go of and its child does not run; the table holds no worker, no server and nothing that belongs
    to the runtime; and the runtime's handle is stale for every export that takes it. *)
Theorem nothing_is_leaked o0 ls o ls' o' :
  owned_initial o0 -> run owned_step o0 ls o -> freeing (rt (sys o)) = Freed -> run owned_step o ls' o' ->
  (forall a w, servers (sys o') !! a = Some w -> Ephemeral.handle w = false /\ Ephemeral.child w <> Ephemeral.Alive) /\
  (forall h e x, live (table o') !! h = Some (e, x) ->
     x <> runtime /\ match e with Ephemeral _ | Worker _ => False | _ => True end) /\
  (exists err, get_runtime (table o') runtime = Done (Err err)).
Proof.
  intros H1 Hr Hf Hr'. pose proof (initial_handle _ H1) as Hz. pose proof H1 as (Hs0 & _ & Hfit & _).
  destruct (run_owned o0 ls o H1 Hr) as [Hv (k1 & R1 & _)].
  destruct (run_owned_inv _ Hs0 Hfit o ls' o' Hv Hr') as [Hv' (k2 & R2 & _)].
  pose proof (freed_stays _ _ _ (runtime_part _ _ _ _ _ Hs0 R1 R2) Hf) as Hf'.
  assert (stage o' = Freeing) as Hst.
  { pose proof (oi_stage _ _ Hv') as Hst. unfold stage_ok in Hst. rewrite Hf' in Hst. by destruct (stage o'), Hst. }
  pose proof (fun h e x => closed_table _ o' h e x Hz Hv' ltac:(by rewrite Hst)) as Hclosed.
  split; [|split; [exact Hclosed|]].
  - intros a w Ha. split.
    + destruct (Ephemeral.handle w) eqn:Hh; [exfalso|done].
      pose proof (ac_server _ _ _ _ (oi_accounts _ _ Hv') a) as Hs. unfold unclosed, has_handle in Hs.
      rewrite Hst, Ha, Hh, mcount_zero in Hs; [done|]. intros h [e x] Hl He. cbn in He. subst e.
      by destruct (Hclosed h _ x Hl).
    + eapply (sy_freed _ _ _ (run_system_inv _ _ _ Hs0 (run_app _ _ _ _ _ _ R1 R2)) a w Hf' Ha).
  - destruct (getter_spec (table o') runtime (fun e => match e with Runtime a => Ok a | _ => Err WrongHandleKind end)
      Runtime (proj1 (oi_table _ _ Hv')) Hfit) as (r & Hg & Hok & _); [intros [] b; naive_solver|intros []; naive_solver|].
    unfold get_runtime. rewrite Hg. destruct r as [a|err]; [|by exists err]. exfalso.
    destruct (proj1 (Hok a) eq_refl) as [x Hx]. pose proof (oi_stage _ _ Hv') as Ho. unfold stage_ok in Ho.
    rewrite Hst in Ho. destruct Ho as [_ Ho]. by apply (Ho a x).
Qed.
End ownership.

(** ** A sample run: two servers are started and a worker made; the runtime is freed with a stop of the
    first server under way, its children closed one by one, and what is pending drained *)

#[local] Existing Instances Ffi.sample_externals Rpc.sample_grpc_code.

Arguments OStarted tid%_positive_scope server%_positive_scope closer%_positive_scope info.
Arguments OWorkerNew worker%_positive_scope.
Arguments OCloseChild tid%_positive_scope.
Arguments SStop tid%_positive_scope ea.
Arguments SWorker a%_positive_scope wa.
Arguments SServer a%_positive_scope ea.
Arguments JStop server%_positive_scope.

Definition owned_of (t : Table) : Owned := {| sys := sample_system; table := t; stage := NotFreed |}.
Definition sample_owned : Owned :=
  owned_of match ht_insert table_new (Runtime 1%positive) with Done (t, _) => t | Panicked _ => table_new end.
Definition sample_ostep : Owned -> oaction -> option (Owned * list deed) :=
  ostep (C := Rpc.SampleCode) Rpc.sample_encode_failure sample_runtime.

Definition ask (tid : positive) (req_id : Z) (j : job) : list oaction :=
  OSystem <$> [SReserve tid req_id j; SRegister tid tid; SRuntime (RSpawn tid)].
Definition sample_info : Ffi.ServerInfo :=
  {| Ffi.si_target := "127.0.0.1:7233"; Ffi.si_pid := 42; Ffi.si_has_test_service := false |}.
Definition ownership_story : list oaction :=
  ask 1 5 JStart ++ [OStarted 1 1 9 sample_info] ++ ask 2 6 JStart ++ [OStarted 2 2 9 sample_info] ++
  [OSystem (SRuntime (RAnswer 1%positive)); OWorkerNew 4; OSystem (SWorker 4 Worker.WStart)] ++ ask 3 7 (JStop 1) ++
  [OSystem (SStop 3 (Ephemeral.ELock 3))] ++
  [ORuntimeFree; OCloseChild 10; OSystem (SStop 3 (Ephemeral.EReap 3 (Ok tt)))] ++
  [OSystem (SServer 1 (Ephemeral.ELock 10)); OCloseChild 11] ++
  (OSystem <$> [SServer 2 (Ephemeral.ELock 11); SServer 2 (Ephemeral.EReap 11 (Ok tt))]) ++
  [OCloseChild 12; ODrain [(7, 3%positive); (6, 2%positive)]] ++
  (OSystem <$> [SRuntime RDrainOne; SRuntime RDrainOne; SRuntime RDrainEnd; SRuntime (RAnswer 3%positive);
                SRuntime (RAnswer 2%positive); SServer 1 (Ephemeral.ELock 10); SServer 2 (Ephemeral.ELock 11); SWaited]).
Definition sample_owned_at (n : nat) : Owned :=
  default sample_owned (fst <$> exec sample_ostep sample_owned (take n ownership_story)).
Definition sample_owned_ls (n : nat) : list (oaction * list deed) :=
  default [] (snd <$> exec sample_ostep sample_owned (take n ownership_story)).

Lemma sample_owned_initial : owned_initial sample_runtime sample_owned.
Proof.
  split; [apply sample_system_initial|]. split; [|split; [done|]; split; [done|]; split; [by exists 1%positive|]].
  - unfold sample_owned. eapply (table_step_inv table_new (OpInsert (Runtime 1%positive)) _ table_new_inv).
    by eapply step_insert; [right|].
  - intros h e x Hl. assert (live (table sample_owned) = {[sample_runtime := (Runtime 1%positive, 0)]}) as Hlive by by vm_compute.
    rewrite Hlive in Hl. by apply lookup_singleton_Some in Hl as [_ [= <- _]].
Qed.

Lemma sample_owned_run n :
  run (owned_step (C := Rpc.SampleCode) Rpc.sample_encode_failure sample_runtime) sample_owned (sample_owned_ls n) (sample_owned_at n).
Proof.
  unfold sample_owned_ls, sample_owned_at.
  pose proof (exec_run sample_ostep oaction_ok sample_owned (take n ownership_story)) as He.
  assert (exec_ok sample_ostep oaction_ok sample_owned (take n ownership_story)) as Hok.
  { apply exec_ok_take. vm_compute; intuition (congruence || naive_solver). }
  destruct (exec _ _ _) as [[w ls]|]; simpl; [by apply He|constructor].
Qed.

(** ** Witnesses *)

Lemma handles_name_servers_witness :
  has_handle (sys (sample_owned_at 15)) 2%positive = true /\
  (forall h, fits 64 h -> get_ephemeral (table (sample_owned_at 15)) h = Done (Ok 2%positive) ->
     h = encode_handle KIND_EPHEMERAL 1 2) /\
  ((exists h, fits 64 h /\ get_ephemeral (table (sample_owned_at 17)) h = Done (Ok 2%positive)) \/
   Ephemeral 2%positive ∈ unclosed (sample_owned_at 17)).
Proof.
  destruct (handles_name_servers (C := Rpc.SampleCode) Rpc.sample_encode_failure sample_runtime sample_owned (sample_owned_ls 15)
    (sample_owned_at 15) sample_owned_initial (sample_owned_run 15)) as [H1 _].
  destruct (H1 (encode_handle KIND_EPHEMERAL 1 2) 2%positive) as (Hh & _ & Hu); [by vm_compute|by vm_compute|].
  split; [exact Hh|]. split; [exact Hu|].
  apply (handles_name_servers (C := Rpc.SampleCode) Rpc.sample_encode_failure sample_runtime sample_owned (sample_owned_ls 17)
    (sample_owned_at 17) sample_owned_initial (sample_owned_run 17)). vm_compute. reflexivity.
Defined.

Lemma nothing_is_leaked_witness :
  freeing (rt (sys (sample_owned_at 32))) = Freed /\
  (forall a w, servers (sys (sample_owned_at 32)) !! a = Some w ->
     Ephemeral.handle w = false /\ Ephemeral.child w <> Ephemeral.Alive) /\
  exists err, get_runtime (table (sample_owned_at 32)) sample_runtime = Done (Err err).
Proof.
  assert (freeing (rt (sys (sample_owned_at 32))) = Freed) as Hf by (vm_compute; reflexivity). split; [exact Hf|].
  destruct (nothing_is_leaked (C := Rpc.SampleCode) Rpc.sample_encode_failure sample_runtime sample_owned (sample_owned_ls 32)
    (sample_owned_at 32) [] (sample_owned_at 32) sample_owned_initial (sample_owned_run 32) Hf) as (H1 & _ & H3).
  - constructor.
  - split; [exact H1|exact H3].
Defined.
