(* ===== verification/Shutdown.v ===== *)
(** [kt_runtime_free] runs to its end ([lib.rs], [kt_runtime_free]; [runtime.rs], [free_runtime]).

    From every reachable [Ownership.Owned] whose runtime is open there are steps to the end: the
    children are taken out of the table and closed in turn, each server's [shutdown] being waited for
    behind whatever call of that server holds its mutex; then no server's handle is left, and the way
    on is that of [Teardown].  The lemmas go the way [kt_runtime_free] goes. *)

From S2P Require Import Prelude Abi KtError Panic Handle Queue Runtime.
From S2P Require Worker Streams Ephemeral Options Rpc Ffi.
From S2P Require Import System Teardown Progress Ownership.

#[local] Existing Instance Teardown.caller_eq_dec.

Section shutdown.
Context {Url Core Tuner F : Type} {C : Type} `{GrpcCode C} `{!Ffi.Externals Url Core Tuner F}.
Context (encode_failure : Rpc.RpcFailure -> list byte) (runtime : Z).
Context (o0 : Owned) (Hinitial : owned_initial runtime o0).

#[local] Notation ostep := (ostep encode_failure runtime).
#[local] Notation owned_step := (owned_step encode_failure runtime).
#[local] Notation inv := (owned_inv runtime (sys o0)).

Lemma system_starts : system_initial (sys o0).
Proof. by destruct Hinitial. Qed.
Lemma runtime_fits : fits 64 runtime.
Proof. by destruct Hinitial as (_ & _ & ? & _). Qed.

Lemma step_inv o a ds o' : inv o -> oaction_ok o a -> ostep o a = Some (o', ds) -> inv o'.
Proof.
  intros Hv Hok Hs.
  by destruct (owned_step_inv encode_failure runtime (sys o0) system_starts runtime_fits o (a, ds) o' Hv (conj Hok Hs)).
Qed.

(** ** Steps that answer nobody *)

(** From [o], steps to [o'] that deliver nothing, with every request pending as it was. *)
Definition silently (o o' : Owned) : Prop :=
  inv o' /\ pending (rt (sys o')) = pending (rt (sys o)) /\ freeing (rt (sys o')) = freeing (rt (sys o)) /\
  exists ls, run owned_step o ls o' /\ delivered (odeeds ls) = [].

Lemma odeeds_app k l : odeeds (k ++ l) = odeeds k ++ odeeds l.
Proof. apply bind_app. Qed.

Lemma silently_refl o : inv o -> silently o o.
Proof. intros Hv. split_and!; try done. exists []. split; [constructor|done]. Qed.

Lemma silently_trans o1 o2 o3 : silently o1 o2 -> silently o2 o3 -> silently o1 o3.
Proof.
  intros (_ & P1 & F1 & l1 & R1 & D1) (V2 & P2 & F2 & l2 & R2 & D2).
  split; [done|]. split; [congruence|]. split; [congruence|]. exists (l1 ++ l2).
  split; [by eapply run_app|]. by rewrite odeeds_app, delivered_app, D1, D2.
Qed.

Lemma silently_one o a ds o' :
  inv o -> oaction_ok o a -> ostep o a = Some (o', ds) -> delivered ds = [] ->
  pending (rt (sys o')) = pending (rt (sys o)) -> freeing (rt (sys o')) = freeing (rt (sys o)) -> silently o o'.
Proof.
  intros Hv Hok Hs Hd Hp Hf. split; [by eapply step_inv|]. split; [done|]. split; [done|].
  exists [(a, ds)]. split; [by apply run_one|]. unfold odeeds. cbn. by rewrite app_nil_r.
Qed.

(** A system's step of which the queue hears nothing. *)
Lemma silent_system o a ds s' :
  inv o -> saction_ok (sys o) a -> sstep (sys o) a = Some (s', ds) -> without_handle a = true ->
  revents (runtime_trace ds) = [] -> pending (rt s') = pending (rt (sys o)) -> freeing (rt s') = freeing (rt (sys o)) ->
  silently o (set_sys s' o).
Proof.
  intros Hv Hok Hs Hw Hq Hp Hf. apply (silently_one o (OSystem a) ds); try done.
  - cbn [Ownership.ostep]. rewrite Hw. unfold system_takes, on_sys. rewrite Hs. cbn [mbind option_bind].
    unfold discards. rewrite Hq. cbn. by rewrite app_nil_r.
  - unfold delivered. by rewrite Hq.
Qed.

(** ** A call's turn *)

(** Whose call it is does not matter for what a server does. *)
Lemma server_step_possible o a w ea w' evs :
  inv o -> servers (sys o) !! a = Some w -> Ephemeral.estep w ea = Some (w', evs) ->
  server_itself (sys o) w ea = true -> without_handle (SServer a ea) = true ->
  silently o (set_sys (set_servers (<[a := w']> (servers (sys o))) (sys o)) o).
Proof.
  intros Hv Ha He Hi Hw. apply (silent_system o (SServer a ea) [OfServer a (ea, evs)]); try done.
  cbn [sstep]. rewrite Ha. cbn [mbind option_bind]. rewrite Hi. unfold on_server. rewrite Ha. cbn [mbind option_bind].
  by rewrite He.
Qed.

(** One server is changed, and neither the JVM nor [kt_runtime_free] hears of it. *)
Definition changes (o : Owned) (a : arc) (P : Ephemeral.World -> Prop) : Prop :=
  exists o' w', silently o o' /\ stage o' = stage o /\ servers (sys o') !! a = Some w' /\ P w'.

Lemma changes_trans o a (P Q : Ephemeral.World -> Prop) :
  changes o a P ->
  (forall o' w', inv o' -> servers (sys o') !! a = Some w' -> P w' -> changes o' a Q) -> changes o a Q.
Proof.
  intros (o1 & w1 & Hs & Hst & Ha & Hp) Hn. destruct (Hn o1 w1 (proj1 Hs) Ha Hp) as (o2 & w2 & Hs2 & Hst2 & Ha2 & Hq).
  exists o2, w2. split; [by eapply silently_trans|]. split; [congruence|done].
Qed.

(** The mutex of a server is free, or comes free in a step; who waits for it still does. *)
Lemma unlock o a w :
  inv o -> servers (sys o) !! a = Some w ->
  changes o a (fun w' => Ephemeral.lock w' = None /\
    forall x k, Ephemeral.calls w !! x = Some (k, Ephemeral.Waiting) -> Ephemeral.calls w' !! x = Some (k, Ephemeral.Waiting)).
Proof.
  intros Hv Ha. pose proof (oi_sys _ _ _ Hv) as Hs.
  destruct (Ephemeral.lock w) as [t|] eqn:Hl; [|exists o, w; split; [by apply silently_refl|done]].
  destruct (proj1 (Ephemeral.si_lock w (reachable_server _ system_starts _ a w Hs Ha) t) Hl) as [k Hc].
  destruct (server_unlocks _ system_starts (sys o) a w t Hs Ha Hl) as (act & ds & s' & w' & [Hok Hst] & Hact & Htr & Hcm & Ha' & Hl' & Ho).
  exists (set_sys s' o), w'. split; [|split; [done|split; [done|split; [done|]]]].
  - apply (silent_system o act ds); [done|done|done|by destruct Hact as [-> |[-> | ->]]|done|apply (cm_pending _ _ _ Hcm)|apply (cm_freeing _ _ _ Hcm)].
  - intros x j Hx. rewrite Ho; [done|]. intros ->. congruence.
Qed.

(** *** [block_on(server.shutdown())] *)

Definition not_waiting (tid : positive) (w : Ephemeral.World) : Prop :=
  forall ph, Ephemeral.calls w !! tid <> Some (Ephemeral.ByRuntimeFree, ph).

Lemma reaped_in_turn o a w tid :
  inv o -> servers (sys o) !! a = Some w ->
  Ephemeral.calls w !! tid = Some (Ephemeral.ByRuntimeFree, Ephemeral.Reaping) -> changes o a (not_waiting tid).
Proof.
  intros Hv Ha Hc. destruct (reap_possible w tid _ Hc) as (w' & evs & He & _ & _ & Hno & _).
  exists (set_sys (set_servers (<[a := w']> (servers (sys o))) (sys o)) o), w'.
  split; [|split; [done|split; [apply lookup_insert_eq|done]]].
  eapply server_step_possible; try done. cbn. by rewrite Hc.
Qed.

Lemma locked_in_turn o a w tid :
  inv o -> servers (sys o) !! a = Some w -> Ephemeral.lock w = None ->
  Ephemeral.calls w !! tid = Some (Ephemeral.ByRuntimeFree, Ephemeral.Waiting) -> changes o a (not_waiting tid).
Proof.
  intros Hv Ha Hl Hc.
  assert (Hstep : forall w' evs, Ephemeral.estep w (Ephemeral.ELock tid) = Some (w', evs) ->
    changes o a (fun x => x = w')).
  { intros w' evs He. exists (set_sys (set_servers (<[a := w']> (servers (sys o))) (sys o)) o), w'.
    split; [|split; [done|split; [apply lookup_insert_eq|done]]].
    eapply server_step_possible; try done. cbn. by rewrite Hc. }
  cbn [Ephemeral.estep] in Hstep. rewrite Hc in Hstep. cbn [mbind option_bind] in Hstep. rewrite decide_True in Hstep by done.
  destruct (Ephemeral.server w).
  - eapply changes_trans; [by eapply Hstep|]. intros o' w' Hv' Ha' ->. apply (reaped_in_turn o' a _ tid Hv' Ha').
    apply lookup_insert_eq.
  - cbn [Ephemeral.return_call] in Hstep. eapply changes_trans; [by eapply Hstep|]. intros o' w' Hv' Ha' ->.
    eexists o', _. split; [by apply silently_refl|]. split; [done|]. split; [exact Ha'|].
    intros ph. cbn. by rewrite lookup_insert_eq.
Qed.

Lemma wait_over o a w tid : inv o -> servers (sys o) !! a = Some w -> changes o a (not_waiting tid).
Proof.
  intros Hv Ha. destruct (Ephemeral.calls w !! tid) as [[[] ph]|] eqn:Hc.
  all: try by (exists o, w; split; [by apply silently_refl|]; split_and!; try done; intros ph'; rewrite Hc; congruence).
  destruct ph; [|by eapply reaped_in_turn].
  eapply changes_trans; [by apply (unlock o a w)|]. intros o' w' Hv' Ha' [Hl Hw]. by eapply locked_in_turn, Hw.
Qed.

(** The wait of [kt_runtime_free]'s loop ends. *)
Lemma wait_ends o current :
  inv o -> exists o', silently o o' /\ stage o' = stage o /\ waited_for current (sys o') = true.
Proof.
  intros Hv. assert (exists o', silently o o' /\ stage o' = stage o /\ sys o' = sys o) as Hstay
    by (exists o; split; [by apply silently_refl|done]).
  destruct current as [[a tid]|]; cbn; [|destruct Hstay as (o' & ? & ? & ?); by exists o'].
  destruct (servers (sys o) !! a) as [w|] eqn:Ha.
  - destruct (wait_over o a w tid Hv Ha) as (o' & w' & Hq & Hst & Ha' & Hno). exists o'. split; [done|]. split; [done|].
    rewrite Ha'. destruct (Ephemeral.calls w' !! tid) as [[[] ph]|] eqn:Hc; try done. by destruct (Hno ph).
  - destruct Hstay as (o' & ? & ? & He). exists o'. by rewrite He, Ha.
Qed.

(** ** The loop over the children *)

Lemma close_possible o child rest current :
  inv o -> stage o = Closing (child :: rest) current -> waited_for current (sys o) = true ->
  exists tid o' ds cur, close_child tid o = Some (o', ds) /\ stage o' = Closing rest cur /\
    rt (sys o') = rt (sys o) /\ runtime_trace ds = [].
Proof.
  intros [V1 V2 V3 V4] Hst Hw. destruct (unused_exists (sys o)) as [tid Hu]. exists tid.
  unfold close_child. rewrite Hst, Hw. unfold unclosed in V3. rewrite Hst in V3.
  destruct child as [a|a|a|a|a]; try (by eexists _, _, None).
  - destruct (ac_closing _ _ _ _ _ V3 a ltac:(by left)) as [n Ha].
    unfold on_sys. cbn [sys set_stage sstep]. rewrite Ha. cbn [mbind option_bind by_itself].
    unfold on_worker. rewrite Ha. cbn [mbind option_bind unposted pump_of]. rewrite decide_True by done.
    cbn [Worker.wstep]. unfold Worker.free. by eexists _, _, None.
  - pose proof (ac_server _ _ _ _ _ V3 a) as Hs. rewrite count_cons, decide_True in Hs by done.
    destruct (has_handle (sys o) a) eqn:Hh; [|lia]. apply has_handle_true in Hh as (w & Ha & Hh).
    unfold on_sys. cbn [sys set_stage sstep]. rewrite Ha. cbn [mbind option_bind server_itself].
    rewrite bool_decide_eq_true_2 by done. unfold on_server. rewrite Ha. cbn [mbind option_bind Ephemeral.estep].
    destruct Hu as (_ & _ & Hu). rewrite decide_True by (split; [done|by apply (Hu a)]). by eexists _, _, _.
Qed.

Lemma children_closed children o current :
  inv o -> stage o = Closing children current ->
  exists o' cur, silently o o' /\ stage o' = Closing [] cur /\ waited_for cur (sys o') = true.
Proof.
  revert o current. induction children as [|child rest IH]; intros o current Hv Hst.
  - destruct (wait_ends o current Hv) as (o' & Hq & Hs & Hw). exists o', current. split; [done|]. split; [congruence|done].
  - destruct (wait_ends o current Hv) as (o1 & Hq1 & Hs1 & Hw1). rewrite Hst in Hs1.
    destruct (close_possible o1 child rest current (proj1 Hq1) Hs1 Hw1) as (tid & o2 & ds & cur & Hc & Hs2 & Hrt & Hds).
    assert (silently o1 o2) as Hq2.
    { eapply (silently_one o1 (OCloseChild tid) ds o2 (proj1 Hq1) I Hc); rewrite ?Hrt; try done.
      unfold delivered. by rewrite Hds. }
    destruct (IH o2 cur (proj1 Hq2) Hs2) as (o3 & cur' & Hq3 & Hs3 & Hw3). exists o3, cur'. split; [|done].
    by eapply silently_trans, silently_trans.
Qed.

(** [kt_runtime_free] takes the children out of the table. *)
Lemma children_taken o :
  inv o -> freeing (rt (sys o)) = Open ->
  exists o' children current, silently o o' /\ stage o' = Closing children current.
Proof.
  intros Hv Hf. pose proof (oi_stage _ _ _ Hv) as Hst. unfold stage_ok in Hst. destruct (stage o) as [|cs cur|] eqn:Hs.
  - destruct Hst as [_ [a Ha]]. destruct (oi_table _ _ _ Hv) as [Ht _].
    destruct (remove_runtime_spec (table o) runtime a Ht Ha) as (t & cs & Hr & _).
    exists (set_stage (Closing cs None) (set_table t o)), cs, None. split; [|done].
    apply (silently_one o ORuntimeFree []); try done. cbn [Ownership.ostep]. unfold runtime_free. by rewrite Hr, Hs.
  - exists o, cs, cur. split; [by apply silently_refl|done].
  - by destruct Hst.
Qed.

(** ** The drain *)

(** The steps that end a runtime, once no handle of a server is left. *)
Lemma late_run s ls s' o :
  run system_step s ls s' -> all_late ls -> inv o -> sys o = s -> no_servers o ->
  exists ols o', run owned_step o ols o' /\ sys o' = s' /\ inv o' /\ no_servers o' /\
    runtime_trace (odeeds ols) = runtime_trace (sdeeds ls).
Proof.
  intros Hr. revert o. induction Hr as [s|s ls s1 [a ds] s2 _ IH Hs]; intros o Hl Hv He Hno.
  - exists [], o. split; [constructor|done].
  - apply Forall_app in Hl as [Hl Ha]. apply Forall_cons in Ha as [Ha _]. cbn in Ha.
    destruct (IH o Hl Hv He Hno) as (ols & o1 & R1 & <- & Hv1 & Hno1 & Htr).
    assert (without_handle a = true) as Hw by (destruct a as [| |[]| | | | | | | | |? []|]; done).
    pose proof Hs as [Hok E]. cbn [fst snd] in Hok, E.
    destruct (system_takes_inv runtime (sys o0) system_starts o1 a s2 ds Hv1 Hs
      (sstep_keeps _ _ _ _ E Hw)) as (o2 & ds' & E2 & [D1 _ _ _ D5 D6 D7]).
    exists (ols ++ [(OSystem a, ds ++ ds')]), o2.
    assert (no_servers (set_sys s2 o1)) as Hno2 by exact Hno1.
    split; [eapply run_snoc; [exact R1|]; split; [exact Hok|]; cbn [fst snd Ownership.ostep]; by rewrite Hw|].
    split; [by rewrite D7|]. split; [done|]. split.
    + intros h b x Hx. apply (Hno1 h b x). by eapply (lookup_weaken (live (table o2))).
    + rewrite odeeds_app, sdeeds_app, !runtime_trace_app, Htr, sdeeds_one. f_equal. unfold odeeds. cbn.
      by rewrite app_nil_r, runtime_trace_app, D5, app_nil_r.
Qed.

(** Everything is closed: the drain, and what is left of the runtime. *)
Lemma drained o current :
  inv o -> freeing (rt (sys o)) = Open -> stage o = Closing [] current -> waited_for current (sys o) = true ->
  exists ols o', run owned_step o ols o' /\ freeing (rt (sys o')) = Freed /\ tasks (rt (sys o')) = ∅ /\
    delivered (odeeds ols) = shutdown_result <$> (map_to_list (pending (rt (sys o)))).*1.
Proof.
  intros Hv Hf Hst Hw. pose proof (initial_handle _ _ Hinitial) as Hz.
  assert (no_servers o) as Hno.
  { intros h a x Hl. by destruct (closed_table runtime _ o h _ x Hz Hv ltac:(by rewrite Hst) Hl). }
  assert (forall a w, servers (sys o) !! a = Some w -> Ephemeral.handle w = false) as Hh.
  { intros a w Ha. destruct (Ephemeral.handle w) eqn:Hh; [exfalso|done].
    pose proof (ac_server _ _ _ _ _ (oi_accounts _ _ _ Hv) a) as Hs. unfold unclosed, has_handle in Hs.
    rewrite Hst, Ha, Hh, mcount_zero in Hs; [done|]. intros h [e x] Hl He. cbn in He. subst e. by apply (Hno h a x). }
  destruct (teardown_steps (sys o0) system_starts (sys o) (oi_sys _ _ _ Hv) Hf Hh)
    as (order & ds & ls & s' & R & Hl & Hf' & Ht' & Hd & _).
  apply (run_split _ _ [_]) in R as (s1 & R1 & R2).
  destruct (run_snoc_inv _ _ [] _ _ R1) as (x & Hx & [Hok E]). apply run_nil_inv in Hx as ->. cbn [fst snd] in Hok, E.
  set (o1 := set_sys s1 (set_stage Freeing o)).
  assert (owned_step o (ODrain order, ds) o1) as Hstep.
  { split; [exact I|]. cbn [fst snd Ownership.ostep]. unfold drain. rewrite Hst, Hw. unfold on_sys. cbn [sys set_stage].
    by rewrite E. }
  assert (inv o1) as Hv1 by (by apply (step_inv o (ODrain order) ds); destruct Hstep).
  destruct (late_run s1 ls s' o1 R2 Hl Hv1 eq_refl Hno) as (ols & o2 & R & <- & _ & _ & Htr).
  exists ([(ODrain order, ds)] ++ ols), o2. split; [eapply run_app; [by apply run_one|exact R]|].
  split; [done|]. split; [done|]. rewrite <- Hd. change ((SRuntime (RDrain order), ds) :: ls) with ([(SRuntime (RDrain order), ds)] ++ ls).
  rewrite odeeds_app, sdeeds_app. unfold delivered. rewrite !runtime_trace_app, Htr. unfold odeeds, sdeeds. cbn.
  by rewrite !app_nil_r.
Qed.

Lemma free_completes o :
  inv o -> freeing (rt (sys o)) = Open ->
  exists ols o', run owned_step o ols o' /\ freeing (rt (sys o')) = Freed /\ tasks (rt (sys o')) = ∅ /\
    delivered (odeeds ols) = shutdown_result <$> (map_to_list (pending (rt (sys o)))).*1.
Proof.
  intros Hv Hf. destruct (children_taken o Hv Hf) as (o1 & cs & cur & Hq1 & Hs1).
  destruct (children_closed cs o1 cur (proj1 Hq1) Hs1) as (o2 & cur' & Hq2 & Hs2 & Hw2).
  destruct (silently_trans _ _ _ Hq1 Hq2) as (Hv2 & Hp & Hf2 & ls2 & R2 & D2). rewrite Hf in Hf2.
  destruct (drained o2 cur' Hv2 Hf2 Hs2 Hw2) as (ls3 & o3 & R3 & Hf3 & Ht3 & D3).
  exists (ls2 ++ ls3), o3. split; [by eapply run_app|]. split; [done|]. split; [done|].
  by rewrite odeeds_app, delivered_app, D2, D3, Hp.
Qed.
End shutdown.

(** ** Properties *)

Section completes.
Context {Url Core Tuner F : Type} {C : Type} `{GrpcCode C} `{!Ffi.Externals Url Core Tuner F}.
Context (encode_failure : Rpc.RpcFailure -> list byte) (runtime : Z).

(** C6 [kt_runtime_free] can always be brought to its end.  From every reachable state of an open
    runtime, whoever holds handles to its workers and servers, whatever completions nobody has read,
    wherever requests stand and however many of the children are closed already, there are steps to
    the state in which [free_runtime] has returned: the table's children are closed in turn, every
    request still pending, and no other, is answered with the shutdown completion, no task is left, and
    no server's child runs. *)
Theorem runtime_free_completes o0 ls o :
  owned_initial runtime o0 -> run (owned_step encode_failure runtime) o0 ls o -> freeing (rt (sys o)) = Open ->
  exists ls' o', run (owned_step encode_failure runtime) o ls' o' /\ freeing (rt (sys o')) = Freed /\
    tasks (rt (sys o')) = ∅ /\
    delivered (odeeds ls') = shutdown_result <$> (map_to_list (pending (rt (sys o)))).*1 /\
    forall a w, servers (sys o') !! a = Some w -> Ephemeral.child w <> Ephemeral.Alive.
Proof.
  intros H1 Hr Hf. destruct (run_owned encode_failure runtime o0 ls o H1 Hr) as [Hv _].
  destruct (free_completes encode_failure runtime o0 H1 o Hv Hf) as (ls' & o' & R & Hf' & Ht & Hd).
  exists ls', o'. split_and!; try done. intros a w Ha.
  destruct (run_owned encode_failure runtime o0 _ o' H1 (run_app _ _ _ _ _ _ Hr R)) as [_ (k & Rk & _)].
  by apply (sy_freed _ _ _ (run_system_inv _ _ _ (proj1 H1) Rk) a w).
Qed.
End completes.

(** ** Witness: two servers' completions unread, one of them being stopped by a request that holds its
    mutex while [kt_runtime_free] waits for it *)

#[local] Existing Instances Ffi.sample_externals Rpc.sample_grpc_code.

Lemma runtime_free_completes_witness :
  waited_for (Some (1%positive, 10%positive)) (sys (sample_owned_at 17)) = false /\
  has_handle (sys (sample_owned_at 17)) 2%positive = true /\
  exists ls o, run (owned_step (C := Rpc.SampleCode) Rpc.sample_encode_failure sample_runtime) (sample_owned_at 17) ls o /\
    freeing (rt (sys o)) = Freed /\ length (delivered (odeeds ls)) = 2%nat.
Proof.
  split; [vm_compute; reflexivity|]. split; [vm_compute; reflexivity|].
  destruct (runtime_free_completes (C := Rpc.SampleCode) Rpc.sample_encode_failure sample_runtime sample_owned
    (sample_owned_ls 17) (sample_owned_at 17) sample_owned_initial (sample_owned_run 17)) as (ls & o & R & Hf & _ & Hd & _).
  - vm_compute. reflexivity.
  - exists ls, o. split; [exact R|]. split; [exact Hf|]. rewrite Hd. vm_compute. reflexivity.
Defined.
